(* ===== verification/_CoqProject ===== *)
-Q . S2P
Prelude.v
Text.v
Utf8.v
Keys.v
Token.v
LruCache.v
Provider.v
PhantomProxy.v
Tenant.v
Ctl.v
Credentials.v
Sessions.v
AuditLog.v
Jails.v
Workspaces.v
Snapshots.v
Idle.v
EgressProxy.v
Sys.v
Netlink.v
Order.v
Config.v
Mount.v
Isolation.v
Child.v
Cgroup.v
Run.v
Fs.v
SnapshotStore.v
Pool.v
PoolGc.v
Flavors.v
Git.v
Monitor.v
ExecRoutes.v
SnapshotRoutes.v
WorkspaceOps.v
Gateway.v
Pipe.v
StreamRoutes.v
ForkRoutes.v
Sql.v
PgTokens.v
PgLedger.v
PgStores.v
Server.v
Sweepers.v
EndToEnd.v
Lifecycle.v
Bench.v
