(* ===== verification/Prelude.v ===== *)
(** * agentjail: a verification development

    agentjail runs untrusted programs in Linux jails and lets them call
    third-party APIs without ever holding a real API key.  Its Rust code (under
    [src/crates/]) has four parts that this library models:

    - [agentjail-phantom], the credential proxy: a jail holds a random "phantom"
      token; the proxy looks the token up, checks service and path scope, replaces
      the token by the tenant's real key and forwards the request upstream;
    - [agentjail-ctl], the multi-tenant control plane: API-key authentication,
      credentials, sessions (bundles of phantom tokens), the audit log, the ledger
      of jail runs, persistent workspaces, snapshots, and two background sweepers
      (snapshot collection, idle pausing);
    - [agentjail], the jail engine: namespaces, mounts, cgroups, seccomp, landlock,
      capabilities and the fork/exec protocol that starts a command in a jail, the
      netlink requests that give it a network, and the allow-list proxy that is its
      only way out;
    - [agentjail-server], the process that puts them together: configuration from the
      environment, the stores in memory or in Postgres, the listeners, the host-name
      gateway, start and shutdown.

    ** How the files correspond to the code

    - [Prelude], [Text]: what the code uses of the language and of the Rust
      standard library: [Result] with panics ([outcome]), poisonable locks
      ([Lock]), byte strings with [trim], [split_once], slicing, lossy UTF-8,
      integer parsing and wrap-around, hash maps with an arbitrary iteration order
      ([HashIter]), stable sorting, paging, ring buffers.
    - [Keys] ([keys.rs]), [Token] ([token.rs]: tokens, globs, scopes, the
      [TokenStore] trait as a class, its laws, the in-memory store), [LruCache]
      ([token.rs]: [LruTokenCache], also split at its lock acquisitions),
      [Provider] ([provider.rs], [providers/*.rs]), [PhantomProxy] ([proxy.rs]:
      the whole request handler).
    - [Tenant] ([tenant.rs], [auth.rs]), [Ctl] ([error.rs], the error responses of
      [routes/mod.rs]), [Credentials] ([credential.rs], [routes/credentials.rs]),
      [Sessions] ([session.rs], [routes/sessions.rs]), [AuditLog] ([audit.rs],
      [routes/audit.rs]), [Jails] ([jails.rs], [routes/jails.rs]), [Workspaces]
      ([workspaces.rs], [workspaces/slug.rs], the store-only handlers of
      [routes/workspaces.rs], the option conversions of [routes/exec.rs] and
      [routes/workspaces_exec.rs]), [Snapshots] ([snapshots.rs]), [Idle]
      ([workspaces/idle.rs]).
    - [EgressProxy] (the engine's [proxy.rs]).
    - [Sys]: programs that call the kernel, as a free monad over one type of system
      calls ([syscall], answered by a [ret]), the engine's errors ([error.rs]), and
      a weakest-precondition calculus [wp] that is sound for every kernel; [Order]:
      rules for statements of the form "this call happens only after those".
    - [Netlink] ([netlink.rs], [veth.rs]), [Config] ([config.rs], [seccomp.rs]),
      [Mount] ([mount.rs]), [Isolation] ([namespace.rs], [landlock.rs], [gpu.rs]),
      [Child] ([exec.rs]: everything between fork and execve), [Cgroup]
      ([cgroup.rs]), [Run] ([run.rs], [run_internal.rs]: spawning, waiting,
      dropping; parent and child also as two processes that take turns).
    - [Fs]: the operating system's file system as the snapshot code sees it (names,
      hard links, symbolic links, path resolution), in which an oracle decides what
      fails and how directories are ordered; it models no code of the repository.
      [SnapshotStore] ([snapshot.rs], [fork.rs], [Jail::live_fork] of [run.rs]) has
      the programs and the theorems about full snapshots and forks, [Pool] the ones
      about the content-addressed object pool, [PoolGc] the ones about its
      collector.  [Pipe] ([pipe.rs], [events.rs], [wait_with_events] of [run.rs]) has
      a jail's output line by line and the events of a watched run.
    - The handlers that run jails, on the engine's programs and a shared state:
      [Flavors] ([flavors.rs]), [Git] ([routes/exec_git.rs], [routes/clone_jail.rs]),
      [Monitor] ([AppState], [exec.rs], [sampler.rs], [routes/exec_monitor.rs]),
      [ExecRoutes] ([routes/exec.rs]), [SnapshotRoutes] ([routes/snapshots.rs]),
      [WorkspaceOps] (create, fork and exec of [routes/workspaces.rs] and
      [routes/workspaces_exec.rs]), [StreamRoutes] ([routes/stream.rs]), [ForkRoutes]
      ([routes/fork.rs]), [Sweepers] (the timer tasks of [workspaces/idle.rs] and
      [snapshots.rs] on the host).
    - Postgres: [Sql] (the schema of [migrations/], statements, faults, [LIKE]),
      [PgTokens] ([db/sessions_pg.rs], [db/tokens_pg.rs]), [PgLedger]
      ([db/jails_pg.rs], [db/audit_pg.rs]), [PgStores] ([db/credentials_pg.rs],
      [db/snapshots_pg.rs], [db/workspaces_pg.rs]).
    - The server: [Gateway] ([gateway.rs]), [Server] ([main.rs]'s configuration,
      [lib.rs]'s wiring and route table, [routes/settings.rs], [routes/health.rs]),
      [Lifecycle] ([main] itself, the phantom proxy's builder and router, the accept
      loop and tunnel of the allow-list proxy).
    - [Bench] ([agentjail-bench]: [metrics.rs], [runner.rs], parts of [env.rs] and
      [fixtures.rs]), the statistics of the benchmark harness in binary64 arithmetic.
    - [Utf8] and [EndToEnd] model no code of their own: the first has the facts about
      lossy decoding that [Pipe] uses, the second proves that a session's credentials
      work from the control plane through the proxy.

    State is passed explicitly: an operation takes the store and returns the new
    one, also on its error paths; a panic ([Panic], or [None] where the comment
    says so) keeps the part of the update made before it.  Clock readings and
    random bytes are arguments.  Third-party crates are classes that state only
    their documented behaviour, each with a concrete instance: [HexCrate] and
    [HexEncode] (hex), [HttpCrate] (header maps), [CtEq] (constant-time equality);
    the HTTP client, the resolver, [TcpStream::connect], the arithmetic of the
    [time] crate and the engine's snapshot call are function parameters; the
    seccomp compiler is a class ([Seccompiler]), so are [Json], [Blake3], [Serde]
    (serialisation), [TimeCrates], [PgLower] (the database's lower-casing) and [Sse]
    (axum's event builder); the kernel is a function from the calls so far to an
    answer, and so is what else an awaiting handler sees (which event came first,
    whether the client is still there).  Effects
    on the host (requests sent, directories wiped or removed, connections tried)
    are returned in lists, so that theorems can speak about them.

    ** What the theorems show

    - Proxy: only requests with a live token, matching service, allowed path and
      the token's own tenant's key leave the host, exactly one per request, with
      the client's credentials replaced; dead tokens get 401; every answer is
      audited once.  Redirects that the HTTP client follows by itself are not
      requests of the proxy and are not counted.
    - Tokens: parsing and printing round-trip and are exact; every lawful store
      resolves a token exactly while it is issued, unrevoked and unexpired; the
      cache refines the store it wraps except that it keeps serving expired tokens
      and has a revoke race and a growing queue, which are proved as such.
    - Control plane: authentication grants exactly the configured scopes; sessions
      issue tokens for the caller's tenant only, their environment works, deleting
      one kills exactly its tokens; tenants cannot see or influence each other's
      sessions, credentials, ledger rows, audit rows or workspaces; metadata agrees
      with the keys; the ring buffers refine unbounded logs; a workspace row's life
      and the list, get, patch and delete routes are characterised exactly.
    - Sweepers: on the host the collector leaves exactly what its policy keeps among
      the 500 newest rows, by the clock it read, and removes exactly the directories
      of the rows that went; the idle reaper wipes only directories that can be
      restored, and pausing a workspace and resuming it gives back its regular files
      and directories while the snapshot is kept (without a pool).
    - Runs over HTTP, on every kernel: an answered request has recorded exactly one
      ledger row per jail and closed it, with bounded limits, for the caller's tenant
      (a stream with the very output of the jail it spawned); every process a request
      starts lies in a spawn of a jail within the limits; a workspace runs one command
      at a time, after its snapshot was restored if it was paused; a snapshot route
      works on the directory of the row it names; a fork closes every row it opened; a
      stream whose client leaves does not, which is proved too.  Git is only ever run
      with validated arguments.  Lines are delivered exactly up to the limit, decoded
      lossily.
    - Postgres: on a database that answers, the stores refine the same abstract stores
      as the in-memory ones, with two stated differences for the ledger; after a
      restart the keys are what they were but for deleted ones that the environment
      sets again.  The server as configured by [main] issues tokens
      that its proxy never accepts when a database is set, which is proved too.
    - Server: only the two public routes need no key; the gateway forwards only to
      what a live workspace declares; a session's variables lead to its service with
      the tenant's key, in scope, until it expires or is deleted; start-up succeeds
      under exactly stated conditions and serves last; shutdown always ends, after
      every listener.
    - Benchmarks: the percentiles computed with rounded arithmetic are the nearest-rank
      percentiles, and a run counts every iteration once.
    - Engine, for every kernel: a command starts only after all configured
      confinement steps were taken in order; the jail's root exposes only the listed
      host paths with the right flags; limits are in place before the child is
      released and equal the configured ones; a failed spawn reaps its child; a
      process group is signalled only on timeout; freezing ends; netlink requests
      decode to what was meant and leak no descriptor; the seccomp filters deny
      exactly the calls of a reference table, the README's among them.  Two configurations never start anything, which
      is proved too: user namespaces (parent and child wait for each other) and
      landlock (enforced before the root switch).
    - Snapshots, for every choice of failing calls and directory orders: a snapshot
      that was taken and restored gives back exactly the captured files; taking one
      ends unless it meets a named pipe; the object pool keeps every blob under the digest of its contents and
      its collector removes exactly what no manifest refers to.  Restored files are
      names of the pool's own blobs, and a jail whose freeze timed out is never
      thawed, which is proved too.
    - The allow-list proxy connects only to publicly routable addresses of allowed
      hosts; its address filter equals a list of CIDR blocks.

    ** Bounds and fuel

    Fuel is used for [trim], lossy decoding, UTF-8 validation and white-space
    splitting only, always the length of the string, of which every round takes at
    least one byte; parsing netlink attributes takes as much fuel as bytes.  The
    freezer loop has [FREEZE_ROUNDS] = 36 rounds: the back-off sleeps of 35 rounds
    exceed its 50 ms deadline ([freeze_terminates]).  Directory walks take as fuel a
    bound on the depth of the tree ([create_returns], without named pipes), the hashing loop one more than
    the length of the file; running out is [Halt], which no theorem counts as a
    result.  Loops that wait for events ([drain], [ticks], [wait_loop],
    [stream_loop], [nap], [join_loop]) have no bound in the code: their fuel counts
    wake-ups, the theorems hold for every amount, and running out is again [Halt], the
    handler that has not answered yet; [read_lines] takes one call per byte and one
    more, which is proved to suffice.  64-bit counters keep their wrap-around ([u64], [i64_wrap]);
    the ledger theorem assumes fewer than 2^63 started runs, below which no id
    repeats.  Listings keep the code's page limit of 500.
    The percentile theorem covers up to [MAX_SAMPLES] = 2000 samples, ten times the
    default of a run: up to there every rounded index is compared with the exact one
    by evaluation.

    ** Not modelled

    The sockets under axum, hyper and tokio, the extraction of JSON and query
    parameters from requests, request-body limits, CORS and tracing: library code that
    the sources configure.  The signal handlers (their arrival is a step of
    [Lifecycle]) and the pidfd fast path of waiting for a child.  The scenarios
    of the benchmarks, which time calls of the engine, and their command line.  The TypeScript and Python clients, the web
    console and the scripts, which are not Rust. *)

From Stdlib Require Export Ascii ZArith.
From stdpp Require Export sorting numbers strings gmap fin_maps list base.
Export list_basics list_relations list_monad list_misc list_tactics.

#[global] Set Default Goal Selector "!".

(** ** Outcomes of fallible Rust code

    [Ok]/[Err] are [Result::Ok]/[Result::Err]; [Panic] is an unwinding panic
    (slice index off a character boundary, overflowing time arithmetic). *)
Inductive outcome (E A : Type) : Type :=
| Ok (a : A)
| Err (e : E)
| Panic.
Arguments Ok {E A} a.
Arguments Err {E A} e.
Arguments Panic {E A}.

Definition obind {E A B} (m : outcome E A) (f : A → outcome E B) : outcome E B :=
  match m with Ok a => f a | Err e => Err e | Panic => Panic end.

Definition omap_err {E F A} (f : E → F) (m : outcome E A) : outcome F A :=
  match m with Ok a => Ok a | Err e => Err (f e) | Panic => Panic end.

Definition ok_or {E A} (o : option A) (e : E) : outcome E A :=
  match o with Some a => Ok a | None => Err e end.

Declare Scope rust_scope.
Delimit Scope rust_scope with rust.
Notation "'let?' x ':=' m 'in' k" := (obind m (λ x, k))
  (at level 10, x binder, m at level 100, k at level 200) : rust_scope.
Notation "'let?' ' p ':=' m 'in' k" := (obind m (λ p, k))
  (at level 10, p strict pattern, m at level 100, k at level 200) : rust_scope.

Definition is_ok {E A} (m : outcome E A) : bool :=
  match m with Ok _ => true | _ => false end.

(** ** Locks

    [std::sync::RwLock]/[Mutex]: a panic while the write guard is held poisons
    the lock.  [read]/[write] return [Err] on a poisoned lock. *)
Record Lock (A : Type) := MkLock { poisoned : bool; inner : A }.
Arguments MkLock {A}.
Arguments poisoned {A}.
Arguments inner {A}.

Definition new_lock {A} (a : A) : Lock A := MkLock false a.

(** [lock.read().ok()] *)
Definition lock_read {A} (l : Lock A) : option A :=
  if poisoned l then None else Some (inner l).

(** [if let Ok(mut g) = lock.write() { f(&mut g) }] with an [f] that cannot panic *)
Definition lock_write {A} (f : A → A) (l : Lock A) : Lock A :=
  if poisoned l then l else MkLock false (f (inner l)).

(** ** Strings

    A Rust [str] is its UTF-8 byte sequence; [string] is a sequence of bytes. *)
Definition str_len (s : string) : nat := String.length s.

Fixpoint starts_with (p s : string) : bool :=
  match p, s with
  | EmptyString, _ => true
  | String a p', String b s' => if Ascii.eqb a b then starts_with p' s' else false
  | String _ _, EmptyString => false
  end.

Fixpoint str_drop (n : nat) (s : string) : string :=
  match n, s with
  | O, _ => s
  | S n', String _ s' => str_drop n' s'
  | S _, EmptyString => EmptyString
  end.

Fixpoint str_take (n : nat) (s : string) : string :=
  match n, s with
  | O, _ => EmptyString
  | S n', String a s' => String a (str_take n' s')
  | S _, EmptyString => EmptyString
  end.

(** [s.strip_prefix(p)] *)
Definition strip_prefix (p s : string) : option string :=
  if starts_with p s then Some (str_drop (str_len p) s) else None.

Definition str_rev (s : string) : string := String.rev s.

(** [s.strip_suffix(p)] *)
Definition strip_suffix (p s : string) : option string :=
  str_rev <$> strip_prefix (str_rev p) (str_rev s).

(** [s.ends_with(p)] *)
Definition ends_with (p s : string) : bool := starts_with (str_rev p) (str_rev s).

(** [s.find(c)] for a one-byte [c]: index of its first occurrence. *)
Fixpoint str_find (c : ascii) (s : string) : option nat :=
  match s with
  | EmptyString => None
  | String a s' => if Ascii.eqb a c then Some 0 else S <$> str_find c s'
  end.

(** [s.split_once(c)] *)
Definition split_once (c : ascii) (s : string) : option (string * string) :=
  i ← str_find c s; Some (str_take i s, str_drop (S i) s).

(** [s.contains(n)] *)
Fixpoint str_contains (n s : string) : bool :=
  starts_with n s ||
  match s with EmptyString => false | String _ s' => str_contains n s' end.

Definition str_is_empty (s : string) : bool :=
  match s with EmptyString => true | _ => false end.

Definition byte_val (a : ascii) : Z := Z.of_N (N_of_ascii a).
Definition byte_of (z : Z) : ascii := ascii_of_N (Z.to_N z).

(** UTF-8 encodings of the characters with the [White_Space] property. *)
Definition ws_bytes (l : list Z) : string := String.string_of_list_ascii (byte_of <$> l).
Definition white_space : list string :=
  (ws_bytes <$> [[9]; [10]; [11]; [12]; [13]; [32]; [194; 133]; [194; 160];
                 [225; 154; 128];
                 [226; 128; 128]; [226; 128; 129]; [226; 128; 130]; [226; 128; 131];
                 [226; 128; 132]; [226; 128; 133]; [226; 128; 134]; [226; 128; 135];
                 [226; 128; 136]; [226; 128; 137]; [226; 128; 138];
                 [226; 128; 168]; [226; 128; 169]; [226; 128; 175]; [226; 129; 159];
                 [227; 128; 128]])%Z.

Fixpoint strip_any (ps : list string) (s : string) : option string :=
  match ps with
  | [] => None
  | p :: ps' => match strip_prefix p s with Some r => Some r | None => strip_any ps' s end
  end.

(** Strip leading occurrences of the patterns; [str_len s] rounds are enough
    because every pattern is non-empty. *)
Fixpoint trim_fuel (fuel : nat) (ps : list string) (s : string) : string :=
  match fuel with
  | O => s
  | S f => match strip_any ps s with Some r => trim_fuel f ps r | None => s end
  end.
Definition trim_start (s : string) : string := trim_fuel (str_len s) white_space s.
Definition trim_end (s : string) : string :=
  str_rev (trim_fuel (str_len s) (str_rev <$> white_space) (str_rev s)).
(** [s.trim()] *)
Definition trim (s : string) : string := trim_end (trim_start s).

(** [char::is_whitespace] somewhere in [s] *)
Fixpoint contains_whitespace (s : string) : bool :=
  match strip_any white_space s with
  | Some _ => true
  | None => match s with EmptyString => false | String _ s' => contains_whitespace s' end
  end.

(** ASCII classes and case *)
Definition in_range (lo hi : Z) (a : ascii) : bool :=
  (lo <=? byte_val a)%Z && (byte_val a <=? hi)%Z.
Definition is_ascii_lowercase (a : ascii) : bool := in_range 97 122 a.
Definition is_ascii_uppercase (a : ascii) : bool := in_range 65 90 a.
Definition is_ascii_digit (a : ascii) : bool := in_range 48 57 a.
Definition to_ascii_lower (a : ascii) : ascii :=
  if is_ascii_uppercase a then byte_of (byte_val a + 32) else a.
(** [s.to_ascii_lowercase()] *)
Fixpoint str_ascii_lower (s : string) : string :=
  match s with EmptyString => EmptyString | String a s' => String (to_ascii_lower a) (str_ascii_lower s') end.
(** [a.eq_ignore_ascii_case(b)] *)
Definition eq_ignore_ascii_case (a b : string) : bool :=
  String.eqb (str_ascii_lower a) (str_ascii_lower b).

Fixpoint str_forallb (f : ascii → bool) (s : string) : bool :=
  match s with EmptyString => true | String a s' => f a && str_forallb f s' end.

(** Two lowercase hex digits of a byte: [format!("{b:02x}")]. *)
Definition hex_digit (n : Z) : ascii := if (n <? 10)%Z then byte_of (48 + n) else byte_of (87 + n).
Definition hex02 (b : ascii) : string :=
  String (hex_digit (byte_val b / 16)) (String (hex_digit (byte_val b mod 16)) EmptyString).
Fixpoint hex_lower (bs : list ascii) : string :=
  match bs with [] => EmptyString | b :: bs' => (hex02 b +:+ hex_lower bs')%string end.

(** ** Lemmas on strings *)
Create HintDb rust.
Create Rewrite HintDb rust.

Lemma app_cons a s t : String a s +:+ t = String a (s +:+ t).
Proof. done. Qed.
Lemma app_nil_l' t : EmptyString +:+ t = t.
Proof. done. Qed.
Lemma str_app_nil_r s : s +:+ EmptyString = s.
Proof. induction s as [|a s IH]; [done|]. by rewrite app_cons, IH. Qed.
Lemma str_app_assoc s t u : (s +:+ t) +:+ u = s +:+ (t +:+ u).
Proof. induction s as [|a s IH]; [done|]. by rewrite !app_cons, IH. Qed.
Lemma str_len_app s t : str_len (s +:+ t) = str_len s + str_len t.
Proof. induction s as [|a s IH]; [done|]. rewrite app_cons. simpl. by f_equal. Qed.

Lemma rev_app_acc s t : String.rev_app s t = String.rev s +:+ t.
Proof.
  unfold String.rev. revert t. induction s as [|a s IH]; intros t; [done|]. simpl.
  rewrite IH, (IH (String a "")), str_app_assoc. done.
Qed.
Lemma str_rev_cons a s : str_rev (String a s) = str_rev s +:+ String a EmptyString.
Proof. unfold str_rev, String.rev at 1. simpl. by rewrite rev_app_acc. Qed.
Lemma str_rev_app s t : str_rev (s +:+ t) = str_rev t +:+ str_rev s.
Proof.
  induction s as [|a s IH]; [by rewrite str_app_nil_r|].
  by rewrite app_cons, !str_rev_cons, IH, str_app_assoc.
Qed.
Lemma str_rev_involutive s : str_rev (str_rev s) = s.
Proof. induction s as [|a s IH]; [done|]. by rewrite str_rev_cons, str_rev_app, IH. Qed.
Lemma str_len_rev s : str_len (str_rev s) = str_len s.
Proof. induction s as [|a s IH]; [done|]. rewrite str_rev_cons, str_len_app. simpl. lia. Qed.

Lemma starts_with_true p s : starts_with p s = true ↔ ∃ r, s = p +:+ r.
Proof.
  revert s. induction p as [|a p IH]; intros s; simpl; [naive_solver|].
  destruct s as [|b s]; [split; [done|]; by intros [r ?]|].
  destruct (Ascii.eqb_spec a b) as [->|Hne].
  - rewrite IH. split; intros [r Hr]; exists r; [by rewrite app_cons, Hr|].
    by rewrite app_cons in Hr; simplify_eq.
  - split; [done|]. intros [r Hr]. rewrite app_cons in Hr. congruence.
Qed.
Lemma starts_with_app p r : starts_with p (p +:+ r) = true.
Proof. apply starts_with_true. eauto. Qed.
Lemma str_drop_app p r : str_drop (str_len p) (p +:+ r) = r.
Proof. induction p as [|a p IH]; done. Qed.
Lemma str_take_app p r : str_take (str_len p) (p +:+ r) = p.
Proof. induction p as [|a p IH]; [done|]. rewrite app_cons. simpl. by f_equal. Qed.
Lemma str_take_drop n s : str_take n s +:+ str_drop n s = s.
Proof. revert s. induction n as [|n IH]; intros [|a s]; [done..|]. simpl. by rewrite app_cons, IH. Qed.

Lemma strip_prefix_Some p s r : strip_prefix p s = Some r ↔ s = p +:+ r.
Proof.
  unfold strip_prefix. destruct (starts_with p s) eqn:E.
  - apply starts_with_true in E as [r' ->]. rewrite str_drop_app.
    split; [by intros [= ->]|]. by intros ->%(inj _).
  - split; [done|]. intros ->. by rewrite starts_with_app in E.
Qed.
Lemma strip_prefix_app p r : strip_prefix p (p +:+ r) = Some r.
Proof. by apply strip_prefix_Some. Qed.
Lemma strip_prefix_None p s : strip_prefix p s = None ↔ starts_with p s = false.
Proof. unfold strip_prefix. by destruct (starts_with p s). Qed.

Lemma strip_suffix_Some p s r : strip_suffix p s = Some r ↔ s = r +:+ p.
Proof.
  unfold strip_suffix. rewrite fmap_Some. split.
  - intros (x & Hx%strip_prefix_Some & ->).
    apply (f_equal str_rev) in Hx. by rewrite str_rev_involutive, str_rev_app, str_rev_involutive in Hx.
  - intros ->. exists (str_rev r). by rewrite str_rev_app, strip_prefix_app, str_rev_involutive.
Qed.
Lemma ends_with_true p s : ends_with p s = true ↔ ∃ r, s = r +:+ p.
Proof.
  unfold ends_with. rewrite starts_with_true. split; intros [r Hr].
  - exists (str_rev r). apply (f_equal str_rev) in Hr.
    by rewrite str_rev_app, !str_rev_involutive in Hr.
  - exists (str_rev r). by rewrite Hr, str_rev_app.
Qed.

(** Membership of a byte *)
Fixpoint str_elem (c : ascii) (s : string) : Prop :=
  match s with EmptyString => False | String a s' => a = c ∨ str_elem c s' end.
Lemma str_elem_app c s t : str_elem c (s +:+ t) ↔ str_elem c s ∨ str_elem c t.
Proof. induction s as [|a s IH]; [rewrite app_nil_l'; simpl; tauto|]. rewrite app_cons. simpl. rewrite IH. tauto. Qed.
Lemma str_forallb_intro f s : (∀ c, str_elem c s → f c = true) → str_forallb f s = true.
Proof.
  induction s as [|c s IH]; intros Hf; [done|]. simpl. rewrite (Hf c) by (by left). apply IH. intros d Hd. apply Hf. by right.
Qed.

Lemma str_find_Some c s i :
  str_find c s = Some i ↔ ∃ a b, s = a +:+ String c b ∧ ¬ str_elem c a ∧ i = str_len a.
Proof.
  revert i. induction s as [|x s IH]; intros i; simpl.
  { split; [done|]. intros (a & b & H & _). destruct a; by rewrite ?app_nil_l', ?app_cons in H. }
  destruct (Ascii.eqb_spec x c) as [->|Hne].
  - split.
    + intros [= <-]. exists EmptyString, s. simpl. naive_solver.
    + intros (a & b & H & Hn & ->). destruct a as [|y a]; [done|].
      rewrite app_cons in H. simpl in Hn. naive_solver.
  - rewrite fmap_Some. split.
    + intros (j & (a & b & -> & Hn & ->)%IH & ->). exists (String x a), b. simpl. naive_solver.
    + intros (a & b & H & Hn & ->). destruct a as [|y a]; [rewrite app_nil_l' in H; congruence|].
      rewrite app_cons in H. simplify_eq. simpl in Hn.
      exists (str_len a). rewrite IH. naive_solver.
Qed.
Lemma str_find_None c s : str_find c s = None ↔ ¬ str_elem c s.
Proof.
  induction s as [|x s IH]; simpl; [naive_solver|].
  destruct (Ascii.eqb_spec x c) as [->|Hne]; [naive_solver|].
  rewrite fmap_None, IH. tauto.
Qed.

Lemma split_once_Some c s a b :
  split_once c s = Some (a, b) ↔ s = a +:+ String c b ∧ ¬ str_elem c a.
Proof.
  unfold split_once. rewrite bind_Some. split.
  - intros (i & (a' & b' & -> & Hn & ->)%str_find_Some & [= <- <-]).
    rewrite str_take_app. split; [|done]. f_equal.
    by induction a' as [|x a' IH]; [|apply IH; simpl in Hn; tauto].
  - intros (-> & Hn). exists (str_len a). split; [apply str_find_Some; eauto|].
    rewrite str_take_app. do 2 f_equal. by induction a as [|x a IH]; [|apply IH; simpl in Hn; tauto].
Qed.
Lemma split_once_None c s : split_once c s = None ↔ ¬ str_elem c s.
Proof. unfold split_once. rewrite bind_None, str_find_None. naive_solver. Qed.

(** ** Trimming

    [solid s]: the first and the last byte of [s] do not belong to a
    white-space character, so that [trim] stops at them. *)
Definition no_head (c : ascii) (p : string) : bool :=
  match p with EmptyString => false | String a _ => negb (Ascii.eqb a c) end.
Definition solid_head (ps : list string) (s : string) : bool :=
  match s with EmptyString => false | String c _ => forallb (no_head c) ps end.
Definition solid (s : string) : bool :=
  solid_head white_space s && solid_head (str_rev <$> white_space) (str_rev s).
(** A run of white-space characters. *)
Fixpoint ws_run (l : list string) : string :=
  match l with [] => EmptyString | p :: l' => p +:+ ws_run l' end.

Lemma strip_any_Some ps s r : strip_any ps s = Some r → ∃ p, p ∈ ps ∧ s = p +:+ r.
Proof.
  induction ps as [|p ps IH]; simpl; [done|]. destruct (strip_prefix p s) eqn:E.
  - intros [= <-]. apply strip_prefix_Some in E. exists p. set_solver.
  - intros H. destruct (IH H) as (q & ? & ?). exists q. set_solver.
Qed.
Lemma solid_head_app ps s t : solid_head ps s = true → solid_head ps (s +:+ t) = true.
Proof. by destruct s. Qed.
Lemma solid_head_strip ps s : solid_head ps s = true → strip_any ps s = None.
Proof.
  destruct s as [|c s]; simpl; [done|]. induction ps as [|p ps IH]; simpl; [done|].
  intros [Hp Hps]%andb_true_iff. destruct p as [|a p]; [done|]. unfold strip_prefix. simpl in *.
  destruct (Ascii.eqb a c); [done|]. by apply IH.
Qed.
Lemma trim_fuel_solid n ps s : solid_head ps s = true → trim_fuel n ps s = s.
Proof. intros H. destruct n; [done|]. simpl. by rewrite solid_head_strip. Qed.

Lemma trim_fuel_run n ps l s :
  (∀ p t, p ∈ ps → strip_any ps (p +:+ t) = Some t) →
  (∀ p, p ∈ ps → 0 < str_len p) →
  Forall (λ p, p ∈ ps) l → solid_head ps s = true → str_len (ws_run l) ≤ n →
  trim_fuel n ps (ws_run l +:+ s) = s.
Proof.
  intros Hstrip Hpos Hl Hs. revert n. induction Hl as [|p l Hp Hl IH]; intros n Hn; simpl.
  { rewrite app_nil_l'. by apply trim_fuel_solid. }
  simpl in Hn. rewrite str_len_app in Hn. pose proof (Hpos p Hp).
  destruct n as [|n]; [lia|]. simpl. rewrite str_app_assoc, Hstrip by done. apply IH. lia.
Qed.

Lemma str_rev_run l : str_rev (ws_run l) = ws_run (rev (str_rev <$> l)).
Proof.
  assert (∀ l1 l2, ws_run (l1 ++ l2) = ws_run l1 +:+ ws_run l2) as Happ.
  { intros l1 l2. induction l1 as [|x l1 IH]; [done|]. simpl. by rewrite IH, str_app_assoc. }
  induction l as [|p l IH]; [done|]. simpl. by rewrite str_rev_app, IH, Happ; simpl; rewrite str_app_nil_r.
Qed.

Lemma white_space_strip p t : p ∈ white_space → strip_any white_space (p +:+ t) = Some t.
Proof. unfold white_space. intros H. repeat (apply elem_of_cons in H as [->|H]; [reflexivity|]). by apply elem_of_nil in H. Qed.
Lemma white_space_rev_strip p t :
  p ∈ (str_rev <$> white_space) → strip_any (str_rev <$> white_space) (p +:+ t) = Some t.
Proof. unfold white_space. intros H. repeat (apply elem_of_cons in H as [->|H]; [reflexivity|]). by apply elem_of_nil in H. Qed.
Lemma white_space_pos p : p ∈ white_space → 0 < str_len p.
Proof. unfold white_space. intros H. repeat (apply elem_of_cons in H as [->|H]; [vm_compute; lia|]). by apply elem_of_nil in H. Qed.

(** [trim] removes exactly the surrounding white space of a solid string. *)
Lemma trim_run l s r :
  Forall (λ p, p ∈ white_space) l → Forall (λ p, p ∈ white_space) r → solid s = true →
  trim (ws_run l +:+ s +:+ ws_run r) = s.
Proof.
  intros Hl Hr [Hs1 Hs2]%andb_true_iff. unfold trim, trim_start.
  rewrite trim_fuel_run; [|apply white_space_strip|apply white_space_pos|done| |].
  2: { by apply solid_head_app. } 2: { rewrite str_len_app. lia. }
  unfold trim_end. rewrite str_rev_app, str_rev_run.
  rewrite trim_fuel_run; [apply str_rev_involutive|apply white_space_rev_strip| | |done|].
  - intros p (q & -> & Hq)%list_elem_of_fmap. rewrite str_len_rev. by apply white_space_pos.
  - apply Forall_rev, Forall_fmap. eapply Forall_impl; [exact Hr|]. intros p Hp. by apply list_elem_of_fmap_2.
  - rewrite <- str_rev_run, str_len_rev, str_len_app. lia.
Qed.
Lemma trim_solid s : solid s = true → trim s = s.
Proof. intros H. pose proof (trim_run [] s [] ltac:(constructor) ltac:(constructor) H) as Ht. by rewrite app_nil_l', str_app_nil_r in Ht. Qed.

(** ** Bytes and hex digits *)
Lemma byte_of_val a : byte_of (byte_val a) = a.
Proof. unfold byte_of, byte_val. by rewrite N2Z.id, ascii_N_embedding. Qed.
Lemma byte_val_range a : (0 ≤ byte_val a < 256)%Z.
Proof. unfold byte_val. pose proof (N_ascii_bounded a). lia. Qed.
Lemma byte_split a : byte_of (16 * (byte_val a / 16) + byte_val a mod 16) = a.
Proof. rewrite <- Z.div_mod by lia. apply byte_of_val. Qed.
Lemma byte_nibbles a : (0 ≤ byte_val a / 16 < 16 ∧ 0 ≤ byte_val a mod 16 < 16)%Z.
Proof. pose proof (byte_val_range a). Z.div_mod_to_equations. lia. Qed.
Lemma hex_lower_len bs : str_len (hex_lower bs) = 2 * length bs.
Proof. induction bs as [|b bs IH]; [done|]. cbn [hex_lower length]. rewrite str_len_app, IH. change (str_len (hex02 b)) with 2. lia. Qed.
Lemma hex_lower_app a b : hex_lower (a ++ b) = hex_lower a +:+ hex_lower b.
Proof. induction a as [|x a IH]; [done|]. simpl. by rewrite IH, str_app_assoc. Qed.
(** A statement about the sixteen nibble values. *)
Lemma nibble_ind (P : Z → Prop) :
  Forall P [0; 1; 2; 3; 4; 5; 6; 7; 8; 9; 10; 11; 12; 13; 14; 15]%Z → ∀ x, (0 ≤ x < 16)%Z → P x.
Proof.
  intros H x Hx. rewrite List.Forall_forall in H. apply H. simpl. lia.
Qed.

(** ** Hash-map iteration

    A [HashMap] is a [gmap]; iterating one visits every entry once, in an
    unspecified order.  [hash_iter] is that order, any function that permutes
    the entries. *)
Class HashIter := {
  hash_iter : ∀ {K V : Type} `{Countable K}, gmap K V → list (K * V);
  hash_iter_perm : ∀ {K V : Type} `{Countable K} (m : gmap K V), hash_iter m ≡ₚ map_to_list m
}.
#[export] Instance hash_iter_ref : HashIter.
Proof. refine {| hash_iter K V _ _ m := map_to_list m |}. done. Defined.

Lemma elem_of_hash_iter `{HashIter} {K V} `{Countable K} (m : gmap K V) k v :
  (k, v) ∈ hash_iter m ↔ m !! k = Some v.
Proof. rewrite hash_iter_perm. by rewrite elem_of_map_to_list. Qed.
Lemma NoDup_hash_iter `{HashIter} {K V} `{Countable K} (m : gmap K V) : NoDup (hash_iter m).*1.
Proof. rewrite hash_iter_perm. apply NoDup_fst_map_to_list. Qed.

(** [iter.find(p)] *)
Lemma find_Some_iff {A} (p : A → bool) (l : list A) (x : A) :
  List.find p l = Some x → x ∈ l ∧ p x = true.
Proof. intros H%find_some. by rewrite list_elem_of_In. Qed.
Lemma find_is_Some {A} (p : A → bool) (l : list A) (x : A) :
  x ∈ l → p x = true → ∃ y, List.find p l = Some y.
Proof.
  intros Hx Hp. destruct (List.find p l) as [y|] eqn:E; [eauto|].
  rewrite list_elem_of_In in Hx. pose proof (find_none _ _ E x Hx). congruence.
Qed.

Lemma filter_none {A} (P : A → Prop) `{∀ x, Decision (P x)} (l : list A) :
  (∀ x, x ∈ l → ¬ P x) → filter P l = [].
Proof.
  induction l as [|x l IH]; intros Hn; [done|]. rewrite filter_cons_False by (apply Hn; set_solver).
  apply IH. set_solver.
Qed.
Lemma filter_every {A} (P : A → Prop) `{∀ x, Decision (P x)} (l : list A) :
  (∀ x, x ∈ l → P x) → filter P l = l.
Proof.
  induction l as [|x l IH]; intros Hn; [done|]. rewrite filter_cons_True by (apply Hn; set_solver).
  f_equal. apply IH. set_solver.
Qed.

Lemma filter_reverse {A} (P : A → Prop) `{∀ x, Decision (P x)} l : filter P (reverse l) = reverse (filter P l).
Proof.
  induction l as [|x l IH]; [done|]. rewrite reverse_cons, filter_app, IH, !filter_cons.
  case_decide; [by rewrite reverse_cons|]. by rewrite filter_nil, app_nil_r.
Qed.
Lemma NoDup_fmap_filter {A B} (f : A → B) (P : A → Prop) `{∀ x, Decision (P x)} (l : list A) :
  NoDup (f <$> l) → NoDup (f <$> filter P l).
Proof.
  induction l as [|x l IH]; [done|]. rewrite filter_cons. simpl. intros [Hni Hn]%NoDup_cons.
  case_decide; [|auto]. simpl. constructor; [|auto]. rewrite list_elem_of_fmap in Hni |- *.
  intros (y & Hy & [_ Hin]%list_elem_of_filter). apply Hni. eauto.
Qed.

(** ** Sorting, paging, machine integers *)

(** [slice::sort_by] is a stable sort; [le a b] is [cmp(a, b) != Greater]. *)
Section sort_by.
Context {A : Type} (le : A → A → bool).
Fixpoint sorted_insert (x : A) (l : list A) : list A :=
  match l with
  | [] => [x]
  | y :: l' => if le x y then x :: y :: l' else y :: sorted_insert x l'
  end.
Fixpoint sort_by (l : list A) : list A :=
  match l with [] => [] | x :: l' => sorted_insert x (sort_by l') end.

Lemma sorted_insert_perm x l : sorted_insert x l ≡ₚ x :: l.
Proof. induction l as [|y l IH]; simpl; [done|]. destruct (le x y); [done|]. rewrite IH. constructor. Qed.
Lemma sort_by_perm l : sort_by l ≡ₚ l.
Proof. induction l as [|x l IH]; simpl; [done|]. by rewrite sorted_insert_perm, IH. Qed.
Lemma elem_of_sort_by x l : x ∈ sort_by l ↔ x ∈ l.
Proof. by rewrite sort_by_perm. Qed.
Lemma length_sort_by l : length (sort_by l) = length l.
Proof. by rewrite sort_by_perm. Qed.

Context (le_total : ∀ a b, le a b = true ∨ le b a = true).
Context (le_trans : ∀ a b c, le a b = true → le b c = true → le a c = true).
Lemma sorted_insert_sorted x l : StronglySorted le l → StronglySorted le (sorted_insert x l).
Proof.
  induction 1 as [|y l Hs IH Hall]; simpl; [repeat constructor|].
  destruct (le x y) eqn:E.
  - constructor; [by constructor|]. constructor; [by rewrite E|].
    eapply Forall_impl; [exact Hall|]. intros z Hz. apply Is_true_true. apply Is_true_true in Hz. eauto.
  - constructor; [done|]. rewrite sorted_insert_perm. constructor; [|done].
    apply Is_true_true. destruct (le_total x y); congruence.
Qed.
Lemma sort_by_sorted l : StronglySorted le (sort_by l).
Proof. induction l as [|x l IH]; simpl; [constructor|]. by apply sorted_insert_sorted. Qed.

(** Being stable, it commutes with [filter]. *)
Lemma sorted_insert_least x l : Forall (λ y, le x y) l → sorted_insert x l = x :: l.
Proof. destruct 1 as [|y l Hy _]; [done|]. simpl. by rewrite (proj1 (Is_true_true _) Hy). Qed.
Lemma filter_sorted_insert (P : A → Prop) `{∀ x, Decision (P x)} x l :
  StronglySorted le l →
  filter P (sorted_insert x l) = if decide (P x) then sorted_insert x (filter P l) else filter P l.
Proof.
  induction 1 as [|y l Hs IH Hall]; cbn [sorted_insert]; [by rewrite filter_cons|]. destruct (le x y) eqn:E.
  - rewrite (filter_cons _ x). case_decide; [|done]. rewrite sorted_insert_least; [done|].
    apply Forall_forall. intros z [_ Hz]%list_elem_of_filter. apply elem_of_cons in Hz as [->|Hz]; [by rewrite E|].
    rewrite Forall_forall in Hall. apply Is_true_true. eapply le_trans; [exact E|]. apply Is_true_true. by apply Hall.
  - rewrite !(filter_cons _ y), IH. repeat case_decide; try done. simpl. by rewrite E.
Qed.
Lemma filter_sort_by (P : A → Prop) `{∀ x, Decision (P x)} l : filter P (sort_by l) = sort_by (filter P l).
Proof.
  induction l as [|x l IH]; [done|]. cbn [sort_by]. rewrite filter_sorted_insert by apply sort_by_sorted.
  rewrite filter_cons, IH. by case_decide.
Qed.
End sort_by.

(** [x.clamp(lo, hi)] *)
Definition clamp (lo hi x : nat) : nat := if x <? lo then lo else if hi <? x then hi else x.
(** [.skip(offset).take(limit.clamp(1, 500))] *)
Definition page {A} (offset limit : nat) (rows : list A) : list A :=
  take (clamp 1 500 limit) (drop offset rows).

Lemma clamp_range lo hi x : lo ≤ hi → lo ≤ clamp lo hi x ≤ hi.
Proof. intros Hle. unfold clamp. destruct (Nat.ltb_spec x lo), (Nat.ltb_spec hi x); lia. Qed.
Lemma page_length {A} off lim (rows : list A) : length (page off lim rows) ≤ 500.
Proof. unfold page. rewrite length_take. pose proof (clamp_range 1 500 lim). lia. Qed.
Lemma elem_of_page {A} off lim (rows : list A) x : x ∈ page off lim rows → x ∈ rows.
Proof.
  unfold page. rewrite elem_of_take. intros (i & Hi & _). rewrite lookup_drop in Hi.
  by eapply list_elem_of_lookup_2.
Qed.

Definition u64 (z : Z) : Z := z mod 2 ^ 64.
Definition U64_MAX : Z := 2 ^ 64 - 1.
(** [u64::try_from(x).unwrap_or(u64::MAX)] for a non-negative [x] *)
Definition u64_sat (x : Z) : Z := Z.min x U64_MAX.

Definition opt_eqb (a b : option string) : bool := bool_decide (a = b).
(** A filter of the kind [match tenant { None => true, Some(t) => x == t }]. *)
Definition tenant_matches (t : option string) (x : string) : bool :=
  match t with None => true | Some t => String.eqb x t end.

(** ** Ring buffers

    [if rows.len() >= cap { rows.pop_front(); } rows.push_back(row)] on a
    [VecDeque], front first. *)
Definition ring_push {A} (cap : nat) (rows : list A) (row : A) : list A :=
  (if cap <=? length rows then tail rows else rows) ++ [row].
(** The last [n] elements. *)
Definition lastn {A} (n : nat) (l : list A) : list A := drop (length l - n) l.

Lemma lastn_all {A} n (l : list A) : length l ≤ n → lastn n l = l.
Proof. intros Hl. unfold lastn. by replace (length l - n) with 0 by lia. Qed.
Lemma lastn_length {A} n (l : list A) : length (lastn n l) = n `min` length l.
Proof. unfold lastn. rewrite length_drop. lia. Qed.
Lemma lastn_push {A} cap (l : list A) (x : A) :
  ring_push cap (lastn (1 `max` cap) l) x = lastn (1 `max` cap) (l ++ [x]).
Proof.
  unfold ring_push. rewrite lastn_length. unfold lastn. rewrite length_app. simpl.
  destruct (Nat.leb_spec cap ((1 `max` cap) `min` length l)) as [Hle|Hlt].
  - assert (∀ m : list A, tail m = drop 1 m) as -> by by intros [].
    rewrite drop_drop. destruct l as [|y l]; [by rewrite drop_nil; destruct cap|].
    set (k := y :: l) in *. assert (0 < length k) by (simpl; lia). clearbody k.
    rewrite drop_app_le by lia. do 2 f_equal. lia.
  - rewrite drop_app_le by lia. replace (length l + 1 - 1 `max` cap) with 0 by lia.
    by replace (length l - 1 `max` cap) with 0 by lia.
Qed.
