(* ===== verification/Text.v ===== *)
(** * Text functions of the Rust standard library

    UTF-8 boundaries and lossy decoding, integer parsing and printing, and
    Unicode lower-casing (a class: the full case tables are not transcribed, only
    the fact that on ASCII it is the ASCII mapping). *)

From stdpp Require Export pretty.
From S2P Require Export Prelude.

(** A UTF-8 continuation byte, [10xxxxxx]. *)
Definition is_cont (a : ascii) : bool := in_range 128 191 a.

Fixpoint str_nth (n : nat) (s : string) : option ascii :=
  match n, s with
  | _, EmptyString => None
  | O, String a _ => Some a
  | S n', String _ s' => str_nth n' s'
  end.

(** [&s[..n]]; [None]: the slice panics (past the end or inside a character). *)
Definition slice_to (n : nat) (s : string) : option string :=
  if str_len s <? n then None
  else match str_nth n s with
       | Some a => if is_cont a then None else Some (str_take n s)
       | None => Some s
       end.

(** One step of [Utf8Chunks]: is the next sequence valid, and how many bytes
    does it (or its invalid maximal prefix) take? *)
Definition next_in (lo hi : Z) (s : string) : bool :=
  match s with EmptyString => false | String a _ => in_range lo hi a end.
Definition utf8_step (b : ascii) (rest : string) : bool * nat :=
  let v := byte_val b in
  let cont i := next_in 128 191 (str_drop i rest) in
  let three lo hi := if negb (next_in lo hi rest) then (false, 1) else if negb (cont 1) then (false, 2) else (true, 3) in
  let four lo hi :=
    if negb (next_in lo hi rest) then (false, 1)
    else if negb (cont 1) then (false, 2)
    else if negb (cont 2) then (false, 3) else (true, 4) in
  if (v <? 128)%Z then (true, 1)
  else if in_range 194 223 b then (if cont 0 then (true, 2) else (false, 1))
  else if (v =? 224)%Z then three 160%Z 191%Z
  else if in_range 225 236 b then three 128%Z 191%Z
  else if (v =? 237)%Z then three 128%Z 159%Z
  else if in_range 238 239 b then three 128%Z 191%Z
  else if (v =? 240)%Z then four 144%Z 191%Z
  else if in_range 241 243 b then four 128%Z 191%Z
  else if (v =? 244)%Z then four 128%Z 143%Z
  else (false, 1).
(** U+FFFD *)
Definition REPLACEMENT : string := ws_bytes [239; 191; 189]%Z.
(** Every step takes at least one byte, so [str_len s] steps are enough. *)
Fixpoint lossy_fuel (fuel : nat) (s : string) : string :=
  match fuel, s with
  | S f, String b rest =>
      let (valid, n) := utf8_step b rest in
      (if valid then str_take n s else REPLACEMENT) +:+ lossy_fuel f (str_drop n s)
  | _, _ => EmptyString
  end.
(** [String::from_utf8_lossy(bytes)] *)
Definition from_utf8_lossy (s : string) : string := lossy_fuel (str_len s) s.

Definition is_ascii (s : string) : bool := str_forallb (in_range 0 127) s.

Lemma lossy_ascii s : is_ascii s = true → from_utf8_lossy s = s.
Proof.
  unfold from_utf8_lossy, is_ascii. induction s as [|a s IH]; [done|]. simpl. intros [Ha Hs]%andb_true_iff.
  unfold utf8_step. unfold in_range in Ha. apply andb_true_iff in Ha as [_ Ha%Z.leb_le].
  destruct (Z.ltb_spec (byte_val a) 128); [|lia]. simpl. rewrite app_cons, app_nil_l'. f_equal. auto.
Qed.
Lemma str_nth_forallb f n s a : str_forallb f s = true → str_nth n s = Some a → f a = true.
Proof.
  revert n. induction s as [|b s IH]; intros n; [by destruct n|]. simpl. intros [Hb Hs]%andb_true_iff.
  destruct n; [by intros [= <-]|]. by apply IH.
Qed.
Lemma str_nth_is_Some n s : n < str_len s → is_Some (str_nth n s).
Proof.
  revert n. induction s as [|b s IH]; intros n Hn; [unfold str_len in Hn; simpl in Hn; lia|]. destruct n; [by eexists|].
  apply IH. unfold str_len in *. simpl in *. lia.
Qed.
Lemma str_take_ge n s : str_len s ≤ n → str_take n s = s.
Proof.
  revert n. induction s as [|b s IH]; intros n Hn; [by destruct n|]. destruct n; [unfold str_len in Hn; simpl in Hn; lia|].
  simpl. f_equal. apply IH. unfold str_len in *. simpl in *. lia.
Qed.
Lemma str_take_len n s : n ≤ str_len s → str_len (str_take n s) = n.
Proof.
  revert n. induction s as [|b s IH]; intros [|n] Hn; [done|unfold str_len in Hn; simpl in Hn; lia|done|].
  simpl. f_equal. apply IH. unfold str_len in *. simpl in *. lia.
Qed.
(** A slice inside the string panics exactly on a continuation byte. *)
Lemma slice_to_None n s : n < str_len s → slice_to n s = None ↔ ∃ a, str_nth n s = Some a ∧ is_cont a = true.
Proof.
  intros Hn. unfold slice_to. destruct (Nat.ltb_spec (str_len s) n); [lia|].
  destruct (str_nth_is_Some n s Hn) as [a Ha]. rewrite Ha. destruct (is_cont a) eqn:E.
  - split; [|done]. eauto.
  - split; [done|]. intros (b & [= <-] & Hb). congruence.
Qed.
Lemma slice_to_Some n s r : n < str_len s → slice_to n s = Some r → r = str_take n s.
Proof.
  intros Hn. unfold slice_to. destruct (Nat.ltb_spec (str_len s) n); [lia|].
  destruct (str_nth_is_Some n s Hn) as [a Ha]. rewrite Ha. destruct (is_cont a); [done|]. by intros [= <-].
Qed.

(** ** Integers *)
Definition I64_MIN : Z := - 2 ^ 63.
Definition I64_MAX : Z := 2 ^ 63 - 1.
(** Two's-complement wrap-around. *)
Definition i64_wrap (z : Z) : Z := (z + 2 ^ 63) mod 2 ^ 64 - 2 ^ 63.
Lemma i64_wrap_id z : (I64_MIN ≤ z ≤ I64_MAX)%Z → i64_wrap z = z.
Proof. unfold I64_MIN, I64_MAX, i64_wrap. intros Hz. rewrite Z.mod_small by lia. lia. Qed.

Definition digit_value (a : ascii) : option Z :=
  if is_ascii_digit a then Some (byte_val a - 48)%Z else None.
Fixpoint parse_digits (acc : Z) (s : string) : option Z :=
  match s with
  | EmptyString => Some acc
  | String a s' => d ← digit_value a; parse_digits (10 * acc + d) s'
  end.
(** [s.parse::<T>()] for an integer type with range [lo, hi]; only a signed type
    ([lo < 0]) accepts a minus sign. *)
Definition parse_int (lo hi : Z) (s : string) : option Z :=
  z ← match s with
      | EmptyString => None
      | String a s' =>
          if Ascii.eqb a "+" then if str_is_empty s' then None else parse_digits 0 s'
          else if Ascii.eqb a "-" && (lo <? 0)%Z then
            if str_is_empty s' then None else Z.opp <$> parse_digits 0 s'
          else parse_digits 0 s
      end;
  if (lo <=? z)%Z && (z <=? hi)%Z then Some z else None.
Definition parse_i64 (s : string) : option Z := parse_int I64_MIN I64_MAX s.
Definition parse_u16 (s : string) : option Z := parse_int 0 (2 ^ 16 - 1) s.

(** ** [str::to_lowercase] *)
Class Lowercase := {
  to_lowercase : string → string;
  to_lowercase_ascii s : is_ascii s = true → to_lowercase s = str_ascii_lower s
}.
#[export] Instance lowercase_ref : Lowercase.
Proof. refine {| to_lowercase := str_ascii_lower |}. done. Defined.

(** ** [{:?}] of a string

    Quotes around the text; printable ASCII other than the quote and the
    backslash is copied, the escapes of the rest are not transcribed. *)
Definition plain_char (a : ascii) : bool :=
  in_range 32 126 a && negb (Ascii.eqb a (byte_of 34)) && negb (Ascii.eqb a (byte_of 92)).
Definition QUOTE : string := String (byte_of 34) EmptyString.
Class DebugFmt := {
  str_debug : string → string;
  str_debug_plain s : str_forallb plain_char s = true → str_debug s = QUOTE +:+ s +:+ QUOTE
}.
#[export] Instance debug_ref : DebugFmt.
Proof. refine {| str_debug s := QUOTE +:+ s +:+ QUOTE |}. done. Defined.

(** ** Paths: [base.join(comp)] *)
Definition path_join (base comp : string) : string :=
  if starts_with "/" comp then comp
  else if str_is_empty base then comp
  else if ends_with "/" base then base +:+ comp
  else base +:+ "/" +:+ comp.

(** ** More on strings *)
(** [str::from_utf8] succeeds. *)
Fixpoint utf8_valid_fuel (fuel : nat) (s : string) : bool :=
  match fuel, s with
  | S f, String b rest => let (valid, n) := utf8_step b rest in valid && utf8_valid_fuel f (str_drop n s)
  | _, EmptyString => true
  | O, String _ _ => false
  end.
Definition utf8_valid (s : string) : bool := utf8_valid_fuel (str_len s) s.

(** [s.rsplit_once(c)] *)
Definition rsplit_once (c : ascii) (s : string) : option (string * string) :=
  '(a, b) ← split_once c (str_rev s); Some (str_rev b, str_rev a).

Lemma str_elem_rev c s : str_elem c (str_rev s) ↔ str_elem c s.
Proof. induction s as [|a s IH]; [done|]. rewrite str_rev_cons, str_elem_app, IH. simpl. tauto. Qed.
Lemma rsplit_once_Some c s a b :
  rsplit_once c s = Some (a, b) ↔ s = a +:+ String c b ∧ ¬ str_elem c b.
Proof.
  unfold rsplit_once. rewrite bind_Some. split.
  - intros ([x y] & [Hs Hn]%split_once_Some & [= <- <-]). apply (f_equal str_rev) in Hs.
    rewrite str_rev_involutive, str_rev_app, str_rev_cons, str_app_assoc in Hs. rewrite str_elem_rev. done.
  - intros [-> Hn]. exists (str_rev b, str_rev a). rewrite !str_rev_involutive. split; [|done].
    apply split_once_Some. rewrite str_elem_rev. split; [|done].
    by rewrite str_rev_app, str_rev_cons, str_app_assoc.
Qed.
Lemma rsplit_once_None c s : rsplit_once c s = None ↔ ¬ str_elem c s.
Proof.
  unfold rsplit_once. rewrite bind_None. rewrite split_once_None, str_elem_rev. split; [|auto].
  intros [?|([x y] & _ & Hf)]; [done|]. done.
Qed.

(** [s.split_whitespace()]: the non-empty pieces between white space, in order;
    every round consumes a byte, so [str_len s] rounds are enough. *)
Fixpoint split_ws_fuel (fuel : nat) (cur : string) (s : string) : list string :=
  let flush rest := if str_is_empty cur then rest else cur :: rest in
  match fuel with
  | O => flush []
  | S f =>
      match strip_any white_space s with
      | Some r => flush (split_ws_fuel f EmptyString r)
      | None => match s with
                | EmptyString => flush []
                | String a s' => split_ws_fuel f (cur +:+ String a EmptyString) s'
                end
      end
  end.
Definition split_whitespace (s : string) : list string := split_ws_fuel (str_len s) EmptyString s.

(** [s.split(p)] for a non-empty pattern: at least one piece; every round passes a
    byte, so [str_len s] rounds are enough. *)
Fixpoint split_fuel (fuel : nat) (p cur s : string) : list string :=
  match fuel with
  | O => [cur +:+ s]
  | S f =>
      match strip_prefix p s with
      | Some r => cur :: split_fuel f p EmptyString r
      | None => match s with
                | EmptyString => [cur]
                | String a s' => split_fuel f p (cur +:+ String a EmptyString) s'
                end
      end
  end.
Definition str_split (p s : string) : list string := split_fuel (S (str_len s)) p EmptyString s.

(** [s.lines()]: pieces between line feeds, without a carriage return at the end
    of a piece that a line feed follows, and without a last empty piece. *)
Definition NL : ascii := byte_of 10.
Definition CR : ascii := byte_of 13.
Definition strip_cr (s : string) : string := default s (strip_suffix (String CR EmptyString) s).
Fixpoint drop_last_empty (l : list string) : list string :=
  match l with
  | [] => []
  | [x] => if str_is_empty x then [] else [x]
  | x :: l' => strip_cr x :: drop_last_empty l'
  end.
Definition str_lines (s : string) : list string := drop_last_empty (str_split (String NL EmptyString) s).
(** [l.join(sep)] *)
Fixpoint str_join (sep : string) (l : list string) : string :=
  match l with [] => EmptyString | [x] => x | x :: l' => x +:+ sep +:+ str_join sep l' end.
(** [n.parse::<u64>()], [n.parse::<u32>()], [n.parse::<i32>()] *)
Definition parse_u64 (s : string) : option Z := parse_int 0 (2 ^ 64 - 1) s.
Definition parse_u32 (s : string) : option Z := parse_int 0 (2 ^ 32 - 1) s.
Definition parse_i32 (s : string) : option Z := parse_int (- 2 ^ 31) (2 ^ 31 - 1) s.

(** ** Trimming only drops characters *)
Lemma strip_any_elem ps s r c : strip_any ps s = Some r → str_elem c r → str_elem c s.
Proof.
  induction ps as [|p ps IH]; [done|]. simpl. destruct (strip_prefix p s) as [r'|] eqn:E; [|by apply IH].
  intros [= ->]. apply strip_prefix_Some in E as ->. intros Hc. apply str_elem_app. by right.
Qed.
Lemma trim_fuel_elem n ps s c : str_elem c (trim_fuel n ps s) → str_elem c s.
Proof. revert s. induction n as [|n IH]; intros s; [done|]. simpl. destruct (strip_any ps s) as [r|] eqn:E; [|done]. intros Hc%IH. by eapply strip_any_elem. Qed.
Lemma trim_elem s c : str_elem c (trim s) → str_elem c s.
Proof. unfold trim, trim_end, trim_start. rewrite str_elem_rev. intros Hc%trim_fuel_elem. rewrite str_elem_rev in Hc. by apply trim_fuel_elem in Hc. Qed.
