(* ===== verification/Utf8.v ===== *)
(** * Text and bytes

    What [String::from_utf8_lossy] makes of bytes: valid UTF-8, unchanged exactly if the
    bytes were valid UTF-8, and at most three times as long.  It models no code of its
    own; the decoder is in [Text]. *)

From S2P Require Import Prelude Text.

(** One encoded character: a first byte that is no continuation byte and the
    continuation bytes the decoder takes with it, whatever follows. *)
Definition is_char (c : string) : Prop :=
  ∃ b r, c = String b r ∧ is_cont b = false ∧ str_forallb is_cont r = true ∧
         ∀ t, utf8_step b (r +:+ t) = (true, str_len c).
Fixpoint str_concat (cs : list string) : string := match cs with [] => EmptyString | c :: cs' => c +:+ str_concat cs' end.
(** A sequence of encoded characters. *)
Definition utf8_text (s : string) : Prop := ∃ cs, s = str_concat cs ∧ Forall is_char cs.

(** ** The decoder's steps *)
Lemma in_range_true lo hi a : in_range lo hi a = true ↔ (lo ≤ byte_val a ≤ hi)%Z.
Proof. unfold in_range. rewrite andb_true_iff, !Z.leb_le. done. Qed.
Lemma in_range_false lo hi a : in_range lo hi a = false ↔ ¬ (lo ≤ byte_val a ≤ hi)%Z.
Proof. rewrite <- in_range_true. destruct (in_range lo hi a); naive_solver. Qed.
Lemma next_in_true lo hi s : next_in lo hi s = true → ∃ a t, s = String a t ∧ in_range lo hi a = true.
Proof. destruct s as [|a t]; [done|]. simpl. eauto. Qed.
Lemma cont_within lo hi a : (128 ≤ lo)%Z → (hi ≤ 191)%Z → in_range lo hi a = true → is_cont a = true.
Proof. unfold is_cont. rewrite !in_range_true. lia. Qed.

Ltac split_step :=
  repeat match goal with
  | H : (if negb ?b then _ else _) = _ |- _ => destruct b eqn:?; cbn [negb] in H; [|discriminate]
  | H : (if ?b then _ else _) = _ |- _ => destruct b eqn:?
  end.
Ltac take_conts :=
  cbn [str_drop] in *;
  repeat match goal with
  | H : next_in _ _ ?s = true |- _ => apply next_in_true in H as (? & ? & -> & ?); cbn [str_drop] in *
  end.

Lemma step_char b rest n : utf8_step b rest = (true, n) → is_char (str_take n (String b rest)).
Proof.
  unfold utf8_step. intros Hs.
  assert (is_cont b = false) as Hb.
  { apply in_range_false. intros Hr. revert Hs.
    destruct (Z.ltb_spec (byte_val b) 128); [lia|].
    rewrite !(proj2 (in_range_false _ _ b)) by lia. rewrite !(proj2 (Z.eqb_neq (byte_val b) _)) by lia. done. }
  split_step; try discriminate; take_conts; injection Hs as <-; cbn [str_take];
    (eexists b, _; split; [reflexivity|]; split; [exact Hb|]; split;
     [cbn [str_forallb]; repeat (erewrite cont_within; [|..|eassumption]; [|lia|lia]); reflexivity|]);
    intros t; rewrite ?app_cons, ?app_nil_l'; unfold utf8_step; cbn [str_drop next_in];
    repeat match goal with H : _ = true |- _ => rewrite H; clear H | H : _ = false |- _ => rewrite H; clear H end; reflexivity.
Qed.

(** ** Texts *)
Lemma text_nil : utf8_text "".
Proof. by exists []. Qed.
Lemma text_app s t : utf8_text s → utf8_text t → utf8_text (s +:+ t).
Proof.
  intros (cs & -> & Hc) (ds & -> & Hd). exists (cs ++ ds). split; [|by apply Forall_app]. clear Hc Hd.
  induction cs as [|c cs IH]; [done|]. cbn [str_concat app]. by rewrite str_app_assoc, IH.
Qed.
Lemma text_char c : is_char c → utf8_text c.
Proof. intros Hc. exists [c]. cbn [str_concat]. rewrite str_app_nil_r. auto. Qed.
Lemma valid_fuel_text f s : utf8_valid_fuel f s = true → utf8_text s.
Proof.
  revert s. induction f as [|f IH]; intros [|b rest]; try (intros; apply text_nil); [done|].
  cbn [utf8_valid_fuel]. destruct (utf8_step b rest) as [[] n] eqn:Es; [|done]. intros Hv%IH.
  rewrite <- (str_take_drop n (String b rest)). apply text_app; [|done]. by eapply text_char, step_char.
Qed.
Lemma text_valid_fuel cs f : Forall is_char cs → (str_len (str_concat cs) ≤ f)%nat → utf8_valid_fuel f (str_concat cs) = true.
Proof.
  intros Hc. revert f. induction Hc as [|c cs (b & r & -> & _ & _ & Hs) _ IH]; intros f; [by destruct f|].
  cbn [str_concat]. rewrite str_len_app. simpl (str_len (String b r)). intros Hf. destruct f as [|f]; [lia|].
  rewrite app_cons. cbn [utf8_valid_fuel]. rewrite Hs. rewrite <- app_cons, str_drop_app. apply IH. lia.
Qed.
(** The executable check of the other files decides it. *)
Lemma valid_is_text s : utf8_valid s = true ↔ utf8_text s.
Proof. split; [apply valid_fuel_text|]. intros (cs & -> & Hc). by apply text_valid_fuel. Qed.

Lemma lossy_fuel_text f s : utf8_text (lossy_fuel f s).
Proof.
  revert s. induction f as [|f IH]; intros [|b rest]; try apply text_nil. cbn [lossy_fuel].
  destruct (utf8_step b rest) as [[] n] eqn:Es; apply text_app; auto.
  - by eapply text_char, step_char.
  - by apply valid_is_text.
Qed.

Lemma lossy_text_id cs f : Forall is_char cs → (str_len (str_concat cs) ≤ f)%nat → lossy_fuel f (str_concat cs) = str_concat cs.
Proof.
  intros Hc. revert f. induction Hc as [|c cs (b & r & -> & _ & _ & Hs) _ IH]; intros f; [by destruct f|].
  cbn [str_concat]. rewrite str_len_app. simpl (str_len (String b r)). intros Hf. destruct f as [|f]; [lia|].
  rewrite app_cons. cbn [lossy_fuel]. rewrite Hs, <- app_cons, str_drop_app, str_take_app. f_equal. apply IH. lia.
Qed.
(** Decoding changes exactly the byte strings that are no text. *)
Lemma lossy_id_iff s : from_utf8_lossy s = s ↔ utf8_valid s = true.
Proof.
  rewrite valid_is_text. split; [intros <-; apply lossy_fuel_text|]. intros (cs & -> & Hc). by apply lossy_text_id.
Qed.
Lemma lossy_valid s : utf8_valid (from_utf8_lossy s) = true.
Proof. apply valid_is_text, lossy_fuel_text. Qed.
Lemma utf8_step_takes b rest : (1 ≤ (utf8_step b rest).2)%nat.
Proof. unfold utf8_step. repeat case_match; simpl; lia. Qed.
(** An invalid byte becomes the three bytes of U+FFFD. *)
Lemma lossy_length s : (str_len (from_utf8_lossy s) ≤ 3 * str_len s)%nat.
Proof.
  unfold from_utf8_lossy. generalize (str_len s) at 1. intros f. revert s. induction f as [|f IH]; intros [|b rest]; try (simpl; lia).
  cbn [lossy_fuel]. pose proof (utf8_step_takes b rest) as Hn. destruct (utf8_step b rest) as [valid n]. cbn [snd] in Hn.
  rewrite str_len_app. specialize (IH (str_drop n (String b rest))).
  assert (str_len (String b rest) = str_len (str_take n (String b rest)) + str_len (str_drop n (String b rest)))%nat as El
    by (by rewrite <- str_len_app, str_take_drop).
  destruct valid; [lia|]. assert (1 ≤ str_len (str_take n (String b rest)))%nat by (destruct n; [lia|simpl; lia]).
  change (str_len REPLACEMENT) with 3%nat. lia.
Qed.
