(* ===== verification/Keys.v ===== *)
(** * Upstream services and the real-key store

    Models [ServiceId] of [agentjail-phantom/src/provider.rs] and the whole of
    [agentjail-phantom/src/keys.rs]: [SecretString], the [KeyStore] trait (a
    type class) and [InMemoryKeyStore] (a lock around a hash map keyed by
    [(tenant, service)]). *)

From S2P Require Import Prelude.

Inductive ServiceId := OpenAi | Anthropic | GitHub | Stripe.

#[export] Instance ServiceId_eq_dec : EqDecision ServiceId.
Proof. solve_decision. Defined.

(** [ServiceId::name] *)
Definition service_name (s : ServiceId) : string :=
  match s with
  | OpenAi => "openai"
  | Anthropic => "anthropic"
  | GitHub => "github"
  | Stripe => "stripe"
  end.

Definition service_index (s : ServiceId) : nat :=
  match s with OpenAi => 0 | Anthropic => 1 | GitHub => 2 | Stripe => 3 end.
Definition service_of_index (n : nat) : option ServiceId :=
  match n with 0 => Some OpenAi | 1 => Some Anthropic | 2 => Some GitHub | 3 => Some Stripe | _ => None end.
#[export] Instance ServiceId_countable : Countable ServiceId.
Proof. apply (inj_countable service_index service_of_index). by intros []. Defined.

Definition all_services : list ServiceId := [OpenAi; Anthropic; GitHub; Stripe].

#[export] Instance service_name_inj : Inj (=) (=) service_name.
Proof. by intros [] []. Qed.

(** [SecretString]: a newtype whose [Debug] never prints the secret. *)
Record SecretString := MkSecret { expose : string }.
#[export] Instance SecretString_eq_dec : EqDecision SecretString.
Proof. solve_decision. Defined.
Definition secret_debug (_ : SecretString) : string := "<redacted>".

(** The [KeyStore] trait. *)
Class KeyStore (K : Type) := {
  ks_get : string → ServiceId → K → option SecretString
}.

(** ** [InMemoryKeyStore] *)
Definition InMemoryKeyStore : Type := Lock (gmap (string * ServiceId) SecretString).

Definition keys_new : InMemoryKeyStore := new_lock ∅.

Definition keys_set (tenant : string) (service : ServiceId) (key : SecretString)
    (s : InMemoryKeyStore) : InMemoryKeyStore :=
  lock_write (λ g, <[(tenant, service) := key]> g) s.

Definition keys_unset (tenant : string) (service : ServiceId)
    (s : InMemoryKeyStore) : InMemoryKeyStore :=
  lock_write (λ g, delete (tenant, service) g) s.

Definition keys_get (tenant : string) (service : ServiceId)
    (s : InMemoryKeyStore) : option SecretString :=
  g ← lock_read s; g !! (tenant, service).

(** [from_env]: [env] is [std::env::var(..).ok()]. *)
Definition keys_from_env (env : string → option string) : InMemoryKeyStore :=
  let s := keys_new in
  let s := match env "OPENAI_API_KEY" with
           | Some v => keys_set "dev" OpenAi (MkSecret v) s | None => s end in
  let s := match env "ANTHROPIC_API_KEY" with
           | Some v => keys_set "dev" Anthropic (MkSecret v) s | None => s end in
  s.

#[export] Instance InMemoryKeyStore_KeyStore : KeyStore InMemoryKeyStore :=
  {| ks_get := keys_get |}.

(** The mutating operations, as data, so that histories can be stated. *)
Inductive KeyOp :=
| KSet (tenant : string) (service : ServiceId) (key : SecretString)
| KUnset (tenant : string) (service : ServiceId).
Definition key_step (s : InMemoryKeyStore) (op : KeyOp) : InMemoryKeyStore :=
  match op with
  | KSet t v k => keys_set t v k s
  | KUnset t v => keys_unset t v s
  end.
Definition key_op_tenant (op : KeyOp) : string :=
  match op with KSet t _ _ => t | KUnset t _ => t end.
Definition key_run (s : InMemoryKeyStore) (ops : list KeyOp) : InMemoryKeyStore :=
  foldl key_step s ops.

Lemma keys_get_set t v k t' v' s :
  poisoned s = false →
  keys_get t' v' (keys_set t v k s) = if decide ((t, v) = (t', v')) then Some k else keys_get t' v' s.
Proof.
  intros Hp. unfold keys_get, keys_set, lock_write, lock_read. rewrite Hp. simpl.
  by rewrite lookup_insert.
Qed.
Lemma keys_get_unset t v t' v' s :
  poisoned s = false →
  keys_get t' v' (keys_unset t v s) = if decide ((t, v) = (t', v')) then None else keys_get t' v' s.
Proof.
  intros Hp. unfold keys_get, keys_unset, lock_write, lock_read. rewrite Hp. simpl.
  by rewrite lookup_delete.
Qed.
Lemma key_step_poisoned s op : poisoned (key_step s op) = poisoned s.
Proof. destruct op; simpl; unfold keys_set, keys_unset, lock_write; by destruct (poisoned s) eqn:E. Qed.
#[export] Hint Rewrite key_step_poisoned : rust.

Lemma keys_get_poisoned t v s : poisoned s = true → keys_get t v s = None.
Proof. intros Hp. unfold keys_get, lock_read. by rewrite Hp. Qed.

Lemma key_step_other op t v s :
  key_op_tenant op ≠ t → keys_get t v (key_step s op) = keys_get t v s.
Proof.
  intros Hne. destruct (poisoned s) eqn:Hp.
  { by rewrite !keys_get_poisoned by (by rewrite ?key_step_poisoned). }
  destruct op; simpl in *; rewrite ?keys_get_set, ?keys_get_unset by done; case_decide; naive_solver.
Qed.
(** A step's effect on a tenant depends only on what that tenant could read before. *)
Lemma key_step_agree op t s s' :
  poisoned s = poisoned s' →
  (∀ v, keys_get t v s = keys_get t v s') →
  ∀ v, keys_get t v (key_step s op) = keys_get t v (key_step s' op).
Proof.
  intros Hpp Hag v. destruct (decide (key_op_tenant op = t)) as [He|Hne].
  2: { by rewrite !key_step_other. }
  destruct (poisoned s) eqn:Hp.
  { by rewrite !keys_get_poisoned by (by rewrite key_step_poisoned). }
  symmetry in Hpp. destruct op; simpl in *; rewrite ?keys_get_set, ?keys_get_unset by done; case_decide; eauto.
Qed.

(** Key-store isolation.  Over any history of [set]/[unset] calls, what a
    tenant can read depends only on the calls that name that tenant: deleting
    every other tenant's calls from the history does not change any read. *)
Theorem keys_tenant_isolation (s : InMemoryKeyStore) (ops : list KeyOp) (t : string) (v : ServiceId) :
  keys_get t v (key_run s ops)
  = keys_get t v (key_run s (filter (λ op, key_op_tenant op = t) ops)).
Proof.
  unfold key_run. remember s as s' eqn:E in |- * at 1.
  assert (poisoned s' = poisoned s ∧ ∀ v, keys_get t v s' = keys_get t v s) as [Hp Hag] by by subst.
  clear E. revert s s' Hp Hag v. induction ops as [|op ops IH]; intros s s' Hp Hag v; [done|].
  rewrite filter_cons. case_decide as Ht; simpl; apply IH.
  - by rewrite !key_step_poisoned.
  - by apply key_step_agree.
  - by rewrite key_step_poisoned.
  - intros w. by rewrite key_step_other.
Qed.

(** [from_env] only ever fills the ["dev"] tenant. *)
Lemma keys_from_env_dev env t v k : keys_get t v (keys_from_env env) = Some k → t = "dev".
Proof.
  unfold keys_from_env. intros H.
  destruct (env "OPENAI_API_KEY"), (env "ANTHROPIC_API_KEY");
    rewrite ?keys_get_set in H by done; repeat case_decide; naive_solver.
Qed.
