(* ===== verification/Token.v ===== *)
(** * Phantom tokens, scopes and token stores

    Models [agentjail-phantom/src/token.rs] up to the cache wrapper:
    [PhantomToken] (parse / display), [PathGlob], [Scope], [TokenRecord], the
    [TokenStore] trait (class [TokenStore], with the laws a store must satisfy
    in [TokenStoreLaws]) and [InMemoryTokenStore].

    Clock readings ([SystemTime::now()]) and random bytes are arguments: [clk i]
    is the [i]-th reading taken during the call, in nanoseconds. *)

From S2P Require Import Prelude Keys.

(** ** The [hex] crate

    [decode_to_slice] is third-party code; the laws are its documentation:
    upper and lower case digits are accepted, and the input must be exactly
    twice as long as the output slice. *)
Definition hex_value (a : ascii) : option Z :=
  if is_ascii_digit a then Some (byte_val a - 48)%Z
  else if in_range 97 102 a then Some (byte_val a - 87)%Z
  else if in_range 65 70 a then Some (byte_val a - 55)%Z
  else None.

Class HexCrate := {
  decode_to_slice : string → nat → option (list ascii);
  decode_nil : decode_to_slice "" 0 = Some [];
  decode_pair a b s n :
    decode_to_slice (String a (String b s)) (S n) =
      (x ← hex_value a; y ← hex_value b; bs ← decode_to_slice s n;
       Some (byte_of (16 * x + y)%Z :: bs));
  decode_mismatch s n : str_len s ≠ 2 * n → decode_to_slice s n = None
}.

(** A concrete decoder, used to evaluate the model. *)
Fixpoint hex_decode_ref (s : string) (n : nat) : option (list ascii) :=
  match s, n with
  | EmptyString, O => Some []
  | String a (String b s'), S n' =>
      x ← hex_value a; y ← hex_value b; bs ← hex_decode_ref s' n';
      Some (byte_of (16 * x + y)%Z :: bs)
  | _, _ => None
  end.
Lemma hex_decode_ref_length s n bs : hex_decode_ref s n = Some bs → str_len s = 2 * n.
Proof.
  revert s bs. induction n as [|n IH]; intros [|a [|b s]] bs; simpl; try done.
  intros (x & _ & (y & _ & (bs' & H%IH & _)%bind_Some)%bind_Some)%bind_Some. lia.
Qed.
Lemma hex_decode_ref_mismatch s n : str_len s ≠ 2 * n → hex_decode_ref s n = None.
Proof. intros H. destruct (hex_decode_ref s n) eqn:E; [|done]. by apply hex_decode_ref_length in E. Qed.
#[export] Instance hex_ref : HexCrate := {|
  decode_to_slice := hex_decode_ref;
  decode_nil := eq_refl;
  decode_pair _ _ _ _ := eq_refl;
  decode_mismatch := hex_decode_ref_mismatch |}.

(** ** [PhantomToken] *)
Definition TOKEN_PREFIX : string := "phm_".
Definition TOKEN_HEX_LEN : nat := 64.

Record PhantomToken := MkToken { tok_bytes : list ascii }.
#[export] Instance PhantomToken_eq_dec : EqDecision PhantomToken.
Proof. solve_decision. Defined.

(** The type [[u8; 32]] *)
Definition token_wf (t : PhantomToken) : Prop := length (tok_bytes t) = 32.

(** [generate]: [rnd] is the output of the CSPRNG. *)
Definition token_generate (rnd : list ascii) : PhantomToken := MkToken rnd.

(** The body [parse] looks at: the input less white space and ["Bearer "]. *)
Definition token_body (raw : string) : string :=
  let s := trim raw in
  trim (default s (strip_prefix "Bearer " s)).

Definition token_parse `{HexCrate} (raw : string) : option PhantomToken :=
  let s := token_body raw in
  hex_part ← strip_prefix TOKEN_PREFIX s;
  if negb (str_len hex_part =? TOKEN_HEX_LEN) then None else
  bytes ← decode_to_slice hex_part 32;
  Some (MkToken bytes).

Definition token_display (t : PhantomToken) : string := TOKEN_PREFIX +:+ hex_lower (tok_bytes t).
Definition token_debug (_ : PhantomToken) : string := "phm_<redacted>".

(** ** Path globs and scopes *)
Record PathGlob := MkGlob { pattern : string }.

Definition glob_matches (g : PathGlob) (path : string) : bool :=
  match strip_suffix "*" (pattern g) with
  | Some prefix => starts_with prefix path
  | None => String.eqb path (pattern g)
  end.

Record Scope := MkScope { allowed_paths : list PathGlob }.

Definition scope_any : Scope := MkScope [].

Definition allows_path (s : Scope) (path : string) : bool :=
  match allowed_paths s with [] => true | _ => false end
  || existsb (λ g, glob_matches g path) (allowed_paths s).

#[export] Instance PathGlob_eq_dec : EqDecision PathGlob.
Proof. solve_decision. Defined.
#[export] Instance Scope_eq_dec : EqDecision Scope.
Proof. solve_decision. Defined.

(** ** Token records *)
Record TokenRecord := MkRecord {
  session_id : string;
  tenant_id : string;
  service : ServiceId;
  scope : Scope;
  expires_at : option Z
}.
#[export] Instance TokenRecord_eq_dec : EqDecision TokenRecord.
Proof. solve_decision. Defined.

Definition is_expired (r : TokenRecord) (now : Z) : bool :=
  match expires_at r with Some e => (e <=? now)%Z | None => false end.

(** [SystemTime + Duration]: a 64-bit signed count of seconds; overflow panics. *)
Definition systime_add (now d : Z) : option Z :=
  let t := (now + d)%Z in
  if (t / 10 ^ 9 <=? 2 ^ 63 - 1)%Z then Some t else None.

(** ** The [TokenStore] trait *)
Class TokenStore (T : Type) := {
  (** [None]: the call panicked (expiry out of range). *)
  ts_issue : (nat → Z) → list ascii → string → string → ServiceId → Scope → option Z →
             T → option (PhantomToken * T);
  ts_lookup : (nat → Z) → PhantomToken → T → option TokenRecord * T;
  ts_revoke : PhantomToken → T → T;
  ts_revoke_session : string → T → T
}.

(** ** [InMemoryTokenStore] *)
Definition InMemoryTokenStore : Type := Lock (gmap (list ascii) TokenRecord).

Definition mem_new : InMemoryTokenStore := new_lock ∅.

(** [ttl.map(|d| SystemTime::now() + d)]; the outer [None] is the panic. *)
Definition resolve_ttl (now : Z) (ttl : option Z) : option (option Z) :=
  match ttl with
  | None => Some None
  | Some d => e ← systime_add now d; Some (Some e)
  end.

Definition mem_issue (clk : nat → Z) (rnd : list ascii) (sess tenant : string)
    (svc : ServiceId) (sc : Scope) (ttl : option Z) (s : InMemoryTokenStore)
    : option (PhantomToken * InMemoryTokenStore) :=
  let token := token_generate rnd in
  exp ← resolve_ttl (clk 0) ttl;
  let record := MkRecord sess tenant svc sc exp in
  Some (token, lock_write (λ g, <[tok_bytes token := record]> g) s).

Definition mem_lookup (clk : nat → Z) (token : PhantomToken) (s : InMemoryTokenStore)
    : option TokenRecord * InMemoryTokenStore :=
  (g ← lock_read s;
   rec ← g !! tok_bytes token;
   if is_expired rec (clk 0) then None else Some rec, s).

Definition mem_revoke (token : PhantomToken) (s : InMemoryTokenStore) : InMemoryTokenStore :=
  lock_write (λ g, delete (tok_bytes token) g) s.

Definition mem_revoke_session (sess : string) (s : InMemoryTokenStore) : InMemoryTokenStore :=
  lock_write (λ g, filter (λ kv, session_id kv.2 ≠ sess) g) s.

#[export] Instance InMemoryTokenStore_TokenStore : TokenStore InMemoryTokenStore := {|
  ts_issue := mem_issue;
  ts_lookup := mem_lookup;
  ts_revoke := mem_revoke;
  ts_revoke_session := mem_revoke_session |}.

(** ** What a token store promises

    The abstract state of a store is a finite map from token bytes to records;
    expiry is decided at look-up time. *)
Definition live_at (now : Z) (r : TokenRecord) : option TokenRecord :=
  if is_expired r now then None else Some r.

Definition abs_revoke_session (sess : string) (m : gmap (list ascii) TokenRecord) :=
  filter (λ kv : list ascii * TokenRecord, session_id kv.2 ≠ sess) m.

Class TokenStoreLaws (T : Type) `{TokenStore T} := {
  ts_ok : T → Prop;
  ts_view : T → gmap (list ascii) TokenRecord;
  law_issue clk rnd sess ten svc sc ttl s :
    ts_ok s →
    match ts_issue clk rnd sess ten svc sc ttl s with
    | Some (tok, s') =>
        ts_ok s' ∧ tok_bytes tok = rnd ∧
        ∃ exp, resolve_ttl (clk 0) ttl = Some exp ∧
               ts_view s' = <[rnd := MkRecord sess ten svc sc exp]> (ts_view s)
    | None => resolve_ttl (clk 0) ttl = None
    end;
  law_lookup clk tok s :
    ts_ok s →
    (ts_lookup clk tok s).1 = ts_view s !! tok_bytes tok ≫= live_at (clk 0)
    ∧ ts_ok (ts_lookup clk tok s).2 ∧ ts_view (ts_lookup clk tok s).2 = ts_view s;
  law_revoke tok s :
    ts_ok s → ts_ok (ts_revoke tok s) ∧ ts_view (ts_revoke tok s) = delete (tok_bytes tok) (ts_view s);
  law_revoke_session sess s :
    ts_ok s → ts_ok (ts_revoke_session sess s)
    ∧ ts_view (ts_revoke_session sess s) = abs_revoke_session sess (ts_view s)
}.

(** ** Lemmas: hex digits *)
Lemma hex_value_digit x : (0 ≤ x < 16)%Z → hex_value (hex_digit x) = Some x.
Proof. revert x. apply nibble_ind. repeat constructor. Qed.
Lemma hex_value_Some a x : hex_value a = Some x → to_ascii_lower a = hex_digit x ∧ (0 ≤ x < 16)%Z.
Proof.
  assert (match hex_value a with
          | Some x => Ascii.eqb (to_ascii_lower a) (hex_digit x) && (0 <=? x)%Z && (x <? 16)%Z
          | None => true end = true) as H by by destruct a as [[] [] [] [] [] [] [] []].
  intros E. rewrite E in H. apply andb_true_iff in H as [[H ?]%andb_true_iff ?].
  apply Ascii.eqb_eq in H. split; [done|lia].
Qed.
Lemma hex_value_fold a : hex_value (to_ascii_lower a) = hex_value a.
Proof. by destruct a as [[] [] [] [] [] [] [] []]. Qed.
Lemma hex_value_lower a x : (0 ≤ x < 16)%Z → to_ascii_lower a = hex_digit x → hex_value a = Some x.
Proof. intros Hx Ha. by rewrite <- hex_value_fold, Ha, hex_value_digit. Qed.
Lemma hex_digit_solid x : (0 ≤ x < 16)%Z →
  forallb (no_head (hex_digit x)) (str_rev <$> white_space) = true.
Proof. revert x. apply nibble_ind. repeat constructor. Qed.

(** The decoder accepts exactly the strings that lower to the rendering. *)
Lemma decode_iff `{HexCrate} h bs :
  decode_to_slice h (length bs) = Some bs ↔ str_ascii_lower h = hex_lower bs.
Proof.
  revert h. induction bs as [|b bs IH]; intros h.
  { destruct h as [|a h]; simpl; [by rewrite decode_nil|].
    split; [|done]. by rewrite decode_mismatch by (simpl; lia). }
  destruct h as [|a [|a' h]]; simpl.
  1,2: by rewrite decode_mismatch by (simpl; lia); split; [done|];
       unfold hex02; rewrite ?app_cons; intros ?; simplify_eq.
  rewrite decode_pair. unfold hex02. rewrite !app_cons, app_nil_l'. split.
  - intros (x & Hx%hex_value_Some & (y & Hy%hex_value_Some & (bs' & Hbs & [= Hb ->])%bind_Some)%bind_Some)%bind_Some.
    apply IH in Hbs as ->. destruct Hx as [-> Hx], Hy as [-> Hy].
    assert (byte_val b = 16 * x + y)%Z as ->.
    { rewrite <- Hb. unfold byte_val, byte_of. rewrite N_ascii_embedding by lia. lia. }
    by rewrite Z.add_comm, Z.mul_comm, Z.div_add, Z.div_small, Z.mod_add, Z.mod_small by lia.
  - intros [= Ha Ha' Hr%IH]. pose proof (byte_nibbles b) as [Hn Hn'].
    rewrite (hex_value_lower a _ Hn Ha), (hex_value_lower a' _ Hn' Ha'). simpl.
    rewrite Hr. simpl. by rewrite byte_split.
Qed.
Lemma decode_length `{HexCrate} n : ∀ h bs, decode_to_slice h n = Some bs → length bs = n.
Proof.
  induction n as [|n IH]; intros h bs Hd.
  - destruct h; [rewrite decode_nil in Hd; naive_solver|]. by rewrite decode_mismatch in Hd by (simpl; lia).
  - destruct h as [|a [|b h]]; [by rewrite decode_mismatch in Hd by (simpl; lia)..|].
    rewrite decode_pair in Hd.
    apply bind_Some in Hd as (x & _ & (y & _ & (bs' & Hb%IH & [= <-])%bind_Some)%bind_Some). simpl. lia.
Qed.

Lemma str_len_lower h : str_len (str_ascii_lower h) = str_len h.
Proof. induction h as [|a h IH]; [done|]. simpl. unfold str_len in *. by f_equal. Qed.
Lemma hex_lower_lower bs : str_ascii_lower (hex_lower bs) = hex_lower bs.
Proof.
  induction bs as [|b bs IH]; [done|]. simpl. unfold hex02. rewrite !app_cons, app_nil_l'. simpl. rewrite IH.
  assert (∀ x, (0 ≤ x < 16)%Z → to_ascii_lower (hex_digit x) = hex_digit x) as Hl.
  { apply nibble_ind. repeat constructor. }
  pose proof (byte_nibbles b) as [? ?]. by rewrite !Hl.
Qed.

(** ** Lemmas: parsing *)
Lemma token_parse_body `{HexCrate} raw t :
  token_parse raw = Some t ↔
  token_wf t ∧ ∃ h, token_body raw = TOKEN_PREFIX +:+ h ∧ str_ascii_lower h = hex_lower (tok_bytes t).
Proof.
  unfold token_parse, token_wf. rewrite bind_Some. split.
  - intros (h & Hb%strip_prefix_Some & Hd).
    destruct (str_len h =? TOKEN_HEX_LEN) eqn:Hl; [simpl in Hd|done].
    apply bind_Some in Hd as (bs & Hd & [= <-]). simpl.
    pose proof (decode_length _ _ _ Hd) as Hlen. split; [done|]. exists h. split; [done|].
    apply decode_iff. by rewrite Hlen.
  - intros (Hwf & h & Hb & Hl). exists h. rewrite strip_prefix_Some. split; [done|].
    assert (str_len h = 64) as ->.
    { rewrite <- str_len_lower, Hl, hex_lower_len, Hwf. done. }
    simpl. apply decode_iff in Hl. rewrite Hwf in Hl. rewrite Hl. by destruct t.
Qed.

Lemma display_ends t : token_wf t → solid_head (str_rev <$> white_space) (str_rev (token_display t)) = true.
Proof.
  unfold token_wf, token_display. destruct t as [bs]. simpl. intros Hlen.
  destruct (rev bs) as [|b rb] eqn:E.
  { apply (f_equal (@rev _)) in E. rewrite rev_involutive in E. by subst. }
  apply (f_equal (@rev _)) in E. rewrite rev_involutive in E. simpl in E. subst bs.
  rewrite hex_lower_app. simpl. rewrite str_app_nil_r.
  rewrite !str_rev_app. unfold hex02. rewrite !str_rev_cons. rewrite str_app_assoc.
  apply hex_digit_solid. apply byte_nibbles.
Qed.
Lemma display_solid t : token_wf t → solid (token_display t) = true.
Proof. intros Hwf. unfold solid. by rewrite display_ends. Qed.

Lemma body_plain t l r : token_wf t → Forall (λ p, p ∈ white_space) l → Forall (λ p, p ∈ white_space) r →
  token_body (ws_run l +:+ token_display t +:+ ws_run r) = token_display t.
Proof.
  intros Hwf Hl Hr. unfold token_body. rewrite trim_run by auto using display_solid.
  replace (strip_prefix "Bearer " (token_display t)) with (@None string) by done.
  simpl. by rewrite trim_solid by auto using display_solid.
Qed.
Lemma body_bearer t l m r :
  token_wf t → Forall (λ p, p ∈ white_space) l → Forall (λ p, p ∈ white_space) m →
  Forall (λ p, p ∈ white_space) r →
  token_body (ws_run l +:+ ("Bearer " +:+ ws_run m +:+ token_display t) +:+ ws_run r) = token_display t.
Proof.
  intros Hwf Hl Hm Hr. unfold token_body. rewrite trim_run; [|done..|].
  2: { unfold solid. rewrite andb_true_iff. split; [done|].
       rewrite !str_rev_app, str_app_assoc. apply solid_head_app. by apply display_ends. }
  rewrite strip_prefix_app. simpl.
  rewrite <- (str_app_nil_r (token_display t)) at 1.
  by apply (trim_run m (token_display t) []); [| |apply display_solid].
Qed.

Lemma token_parse_display `{HexCrate} t : token_wf t → token_parse (token_display t) = Some t.
Proof.
  intros Hwf. rewrite token_parse_body. split; [done|].
  pose proof (body_plain t [] [] Hwf ltac:(constructor) ltac:(constructor)) as Hb.
  simpl in Hb. rewrite app_nil_l', str_app_nil_r in Hb. rewrite Hb.
  eexists. split; [done|]. apply hex_lower_lower.
Qed.

(** Round trip.  The rendering of a 32-byte token, with any white space
    around it and with or without a ["Bearer "] prefix (itself followed by any
    white space), parses back to that token. *)
Theorem token_roundtrip `{HexCrate} (t : PhantomToken) (l m r : list string) :
  token_wf t → Forall (λ p, p ∈ white_space) l → Forall (λ p, p ∈ white_space) m →
  Forall (λ p, p ∈ white_space) r →
  token_parse (ws_run l +:+ token_display t +:+ ws_run r) = Some t ∧
  token_parse (ws_run l +:+ ("Bearer " +:+ ws_run m +:+ token_display t) +:+ ws_run r) = Some t.
Proof.
  intros Hwf Hl Hm Hr. rewrite !token_parse_body, body_plain, body_bearer by done.
  unfold token_display. split; (split; [done|]); eexists; (split; [done|]); apply hex_lower_lower.
Qed.

(** Exactness of [parse].  A raw header value parses to [t] exactly when,
    after the white space and the optional ["Bearer "] are removed, it is
    ["phm_"] followed by a string that lowers to the 64-digit hex rendering of
    the 32 bytes of [t]; in particular a longer, shorter or non-hex body is
    always rejected. *)
Theorem token_parse_exact `{HexCrate} (raw : string) (t : PhantomToken) :
  token_parse raw = Some t ↔
  token_wf t ∧
  ∃ h, token_body raw = TOKEN_PREFIX +:+ h ∧ str_len h = TOKEN_HEX_LEN ∧
       str_ascii_lower h = hex_lower (tok_bytes t).
Proof.
  rewrite token_parse_body. split; intros [Hwf (h & Hb & Hl)]; (split; [done|]); exists h.
  - split; [done|]. split; [|done]. by rewrite <- str_len_lower, Hl, hex_lower_len, Hwf.
  - naive_solver.
Qed.

(** ** Lemmas: scopes *)
Lemma strip_suffix_None p s : strip_suffix p s = None ↔ ends_with p s = false.
Proof. unfold strip_suffix, ends_with. by rewrite fmap_None, strip_prefix_None. Qed.
Lemma glob_matches_true g path :
  glob_matches g path = true ↔
  (∃ pre rest, pattern g = pre +:+ "*" ∧ path = pre +:+ rest) ∨
  (ends_with "*" (pattern g) = false ∧ path = pattern g).
Proof.
  unfold glob_matches. destruct (strip_suffix "*" (pattern g)) as [pre|] eqn:E.
  - rewrite starts_with_true. pose proof E as Hp%strip_suffix_Some. split.
    + intros [r ->]. left. eauto.
    + intros [(pre' & rest & Hp' & ->)|[Hn _]].
      * rewrite Hp in Hp'. apply (f_equal str_rev) in Hp'. rewrite !str_rev_app in Hp'.
        apply (inj _), (f_equal str_rev) in Hp'. rewrite !str_rev_involutive in Hp'. subst. eauto.
      * apply strip_suffix_None in Hn. congruence.
  - apply strip_suffix_None in E. rewrite String.eqb_eq. split; [tauto|].
    intros [(pre & rest & Hp & _)|[_ ?]]; [|done].
    assert (ends_with "*" (pattern g) = true) by (apply ends_with_true; eauto). congruence.
Qed.

(** Scope semantics.  A scope allows a path exactly when it lists no glob
    at all, or when some glob either ends in [*] and its text before that [*] is
    a prefix of the path, or does not end in [*] and equals the path.  (A [*]
    anywhere else in a glob is an ordinary character.) *)
Theorem scope_allows_exact (s : Scope) (path : string) :
  allows_path s path = true ↔
  allowed_paths s = [] ∨
  ∃ g, g ∈ allowed_paths s ∧
    ((∃ pre rest, pattern g = pre +:+ "*" ∧ path = pre +:+ rest) ∨
     (ends_with "*" (pattern g) = false ∧ path = pattern g)).
Proof.
  unfold allows_path. rewrite orb_true_iff, existsb_exists.
  setoid_rewrite <- list_elem_of_In. setoid_rewrite glob_matches_true.
  destruct (allowed_paths s); naive_solver.
Qed.

(** The example of the [scopes] field in [routes/sessions.rs] has an inner [*]:
    it does not match the path it is meant for. *)
Theorem doc_scope_example_rejects :
  allows_path (MkScope [MkGlob "/repos/my-org/*/issues*"]) "/repos/my-org/app/issues" = false ∧
  allows_path (MkScope [MkGlob "/repos/my-org/*/issues*"]) "/repos/my-org/*/issues/1" = true.
Proof. done. Qed.

(** ** The in-memory store satisfies the laws *)
#[export] Instance InMemoryTokenStore_laws : TokenStoreLaws InMemoryTokenStore.
Proof.
  refine {| ts_ok := λ s, poisoned s = false; ts_view := inner |}.
  - intros clk rnd sess ten svc sc ttl s Hs. simpl. unfold mem_issue, lock_write. rewrite Hs.
    destruct (resolve_ttl (clk 0) ttl) as [exp|] eqn:E; simpl; eauto.
  - intros clk tok s Hs. simpl. unfold lock_read. rewrite Hs. done.
  - intros tok s Hs. simpl. unfold mem_revoke, lock_write. by rewrite Hs.
  - intros sess s Hs. simpl. unfold mem_revoke_session, lock_write. by rewrite Hs.
Defined.

(** ** Histories of a token store *)
Inductive TokenOp :=
| OIssue (clk : nat → Z) (rnd : list ascii) (sess ten : string) (svc : ServiceId) (sc : Scope) (ttl : option Z)
| OLookup (clk : nat → Z) (tok : PhantomToken)
| ORevoke (tok : PhantomToken)
| ORevokeSession (sess : string).

Definition ts_step `{TokenStore T} (op : TokenOp) (s : T) : option T :=
  match op with
  | OIssue clk rnd sess ten svc sc ttl => snd <$> ts_issue clk rnd sess ten svc sc ttl s
  | OLookup clk tok => Some (ts_lookup clk tok s).2
  | ORevoke tok => Some (ts_revoke tok s)
  | ORevokeSession sess => Some (ts_revoke_session sess s)
  end.
Fixpoint ts_run `{TokenStore T} (ops : list TokenOp) (s : T) : option T :=
  match ops with [] => Some s | op :: ops' => s' ← ts_step op s; ts_run ops' s' end.

(** [op] issues the token with bytes [k], carrying [r]. *)
Definition op_issues (k : list ascii) (r : TokenRecord) (op : TokenOp) : Prop :=
  match op with
  | OIssue clk rnd sess ten svc sc ttl =>
      rnd = k ∧ ∃ exp, resolve_ttl (clk 0) ttl = Some exp ∧ r = MkRecord sess ten svc sc exp
  | _ => False
  end.
(** [op] ends the life of the token with bytes [k] and record [r]: it revokes
    the token or its session, or re-issues the same 256 bits. *)
Definition op_ends (k : list ascii) (r : TokenRecord) (op : TokenOp) : Prop :=
  match op with
  | OIssue _ rnd _ _ _ _ _ => rnd = k
  | OLookup _ _ => False
  | ORevoke tok => tok_bytes tok = k
  | ORevokeSession sess => session_id r = sess
  end.

(** After the history [ops], the token [k] is live with record [r]: some call
    issued it and no later call ended it. *)
Definition issued_live (ops : list TokenOp) (k : list ascii) (r : TokenRecord) : Prop :=
  ∃ pre op post, ops = pre ++ op :: post ∧ op_issues k r op ∧ Forall (λ o, ¬ op_ends k r o) post.

(** The random bytes a call consumes. *)
Definition op_rnd (op : TokenOp) : option (list ascii) :=
  match op with OIssue _ rnd _ _ _ _ _ => Some rnd | _ => None end.

Lemma issued_live_nil k r : ¬ issued_live [] k r.
Proof. intros (pre & op & post & Hnil & _). by destruct pre. Qed.
Lemma issued_live_snoc ops op k r :
  issued_live (ops ++ [op]) k r ↔ op_issues k r op ∨ (issued_live ops k r ∧ ¬ op_ends k r op).
Proof.
  split.
  - intros (pre & o & post & Heq & Hi & Hp). destruct post as [|x post _] using rev_ind.
    + apply app_inj_tail in Heq as [_ ->]. eauto.
    + rewrite app_comm_cons, app_assoc in Heq. apply app_inj_tail in Heq as [-> ->].
      apply Forall_app in Hp as [Hp1 Hp2]. rewrite Forall_singleton in Hp2.
      right. split; [|exact Hp2]. by exists pre, o, post.
  - intros [Hi|[(pre & o & post & -> & Hi & Hp) Hne]].
    + exists ops, op, []. eauto.
    + exists pre, o, (post ++ [op]). split; [by rewrite <- app_assoc|]. split; [done|].
      apply Forall_app. split; [done|]. by apply Forall_singleton.
Qed.
Lemma issued_live_rnd ops k r : issued_live ops k r → k ∈ omap op_rnd ops.
Proof.
  intros (pre & op & post & -> & Hi & _). apply list_elem_of_omap. exists op.
  split; [set_solver|]. destruct op; simpl in *; naive_solver.
Qed.

Lemma ts_run_app `{TokenStore T} (ops1 ops2 : list TokenOp) (s : T) :
  ts_run (ops1 ++ ops2) s = ts_run ops1 s ≫= ts_run ops2.
Proof. revert s. induction ops1 as [|op ops1 IH]; intros s; simpl; [done|]. destruct (ts_step op s); simpl; auto. Qed.
Lemma ts_run_snoc `{TokenStore T} (ops : list TokenOp) (op : TokenOp) (s : T) :
  ts_run (ops ++ [op]) s = ts_run ops s ≫= ts_step op.
Proof. rewrite ts_run_app. destruct (ts_run ops s); simpl; [|done]. by destruct (ts_step op t). Qed.

Section histories.
Context `{TokenStoreLaws T}.

(** One step, on the abstract map. *)
Lemma ts_step_view (op : TokenOp) (s s' : T) :
  ts_ok s → ts_step op s = Some s' →
  ts_ok s' ∧ ∀ k r, ts_view s' !! k = Some r ↔ op_issues k r op ∨ (ts_view s !! k = Some r ∧ ¬ op_ends k r op).
Proof.
  intros Hok. destruct op as [clk rnd sess ten svc sc ttl|clk tok|tok|sess]; simpl.
  - intros ([tok s''] & Hi & ->)%fmap_Some. pose proof (law_issue clk rnd sess ten svc sc ttl s Hok) as Hl.
    rewrite Hi in Hl. destruct Hl as (Hok' & _ & exp & Hexp & Hv). split; [done|]. intros k r. simpl.
    rewrite Hv. rewrite lookup_insert_Some. rewrite Hexp. naive_solver.
  - intros [= <-]. destruct (law_lookup clk tok s Hok) as (_ & ? & ->). split; [done|]. naive_solver.
  - intros [= <-]. destruct (law_revoke tok s Hok) as [? ->]. split; [done|]. intros k r.
    rewrite lookup_delete_Some. naive_solver.
  - intros [= <-]. destruct (law_revoke_session sess s Hok) as [? ->]. split; [done|]. intros k r.
    unfold abs_revoke_session. rewrite map_lookup_filter_Some. naive_solver.
Qed.

Lemma ts_run_view (ops : list TokenOp) (s0 s : T) :
  ts_ok s0 → ts_view s0 = ∅ → ts_run ops s0 = Some s →
  ts_ok s ∧ ∀ k r, ts_view s !! k = Some r ↔ issued_live ops k r.
Proof.
  intros Hok0 Hemp. revert s. induction ops as [|op ops IH] using rev_ind; intros s Hrun.
  { simplify_eq/=. split; [done|]. intros k r. rewrite Hemp, lookup_empty.
    split; [done|]. by intros ?%issued_live_nil. }
  rewrite ts_run_snoc in Hrun. apply bind_Some in Hrun as (s1 & Hrun & Hstep).
  destruct (IH s1 Hrun) as [Hok1 Hv1]. destruct (ts_step_view op s1 s Hok1 Hstep) as [Hok Hv].
  split; [done|]. intros k r. by rewrite Hv, Hv1, issued_live_snoc.
Qed.
End histories.

(** C3: Token-store contract.  For every store that satisfies the [TokenStore]
    laws, started empty and taken through any history of [issue], [lookup],
    [revoke] and [revoke_session] calls: a look-up returns record [r] exactly
    when some earlier [issue] created that token with [r], nothing after it
    revoked the token or its session (or re-issued the same bytes), and [r] is
    not expired at the time of the look-up. *)
Theorem token_store_history `{TokenStoreLaws T} (ops : list TokenOp) (s0 s : T)
    (clk : nat → Z) (tok : PhantomToken) (r : TokenRecord) :
  ts_ok s0 → ts_view s0 = ∅ → ts_run ops s0 = Some s →
  (ts_lookup clk tok s).1 = Some r ↔
  is_expired r (clk 0) = false ∧ issued_live ops (tok_bytes tok) r.
Proof.
  intros Hok Hemp Hrun. destruct (ts_run_view ops s0 s Hok Hemp Hrun) as [Hok' Hv].
  destruct (law_lookup clk tok s Hok') as (-> & _ & _). rewrite <- Hv. unfold live_at.
  destruct (ts_view s !! tok_bytes tok) as [r'|]; simpl; [|split; [done|by intros [_ ?]]].
  destruct (is_expired r' (clk 0)) eqn:E; split.
  - done.
  - intros [Hne [= ->]]. congruence.
  - by intros [= ->].
  - by intros [_ ?].
Qed.

(** ** Witnesses *)
Definition demo_bytes : list ascii := replicate 32 (byte_of 171).
Definition demo_record : TokenRecord := MkRecord "sess_1" "acme" OpenAi scope_any None.
Definition demo_issue : TokenOp := OIssue (λ _, 5%Z) demo_bytes "sess_1" "acme" OpenAi scope_any None.

Lemma token_roundtrip_witness :
  token_parse (ws_run [" "] +:+ ("Bearer " +:+ ws_run [] +:+ token_display (MkToken demo_bytes)) +:+ ws_run [" "])
  = Some (MkToken demo_bytes).
Proof.
  apply (token_roundtrip (MkToken demo_bytes) [" "] [] [" "]);
    repeat first [reflexivity | constructor | vm_compute; constructor].
Defined.

Lemma token_store_history_witness :
  (ts_lookup (λ _, 9%Z) (MkToken demo_bytes)
     (lock_write (λ g, <[demo_bytes := demo_record]> g) mem_new)).1 = Some demo_record.
Proof.
  apply (token_store_history [demo_issue] mem_new
           (lock_write (λ g, <[demo_bytes := demo_record]> g) mem_new)
           (λ _, 9%Z) (MkToken demo_bytes) demo_record); [reflexivity..|].
  split; [reflexivity|]. exists [], demo_issue, []. split; [reflexivity|]. split; [|constructor].
  split; [reflexivity|]. exists None. split; reflexivity.
Defined.
