(* ===== verification/LruCache.v ===== *)
(** * The token cache

    Models [LruInner] and [LruTokenCache] of [agentjail-phantom/src/token.rs]: a
    bounded read-through / write-through cache in front of any [TokenStore].
    [LruInner::order] keeps the insertion order; eviction is FIFO.  The first
    part treats each trait method as one step; the last section splits
    [lookup] and [revoke] at their lock acquisitions and lets them interleave. *)

From S2P Require Import Prelude Keys Token.

(** ** [LruInner] *)
Record LruInner := MkLru {
  lru_map : gmap (list ascii) TokenRecord;
  lru_order : list (list ascii)
}.

Definition lru_inner_new : LruInner := MkLru ∅ [].

(** The eviction loop; it ends because each round shortens [order]. *)
Fixpoint lru_evict (capacity : nat) (m : gmap (list ascii) TokenRecord) (order : list (list ascii)) : LruInner :=
  if decide (capacity < size m) then
    match order with
    | [] => MkLru m []
    | evicted :: order' => lru_evict capacity (delete evicted m) order'
    end
  else MkLru m order.

Definition lru_put (key : list ascii) (rec : TokenRecord) (capacity : nat) (c : LruInner) : LruInner :=
  let order := match lru_map c !! key with
               | None => lru_order c ++ [key]
               | Some _ => lru_order c
               end in
  lru_evict capacity (<[key := rec]> (lru_map c)) order.

Definition lru_remove (key : list ascii) (c : LruInner) : LruInner :=
  MkLru (delete key (lru_map c)) (lru_order c).

Definition lru_clear_session (sess : string) (c : LruInner) : LruInner :=
  MkLru (filter (λ kv, session_id kv.2 ≠ sess) (lru_map c)) (lru_order c).

(** ** [LruTokenCache] *)
Record LruTokenCache (I : Type) := MkCache {
  cache_inner : I;
  cache : LruInner;
  capacity : nat
}.
Arguments MkCache {I}.
Arguments cache_inner {I}.
Arguments cache {I}.
Arguments capacity {I}.

Definition lru_new {I} (i : I) (cap : nat) : LruTokenCache I :=
  MkCache i lru_inner_new (cap `max` 1).

Section ops.
Context {I : Type} `{TokenStore I}.

Definition lru_issue (clk : nat → Z) (rnd : list ascii) (sess tenant : string)
    (svc : ServiceId) (sc : Scope) (ttl : option Z) (s : LruTokenCache I)
    : option (PhantomToken * LruTokenCache I) :=
  '(token, i) ← ts_issue clk rnd sess tenant svc sc ttl (cache_inner s);
  (* the clock is read again by the [lookup] below *)
  let '(o, i) := ts_lookup (λ n, clk (S n)) token i in
  Some (token,
    match o with
    | Some rec => MkCache i (lru_put (tok_bytes token) rec (capacity s) (cache s)) (capacity s)
    | None => MkCache i (cache s) (capacity s)
    end).

Definition lru_lookup (clk : nat → Z) (token : PhantomToken) (s : LruTokenCache I)
    : option TokenRecord * LruTokenCache I :=
  match lru_map (cache s) !! tok_bytes token with
  | Some rec => (Some rec, s)
  | None =>
      let '(o, i) := ts_lookup clk token (cache_inner s) in
      match o with
      | None => (None, MkCache i (cache s) (capacity s))
      | Some rec =>
          (Some rec, MkCache i (lru_put (tok_bytes token) rec (capacity s) (cache s)) (capacity s))
      end
  end.

Definition lru_revoke (token : PhantomToken) (s : LruTokenCache I) : LruTokenCache I :=
  MkCache (ts_revoke token (cache_inner s)) (lru_remove (tok_bytes token) (cache s)) (capacity s).

Definition lru_revoke_session (sess : string) (s : LruTokenCache I) : LruTokenCache I :=
  MkCache (ts_revoke_session sess (cache_inner s)) (lru_clear_session sess (cache s)) (capacity s).

#[export] Instance LruTokenCache_TokenStore : TokenStore (LruTokenCache I) := {|
  ts_issue := lru_issue;
  ts_lookup := lru_lookup;
  ts_revoke := lru_revoke;
  ts_revoke_session := lru_revoke_session |}.
End ops.

(** ** Invariants

    [lru_wf]: every cached key is queued for eviction, and the bound holds. *)
Definition queued (m : gmap (list ascii) TokenRecord) (order : list (list ascii)) : Prop :=
  ∀ k, is_Some (m !! k) → k ∈ order.
Definition lru_wf (cap : nat) (c : LruInner) : Prop :=
  queued (lru_map c) (lru_order c) ∧ size (lru_map c) ≤ cap.

Lemma queued_delete m order k : queued m (k :: order) → queued (delete k m) order.
Proof. intros Hq j [r [Hne Hr]%lookup_delete_Some]. specialize (Hq j ltac:(eauto)). set_solver. Qed.

Lemma lru_evict_spec cap m order :
  queued m order →
  lru_wf cap (lru_evict cap m order) ∧ lru_map (lru_evict cap m order) ⊆ m.
Proof.
  revert m. induction order as [|k order IH]; intros m Hq; simpl; case_decide as Hd.
  - destruct (map_choose m) as (j & r & Hj).
    { intros ->. rewrite map_size_empty in Hd. lia. }
    by pose proof (Hq j ltac:(eauto)) as Hin%not_elem_of_nil.
  - split; [split; simpl; [done|lia]|done].
  - destruct (IH _ (queued_delete m order k Hq)) as [Hwf Hsub]. split; [done|].
    etrans; [exact Hsub|apply delete_subseteq].
  - split; [split; simpl; [done|lia]|done].
Qed.
(** The loop does nothing within capacity. *)
Lemma lru_evict_fits cap m order : size m ≤ cap → lru_evict cap m order = MkLru m order.
Proof. intros Hle. destruct order; simpl; case_decide; (lia || done). Qed.

Lemma queued_put key rec c :
  queued (lru_map c) (lru_order c) →
  queued (<[key := rec]> (lru_map c))
    (match lru_map c !! key with None => lru_order c ++ [key] | Some _ => lru_order c end).
Proof.
  intros Hq k [r Hk]. destruct (decide (k = key)) as [->|Hne].
  - destruct (lru_map c !! key) eqn:E; [apply Hq; eauto|set_solver].
  - rewrite lookup_insert_ne in Hk by done. pose proof (Hq k ltac:(eauto)).
    destruct (lru_map c !! key); set_solver.
Qed.

Lemma lru_put_ok key rec cap c :
  lru_wf cap c →
  lru_wf cap (lru_put key rec cap c) ∧ lru_map (lru_put key rec cap c) ⊆ <[key := rec]> (lru_map c).
Proof. intros [Hq _]. unfold lru_put. apply lru_evict_spec. by apply queued_put. Qed.
Lemma lru_remove_wf key cap c : lru_wf cap c → lru_wf cap (lru_remove key c).
Proof.
  intros [Hq Hs]. split; simpl.
  - intros k [r [_ Hk]%lookup_delete_Some]. apply Hq. eauto.
  - etrans; [|exact Hs]. apply map_subseteq_size, delete_subseteq.
Qed.
Lemma lru_clear_session_wf sess cap c : lru_wf cap c → lru_wf cap (lru_clear_session sess c).
Proof.
  intros [Hq Hs]. split; simpl.
  - intros k [r [Hk _]%map_lookup_filter_Some]. apply Hq. eauto.
  - etrans; [|exact Hs]. apply map_subseteq_size, map_filter_subseteq.
Qed.
#[export] Hint Resolve lru_remove_wf lru_clear_session_wf : rust.

(** ** Coherence with the inner store *)
Section coherence.
Context {I : Type} `{TokenStoreLaws I}.

Definition lru_ok (s : LruTokenCache I) : Prop :=
  ts_ok (cache_inner s) ∧ lru_wf (capacity s) (cache s) ∧
  lru_map (cache s) ⊆ ts_view (cache_inner s).

Lemma lru_put_coherent (key : list ascii) (rec : TokenRecord) (cap : nat) (c : LruInner) (v : gmap (list ascii) TokenRecord) :
  lru_wf cap c → lru_map c ⊆ v → v !! key = Some rec →
  lru_wf cap (lru_put key rec cap c) ∧ lru_map (lru_put key rec cap c) ⊆ v.
Proof.
  intros Hwf Hsub Hv. destruct (lru_put_ok key rec cap c Hwf) as [Hwf' Hs]. split; [done|].
  etrans; [exact Hs|]. by apply insert_subseteq_l.
Qed.

Definition op_fresh (op : TokenOp) (v : gmap (list ascii) TokenRecord) : Prop :=
  match op with OIssue _ rnd _ _ _ _ _ => v !! rnd = None | _ => True end.

Lemma live_at_Some now r r' : live_at now r = Some r' → r' = r ∧ is_expired r now = false.
Proof. unfold live_at. destruct (is_expired r now) eqn:E; naive_solver. Qed.

(** One call on the cached store moves the inner store's abstract map exactly
    as the call prescribes and keeps the cache coherent. *)
Lemma lru_step_view (op : TokenOp) (s s' : LruTokenCache I) :
  lru_ok s → op_fresh op (ts_view (cache_inner s)) → ts_step op s = Some s' →
  lru_ok s' ∧ ∀ k r, ts_view (cache_inner s') !! k = Some r ↔
    op_issues k r op ∨ (ts_view (cache_inner s) !! k = Some r ∧ ¬ op_ends k r op).
Proof.
  intros (Hok & Hwf & Hsub) Hfresh. destruct op as [clk rnd sess ten svc sc ttl|clk tok|tok|sess]; simpl.
  - intros ([tok s1] & Hi & ->)%fmap_Some. unfold lru_issue in Hi.
    apply bind_Some in Hi as ([tok' i] & Hi & Hlk). simpl in Hfresh.
    pose proof (ts_step_view (OIssue clk rnd sess ten svc sc ttl) (cache_inner s) i Hok) as Hstep.
    simpl in Hstep. rewrite Hi in Hstep. destruct (Hstep eq_refl) as [Hok1 Hv1]. clear Hstep.
    pose proof (law_issue clk rnd sess ten svc sc ttl _ Hok) as Hl. rewrite Hi in Hl.
    destruct Hl as (_ & Htok & exp & _ & Hview).
    destruct (law_lookup (λ n, clk (S n)) tok' i Hok1) as (Hres & Hok2 & Hv2).
    assert (lru_map (cache s) ⊆ ts_view i) as Hsub1.
    { rewrite Hview. etrans; [exact Hsub|]. by apply insert_subseteq. }
    destruct (ts_lookup (λ n, clk (S n)) tok' i) as [o i2]. simpl in *.
    rewrite <- Hv2 in Hsub1. destruct o as [rec|]; simplify_eq/=.
    + symmetry in Hres. apply bind_Some in Hres as (r' & Hr' & [-> _]%live_at_Some).
      destruct (lru_put_coherent (tok_bytes tok) r' (capacity s) (cache s) (ts_view i2) Hwf Hsub1) as [? ?].
      { by rewrite Hv2. }
      split; [done|]. intros k r. rewrite Hv2. apply Hv1.
    + split; [done|]. intros k r. rewrite Hv2. apply Hv1.
  - intros [= <-]. unfold lru_lookup. destruct (lru_map (cache s) !! tok_bytes tok) as [rec|] eqn:Hc.
    { split; [done|]. naive_solver. }
    destruct (law_lookup clk tok (cache_inner s) Hok) as (Hres & Hok2 & Hv2).
    destruct (ts_lookup clk tok (cache_inner s)) as [[rec|] i2]; simpl in *; rewrite <- Hv2 in Hsub.
    + symmetry in Hres. apply bind_Some in Hres as (r' & Hr' & [-> _]%live_at_Some).
      destruct (lru_put_coherent (tok_bytes tok) r' (capacity s) (cache s) (ts_view i2) Hwf Hsub) as [? ?].
      { by rewrite Hv2. }
      split; [done|]. simpl. rewrite Hv2. naive_solver.
    + split; [done|]. simpl. rewrite Hv2. naive_solver.
  - intros [= <-]. destruct (ts_step_view (ORevoke tok) _ _ Hok eq_refl) as [Hok1 Hv1].
    destruct (law_revoke tok _ Hok) as [_ Hview]. split; [|exact Hv1].
    split; [done|]. split; [simpl; auto with rust|]. simpl. rewrite Hview. by apply delete_mono.
  - intros [= <-]. destruct (ts_step_view (ORevokeSession sess) _ _ Hok eq_refl) as [Hok1 Hv1].
    destruct (law_revoke_session sess _ Hok) as [_ Hview]. split; [|exact Hv1].
    split; [done|]. split; [simpl; auto with rust|]. simpl. rewrite Hview.
    by apply map_filter_subseteq_mono.
Qed.

Lemma lru_run_view (ops : list TokenOp) (s0 s : LruTokenCache I) :
  lru_ok s0 → ts_view (cache_inner s0) = ∅ → NoDup (omap op_rnd ops) → ts_run ops s0 = Some s →
  lru_ok s ∧ ∀ k r, ts_view (cache_inner s) !! k = Some r ↔ issued_live ops k r.
Proof.
  intros Hok0 Hemp. revert s. induction ops as [|op ops IH] using rev_ind; intros s Hnd Hrun.
  { simplify_eq/=. split; [done|]. intros k r. rewrite Hemp, lookup_empty.
    split; [done|]. by intros ?%issued_live_nil. }
  rewrite ts_run_snoc in Hrun. apply bind_Some in Hrun as (s1 & Hrun & Hstep).
  rewrite omap_app in Hnd. apply NoDup_app in Hnd as (Hnd1 & Hdisj & _).
  destruct (IH s1 Hnd1 Hrun) as [Hok1 Hv1].
  assert (op_fresh op (ts_view (cache_inner s1))) as Hfresh.
  { destruct op as [clk rnd ? ? ? ? ?| | |]; simpl; try done.
    destruct (ts_view (cache_inner s1) !! rnd) as [r|] eqn:E; [|done].
    exfalso. apply Hv1, issued_live_rnd in E. apply (Hdisj rnd E). set_solver. }
  destruct (lru_step_view op s1 s Hok1 Hfresh Hstep) as [Hok Hv].
  split; [done|]. intros k r. by rewrite Hv, Hv1, issued_live_snoc.
Qed.
End coherence.

Section theorems.
Context {I : Type} `{TokenStoreLaws I}.

Lemma lru_new_ok (i0 : I) (cap : nat) : ts_ok i0 → lru_ok (lru_new i0 cap).
Proof.
  intros Hok. split; [done|]. split; [split|]; simpl; [|rewrite map_size_empty; lia|apply map_empty_subseteq].
  intros k [x Hx]. by rewrite lookup_empty in Hx.
Qed.

Lemma lru_lookup_spec (clk : nat → Z) (tok : PhantomToken) (s : LruTokenCache I) :
  lru_ok s →
  (lru_lookup clk tok s).1 =
    match lru_map (cache s) !! tok_bytes tok with
    | Some r => Some r
    | None => ts_view (cache_inner s) !! tok_bytes tok ≫= live_at (clk 0)
    end.
Proof.
  intros (Hok & _ & _). unfold lru_lookup. destruct (lru_map (cache s) !! tok_bytes tok); [done|].
  destruct (law_lookup clk tok (cache_inner s) Hok) as (<- & _ & _).
  by destruct (ts_lookup clk tok (cache_inner s)) as [[r|] i].
Qed.
End theorems.

(** C14: Cache transparency up to expiry.  Put the cache in front of any lawful
    store, start empty, and run any history in which the CSPRNG never repeats:
    a look-up through the cache returns a record only if that token was issued
    with it and neither the token nor its session has been revoked since
    (revocation is never masked by the cache); and it does return the record
    whenever, in addition, the record is unexpired. *)
Theorem lru_history {I} `{TokenStoreLaws I} (ops : list TokenOp) (i0 : I) (cap : nat)
    (s : LruTokenCache I) (clk : nat → Z) (tok : PhantomToken) (r : TokenRecord) :
  ts_ok i0 → ts_view i0 = ∅ → NoDup (omap op_rnd ops) → ts_run ops (lru_new i0 cap) = Some s →
  ((ts_lookup clk tok s).1 = Some r → issued_live ops (tok_bytes tok) r) ∧
  (issued_live ops (tok_bytes tok) r → is_expired r (clk 0) = false → (ts_lookup clk tok s).1 = Some r).
Proof.
  intros Hok Hemp Hnd Hrun. destruct (lru_run_view ops (lru_new i0 cap) s) as [Hok' Hv]; [by apply lru_new_ok|done..|].
  simpl. rewrite lru_lookup_spec by done. rewrite <- Hv. pose proof Hok' as (_ & _ & Hsub).
  destruct (lru_map (cache s) !! tok_bytes tok) as [r'|] eqn:Hc.
  - pose proof (lookup_weaken _ _ _ _ Hc Hsub) as Hw. rewrite Hw. naive_solver.
  - split.
    + by intros (r' & Hr' & [-> _]%live_at_Some)%bind_Some.
    + intros -> Hne. simpl. unfold live_at. by rewrite Hne.
Qed.

(** Cache bound.  Along any such history the cache holds at most
    [max(capacity, 1)] entries, every cached key is queued for eviction, and
    every cached entry is the inner store's current record for that key. *)
Theorem lru_bound {I} `{TokenStoreLaws I} (ops : list TokenOp) (i0 : I) (cap : nat) (s : LruTokenCache I) :
  ts_ok i0 → ts_view i0 = ∅ → NoDup (omap op_rnd ops) → ts_run ops (lru_new i0 cap) = Some s →
  size (lru_map (cache s)) ≤ cap `max` 1 ∧
  (∀ k, is_Some (lru_map (cache s) !! k) → k ∈ lru_order (cache s)) ∧
  lru_map (cache s) ⊆ ts_view (cache_inner s).
Proof.
  intros Hok Hemp Hnd Hrun. destruct (lru_run_view ops (lru_new i0 cap) s) as [(_ & [Hq Hs] & Hsub) _]; [by apply lru_new_ok|done..|].
  assert (capacity s = cap `max` 1) as Hcap; [|by rewrite Hcap in Hs].
  clear -Hrun. change (cap `max` 1) with (capacity (lru_new i0 cap)).
  revert Hrun. generalize (lru_new i0 cap). induction ops as [|op ops IH]; intros s0; simpl; [naive_solver|].
  intros (s1 & Hstep & Hrun)%bind_Some. rewrite (IH s1 Hrun).
  destruct op; simpl in Hstep; [|injection Hstep as <-..]; [|unfold lru_lookup|done..].
  - apply fmap_Some in Hstep as ([t s2] & Hi & ->). unfold lru_issue in Hi.
    apply bind_Some in Hi as ([t' i'] & _ & Hi). destruct (ts_lookup _ t' i') as [[?|] ?]; naive_solver.
  - repeat case_match; done.
Qed.

(** ** Where the cache departs from the store it wraps *)

(** A record put into an empty cache of capacity at least one stays. *)
Lemma lru_put_empty key rec cap order :
  1 ≤ cap → lru_put key rec cap (MkLru ∅ order) = MkLru {[key := rec]} (order ++ [key]).
Proof.
  intros Hc. unfold lru_put. simpl. rewrite lookup_empty, insert_empty.
  apply lru_evict_fits. by rewrite map_size_singleton.
Qed.

(** Expired tokens are served from the cache.  Issue a token with time to
    live [d] through the cache; at every time [t] after its expiry the cache
    still resolves it, although the record says it is expired and the wrapped
    store refuses it.  ([TokenStore::lookup] is documented to return [None] for
    an expired token; [LruTokenCache::lookup] never looks at [expires_at] on a
    hit.) *)
Theorem lru_serves_expired (cap : nat) (rnd : list ascii) (sess ten : string) (svc : ServiceId)
    (sc : Scope) (d t0 t1 t : Z) :
  (t0 ≤ t1 < t0 + d)%Z → (t0 + d ≤ t)%Z → ((t0 + d) / 10 ^ 9 ≤ 2 ^ 63 - 1)%Z →
  ∃ tok s r,
    ts_issue (λ n, match n with O => t0 | _ => t1 end) rnd sess ten svc sc (Some d) (lru_new mem_new cap)
      = Some (tok, s) ∧
    (ts_lookup (λ _, t) tok s).1 = Some r ∧ is_expired r t = true ∧
    (ts_lookup (λ _, t) tok (cache_inner s)).1 = None.
Proof.
  intros H1 H2 H3. simpl. unfold lru_issue. simpl. unfold mem_issue, resolve_ttl, systime_add.
  replace ((t0 + d) / 10 ^ 9 <=? 2 ^ 63 - 1)%Z with true by lia. simpl.
  rewrite insert_empty, lookup_singleton_eq. simpl. unfold is_expired at 1. simpl.
  replace (t0 + d <=? t1)%Z with false by lia. simpl.
  unfold lru_inner_new. rewrite lru_put_empty by lia.
  eexists _, _, _. split; [done|]. unfold lru_lookup, is_expired. simpl.
  rewrite lookup_singleton_eq. split; [done|]. simpl.
  rewrite lookup_insert_eq. simpl. by replace (t0 + d <=? t)%Z with true by lia.
Qed.

(** One session's life: a token is issued, then the session is deleted. *)
Definition session_cycle (sess : string) (rnd : list ascii) : list TokenOp :=
  [OIssue (λ _, 0%Z) rnd sess "acme" OpenAi scope_any None; ORevokeSession sess].

(** The eviction queue leaks.  After any number of sessions were created
    and deleted, the cache map is empty but the [order] queue still holds one
    key per token ever issued: [LruInner::remove] and [clear_session] leave the
    key queued, and the queue is drained only while the map is over capacity. *)
Theorem lru_order_leak (sess : string) (rnds : list (list ascii)) (cap : nat) :
  ∃ s, ts_run (rnds ≫= session_cycle sess) (lru_new mem_new cap) = Some s ∧
       lru_map (cache s) = ∅ ∧ lru_order (cache s) = rnds.
Proof.
  exists (MkCache mem_new (MkLru ∅ rnds) (cap `max` 1)). split; [|done].
  assert (∀ q, ts_run (rnds ≫= session_cycle sess) (MkCache mem_new (MkLru ∅ q) (cap `max` 1))
               = Some (MkCache mem_new (MkLru ∅ (q ++ rnds)) (cap `max` 1))) as Hgen; [|by apply (Hgen [])].
  induction rnds as [|rnd rnds IH]; intros q; [by rewrite app_nil_r|]. simpl.
  unfold lru_issue. simpl. unfold lock_write. simpl. rewrite insert_empty, lookup_singleton_eq. simpl.
  rewrite lru_put_empty by lia. unfold lru_revoke_session. simpl. unfold lru_clear_session. simpl.
  assert (∀ r : TokenRecord, session_id r = sess →
            filter (λ kv : list ascii * TokenRecord, session_id kv.2 ≠ sess) ({[rnd := r]} : gmap (list ascii) TokenRecord) = ∅) as Hf.
  { intros r <-. rewrite map_filter_singleton. by case_decide. }
  unfold mem_revoke_session, lock_write. simpl. rewrite !Hf by done.
  etrans; [exact (IH (q ++ [rnd]))|]. by rewrite <- app_assoc.
Qed.

(** ** Interleaving [lookup] with [revoke]

    Both methods take the locks one after the other: [lookup] reads the cache,
    asks the inner store, then writes the cache; [revoke] updates the inner
    store, then the cache.  Each constructor is one such atomic section. *)
Inductive lookup_pc :=
| LStart
| LMissed
| LFetched (r : TokenRecord)
| LDone (o : option TokenRecord).
Inductive revoke_pc := RStart | RInner | RDone.

Section race.
Context {I : Type} `{TokenStore I}.
Variables (clk : nat → Z) (tok : PhantomToken).

Record race := MkRace { race_store : LruTokenCache I; race_l : lookup_pc; race_r : revoke_pc }.

Inductive race_step : race → race → Prop :=
| race_hit s r q :
    lru_map (cache s) !! tok_bytes tok = Some r →
    race_step (MkRace s LStart q) (MkRace s (LDone (Some r)) q)
| race_miss s q :
    lru_map (cache s) !! tok_bytes tok = None →
    race_step (MkRace s LStart q) (MkRace s LMissed q)
| race_fetch s q o i :
    ts_lookup clk tok (cache_inner s) = (o, i) →
    race_step (MkRace s LMissed q)
      (MkRace (MkCache i (cache s) (capacity s))
         (match o with Some r => LFetched r | None => LDone None end) q)
| race_put s r q :
    race_step (MkRace s (LFetched r) q)
      (MkRace (MkCache (cache_inner s) (lru_put (tok_bytes tok) r (capacity s) (cache s)) (capacity s))
         (LDone (Some r)) q)
| race_revoke_inner s l :
    race_step (MkRace s l RStart)
      (MkRace (MkCache (ts_revoke tok (cache_inner s)) (cache s) (capacity s)) l RInner)
| race_revoke_cache s l :
    race_step (MkRace s l RInner)
      (MkRace (MkCache (cache_inner s) (lru_remove (tok_bytes tok) (cache s)) (capacity s)) l RDone).
End race.

(** A revoked token can come back.  For every lawful inner store holding a
    live token, some interleaving of one [lookup] with one [revoke] ends, with
    both calls complete, in a state where the inner store no longer knows the
    token but every later [lookup] through the cache resolves it: the read
    fetched the record before the revocation and wrote it to the cache after. *)
Theorem lru_revoke_race {I} `{TokenStoreLaws I} (i0 : I) (cap : nat) (clk : nat → Z)
    (tok : PhantomToken) (r : TokenRecord) :
  ts_ok i0 → ts_view i0 !! tok_bytes tok = Some r → is_expired r (clk 0) = false →
  ∃ s, rtc (race_step clk tok) (MkRace (lru_new i0 cap) LStart RStart) (MkRace s (LDone (Some r)) RDone) ∧
       (∀ clk', (ts_lookup clk' tok (cache_inner s)).1 = None) ∧
       (∀ clk', (ts_lookup clk' tok s).1 = Some r).
Proof.
  intros Hok Hv Hne. destruct (law_lookup clk tok i0 Hok) as (Hres & Hok1 & Hv1).
  destruct (ts_lookup clk tok i0) as [o i1] eqn:Hlk. simpl in *.
  rewrite Hv in Hres. simpl in Hres. unfold live_at in Hres. rewrite Hne in Hres. subst o.
  destruct (law_revoke tok i1 Hok1) as [Hok2 Hv2].
  exists (MkCache (ts_revoke tok i1) (lru_put (tok_bytes tok) r (cap `max` 1) (MkLru ∅ [])) (cap `max` 1)).
  split; [|split].
  - eapply rtc_l; [by apply race_miss|]. eapply rtc_l; [by apply race_fetch|]. simpl.
    eapply rtc_l; [apply race_revoke_inner|]. eapply rtc_l; [apply race_revoke_cache|]. simpl.
    eapply rtc_l; [apply race_put|]. simpl. unfold lru_remove, lru_inner_new. simpl.
    rewrite delete_empty. apply rtc_refl.
  - intros clk'. simpl. destruct (law_lookup clk' tok _ Hok2) as (-> & _ & _).
    by rewrite Hv2, lookup_delete_eq.
  - intros clk'. simpl. unfold lru_lookup. simpl. rewrite lru_put_empty by lia. simpl.
    by rewrite lookup_singleton_eq.
Qed.

(** ** Witnesses *)
Definition demo_ops : list TokenOp := [demo_issue].

Lemma lru_history_witness :
  ∃ s, ts_run demo_ops (lru_new mem_new 4) = Some s ∧
       (ts_lookup (λ _, 9%Z) (MkToken demo_bytes) s).1 = Some demo_record.
Proof.
  eexists. split; [reflexivity|].
  apply (lru_history demo_ops mem_new 4 _ (λ _, 9%Z) (MkToken demo_bytes) demo_record);
    [reflexivity|reflexivity| |reflexivity| |reflexivity].
  - apply NoDup_singleton.
  - exists [], demo_issue, []. split; [reflexivity|]. split; [|constructor].
    split; [reflexivity|]. exists None. split; reflexivity.
Defined.

Lemma lru_bound_witness :
  ∃ s, ts_run demo_ops (lru_new mem_new 4) = Some s ∧ size (lru_map (cache s)) ≤ 4 `max` 1.
Proof.
  eexists. split; [reflexivity|].
  apply (lru_bound demo_ops mem_new 4 _); [reflexivity|reflexivity|apply NoDup_singleton|reflexivity].
Defined.

Lemma lru_serves_expired_witness :
  ∃ tok s r,
    ts_issue (λ n, match n with O => 10%Z | _ => 11%Z end) demo_bytes "sess_1" "acme" OpenAi scope_any
      (Some 5%Z) (lru_new mem_new 4) = Some (tok, s) ∧
    (ts_lookup (λ _, 100%Z) tok s).1 = Some r ∧ is_expired r 100 = true ∧
    (ts_lookup (λ _, 100%Z) tok (cache_inner s)).1 = None.
Proof. apply (lru_serves_expired 4 demo_bytes "sess_1" "acme" OpenAi scope_any 5 10 11 100); vm_compute; intuition discriminate. Defined.

Lemma lru_revoke_race_witness :
  ∃ s, rtc (race_step (λ _, 0%Z) (MkToken demo_bytes))
         (MkRace (lru_new (lock_write (λ g, <[demo_bytes := demo_record]> g) mem_new) 4) LStart RStart)
         (MkRace s (LDone (Some demo_record)) RDone) ∧
       (∀ clk', (ts_lookup clk' (MkToken demo_bytes) (cache_inner s)).1 = None) ∧
       (∀ clk', (ts_lookup clk' (MkToken demo_bytes) s).1 = Some demo_record).
Proof.
  apply (lru_revoke_race (lock_write (λ g, <[demo_bytes := demo_record]> g) mem_new) 4 (λ _, 0%Z)
           (MkToken demo_bytes) demo_record); reflexivity.
Defined.
