(* ===== verification/Provider.v ===== *)
(** * Upstream providers

    Models [agentjail-phantom/src/provider.rs], [src/providers/*.rs] and the
    error type of [src/error.rs].  [http::HeaderMap] and [HeaderValue] are
    third-party: they are the class [HttpCrate], whose laws are the documented
    behaviour of [get], [get_all], [insert], [remove], [contains_key], iteration
    and of [HeaderValue].  Header names are in the lower-case form [HeaderName]
    normalises to. *)

From S2P Require Import Prelude Keys Token.

(** ** The [http] crate *)
Class HttpCrate (H V : Type) := {
  hv_from_str : string → option V;
  hv_to_str : V → option string;
  hv_set_sensitive : V → V;
  hv_is_sensitive : V → bool;
  hm_empty : H;
  hm_get_all : string → H → list V;
  hm_insert : string → V → H → H;
  hm_remove : string → H → H;
  hm_iter : H → list (string * V);
  hv_from_to s v : hv_from_str s = Some v → hv_to_str v = Some s;
  hv_sensitive_str v : hv_to_str (hv_set_sensitive v) = hv_to_str v;
  hv_sensitive_set v : hv_is_sensitive (hv_set_sensitive v) = true;
  hm_get_all_empty n : hm_get_all n hm_empty = [];
  hm_get_all_insert n n' v h :
    hm_get_all n (hm_insert n' v h) = if decide (n = n') then [v] else hm_get_all n h;
  hm_get_all_remove n n' h :
    hm_get_all n (hm_remove n' h) = if decide (n = n') then [] else hm_get_all n h;
  hm_iter_all n h : (filter (λ kv, kv.1 = n) (hm_iter h)).*2 = hm_get_all n h
}.
(** [headers.get(n)]: the first value. [headers.contains_key(n)] *)
Definition hm_get `{HttpCrate H V} (n : string) (h : H) : option V := head (hm_get_all n h).
Definition hm_contains_key `{HttpCrate H V} (n : string) (h : H) : bool :=
  match hm_get_all n h with [] => false | _ => true end.

(** Copying a header map with [insert], without the names in [skip]. *)
Definition copy_except `{HttpCrate H V} (skip : string → bool) (resp : H) : H :=
  foldl (λ h kv, if skip kv.1 then h else hm_insert kv.1 kv.2 h) hm_empty (hm_iter resp).
Lemma copy_except_get_all `{HttpCrate H V} (skip : string → bool) n (resp : H) :
  hm_get_all n (copy_except skip resp) = if skip n then [] else option_list (last (hm_get_all n resp)).
Proof.
  unfold copy_except. rewrite <- (hm_iter_all n resp).
  set (f := λ h (kv : string * V), if skip kv.1 then h else hm_insert kv.1 kv.2 h).
  assert (∀ l h, hm_get_all n (foldl f h l) =
    if skip n then hm_get_all n h
    else match last (filter (λ kv : string * V, kv.1 = n) l).*2 with Some v => [v] | None => hm_get_all n h end) as Hg.
  { intros l. induction l as [|[k v] l IH] using rev_ind; intros h; [by case_match|].
    rewrite foldl_app. simpl. unfold f at 1. simpl. rewrite filter_app, fmap_app, filter_cons, filter_nil. simpl.
    destruct (decide (k = n)) as [->|Hne].
    - destruct (skip n) eqn:E; [by rewrite IH, ?E|].
      simpl. rewrite last_snoc, hm_get_all_insert. by rewrite decide_True.
    - simpl. rewrite app_nil_r.
      destruct (skip k); [|rewrite hm_get_all_insert, decide_False by done]; by rewrite IH. }
  rewrite Hg, hm_get_all_empty. case_match; [done|]. by case_match.
Qed.

(** A concrete header map: an association list of visible-ASCII values. *)
Record HeaderValue := MkHV { hv_str : string; hv_sens : bool }.
Definition visible (a : ascii) : bool := in_range 32 126 a || (byte_val a =? 9)%Z.
Definition list_headers : Type := list (string * HeaderValue).

#[export] Instance http_ref : HttpCrate list_headers HeaderValue.
Proof.
  refine {|
    hv_from_str s := if str_forallb visible s then Some (MkHV s false) else None;
    hv_to_str v := Some (hv_str v);
    hv_set_sensitive v := MkHV (hv_str v) true;
    hv_is_sensitive := hv_sens;
    hm_empty := [] : list_headers;
    hm_get_all n h := (filter (λ kv : string * HeaderValue, kv.1 = n) h).*2;
    hm_insert n v h := filter (λ kv : string * HeaderValue, kv.1 ≠ n) h ++ [(n, v)];
    hm_remove n h := filter (λ kv : string * HeaderValue, kv.1 ≠ n) h;
    hm_iter h := h |}; [|done..| | |done].
  - intros s v. case_match; [|done]. by intros [= <-].
  - intros n n' v h. unfold list_headers in *. rewrite filter_app, fmap_app, list_filter_filter. simpl.
    rewrite filter_cons, filter_nil. simpl. repeat case_decide; simplify_eq/=.
    + rewrite filter_none; [done|]. intros [x y] _. naive_solver.
    + rewrite app_nil_r. f_equal. apply list_filter_iff. intros [x y]. naive_solver.
  - intros n n' h. unfold list_headers in *. rewrite list_filter_filter. case_decide as Hd; subst.
    + rewrite filter_none; [done|]. intros [x y] _. naive_solver.
    + f_equal. apply list_filter_iff. intros [x y]. naive_solver.
Defined.

(** ** Errors ([error.rs]); addresses and I/O errors are their rendering. *)
Inductive PhantomError :=
| EBind (addr source : string)
| DuplicateProvider (name : string)
| MissingKey (name : string)
| Config (msg : string)
| EIo (source : string).
Definition perror_display (e : PhantomError) : string :=
  match e with
  | EBind a s => "bind " +:+ a +:+ ": " +:+ s
  | DuplicateProvider n => "duplicate provider: " +:+ n
  | MissingKey n => "no key configured for service " +:+ n
  | Config m => "config: " +:+ m
  | EIo s => "io: " +:+ s
  end.

(** Header names used by the code *)
Definition AUTHORIZATION : string := "authorization".
Definition X_API_KEY : string := "x-api-key".
Definition ANTHROPIC_VERSION : string := "anthropic-version".

Section providers.
Context {H V : Type} `{HttpCrate H V}.
Local Open Scope rust_scope.

(** ** The [Provider] trait (an object: its methods) *)
Record Provider := MkProvider {
  prov_id : ServiceId;
  upstream_base : string;
  inject_auth : H → SecretString → outcome PhantomError H;
  strip_client_headers : H → H
}.

Definition strip_standard_client_headers (h : H) : H :=
  let h := hm_remove AUTHORIZATION h in
  let h := hm_remove X_API_KEY h in
  let h := hm_remove "connection" h in
  let h := hm_remove "proxy-authenticate" h in
  let h := hm_remove "proxy-authorization" h in
  let h := hm_remove "te" h in
  let h := hm_remove "trailer" h in
  let h := hm_remove "transfer-encoding" h in
  let h := hm_remove "upgrade" h in
  let h := hm_remove "host" h in
  h.

Definition set_bearer (h : H) (secret : SecretString) : outcome PhantomError H :=
  let value := "Bearer " +:+ expose secret in
  let? v := ok_or (hv_from_str value) (Config "upstream secret not valid header") in
  let v := hv_set_sensitive v in
  Ok (hm_insert AUTHORIZATION v h).

Definition set_api_key_header (h : H) (header : string) (secret : SecretString) : outcome PhantomError H :=
  let? v := ok_or (hv_from_str (expose secret)) (Config "upstream secret not valid header") in
  let v := hv_set_sensitive v in
  Ok (hm_insert header v h).

(** ** The built-in providers *)
Definition bearer_provider (id : ServiceId) (base : string) : Provider := {|
  prov_id := id;
  upstream_base := base;
  inject_auth := set_bearer;
  strip_client_headers := strip_standard_client_headers |}.
Definition OpenAiProvider (base : string) : Provider := bearer_provider OpenAi base.
Definition GitHubProvider (base : string) : Provider := bearer_provider GitHub base.
Definition StripeProvider (base : string) : Provider := bearer_provider Stripe base.

Definition anthropic_inject_auth (default_version : string) (h : H) (secret : SecretString)
    : outcome PhantomError H :=
  let? h := set_api_key_header h X_API_KEY secret in
  if negb (hm_contains_key ANTHROPIC_VERSION h) then
    let? v := ok_or (hv_from_str default_version) (Config "invalid anthropic-version") in
    Ok (hm_insert ANTHROPIC_VERSION v h)
  else Ok h.
Definition AnthropicProvider (base default_version : string) : Provider := {|
  prov_id := Anthropic;
  upstream_base := base;
  inject_auth := anthropic_inject_auth default_version;
  strip_client_headers := strip_standard_client_headers |}.

(** ** [ProviderRegistry] *)
Abbreviation ProviderRegistry := (gmap ServiceId Provider).

Definition registry_new : ProviderRegistry := ∅.

Definition registry_register (p : Provider) (r : ProviderRegistry) : outcome PhantomError ProviderRegistry :=
  let id := prov_id p in
  match r !! id with
  | Some _ => Err (DuplicateProvider (service_name id))
  | None => Ok (<[id := p]> r)
  end.

Definition registry_get (id : ServiceId) (r : ProviderRegistry) : option Provider := r !! id.

Definition find_by_segment `{HashIter} (segment : string) (r : ProviderRegistry) : option (ServiceId * Provider) :=
  List.find (λ kv, String.eqb (service_name kv.1) segment) (hash_iter r).

(** ** Lemmas *)
Definition registry_wf (r : ProviderRegistry) : Prop := ∀ id p, r !! id = Some p → prov_id p = id.

Lemma registry_register_wf p r r' :
  registry_wf r → registry_register p r = Ok r' → registry_wf r' ∧ r' = <[prov_id p := p]> r ∧ r !! prov_id p = None.
Proof.
  unfold registry_register. intros Hwf. destruct (r !! prov_id p) eqn:E; [done|]. intros [= <-].
  split; [|done]. intros id q [[<- <-]|[_ Hq]]%lookup_insert_Some; [done|]. by apply Hwf.
Qed.

(** The unspecified iteration order does not matter: names are distinct. *)
Lemma find_by_segment_Some `{HashIter} segment (r : ProviderRegistry) id p :
  find_by_segment segment r = Some (id, p) ↔ r !! id = Some p ∧ service_name id = segment.
Proof.
  unfold find_by_segment. split.
  - intros [Hin He]%find_Some_iff. apply elem_of_hash_iter in Hin. by apply String.eqb_eq in He.
  - intros [Hr <-]. destruct (find_is_Some (λ kv : ServiceId * Provider, String.eqb (service_name kv.1) (service_name id))
      (hash_iter r) (id, p)) as [[id' p'] Hf].
    { by apply elem_of_hash_iter. } { by apply String.eqb_eq. }
    rewrite Hf. pose proof Hf as [Hin He]%find_Some_iff. apply elem_of_hash_iter in Hin.
    apply String.eqb_eq in He. simpl in He. apply (inj service_name) in He as ->. rewrite Hr in Hin. by simplify_eq.
Qed.
Lemma find_by_segment_None `{HashIter} segment (r : ProviderRegistry) :
  find_by_segment segment r = None ↔ ∀ id p, r !! id = Some p → service_name id ≠ segment.
Proof.
  split.
  - intros Hn id p Hr Hs. assert (find_by_segment segment r = Some (id, p)) by by apply find_by_segment_Some.
    congruence.
  - intros Hne. destruct (find_by_segment segment r) as [[id p]|] eqn:E; [|done].
    apply find_by_segment_Some in E as [Hr Hs]. by destruct (Hne id p Hr).
Qed.

Definition stripped_names : list string :=
  [AUTHORIZATION; X_API_KEY; "connection"; "proxy-authenticate"; "proxy-authorization"; "te";
   "trailer"; "transfer-encoding"; "upgrade"; "host"].
Lemma strip_get_all n h :
  hm_get_all n (strip_standard_client_headers h) = if decide (n ∈ stripped_names) then [] else hm_get_all n h.
Proof.
  unfold strip_standard_client_headers. rewrite !hm_get_all_remove.
  repeat (case_decide; [subst; by rewrite decide_True by (unfold stripped_names; set_solver)|]).
  rewrite decide_False; [done|]. unfold stripped_names. set_solver.
Qed.

Lemma set_bearer_Ok h secret h' :
  set_bearer h secret = Ok h' →
  ∃ v, hv_to_str v = Some ("Bearer " +:+ expose secret) ∧ hv_is_sensitive v = true ∧
       ∀ n, hm_get_all n h' = if decide (n = AUTHORIZATION) then [v] else hm_get_all n h.
Proof.
  unfold set_bearer. destruct (hv_from_str ("Bearer " +:+ expose secret)) as [v|] eqn:E; simpl; [|done].
  intros [= <-]. exists (hv_set_sensitive v). rewrite hv_sensitive_str, hv_sensitive_set.
  split; [by apply hv_from_to|]. split; [done|]. intros n. apply hm_get_all_insert.
Qed.
Lemma set_api_key_Ok h header secret h' :
  set_api_key_header h header secret = Ok h' →
  ∃ v, hv_to_str v = Some (expose secret) ∧ hv_is_sensitive v = true ∧
       ∀ n, hm_get_all n h' = if decide (n = header) then [v] else hm_get_all n h.
Proof.
  unfold set_api_key_header. destruct (hv_from_str (expose secret)) as [v|] eqn:E; simpl; [|done].
  intros [= <-]. exists (hv_set_sensitive v). rewrite hv_sensitive_str, hv_sensitive_set.
  split; [by apply hv_from_to|]. split; [done|]. intros n. apply hm_get_all_insert.
Qed.
Lemma anthropic_inject_Ok ver h secret h' :
  anthropic_inject_auth ver h secret = Ok h' →
  ∃ v, hv_to_str v = Some (expose secret) ∧ hv_is_sensitive v = true ∧
       ∀ n, n ≠ ANTHROPIC_VERSION → hm_get_all n h' = if decide (n = X_API_KEY) then [v] else hm_get_all n h.
Proof.
  unfold anthropic_inject_auth. destruct (set_api_key_header h X_API_KEY secret) as [h1| |] eqn:E; simpl; try done.
  apply set_api_key_Ok in E as (v & Hv & Hs & Hall). intros Hok. exists v. split; [done|]. split; [done|].
  intros n Hn. rewrite <- Hall. destruct (negb _); [|by injection Hok as <-].
  destruct (hv_from_str ver); simpl in Hok; [|done]. injection Hok as <-.
  rewrite hm_get_all_insert. by rewrite decide_False.
Qed.
End providers.
Arguments Provider : clear implicits.
