(* ===== verification/PhantomProxy.v ===== *)
(** * The phantom reverse proxy

    Models [agentjail-phantom/src/proxy.rs]: [split_service_path],
    [extract_phantom], [is_hop_by_hop], [forward], [reject] and the whole request
    handler [handle], against the interfaces [TokenStore], [KeyStore] and
    [AuditSink].  The [reqwest] client is the parameter [send]; every request the
    handler hands to it is returned in a list, so that theorems can say what
    leaves the host.  The client is built without a redirect policy and follows
    redirects on its own: the requests it makes for an upstream's 3xx answer are
    not in that list.  The builder and the router are in [Lifecycle]; sockets
    are not modelled. *)

From S2P Require Import Prelude Keys Token LruCache Provider.

(** ** Audit records and sinks *)
Record AuditEntry := MkAudit {
  ae_session_id : string;
  ae_service : option ServiceId;
  ae_path : string;
  ae_method : string;
  ae_status : Z;
  ae_reject_reason : option string;
  ae_upstream_latency : option Z
}.

Class AuditSink (A : Type) := { audit_record : AuditEntry → A → A }.

(** [NoAudit] drops everything. *)
#[export] Instance NoAudit : AuditSink unit := {| audit_record _ s := s |}.
(** A sink that keeps every entry, newest last. *)
#[export] Instance ListAudit : AuditSink (list AuditEntry) := {| audit_record e s := s ++ [e] |}.

(** ** Path splitting *)
Definition split_service_path (uri_path : string) : option (string * string) :=
  after_v1 ← strip_prefix "/v1/" uri_path;
  match str_find "/" after_v1 with
  | Some i => Some (str_take i after_v1, str_drop i after_v1)
  | None => Some (after_v1, "/")
  end.

Definition hop_by_hop_names : list string :=
  ["connection"; "proxy-connection"; "keep-alive"; "te"; "trailer"; "transfer-encoding";
   "upgrade"; "proxy-authenticate"; "proxy-authorization"].
Definition is_hop_by_hop (name : string) : bool := bool_decide (str_ascii_lower name ∈ hop_by_hop_names).

(** [StatusCode::from_u16] *)
Definition status_from_u16 (n : Z) : option Z := if (100 <=? n)%Z && (n <? 1000)%Z then Some n else None.

Section proxy.
Context {H V : Type} `{HttpCrate H V} `{HexCrate} `{HashIter}.
Context {T K A : Type} `{TokenStore T} `{KeyStore K} `{AuditSink A}.
(** Request and response bodies are streamed and never inspected. *)
Context {B : Type}.
Local Open Scope rust_scope.

Record Request := MkRequest {
  req_method : string;
  req_path : string;
  req_query : option string;
  req_headers : H;
  req_body : B
}.

Record UpRequest := MkUp { up_method : string; up_url : string; up_headers : H; up_body : B }.
Record UpResponse := MkUpResp { upr_status : Z; upr_headers : H; upr_body : B; upr_latency : Z }.

(** A client response: a fixed message, or the upstream's streamed body. *)
Inductive RespBody := Text (s : string) | Stream (b : B).
Record Response := MkResp { resp_status : Z; resp_headers : H; resp_body : RespBody }.

(** [PhantomProxy]: the shared state of the handlers. *)
Record PhantomProxy := MkProxy {
  px_registry : gmap ServiceId (Provider H);
  px_tokens : T;
  px_keys : K;
  px_audit : A
}.

(** Parameters: the HTTP client, and [reqwest::Method::from_bytes]. *)
Variable send : UpRequest → outcome string UpResponse.
Variable method_from_bytes : string → outcome string string.

Definition record_audit (e : AuditEntry) (px : PhantomProxy) : PhantomProxy :=
  MkProxy (px_registry px) (px_tokens px) (px_keys px) (audit_record e (px_audit px)).

Definition text_response (status : Z) (msg : string) : Response := MkResp status hm_empty (Text msg).

Definition extract_phantom (headers : H) : option PhantomToken :=
  let from name := v ← hm_get name headers; s ← hv_to_str v; token_parse s in
  match from AUTHORIZATION with
  | Some tok => Some tok
  | None => from X_API_KEY
  end.

Definition reject (record : TokenRecord) (path method : string) (status : Z) (reason : string)
    (px : PhantomProxy) : PhantomProxy :=
  record_audit (MkAudit (session_id record) (Some (service record)) path method status (Some reason) None) px.

(** The loop that copies upstream headers with [insert]. *)
Definition copy_headers (resp : H) : H := copy_except is_hop_by_hop resp.

Record Forwarded := MkFwd { fw_response : Response; fw_status : Z; fw_latency : Z }.

(** [forward]; the first component is what was handed to the client, which may
    make further requests if the upstream redirects it. *)
Definition forward (provider : Provider H) (secret : SecretString) (req : Request)
    (upstream_path method : string) : list UpRequest * outcome string Forwarded :=
  let headers := strip_client_headers provider (req_headers req) in
  match omap_err perror_display (inject_auth provider headers secret) with
  | Err e => ([], Err e)
  | Panic => ([], Panic)
  | Ok headers =>
      let url := upstream_base provider +:+ upstream_path +:+
                 match req_query req with Some q => "?" +:+ q | None => "" end in
      match method_from_bytes method with
      | Err e => ([], Err e)
      | Panic => ([], Panic)
      | Ok m =>
          let up := MkUp m url headers (req_body req) in
          ([up],
           let? resp := send up in
           let status := default 502%Z (status_from_u16 (upr_status resp)) in
           let response := MkResp status (copy_headers (upr_headers resp)) (Stream (upr_body resp)) in
           Ok (MkFwd response status (upr_latency resp)))
      end
  end.

(** [handle]; the third component is what was handed to the client to send. *)
Definition handle (clk : nat → Z) (req : Request) (px : PhantomProxy)
    : option Response * PhantomProxy * list UpRequest :=
  let method := req_method req in
  let path := req_path req in
  match split_service_path path with
  | None =>
      (Some (text_response 404 "unknown service path"),
       record_audit (MkAudit "" None path method 404 (Some "bad_path") None) px, [])
  | Some (service_seg, upstream_path) =>
  match extract_phantom (req_headers req) with
  | None =>
      (Some (text_response 401 "missing phantom token"),
       record_audit (MkAudit "" None upstream_path method 401 (Some "no_token") None) px, [])
  | Some presented =>
  let '(found, tokens) := ts_lookup clk presented (px_tokens px) in
  let px := MkProxy (px_registry px) tokens (px_keys px) (px_audit px) in
  match found with
  | None =>
      (Some (text_response 401 "unknown phantom token"),
       record_audit (MkAudit "" None upstream_path method 401 (Some "unknown_token") None) px, [])
  | Some record =>
  match find_by_segment service_seg (px_registry px) with
  | None =>
      (Some (text_response 404 "unknown service"),
       reject record upstream_path method 404 "unknown_service" px, [])
  | Some (id, provider) =>
  if negb (bool_decide (id = service record)) then
      (Some (text_response 403 "token not valid for this service"),
       reject record upstream_path method 403 "wrong_service" px, [])
  else if negb (allows_path (scope record) upstream_path) then
      (Some (text_response 403 "path not in scope"),
       reject record upstream_path method 403 "scope_denied" px, [])
  else
  match ks_get (tenant_id record) (service record) (px_keys px) with
  | None =>
      (Some (text_response 502 "upstream key not configured"),
       reject record upstream_path method 502 "no_upstream_key" px, [])
  | Some secret =>
  let '(sent, r) := forward provider secret req upstream_path method in
  match r with
  | Ok f =>
      (Some (fw_response f),
       record_audit (MkAudit (session_id record) (Some (service record)) upstream_path method
                       (fw_status f) None (Some (fw_latency f))) px, sent)
  | Err e =>
      (Some (text_response 502 ("upstream: " +:+ e)),
       reject record upstream_path method 502 "upstream_error" px, sent)
  | Panic => (None, px, sent)
  end end end end end end.
End proxy.
Arguments Request : clear implicits.
Arguments UpRequest : clear implicits.
Arguments UpResponse : clear implicits.
Arguments Response : clear implicits.
Arguments RespBody : clear implicits.
Arguments PhantomProxy : clear implicits.

(** ** Lemmas *)
Lemma split_service_path_Some p seg rest :
  split_service_path p = Some (seg, rest) ↔
  ¬ str_elem "/" seg ∧
  ((∃ r, rest = String "/" r ∧ p = "/v1/" +:+ seg +:+ rest) ∨ (rest = "/" ∧ p = "/v1/" +:+ seg)).
Proof.
  unfold split_service_path. rewrite bind_Some. split.
  - intros (a & ->%strip_prefix_Some & Hm). destruct (str_find "/" a) as [i|] eqn:E.
    + injection Hm as <- <-. apply str_find_Some in E as (x & y & -> & Hx & ->).
      rewrite str_take_app, str_drop_app. split; [done|]. left. eauto.
    + injection Hm as <- <-. apply str_find_None in E. auto.
  - intros [Hn [(r & -> & ->)|[-> ->]]]; rewrite strip_prefix_app; eexists; (split; [done|]).
    + replace (str_find "/" (seg +:+ String "/" r)) with (Some (str_len seg)).
      * by rewrite str_take_app, str_drop_app.
      * symmetry. apply str_find_Some. eauto.
    + by replace (str_find "/" seg) with (@None nat) by (symmetry; by apply str_find_None).
Qed.

Section facts.
Context {H V : Type} `{HttpCrate H V} `{HexCrate} `{HashIter}.
Context {T K A : Type} `{TokenStore T} `{KeyStore K} `{AuditSink A} {B : Type}.
Variable send : UpRequest H B → outcome string (UpResponse H B).
Variable method_from_bytes : string → outcome string string.

Lemma forward_sent prov secret (req : Request H B) path method sent r u :
  forward send method_from_bytes prov secret req path method = (sent, r) → u ∈ sent →
  sent = [u] ∧
  up_url u = upstream_base prov +:+ path +:+ match req_query req with Some q => "?" +:+ q | None => "" end ∧
  inject_auth prov (strip_client_headers prov (req_headers req)) secret = Ok (up_headers u) ∧
  up_body u = req_body req.
Proof.
  unfold forward. intros Hf Hu.
  destruct (inject_auth prov (strip_client_headers prov (req_headers req)) secret) as [h| |]; simpl in Hf;
    [|injection Hf as <- <-; set_solver..].
  destruct (method_from_bytes method); injection Hf as <- <-; set_solver.
Qed.

(** What a fully authorised request went through. *)
Record authorised (clk : nat → Z) (req : Request H B) (px : PhantomProxy H T K A)
    (rec : TokenRecord) (prov : Provider H) (secret : SecretString) (path : string) : Prop := {
  auth_path : split_service_path (req_path req) = Some (service_name (service rec), path);
  auth_token : ∃ tok, extract_phantom (req_headers req) = Some tok ∧
                      (ts_lookup clk tok (px_tokens px)).1 = Some rec;
  auth_provider : px_registry px !! service rec = Some prov;
  auth_scope : allows_path (scope rec) path = true;
  auth_key : ks_get (tenant_id rec) (service rec) (px_keys px) = Some secret
}.

(** Either nothing was sent, or the request was authorised and forwarded. *)
Lemma handle_cases clk req (px : PhantomProxy H T K A) resp px' sent :
  handle send method_from_bytes clk req px = (resp, px', sent) →
  sent = [] ∨
  ∃ rec prov secret path r, authorised clk req px rec prov secret path ∧
    forward send method_from_bytes prov secret req path (req_method req) = (sent, r).
Proof.
  unfold handle. destruct (split_service_path (req_path req)) as [[seg path]|] eqn:Hs; [|naive_solver].
  destruct (extract_phantom (req_headers req)) as [tok|] eqn:Ht; [|naive_solver].
  destruct (ts_lookup clk tok (px_tokens px)) as [[rec|] tokens] eqn:Hl; [|naive_solver]. simpl.
  destruct (find_by_segment seg (px_registry px)) as [[id prov]|] eqn:Hf; [|naive_solver].
  apply find_by_segment_Some in Hf as [Hr <-].
  case_bool_decide as Hid; [|naive_solver]. simpl. subst id.
  destruct (allows_path (scope rec) path) eqn:Ha; [|naive_solver]. simpl.
  destruct (ks_get (tenant_id rec) (service rec) (px_keys px)) as [secret|] eqn:Hk; [|naive_solver].
  destruct (forward send method_from_bytes prov secret req path (req_method req)) as [sent' r] eqn:Hfw.
  intros Hh. right. exists rec, prov, secret, path, r. split; [|destruct r; naive_solver].
  split; try done. exists tok. by rewrite Hl.
Qed.

Lemma copy_headers_get_all n (resp : H) :
  hm_get_all n (copy_headers resp) =
  if is_hop_by_hop n then [] else option_list (last (hm_get_all n resp)).
Proof. apply copy_except_get_all. Qed.
End facts.

(** C1: Only authorised requests leave the host.  Whatever the stores, the
    registry and the client do: if handling a request sends anything upstream,
    then it sends exactly one request, the token presented in [Authorization]
    or [x-api-key] resolved to a record, the URL's service segment is that
    record's service, the rest of the path is within the record's scope, the
    key injected is the one stored for the record's own tenant and service, and
    the URL is the provider's base followed by that path and the query. *)
Theorem handle_sends_only_authorised {H V} `{HttpCrate H V} `{HexCrate} `{HashIter}
    {T K A B} `{TokenStore T} `{KeyStore K} `{AuditSink A}
    (send : UpRequest H B → outcome string (UpResponse H B)) (mfb : string → outcome string string)
    (clk : nat → Z) (req : Request H B) (px px' : PhantomProxy H T K A) resp sent u :
  handle send mfb clk req px = (resp, px', sent) → u ∈ sent →
  ∃ rec prov secret path,
    authorised clk req px rec prov secret path ∧ sent = [u] ∧
    up_url u = upstream_base prov +:+ path +:+ match req_query req with Some q => "?" +:+ q | None => "" end ∧
    inject_auth prov (strip_client_headers prov (req_headers req)) secret = Ok (up_headers u) ∧
    up_body u = req_body req.
Proof.
  intros Hh Hu. destruct (handle_cases _ _ _ _ _ _ _ _ Hh) as [->|(rec & prov & secret & path & r & Ha & Hf)];
    [set_solver|]. exists rec, prov, secret, path. split; [done|]. by eapply forward_sent.
Qed.

(** The providers the crate ships. *)
Inductive builtin {H V} `{HttpCrate H V} : Provider H → Prop :=
| builtin_openai base : builtin (OpenAiProvider base)
| builtin_github base : builtin (GitHubProvider base)
| builtin_stripe base : builtin (StripeProvider base)
| builtin_anthropic base ver : builtin (AnthropicProvider base ver).

(** The only credential among the headers is [secret], marked sensitive. *)
Definition carries_key {H V} `{HttpCrate H V} (secret : SecretString) (h : H) : Prop :=
  ∃ v, hv_is_sensitive v = true ∧
    ((hm_get_all AUTHORIZATION h = [v] ∧ hm_get_all X_API_KEY h = [] ∧ hv_to_str v = Some ("Bearer " +:+ expose secret)) ∨
     (hm_get_all AUTHORIZATION h = [] ∧ hm_get_all X_API_KEY h = [v] ∧ hv_to_str v = Some (expose secret))).
Lemma builtin_headers {H V} `{HttpCrate H V} (prov : Provider H) (h h' : H) (secret : SecretString) :
  builtin prov → inject_auth prov (strip_client_headers prov h) secret = Ok h' →
  carries_key secret h' ∧
  (∀ n, n ≠ AUTHORIZATION → n ≠ X_API_KEY → n ≠ ANTHROPIC_VERSION →
     hm_get_all n h' = if decide (n ∈ stripped_names) then [] else hm_get_all n h).
Proof.
  destruct 1 as [base|base|base|base ver]; simpl; intros Hi.
  1-3: apply set_bearer_Ok in Hi as (v & Hv & Hs & Hall); (split; [exists v; split; [done|]; left; rewrite !Hall; by rewrite !strip_get_all|]);
    intros n H1 H2 _; by rewrite Hall, decide_False, strip_get_all.
  apply anthropic_inject_Ok in Hi as (v & Hv & Hs & Hall). split.
  - exists v. split; [done|]. right. rewrite !Hall by done. by rewrite !strip_get_all.
  - intros n H1 H2 H3. by rewrite Hall, decide_False, strip_get_all.
Qed.
(** The hop-by-hop headers that are kept out of answers but not out of requests. *)
Definition kept_hop_by_hop : list string := ["keep-alive"; "proxy-connection"].
Lemma stripped_exact n : n ≠ AUTHORIZATION → n ≠ X_API_KEY →
  n ∈ stripped_names ↔ n = "host" ∨ (n ∈ hop_by_hop_names ∧ n ∉ kept_hop_by_hop).
Proof.
  intros H1 H2. unfold stripped_names, hop_by_hop_names, kept_hop_by_hop. rewrite !elem_of_cons, !elem_of_nil.
  split; [|tauto]. intros [->|[->|Hn]]; [done..|]. destruct Hn as [->|[->|[->|[->|[->|[->|[->|[->|[]]]]]]]]]; tauto || (right; split; [tauto|]; intros [?|[?|[]]]; done).
Qed.

(** C27: The phantom token never reaches the upstream in a credential header.
    With the shipped providers registered, every request sent upstream belongs to an
    authorised request (the token it presents resolves to the record whose tenant and
    service give the key) and carries exactly one credential, that tenant's real key:
    either as the only [authorization] value with no [x-api-key], or as the only
    [x-api-key] value with no [authorization]; the value is marked sensitive.  Of the
    client's other headers, [host] and the hop-by-hop ones are dropped, except
    [keep-alive] and [proxy-connection], which pass like all the rest, unchanged
    ([anthropic-version] apart). *)
Theorem handle_replaces_credentials {H V} `{HttpCrate H V} `{HexCrate} `{HashIter}
    {T K A B} `{TokenStore T} `{KeyStore K} `{AuditSink A}
    (send : UpRequest H B → outcome string (UpResponse H B)) (mfb : string → outcome string string)
    (clk : nat → Z) (req : Request H B) (px px' : PhantomProxy H T K A) resp sent u :
  (∀ id p, px_registry px !! id = Some p → builtin p) →
  handle send mfb clk req px = (resp, px', sent) → u ∈ sent →
  ∃ rec prov secret path,
    authorised clk req px rec prov secret path ∧ carries_key secret (up_headers u) ∧
    (∀ n, n ≠ AUTHORIZATION → n ≠ X_API_KEY → n ≠ ANTHROPIC_VERSION →
       hm_get_all n (up_headers u) =
         if decide (n = "host" ∨ (n ∈ hop_by_hop_names ∧ n ∉ kept_hop_by_hop)) then [] else hm_get_all n (req_headers req)).
Proof.
  intros Hb Hh Hu. destruct (handle_cases _ _ _ _ _ _ _ _ Hh) as [->|(rec & prov & secret & path & r & Ha & Hf)];
    [set_solver|]. destruct (forward_sent _ _ _ _ _ _ _ _ _ _ Hf Hu) as (_ & _ & Hi & _).
  destruct (builtin_headers prov _ _ secret (Hb _ _ (auth_provider _ _ _ _ _ _ _ Ha)) Hi) as [Hc Hr].
  exists rec, prov, secret, path. split; [done|]. split; [done|]. intros n Hn1 Hn2 Hn3. rewrite Hr by done.
  by apply decide_ext, stripped_exact.
Qed.

Lemma handle_audit_entry {H V} `{HttpCrate H V} `{HexCrate} `{HashIter}
    {T K A B} `{TokenStore T} `{KeyStore K} `{AuditSink A}
    (send : UpRequest H B → outcome string (UpResponse H B)) (mfb : string → outcome string string)
    (clk : nat → Z) (req : Request H B) (px px' : PhantomProxy H T K A) r sent :
  handle send mfb clk req px = (Some r, px', sent) →
  ∃ e, px_audit px' = audit_record e (px_audit px) ∧
       ae_status e = resp_status r ∧ ae_method e = req_method req ∧
       (ae_reject_reason e = None → sent ≠ []).
Proof.
  unfold handle. destruct (split_service_path (req_path req)) as [[seg path]|]; [|naive_solver].
  destruct (extract_phantom (req_headers req)) as [tok|]; [|naive_solver].
  destruct (ts_lookup clk tok (px_tokens px)) as [[rec|] tokens]; [|naive_solver]. simpl.
  destruct (find_by_segment seg (px_registry px)) as [[id prov]|]; [|unfold reject; naive_solver].
  case_match; [unfold reject; naive_solver|]. case_match; [unfold reject; naive_solver|].
  destruct (ks_get (tenant_id rec) (service rec) (px_keys px)) as [secret|]; [|unfold reject; naive_solver].
  destruct (forward send mfb prov secret req path (req_method req)) as [sent' [f|e|]] eqn:Hf;
    [|unfold reject; naive_solver|done].
  intros [= <- <- <-]. eexists. split; [done|]. simpl. unfold forward in Hf.
  destruct (inject_auth prov _ secret); simpl in Hf; [|done..].
  destruct (mfb (req_method req)); [|done..]. simpl in Hf. injection Hf as <- Hs.
  destruct (send _); simpl in Hs; [|done..]. by injection Hs as <-.
Qed.

(** One audit record per answered request.  Every request that gets an
    answer leaves exactly one entry in the audit sink; its status is the status
    returned to the client, its method the request's, and it carries no
    rejection reason only when a request was actually sent upstream. *)
Theorem handle_audits_once {H V} `{HttpCrate H V} `{HexCrate} `{HashIter}
    {T K A B} `{TokenStore T} `{KeyStore K} `{AuditSink A}
    (send : UpRequest H B → outcome string (UpResponse H B)) (mfb : string → outcome string string)
    (clk : nat → Z) (req : Request H B) (px px' : PhantomProxy H T K A) r sent :
  handle send mfb clk req px = (Some r, px', sent) →
  ∃ e, px_audit px' = audit_record e (px_audit px) ∧
       ae_status e = resp_status r ∧ ae_method e = req_method req ∧
       (ae_reject_reason e = None → sent ≠ []).
Proof. apply handle_audit_entry. Qed.

(** Response headers.  The header map built for the client has no
    hop-by-hop header, and for every other name at most one value, the LAST one
    the upstream sent: the copy loop uses [insert], so repeated headers (two
    [set-cookie] lines) collapse to one. *)
Theorem copy_headers_exact {H V} `{HttpCrate H V} (n : string) (resp : H) :
  hm_get_all n (copy_headers resp) =
  if is_hop_by_hop n then [] else option_list (last (hm_get_all n resp)).
Proof. apply copy_headers_get_all. Qed.

(** Two cookies in, one cookie out. *)
Lemma copy_headers_cookies :
  hm_get_all "set-cookie" (copy_headers [("set-cookie", MkHV "a=1" false); ("set-cookie", MkHV "b=2" false)])
  = [MkHV "b=2" false].
Proof. reflexivity. Qed.

(** Revocation reaches the wire.  Run the proxy over the cached token
    store, after any history in which random bytes never repeat: a request
    whose presented token is not live in that history (never issued, or revoked
    alone or with its session) is answered 401 and nothing is sent upstream. *)
Theorem handle_refuses_dead_tokens {H V} `{HttpCrate H V} `{HexCrate} `{HashIter}
    {I K A B} `{TokenStoreLaws I} `{KeyStore K} `{AuditSink A}
    (send : UpRequest H B → outcome string (UpResponse H B)) (mfb : string → outcome string string)
    (clk : nat → Z) (req : Request H B) (ops : list TokenOp) (i0 : I) (cap : nat) (s : LruTokenCache I)
    reg (keys : K) (audit : A) (tok : PhantomToken) seg path :
  ts_ok i0 → ts_view i0 = ∅ → NoDup (omap op_rnd ops) → ts_run ops (lru_new i0 cap) = Some s →
  split_service_path (req_path req) = Some (seg, path) →
  extract_phantom (req_headers req) = Some tok →
  (∀ r, ¬ issued_live ops (tok_bytes tok) r) →
  ∃ px', handle send mfb clk req (MkProxy reg s keys audit)
         = (Some (text_response 401 "unknown phantom token"), px', []).
Proof.
  intros Hok Hemp Hnd Hrun Hs Ht Hdead. unfold handle. rewrite Hs, Ht. simpl.
  destruct (lru_run_view ops (lru_new i0 cap) s) as [Hok' Hv]; [by apply lru_new_ok|done..|].
  pose proof (lru_lookup_spec clk tok s Hok') as Hl. destruct Hok' as (_ & _ & Hsub).
  destruct (lru_lookup clk tok s) as [[r|] s']; simpl in *; [|eauto].
  exfalso. destruct (lru_map (cache s) !! tok_bytes tok) as [r'|] eqn:Hc.
  - pose proof (lookup_weaken _ _ _ _ Hc Hsub) as Hw. apply Hv in Hw. by apply Hdead in Hw.
  - symmetry in Hl. apply bind_Some in Hl as (r' & Hr' & _). apply Hv in Hr'. by apply Hdead in Hr'.
Qed.

(** ** Witnesses *)
Definition demo_tokens : InMemoryTokenStore := lock_write (λ g, <[demo_bytes := demo_record]> g) mem_new.
Definition demo_keys : InMemoryKeyStore := keys_set "acme" OpenAi (MkSecret "sk-real") keys_new.
Definition demo_registry : gmap ServiceId (Provider list_headers) :=
  {[OpenAi := OpenAiProvider "https://api.openai.com"]}.
Definition demo_px : PhantomProxy list_headers InMemoryTokenStore InMemoryKeyStore (list AuditEntry) :=
  MkProxy demo_registry demo_tokens demo_keys [].
Definition demo_req : Request list_headers unit :=
  MkRequest "POST" "/v1/openai/v1/chat/completions" (Some "n=1")
    [(AUTHORIZATION, MkHV ("Bearer " +:+ token_display (MkToken demo_bytes)) false);
     ("host", MkHV "10.0.0.1" false)] tt.
Definition demo_send (u : UpRequest list_headers unit) : outcome string (UpResponse list_headers unit) :=
  Ok (MkUpResp 200 [] tt 7).
Definition demo_up : UpRequest list_headers unit :=
  MkUp "POST" "https://api.openai.com/v1/chat/completions?n=1"
    [(AUTHORIZATION, MkHV "Bearer sk-real" true)] tt.
Definition demo_ok : Response list_headers unit := MkResp 200 [] (Stream tt).
Definition demo_entry : AuditEntry :=
  MkAudit "sess_1" (Some OpenAi) "/v1/chat/completions" "POST" 200 None (Some 7%Z).
Definition demo_px' : PhantomProxy list_headers InMemoryTokenStore InMemoryKeyStore (list AuditEntry) :=
  MkProxy demo_registry demo_tokens demo_keys [demo_entry].

Lemma demo_handle :
  handle demo_send Ok (λ _, 5%Z) demo_req demo_px = (Some demo_ok, demo_px', [demo_up]).
Proof. reflexivity. Qed.

Lemma handle_sends_only_authorised_witness :
  ∃ rec prov secret path, authorised (λ _, 5%Z) demo_req demo_px rec prov secret path ∧
    up_url demo_up = upstream_base prov +:+ path +:+ "?n=1".
Proof.
  destruct (handle_sends_only_authorised demo_send Ok (λ _, 5%Z) demo_req demo_px demo_px'
              (Some demo_ok) [demo_up] demo_up demo_handle (list_elem_of_here _ _))
    as (rec & prov & secret & path & Ha & _ & Hu & _).
  exists rec, prov, secret, path. split; [exact Ha|exact Hu].
Defined.

Lemma handle_replaces_credentials_witness :
  ∃ rec prov secret path, authorised (λ _, 5%Z) demo_req demo_px rec prov secret path ∧ carries_key secret (up_headers demo_up) ∧
    hm_get_all "host" (up_headers demo_up) = [].
Proof.
  destruct (handle_replaces_credentials demo_send Ok (λ _, 5%Z) demo_req demo_px demo_px'
              (Some demo_ok) [demo_up] demo_up) as (rec & prov & secret & path & H1 & H2 & H3).
  - intros id p Hp. unfold demo_px, demo_registry in Hp. simpl in Hp.
    apply lookup_singleton_Some in Hp as [_ <-]. constructor.
  - exact demo_handle.
  - apply list_elem_of_here.
  - exists rec, prov, secret, path. split; [exact H1|]. split; [exact H2|].
    rewrite H3; [reflexivity|discriminate..].
Defined.

Lemma handle_audits_once_witness :
  ∃ e, px_audit demo_px' = audit_record e (px_audit demo_px) ∧ ae_status e = resp_status demo_ok.
Proof.
  destruct (handle_audits_once demo_send Ok (λ _, 5%Z) demo_req demo_px demo_px' demo_ok [demo_up] demo_handle)
    as (e & H1 & H2 & _). exists e. split; [exact H1|exact H2].
Defined.

Lemma handle_refuses_dead_tokens_witness :
  ∃ px', handle demo_send Ok (λ _, 5%Z) demo_req
           (MkProxy demo_registry (lru_new mem_new 4) demo_keys ([] : list AuditEntry))
         = (Some (text_response 401 "unknown phantom token"), px', []).
Proof.
  apply (handle_refuses_dead_tokens demo_send Ok (λ _, 5%Z) demo_req [] mem_new 4 (lru_new mem_new 4)
           demo_registry demo_keys ([] : list AuditEntry) (MkToken demo_bytes)
           "openai" "/v1/chat/completions");
    [reflexivity|reflexivity|constructor|reflexivity|reflexivity|vm_compute; reflexivity|].
  intros r Hr. exact (issued_live_nil _ _ Hr).
Defined.
