(* ===== verification/Tenant.v ===== *)
(** * Tenants, API keys and request authentication

    Models [agentjail-ctl/src/tenant.rs] ([Role], [TenantScope], [ApiKeyConfig],
    [parse_key], [validate_tenant]) and [agentjail-ctl/src/auth.rs] ([ApiKeys] and
    the [require_api_key] middleware).  [subtle]'s constant-time comparison is the
    class [CtEq] (it decides equality of byte strings); header access goes through
    [HttpCrate]. *)

From S2P Require Import Prelude Keys Token Provider.

(** ** Roles and scopes *)
Inductive Role := Admin | Operator.
#[export] Instance Role_eq_dec : EqDecision Role.
Proof. solve_decision. Defined.

Definition is_admin (r : Role) : bool := match r with Admin => true | Operator => false end.

(** What can be wrong with a key line; one constructor per message. *)
Inductive KeyError :=
| EmptyKey
| BadForm
| InvalidToken (t : string)
| TenantLength (t : string)
| TenantStart (t : string)
| TenantChars (t : string)
| BadRole (r : string).

Definition role_from_str (s : string) : outcome KeyError Role :=
  if String.eqb s "admin" then Ok Admin
  else if String.eqb s "operator" then Ok Operator
  else Err (BadRole s).

Record TenantScope := MkTS { ts_tenant : string; ts_role : Role }.
#[export] Instance TenantScope_eq_dec : EqDecision TenantScope.
Proof. solve_decision. Defined.

Definition dev_admin : TenantScope := MkTS "dev" Admin.

Definition can_see (s : TenantScope) (tenant : string) : bool :=
  is_admin (ts_role s) || String.eqb (ts_tenant s) tenant.

Record ApiKeyConfig := MkKey { key_token : string; key_tenant : string; key_role : Role }.

Definition key_scope (k : ApiKeyConfig) : TenantScope := MkTS (key_tenant k) (key_role k).

(** ** [parse_key] *)
Local Open Scope rust_scope.

Definition tenant_first (a : ascii) : bool := is_ascii_lowercase a || is_ascii_digit a.
Definition tenant_char (a : ascii) : bool :=
  is_ascii_lowercase a || is_ascii_digit a || Ascii.eqb a "_" || Ascii.eqb a "-".

(** A non-ASCII character fails both tests on each of its bytes, so checking
    bytes is checking characters. *)
Definition validate_tenant (t : string) : outcome KeyError unit :=
  if str_is_empty t || (64 <? str_len t) then Err (TenantLength t)
  else match t with
       | EmptyString => Panic
       | String first chars =>
           if negb (tenant_first first) then Err (TenantStart t)
           else if negb (str_forallb tenant_char chars) then Err (TenantChars t)
           else Ok tt
       end.

Definition parse_key (s : string) : outcome KeyError ApiKeyConfig :=
  let s := trim s in
  if str_is_empty s then Err EmptyKey else
  let? '(token, rest) := ok_or (split_once "@" s) BadForm in
  let? '(tenant, role_s) := ok_or (split_once ":" rest) BadForm in
  if str_is_empty token || contains_whitespace token then Err (InvalidToken token) else
  let? _ := validate_tenant tenant in
  let? role := role_from_str role_s in
  Ok (MkKey token tenant role).

(** ** [ApiKeys] *)
Class CtEq := { ct_eq : string → string → bool; ct_eq_spec a b : ct_eq a b = true ↔ a = b }.
#[export] Instance ct_eq_ref : CtEq := {| ct_eq := String.eqb; ct_eq_spec := String.eqb_eq |}.

Record ApiKeys := MkKeys { api_keys : list ApiKeyConfig }.

Fixpoint from_config_strings_loop (lines : list string) (parsed : list ApiKeyConfig) : outcome KeyError (list ApiKeyConfig) :=
  match lines with
  | [] => Ok parsed
  | line :: rest =>
      match parse_key line with
      | Ok k => from_config_strings_loop rest (parsed ++ [k])
      | Err _ => from_config_strings_loop rest parsed
      | Panic => Panic
      end
  end.
Definition from_config_strings (lines : list string) : outcome KeyError ApiKeys :=
  let? parsed := from_config_strings_loop lines [] in Ok (MkKeys parsed).

Definition from_configs (configs : list ApiKeyConfig) : ApiKeys := MkKeys configs.

Definition is_enforced (k : ApiKeys) : bool := match api_keys k with [] => false | _ => true end.

(** The full walk over the list; the first hit wins. *)
Definition match_scope `{CtEq} (presented : string) (k : ApiKeys) : option TenantScope :=
  foldl (λ winner k,
           let hit := ct_eq (key_token k) presented in
           if hit && match winner with None => true | Some _ => false end
           then Some (key_scope k) else winner)
        None (api_keys k).

(** The middleware: the scope stamped on the request, or the refusal. *)
Definition require_api_key {H V} `{HttpCrate H V} `{CtEq} (keys : ApiKeys) (headers : H)
    : outcome (Z * string) TenantScope :=
  if negb (is_enforced keys) then Ok dev_admin else
  match v ← hm_get AUTHORIZATION headers; hv_to_str v with
  | None => Err (401%Z, "missing api key")
  | Some raw =>
      let token := trim (default raw (strip_prefix "Bearer " raw)) in
      match match_scope token keys with
      | None => Err (401%Z, "invalid api key")
      | Some scope => Ok scope
      end
  end.

(** ** Rendering, and what a well-formed key is *)
Definition role_name (r : Role) : string := match r with Admin => "admin" | Operator => "operator" end.
Definition render_key (k : ApiKeyConfig) : string :=
  key_token k +:+ String "@" (key_tenant k +:+ String ":" (role_name (key_role k))).

(** [[a-z0-9][a-z0-9_-]{0,63}] *)
Definition tenant_wf (t : string) : Prop :=
  ∃ a r, t = String a r ∧ tenant_first a = true ∧ str_forallb tenant_char r = true ∧ str_len r ≤ 63.
Definition key_wf (k : ApiKeyConfig) : Prop :=
  key_token k ≠ EmptyString ∧ contains_whitespace (key_token k) = false ∧ ¬ str_elem "@" (key_token k) ∧
  tenant_wf (key_tenant k).

Lemma validate_tenant_ok t : validate_tenant t = Ok tt ↔ tenant_wf t.
Proof.
  unfold validate_tenant, tenant_wf. destruct t as [|a r]; simpl.
  { split; [done|]. by intros (? & ? & ? & _). }
  destruct (64 <? S (str_len r)) eqn:Hl; simpl.
  { apply Nat.ltb_lt in Hl. split; [done|]. intros (? & ? & [= <- <-] & _ & _ & ?). lia. }
  apply Nat.ltb_ge in Hl. destruct (tenant_first a) eqn:Ha; simpl.
  2: { split; [done|]. intros (? & ? & [= <- <-] & ? & _). congruence. }
  destruct (str_forallb tenant_char r) eqn:Hr; simpl.
  2: { split; [done|]. intros (? & ? & [= <- <-] & _ & ? & _). congruence. }
  split; [|done]. intros _. exists a, r. repeat split; [done..|lia].
Qed.
Lemma validate_tenant_no_panic t : validate_tenant t ≠ Panic.
Proof. unfold validate_tenant. destruct t; simpl; [done|]. repeat case_match; done. Qed.
Lemma role_from_str_ok s r : role_from_str s = Ok r ↔ s = role_name r.
Proof.
  unfold role_from_str. destruct (String.eqb_spec s "admin") as [->|Ha]; [destruct r; naive_solver|].
  destruct (String.eqb_spec s "operator") as [->|Ho]; [destruct r; naive_solver|].
  split; [done|]. intros ->. by destruct r.
Qed.
Lemma tenant_char_not c : tenant_char c = true → c ≠ ":"%char.
Proof. by intros Hc ->. Qed.
Lemma str_forallb_elem f s c : str_forallb f s = true → str_elem c s → f c = true.
Proof. induction s as [|a s IH]; simpl; [done|]. intros [? ?]%andb_true_iff [->|?]; auto. Qed.
Lemma tenant_wf_no_colon t : tenant_wf t → ¬ str_elem ":" t.
Proof.
  intros (a & r & -> & Ha & Hr & _) [->|Hin]; [done|].
  by apply (str_forallb_elem _ _ _ Hr) in Hin.
Qed.

Lemma parse_key_no_panic s : parse_key s ≠ Panic.
Proof.
  unfold parse_key, ok_or. case_match; [done|].
  destruct (split_once "@" (trim s)) as [[token rest]|]; simpl; [|done].
  destruct (split_once ":" rest) as [[tenant role_s]|]; simpl; [|done].
  case_match; [done|]. pose proof (validate_tenant_no_panic tenant).
  destruct (validate_tenant tenant); simpl; try done.
  unfold role_from_str. repeat case_match; done.
Qed.

(** API-key lines.  [parse_key] accepts a line with key [k] exactly when
    [k] is well formed (non-empty token without white space or [@], tenant
    matching [[a-z0-9][a-z0-9_-]{0,63}]) and the line, trimmed, is
    [token@tenant:role]; it never panics. *)
Theorem parse_key_exact (s : string) (k : ApiKeyConfig) :
  (parse_key s = Ok k ↔ key_wf k ∧ trim s = render_key k) ∧ parse_key s ≠ Panic.
Proof.
  split; [|apply parse_key_no_panic].
  unfold parse_key, render_key, key_wf. set (t := trim s). clearbody t. split.
  - destruct (str_is_empty t) eqn:Hemp; [done|].
    destruct (split_once "@" t) as [[token rest]|] eqn:H1; simpl; [|done].
    destruct (split_once ":" rest) as [[tenant role_s]|] eqn:H2; simpl; [|done].
    apply split_once_Some in H1 as [-> Hn1], H2 as [-> Hn2].
    destruct (str_is_empty token || contains_whitespace token) eqn:Ht; [done|].
    apply orb_false_iff in Ht as [Ht1 Ht2].
    destruct (validate_tenant tenant) as [[]| |] eqn:Hv; simpl; try done.
    apply validate_tenant_ok in Hv.
    destruct (role_from_str role_s) as [r| |] eqn:Hr; simpl; try done.
    apply role_from_str_ok in Hr as ->. intros [= <-]. simpl. split; [|done].
    split; [by destruct token|]. done.
  - intros [(Hne & Hw & Hat & Hten) ->]. destruct k as [token tenant role]. simpl in *.
    destruct (str_is_empty _) eqn:Hemp; [by destruct token|].
    replace (split_once "@" _) with (Some (token, tenant +:+ String ":" (role_name role)))
      by (symmetry; by apply split_once_Some).
    simpl. replace (split_once ":" _) with (Some (tenant, role_name role))
      by (symmetry; apply split_once_Some; auto using tenant_wf_no_colon).
    simpl. rewrite Hw. destruct token as [|a token]; [done|]. simpl.
    apply validate_tenant_ok in Hten as ->. simpl.
    by rewrite (proj2 (role_from_str_ok (role_name role) role) eq_refl).
Qed.

(** ** Lemmas on the key list *)
Lemma match_scope_find `{CtEq} p ks :
  match_scope p ks = key_scope <$> List.find (λ k, ct_eq (key_token k) p) (api_keys ks).
Proof.
  unfold match_scope. destruct ks as [l]. simpl.
  set (f := λ (winner : option TenantScope) (k : ApiKeyConfig), _).
  assert (∀ w, foldl f (Some w) l = Some w) as Hw.
  { induction l as [|k l IH]; intros w; [done|]. simpl. unfold f at 2. rewrite andb_false_r. apply IH. }
  induction l as [|k l IH]; [done|]. simpl. unfold f at 2. rewrite andb_true_r.
  assert (∀ w, foldl f (Some w) l = Some w) as Hl.
  { intros w. specialize (Hw w). simpl in Hw. unfold f at 2 in Hw. by rewrite andb_false_r in Hw. }
  destruct (ct_eq (key_token k) p); [apply Hl|]. by apply IH.
Qed.

Lemma find_split {A} (p : A → bool) (l : list A) (x : A) :
  List.find p l = Some x ↔ p x = true ∧ ∃ pre post, l = pre ++ x :: post ∧ ∀ y, y ∈ pre → p y = false.
Proof.
  split.
  - induction l as [|a l IH]; simpl; [done|]. destruct (p a) eqn:E.
    + intros [= <-]. split; [done|]. exists [], l. split; [done|]. set_solver.
    + intros (Hp & pre & post & -> & Hpre)%IH. split; [done|]. exists (a :: pre), post. split; [done|].
      intros y [->|Hy]%elem_of_cons; auto.
  - intros (Hp & pre & post & -> & Hpre). induction pre as [|a pre IH]; simpl; [by rewrite Hp|].
    rewrite Hpre by set_solver. apply IH. set_solver.
Qed.

(** The lines that parse, in order. *)
Definition parsed_keys (lines : list string) : list ApiKeyConfig :=
  omap (λ l, match parse_key l with Ok k => Some k | _ => None end) lines.
Lemma from_config_strings_ok lines : from_config_strings lines = Ok (MkKeys (parsed_keys lines)).
Proof.
  unfold from_config_strings.
  assert (∀ acc, from_config_strings_loop lines acc = Ok (acc ++ parsed_keys lines)) as Hg; [|by rewrite Hg].
  induction lines as [|l lines IH]; intros acc; simpl; [by rewrite app_nil_r|].
  pose proof (parse_key_no_panic l). unfold parsed_keys. simpl.
  destruct (parse_key l) as [k| |]; simpl; [|by rewrite IH|done]. rewrite IH. by rewrite <- app_assoc.
Qed.

(** Authentication.  When keys are configured, a request is let through
    with scope [sc] exactly when its [Authorization] value, less an optional
    ["Bearer "] and surrounding white space, equals the token of some configured
    key, and [sc] is the scope of the first such key; every other request is
    answered 401. *)
Theorem require_api_key_exact {H V} `{HttpCrate H V} `{CtEq} (keys : ApiKeys) (h : H) (sc : TenantScope) :
  is_enforced keys = true →
  (require_api_key keys h = Ok sc ↔
   ∃ v raw k pre post, hm_get AUTHORIZATION h = Some v ∧ hv_to_str v = Some raw ∧
     api_keys keys = pre ++ k :: post ∧
     key_token k = trim (default raw (strip_prefix "Bearer " raw)) ∧
     (∀ k', k' ∈ pre → key_token k' ≠ key_token k) ∧ sc = key_scope k) ∧
  (is_ok (require_api_key keys h) = false → ∃ msg, require_api_key keys h = Err (401%Z, msg)).
Proof.
  intros He. unfold require_api_key. rewrite He. simpl. split.
  2: { repeat case_match; simpl; try done; eauto. }
  destruct (hm_get AUTHORIZATION h) as [v|]; simpl; [|naive_solver].
  destruct (hv_to_str v) as [raw|] eqn:Hraw; simpl; [|naive_solver].
  rewrite match_scope_find. set (tok := trim _). split.
  - destruct (List.find _ (api_keys keys)) as [k|] eqn:Hf; simpl; [|done]. intros [= <-].
    apply find_split in Hf as (Hk%ct_eq_spec & pre & post & Hl & Hpre).
    exists v, raw, k, pre, post. repeat split; [done..|].
    intros k' Hk' Heq. specialize (Hpre k' Hk'). rewrite Heq, Hk in Hpre.
    assert (ct_eq tok tok = true) by by apply ct_eq_spec. congruence.
  - intros (v' & raw' & k & pre & post & [= <-] & Hraw' & Hl & Hk & Hpre & ->).
    rewrite Hraw in Hraw'. injection Hraw' as <-.
    replace (List.find _ (api_keys keys)) with (Some k); [done|]. symmetry. apply find_split.
    split; [by apply ct_eq_spec|]. exists pre, post. split; [done|]. intros y Hy.
    destruct (ct_eq (key_token y) tok) eqn:E; [|done]. apply ct_eq_spec in E.
    destruct (Hpre y Hy). by rewrite E, Hk.
Qed.

(** Fail-open configuration.  The key list built from the configured
    lines leaves the control plane open (every request becomes the ["dev"]
    admin, whatever its headers) exactly when not one line is well formed; so a
    deployment whose only key line has a typo is not locked but open. *)
Theorem auth_open_iff_no_valid_line {H V} `{HttpCrate H V} `{CtEq} (lines : list string) (ks : ApiKeys) :
  from_config_strings lines = Ok ks →
  ((∀ h : H, require_api_key ks h = Ok dev_admin) ↔ ∀ line k, line ∈ lines → parse_key line ≠ Ok k).
Proof.
  rewrite from_config_strings_ok. intros [= <-].
  assert (parsed_keys lines = [] ↔ ∀ line k, line ∈ lines → parse_key line ≠ Ok k) as <-.
  { unfold parsed_keys. split.
    - intros Hnil line k Hin Hp. assert (k ∈ ([] : list ApiKeyConfig)) as Hk%elem_of_nil; [|done].
      rewrite <- Hnil. apply list_elem_of_omap. exists line. by rewrite Hp.
    - intros Hno. destruct (omap _ lines) as [|k l] eqn:E; [done|].
      assert (k ∈ k :: l) as Hin by set_solver. rewrite <- E in Hin.
      apply list_elem_of_omap in Hin as (line & Hl & Hk). specialize (Hno line).
      destruct (parse_key line) as [k'| |]; naive_solver. }
  unfold require_api_key, is_enforced. simpl. destruct (parsed_keys lines) as [|k l]; simpl; [done|].
  split; [|done]. intros Hh. specialize (Hh hm_empty). unfold hm_get in Hh.
  by rewrite hm_get_all_empty in Hh.
Qed.

(** The token part may contain [:], which the comment on [parse_key] excludes. *)
Theorem parse_key_colon_token : parse_key "a:b@acme:admin" = Ok (MkKey "a:b" "acme" Admin).
Proof. reflexivity. Qed.

(** ** Witnesses *)
Lemma require_api_key_exact_witness :
  require_api_key (MkKeys [MkKey "ak_a" "acme" Operator]) [(AUTHORIZATION, MkHV "Bearer ak_a" false)]
  = Ok (MkTS "acme" Operator).
Proof.
  apply (require_api_key_exact (MkKeys [MkKey "ak_a" "acme" Operator])
           [(AUTHORIZATION, MkHV "Bearer ak_a" false)] (MkTS "acme" Operator)); [reflexivity|].
  exists (MkHV "Bearer ak_a" false), "Bearer ak_a", (MkKey "ak_a" "acme" Operator), [], [].
  repeat split; try reflexivity. intros k' Hk'. by apply elem_of_nil in Hk'.
Defined.

Lemma auth_open_iff_no_valid_line_witness :
  from_config_strings ["ak_live_123"] = Ok (MkKeys []) ∧
  require_api_key (MkKeys []) ([] : list_headers) = Ok dev_admin.
Proof.
  split; [reflexivity|].
  apply (auth_open_iff_no_valid_line ["ak_live_123"] (MkKeys [])); [reflexivity|].
  intros line k Hl. apply list_elem_of_singleton in Hl as ->. vm_compute. discriminate.
Defined.
