(* ===== verification/Ctl.v ===== *)
(** * Control-plane errors

    Models [agentjail-ctl/src/error.rs] and [impl IntoResponse for CtlError] in
    [routes/mod.rs].  Errors wrapped from other crates carry their rendering. *)

From S2P Require Import Prelude Provider.

Inductive CtlError :=
| BadRequest (msg : string)
| NotFound (msg : string)
| Unauthorized
| Conflict (msg : string)
| JailErr (msg : string)
| PhantomErr (e : PhantomError)
| IoErr (msg : string)
| Internal (msg : string)
| ConfigErr (msg : string).

Definition ctl_status (e : CtlError) : Z :=
  match e with
  | BadRequest _ => 400
  | NotFound _ => 404
  | Unauthorized => 401
  | Conflict _ => 409
  | ConfigErr _ => 400
  | JailErr _ | PhantomErr _ | IoErr _ | Internal _ => 500
  end.

Definition ctl_display (e : CtlError) : string :=
  match e with
  | BadRequest m => "bad request: " +:+ m
  | NotFound m => "not found: " +:+ m
  | Unauthorized => "unauthorized"
  | Conflict m => "conflict: " +:+ m
  | JailErr m => "jail: " +:+ m
  | PhantomErr e => "phantom: " +:+ perror_display e
  | IoErr m => "io: " +:+ m
  | Internal m => "internal: " +:+ m
  | ConfigErr m => "config: " +:+ m
  end.

(** Status and the [error] field of the JSON body. *)
Definition ctl_into_response (e : CtlError) : Z * string :=
  let status := ctl_status e in
  (status, if (500 <=? status)%Z && (status <? 600)%Z then "internal server error" else ctl_display e).

(** No internal detail leaks.  Two errors answered with a server-error
    status produce the same response, so the body says nothing about host paths,
    SQL or jail internals; an error's own text reaches the client only with a
    4xx status. *)
Theorem server_errors_are_uniform (e e' : CtlError) :
  (500 ≤ ctl_status e)%Z → (500 ≤ ctl_status e')%Z → ctl_into_response e = ctl_into_response e'.
Proof. destruct e, e'; simpl; try lia; done. Qed.

Lemma server_errors_are_uniform_witness :
  ctl_into_response (IoErr "/var/lib/agentjail: denied") = ctl_into_response (Internal "sql").
Proof. apply (server_errors_are_uniform (IoErr "/var/lib/agentjail: denied") (Internal "sql")); vm_compute; discriminate. Defined.
