(* ===== verification/Credentials.v ===== *)
(** * Credentials: metadata, fingerprints and the credential routes

    Models [agentjail-ctl/src/credential.rs] ([CredentialRecord], the
    [CredentialStore] trait and its in-memory implementation, [fingerprint]) and
    [routes/credentials.rs] ([target_tenant], [put_credential],
    [list_credentials], [delete_credential], [parse_service]).  The handlers act
    on the two stores a credential lives in: the metadata store and the real-key
    store the proxy reads. *)

From S2P Require Import Prelude Keys Token Tenant Provider Ctl.
Local Open Scope rust_scope.

(** ** [fingerprint]: FNV-1a over the bytes, as 16 hex digits *)
Definition FNV_OFFSET : Z := 0xcbf29ce484222325.
Definition FNV_PRIME : Z := 0x100000001b3.

Definition fnv_step (hash : Z) (byte : ascii) : Z :=
  u64 (Z.lxor hash (byte_val byte) * FNV_PRIME).
Fixpoint fnv (hash : Z) (s : string) : Z :=
  match s with EmptyString => hash | String b s' => fnv (fnv_step hash b) s' end.

(** [format!("{n:016x}")] for a 64-bit [n]: its sixteen nibbles, high first. *)
Fixpoint hex_nibbles (k : nat) (n : Z) : string :=
  match k with
  | O => EmptyString
  | S k' => String (hex_digit (Z.shiftr n (4 * Z.of_nat k') mod 16)) (hex_nibbles k' n)
  end.
Definition fingerprint (secret : string) : string := hex_nibbles 16 (fnv FNV_OFFSET secret).

(** ** Records and the in-memory store *)
Record CredentialRecord := MkCred {
  cr_tenant_id : string;
  cr_service : ServiceId;
  cr_added_at : Z;
  cr_updated_at : Z;
  cr_fingerprint : string
}.

(** ** The [CredentialStore] trait; a store that is a database changes state on
    reads too. *)
Class CredentialStore (C : Type) := {
  cst_upsert_with_secret : CredentialRecord → string → C → C;
  cst_remove : string → ServiceId → C → option CredentialRecord * C;
  cst_list : option string → C → list CredentialRecord * C;
  cst_get : string → ServiceId → C → option CredentialRecord * C
}.

Definition InMemoryCredentialStore : Type := Lock (gmap (string * ServiceId) CredentialRecord).
Definition creds_new : InMemoryCredentialStore := new_lock ∅.

Definition creds_upsert (rec : CredentialRecord) (s : InMemoryCredentialStore) : InMemoryCredentialStore :=
  lock_write (λ g, <[(cr_tenant_id rec, cr_service rec) := rec]> g) s.
(** The trait's default method; [InMemoryCredentialStore] does not override it. *)
Definition creds_upsert_with_secret (rec : CredentialRecord) (_secret : string)
    (s : InMemoryCredentialStore) : InMemoryCredentialStore := creds_upsert rec s.
Definition creds_remove (tenant : string) (svc : ServiceId) (s : InMemoryCredentialStore)
    : option CredentialRecord * InMemoryCredentialStore :=
  (g ← lock_read s; g !! (tenant, svc), lock_write (delete (tenant, svc)) s).

(** [a.cmp(b)] on strings is byte-wise lexicographic order. *)
Definition cred_le (a b : CredentialRecord) : bool :=
  match String.compare (cr_tenant_id a) (cr_tenant_id b) with
  | Lt => true
  | Gt => false
  | Eq => String.leb (service_name (cr_service a)) (service_name (cr_service b))
  end.
Definition creds_list `{HashIter} (tenant : option string) (s : InMemoryCredentialStore)
    : list CredentialRecord :=
  match lock_read s with
  | None => []
  | Some g => sort_by cred_le
                (filter (λ r, tenant_matches tenant (cr_tenant_id r) = true) (hash_iter g).*2)
  end.
Definition creds_get (tenant : string) (svc : ServiceId) (s : InMemoryCredentialStore)
    : option CredentialRecord :=
  g ← lock_read s; g !! (tenant, svc).

#[export] Instance InMemoryCredentialStore_CredentialStore `{HashIter} : CredentialStore InMemoryCredentialStore := {|
  cst_upsert_with_secret := creds_upsert_with_secret;
  cst_remove := creds_remove;
  cst_list t s := (creds_list t s, s);
  cst_get t v s := (creds_get t v s, s) |}.

(** ** Routes *)
Record CredState (C : Type) := MkCS { cs_creds : C; cs_keys : InMemoryKeyStore }.
Arguments MkCS {C}.
Arguments cs_creds {C}.
Arguments cs_keys {C}.

Definition target_tenant (scope : TenantScope) (requested : option string) : outcome CtlError string :=
  match requested with
  | None => Ok (ts_tenant scope)
  | Some t =>
      if is_admin (ts_role scope) then Ok t
      else if String.eqb t (ts_tenant scope) then Ok t
      else Err (NotFound "not found")
  end.

Definition parse_service (s : string) : outcome CtlError ServiceId :=
  if String.eqb s "openai" then Ok OpenAi
  else if String.eqb s "anthropic" then Ok Anthropic
  else if String.eqb s "github" then Ok GitHub
  else if String.eqb s "stripe" then Ok Stripe
  else Err (BadRequest ("unknown service " +:+ s)).

Section routes.
Context {C : Type} `{CredentialStore C}.

Definition put_credential (now : Z) (scope : TenantScope) (q_tenant : option string)
    (svc : ServiceId) (secret : string) (st : CredState C) : CredState C * outcome CtlError CredentialRecord :=
  match target_tenant scope q_tenant with
  | Err e => (st, Err e)
  | Panic => (st, Panic)
  | Ok tenant =>
      if str_is_empty (trim secret) then (st, Err (BadRequest "secret must be non-empty")) else
      let fp := fingerprint secret in
      let (existing, creds) := cst_get tenant svc (cs_creds st) in
      let rec := MkCred tenant svc
                   (match existing with Some r => cr_added_at r | None => now end) now fp in
      (MkCS (cst_upsert_with_secret rec secret creds)
            (keys_set tenant svc (MkSecret secret) (cs_keys st)), Ok rec)
  end.

Definition list_credentials (scope : TenantScope) (q_tenant : option string) (st : CredState C)
    : list CredentialRecord * CredState C :=
  let (rows, creds) := cst_list (if is_admin (ts_role scope) then q_tenant else Some (ts_tenant scope)) (cs_creds st) in
  (rows, MkCS creds (cs_keys st)).

Definition delete_credential (scope : TenantScope) (q_tenant : option string) (service_s : string)
    (st : CredState C) : CredState C * outcome CtlError unit :=
  match (let? tenant := target_tenant scope q_tenant in
         let? svc := parse_service service_s in Ok (tenant, svc)) with
  | Err e => (st, Err e)
  | Panic => (st, Panic)
  | Ok (tenant, svc) =>
      match cst_remove tenant svc (cs_creds st) with
      | (Some _, creds) => (MkCS creds (keys_unset tenant svc (cs_keys st)), Ok tt)
      | (None, creds) => (MkCS creds (cs_keys st), Err (NotFound ("credential " +:+ service_s)))
      end
  end.
End routes.
Abbreviation MemCredState := (CredState InMemoryCredentialStore).

(** ** Lemmas: the hash *)
Lemma fnv_step_range h b : (0 ≤ fnv_step h b < 2 ^ 64)%Z.
Proof. unfold fnv_step, u64. apply Z.mod_pos_bound. lia. Qed.
(** The prime is odd, hence invertible modulo [2^64]. *)
Definition FNV_INV : Z := 0xce965057aff6957b.
Lemma fnv_mul_inj x y :
  (0 ≤ x < 2 ^ 64 → 0 ≤ y < 2 ^ 64 → u64 (x * FNV_PRIME) = u64 (y * FNV_PRIME) → x = y)%Z.
Proof.
  intros Hx Hy Heq. unfold u64 in Heq.
  assert (∀ z, 0 ≤ z < 2 ^ 64 → ((z * FNV_PRIME) mod 2 ^ 64 * FNV_INV) mod 2 ^ 64 = z)%Z as Hinv.
  { intros z Hz. rewrite Z.mul_mod_idemp_l by lia.
    replace (z * FNV_PRIME * FNV_INV)%Z with (z + z * ((FNV_PRIME * FNV_INV - 1) / 2 ^ 64) * 2 ^ 64)%Z.
    - rewrite Z.mod_add by lia. by apply Z.mod_small.
    - rewrite <- Z.mul_assoc. replace ((FNV_PRIME * FNV_INV - 1) / 2 ^ 64 * 2 ^ 64)%Z with (FNV_PRIME * FNV_INV - 1)%Z by reflexivity.
      lia. }
  rewrite <- (Hinv x Hx), <- (Hinv y Hy). by rewrite Heq.
Qed.
Lemma lxor_byte_range h b : (0 ≤ h < 2 ^ 64 → 0 ≤ Z.lxor h (byte_val b) < 2 ^ 64)%Z.
Proof.
  intros Hh. pose proof (byte_val_range b) as Hb. split; [apply Z.lxor_nonneg; lia|].
  destruct (decide (Z.lxor h (byte_val b) = 0)%Z) as [->|Hne]; [lia|].
  assert (0 < Z.lxor h (byte_val b))%Z by (pose proof (proj2 (Z.lxor_nonneg h (byte_val b))); lia).
  apply Z.log2_lt_pow2; [lia|]. eapply Z.le_lt_trans; [apply Z.log2_lxor; lia|].
  assert (∀ z, 0 ≤ z < 2 ^ 64 → Z.log2 z < 64)%Z as Hlog.
  { intros z Hz. destruct (decide (z = 0)%Z) as [->|]; [reflexivity|]. apply Z.log2_lt_pow2; lia. }
  apply Z.max_lub_lt; apply Hlog; lia.
Qed.
Lemma fnv_step_inj_hash h h' b :
  (0 ≤ h < 2 ^ 64 → 0 ≤ h' < 2 ^ 64 → fnv_step h b = fnv_step h' b → h = h')%Z.
Proof.
  intros Hh Hh' Heq%fnv_mul_inj; [|by apply lxor_byte_range..].
  apply (f_equal (λ z, Z.lxor z (byte_val b))) in Heq.
  by rewrite !Z.lxor_assoc, !Z.lxor_nilpotent, !Z.lxor_0_r in Heq.
Qed.
Lemma fnv_step_inj_byte h b b' : (0 ≤ h < 2 ^ 64 → fnv_step h b = fnv_step h b' → b = b')%Z.
Proof.
  intros Hh Heq%fnv_mul_inj; [|by apply lxor_byte_range..].
  apply (f_equal (Z.lxor h)) in Heq. rewrite <- !Z.lxor_assoc, !Z.lxor_nilpotent, !Z.lxor_0_l in Heq.
  by rewrite <- (byte_of_val b), Heq, byte_of_val.
Qed.
Lemma fnv_range h s : (0 ≤ h < 2 ^ 64 → 0 ≤ fnv h s < 2 ^ 64)%Z.
Proof. revert h. induction s as [|b s IH]; intros h Hh; [done|]. apply IH, fnv_step_range. Qed.
Lemma fnv_inj_hash h h' s :
  (0 ≤ h < 2 ^ 64 → 0 ≤ h' < 2 ^ 64 → fnv h s = fnv h' s → h = h')%Z.
Proof.
  revert h h'. induction s as [|b s IH]; intros h h' Hh Hh' Heq; [done|].
  eapply fnv_step_inj_hash, IH; eauto using fnv_step_range.
Qed.
Lemma fnv_app h s t : fnv h (s +:+ t) = fnv (fnv h s) t.
Proof. revert h. induction s as [|b s IH]; intros h; [done|]. apply IH. Qed.

Lemma hex_nibbles_len k n : str_len (hex_nibbles k n) = k.
Proof. induction k as [|k IH]; [done|]. simpl. by f_equal. Qed.
Lemma hex_digit_inj x y : (0 ≤ x < 16 → 0 ≤ y < 16 → hex_digit x = hex_digit y → x = y)%Z.
Proof.
  intros Hx%hex_value_digit Hy%hex_value_digit Heq. congruence.
Qed.
Lemma shiftr_step n k : (0 ≤ k → Z.shiftr n (4 * k) = 16 * Z.shiftr n (4 * (k + 1)) + Z.shiftr n (4 * k) mod 16)%Z.
Proof.
  intros Hk. rewrite (Z.shiftr_div_pow2 n (4 * (k + 1))), Z.shiftr_div_pow2 by lia.
  replace (4 * (k + 1))%Z with (4 * k + 4)%Z by lia. rewrite Z.pow_add_r by lia.
  rewrite <- Z.div_div by lia. change (2 ^ 4)%Z with 16%Z. apply Z.div_mod. lia.
Qed.
Lemma hex_nibbles_inj k n m :
  (Z.shiftr n (4 * Z.of_nat k) = Z.shiftr m (4 * Z.of_nat k))%Z →
  hex_nibbles k n = hex_nibbles k m → n = m.
Proof.
  induction k as [|k IH]; simpl; intros Hs Heq; [by rewrite !Z.shiftr_0_r in Hs|].
  injection Heq as Hd Hr. apply IH; [|done].
  apply hex_digit_inj in Hd; [|apply Z.mod_pos_bound; lia..].
  rewrite (shiftr_step n), (shiftr_step m), Hd by lia. f_equal. f_equal.
  rewrite Nat2Z.inj_succ in Hs. exact Hs.
Qed.
Lemma fingerprint_inj s t : fingerprint s = fingerprint t → fnv FNV_OFFSET s = fnv FNV_OFFSET t.
Proof.
  intros Heq. eapply (hex_nibbles_inj 16); [|exact Heq].
  assert (∀ z, 0 ≤ z < 2 ^ 64 → Z.shiftr z (4 * Z.of_nat 16) = 0)%Z as Hz.
  { intros z Hz. rewrite Z.shiftr_div_pow2 by lia. by apply Z.div_small. }
  by rewrite !Hz by (apply fnv_range; by split).
Qed.

(** ** Lemmas: the stores and the routes *)
Section facts.
Context `{HashIter}.

Definition cs_sound (st : MemCredState) : Prop := poisoned (cs_creds st) = false ∧ poisoned (cs_keys st) = false.

(** The metadata never lies: every record is filed under its own tenant and
    service, and the real key of that pair is present, non-blank, and has the
    record's fingerprint. *)
Definition creds_agree (st : MemCredState) : Prop :=
  ∀ t v r, creds_get t v (cs_creds st) = Some r →
    cr_tenant_id r = t ∧ cr_service r = v ∧
    ∃ k, keys_get t v (cs_keys st) = Some k ∧ cr_fingerprint r = fingerprint (expose k).

Lemma creds_get_upsert rec t v s : poisoned s = false →
  creds_get t v (creds_upsert rec s) =
  if decide ((cr_tenant_id rec, cr_service rec) = (t, v)) then Some rec else creds_get t v s.
Proof.
  intros Hp. unfold creds_get, creds_upsert, lock_write, lock_read. rewrite Hp. simpl. by rewrite lookup_insert.
Qed.
Lemma creds_get_remove t v t' v' s : poisoned s = false →
  creds_get t' v' (creds_remove t v s).2 = if decide ((t, v) = (t', v')) then None else creds_get t' v' s.
Proof.
  intros Hp. unfold creds_get, creds_remove, lock_write, lock_read. rewrite Hp. simpl. by rewrite lookup_delete.
Qed.
Lemma creds_remove_fst t v s : (creds_remove t v s).1 = creds_get t v s.
Proof. done. Qed.
Lemma creds_write_poisoned f (s : InMemoryCredentialStore) : poisoned (lock_write f s) = poisoned s.
Proof. unfold lock_write. by destruct (poisoned s) eqn:E. Qed.
Lemma keys_write_poisoned f (s : InMemoryKeyStore) : poisoned (lock_write f s) = poisoned s.
Proof. unfold lock_write. by destruct (poisoned s) eqn:E. Qed.
Lemma cs_sound_put now sc q v s st : cs_sound st → cs_sound (put_credential now sc q v s st).1.
Proof.
  intros Hs. unfold put_credential. destruct (target_tenant sc q); [|done..]. case_match; [done|].
  simpl. unfold cs_sound, creds_upsert_with_secret, creds_upsert, keys_set in *. simpl. by rewrite creds_write_poisoned, keys_write_poisoned.
Qed.
Lemma cs_sound_delete sc q v st : cs_sound st → cs_sound (delete_credential sc q v st).1.
Proof.
  intros Hs. unfold delete_credential. destruct (obind _ _) as [[t w]| |]; [|done..].
  simpl. unfold creds_remove. destruct (g ← lock_read _; _); simpl;
    unfold cs_sound, keys_unset in *; simpl; by rewrite creds_write_poisoned, ?keys_write_poisoned.
Qed.

Lemma put_credential_cases now sc q v s st :
  (∃ e, target_tenant sc q = Err e ∧ put_credential now sc q v s st = (st, Err e)) ∨
  (∃ e, put_credential now sc q v s st = (st, Err e)) ∨
  (∃ t rec, target_tenant sc q = Ok t ∧ cr_tenant_id rec = t ∧ cr_service rec = v ∧
     cr_fingerprint rec = fingerprint s ∧
     put_credential now sc q v s st
     = (MkCS (creds_upsert rec (cs_creds st)) (keys_set t v (MkSecret s) (cs_keys st)), Ok rec)).
Proof.
  unfold put_credential. destruct (target_tenant sc q) as [t|e|] eqn:Ht; [|eauto|].
  - destruct (str_is_empty (trim s)); [eauto|]. right. right.
    exists t, (MkCred t v (match creds_get t v (cs_creds st) with Some r => cr_added_at r | None => now end)
                 now (fingerprint s)). done.
  - unfold target_tenant in Ht. repeat case_match; done.
Qed.
Lemma delete_credential_cases sc q w st :
  (∃ e, delete_credential sc q w st = (st, Err e)) ∨
  ∃ t v, target_tenant sc q = Ok t ∧ parse_service w = Ok v ∧
    ((∃ r, creds_get t v (cs_creds st) = Some r ∧
       delete_credential sc q w st
       = (MkCS (creds_remove t v (cs_creds st)).2 (keys_unset t v (cs_keys st)), Ok tt)) ∨
     (creds_get t v (cs_creds st) = None ∧
       delete_credential sc q w st
       = (MkCS (creds_remove t v (cs_creds st)).2 (cs_keys st), Err (NotFound ("credential " +:+ w))))).
Proof.
  unfold delete_credential. destruct (target_tenant sc q) as [t|e|] eqn:Ht; cbn [obind]; [|eauto|].
  2: { unfold target_tenant in Ht. repeat case_match; done. }
  destruct (parse_service w) as [v|e|] eqn:Hv; cbn [obind]; [|eauto|].
  2: { unfold parse_service in Hv. repeat case_match; done. }
  right. exists t, v. split; [done|]. split; [done|]. cbn [cst_remove InMemoryCredentialStore_CredentialStore].
  destruct (creds_remove t v (cs_creds st)) as [o creds] eqn:E. pose proof (f_equal fst E) as Ho.
  rewrite creds_remove_fst in Ho. simpl in Ho. rewrite Ho. destruct o; eauto.
Qed.
Lemma target_tenant_seen sc q t : target_tenant sc q = Ok t → can_see sc t = true.
Proof.
  unfold target_tenant, can_see. destruct q as [x|].
  - destruct (is_admin (ts_role sc)); [done|]. destruct (String.eqb_spec x (ts_tenant sc)); [|done].
    intros [= <-]. subst. apply String.eqb_refl.
  - intros [= <-]. by rewrite String.eqb_refl, orb_true_r.
Qed.

(** ** Histories of credential calls *)
Inductive CredOp :=
| CPut (now : Z) (scope : TenantScope) (q_tenant : option string) (svc : ServiceId) (secret : string)
| CDelete (scope : TenantScope) (q_tenant : option string) (service_s : string).
Definition cred_step {C} `{CredentialStore C} (st : CredState C) (op : CredOp) : CredState C :=
  match op with
  | CPut now sc q v s => (put_credential now sc q v s st).1
  | CDelete sc q v => (delete_credential sc q v st).1
  end.
Definition cred_op_scope (op : CredOp) : TenantScope :=
  match op with CPut _ sc _ _ _ => sc | CDelete sc _ _ => sc end.

Lemma cred_step_sound st op : cs_sound st → cs_sound (cred_step st op).
Proof. destruct op; [apply cs_sound_put|apply cs_sound_delete]. Qed.

Lemma cred_step_agree st op : cs_sound st → creds_agree st → creds_agree (cred_step st op).
Proof.
  intros [Hc Hk] Ha. destruct op as [now sc q v s|sc q v]; simpl.
  - destruct (put_credential_cases now sc q v s st) as [(e & _ & ->)|[(e & ->)|(t & rec & _ & Ht & Hv & Hf & ->)]]; [done..|].
    intros t' v' r. simpl. rewrite creds_get_upsert, keys_get_set by done. subst t v.
    case_decide as Hd; simplify_eq; [|by apply Ha].
    intros [= <-]. split; [done|]. split; [done|]. by eexists.
  - destruct (delete_credential_cases sc q v st) as [(e & ->)|(t & w & _ & _ & [(r0 & _ & ->)|(_ & ->)])];
      [done|..]; intros t' v' r; cbn [fst cs_creds cs_keys]; rewrite creds_get_remove by done;
      (case_decide as Hd; [done|]).
    + rewrite keys_get_unset by done. rewrite decide_False by done. by apply Ha.
    + by apply Ha.
Qed.

(** A call changes nothing its caller cannot see. *)
Lemma cred_step_other st op t v :
  cs_sound st → can_see (cred_op_scope op) t = false →
  keys_get t v (cs_keys (cred_step st op)) = keys_get t v (cs_keys st) ∧
  creds_get t v (cs_creds (cred_step st op)) = creds_get t v (cs_creds st).
Proof.
  intros [Hc Hk] Hns. destruct op as [now sc q w s|sc q w]; simpl in *.
  - destruct (put_credential_cases now sc q w s st) as [(e & _ & ->)|[(e & ->)|(t' & rec & Htt & Ht & Hv & Hf & ->)]]; [done..|].
    simpl. rewrite creds_get_upsert, keys_get_set by done. apply target_tenant_seen in Htt.
    rewrite !decide_False; [done|congruence..].
  - destruct (delete_credential_cases sc q w st)
      as [(e & ->)|(t' & w' & Htt%target_tenant_seen & _ & [(r0 & _ & ->)|(_ & ->)])];
      [done|..]; cbn [fst cs_creds cs_keys]; rewrite creds_get_remove, ?keys_get_unset by done;
      by rewrite !decide_False by congruence.
Qed.

(** Metadata and key stay together.  From empty stores (or any state that
    satisfies the invariant), after any sequence of [put_credential] and
    [delete_credential] calls by any callers, every metadata record is filed
    under its own tenant and service, and the proxy's key store holds for that
    pair a key with exactly the recorded fingerprint. *)
Theorem credentials_agree (st : MemCredState) (ops : list CredOp) :
  cs_sound st → creds_agree st → creds_agree (foldl cred_step st ops).
Proof.
  revert st. induction ops as [|op ops IH]; intros st Hs Ha; [done|]. simpl.
  apply IH; [by apply cred_step_sound|by apply cred_step_agree].
Qed.

(** Credential isolation.  Whatever sequence of credential calls is made by
    callers that cannot see tenant [t] (operators of other tenants), with any
    [?tenant=] parameter: [t]'s real keys and metadata are untouched, and the
    list such a caller gets has no record of [t]. *)
Theorem credentials_isolated (st : MemCredState) (ops : list CredOp) (t : string) (v : ServiceId)
    (sc : TenantScope) (q : option string) (r : CredentialRecord) :
  cs_sound st → Forall (λ op, can_see (cred_op_scope op) t = false) ops →
  (keys_get t v (cs_keys (foldl cred_step st ops)) = keys_get t v (cs_keys st) ∧
   creds_get t v (cs_creds (foldl cred_step st ops)) = creds_get t v (cs_creds st)) ∧
  (can_see sc t = false → r ∈ (list_credentials sc q st).1 → cr_tenant_id r ≠ t).
Proof.
  intros Hs Hf. split.
  - revert st Hs. induction Hf as [|op ops Hop Hf IH]; intros st Hs; [done|]. simpl.
    destruct (IH _ (cred_step_sound st op Hs)) as [-> ->]. by apply cred_step_other.
  - unfold can_see, list_credentials. intros [Hr Hne]%orb_false_iff. rewrite Hr. simpl. unfold creds_list.
    destruct (lock_read _); [|by intros ?%elem_of_nil].
    rewrite elem_of_sort_by. intros [Hm _]%list_elem_of_filter. simpl in Hm.
    intros <-. apply String.eqb_eq in Hm. rewrite Hm, String.eqb_refl in Hne. done.
Qed.

(** Rotation is visible.  A fingerprint has sixteen characters, and two
    secrets of the same length that differ in exactly one byte always have
    different fingerprints. *)
Theorem fingerprint_detects_edit (pre post : string) (b b' : ascii) :
  str_len (fingerprint (pre +:+ String b post)) = 16 ∧
  (b ≠ b' → fingerprint (pre +:+ String b post) ≠ fingerprint (pre +:+ String b' post)).
Proof.
  split; [apply hex_nibbles_len|]. intros Hne Heq%fingerprint_inj. rewrite !fnv_app in Heq. simpl in Heq.
  apply fnv_inj_hash in Heq; [|apply fnv_step_range..].
  apply fnv_step_inj_byte in Heq; [done|]. by apply fnv_range.
Qed.

(** What a successful write does.  When [put_credential] succeeds, the
    caller may act for the target tenant, the secret is not blank, the proxy
    will read exactly that secret for that tenant and service, the metadata has
    the new fingerprint and time and keeps the first [added_at]; when
    [delete_credential] succeeds, neither key nor metadata is left. *)
Theorem credential_writes_take_effect (now : Z) (sc : TenantScope) (q : option string) (svc : ServiceId)
    (secret : string) (st st1 st2 : MemCredState) (rec : CredentialRecord) (name : string) :
  cs_sound st →
  (put_credential now sc q svc secret st = (st1, Ok rec) →
    can_see sc (cr_tenant_id rec) = true ∧ str_is_empty (trim secret) = false ∧
    keys_get (cr_tenant_id rec) svc (cs_keys st1) = Some (MkSecret secret) ∧
    creds_get (cr_tenant_id rec) svc (cs_creds st1) = Some rec ∧
    rec = MkCred (cr_tenant_id rec) svc
            (default now (cr_added_at <$> creds_get (cr_tenant_id rec) svc (cs_creds st))) now (fingerprint secret)) ∧
  (delete_credential sc q name st = (st2, Ok tt) →
    ∃ t v, target_tenant sc q = Ok t ∧ parse_service name = Ok v ∧ can_see sc t = true ∧
      keys_get t v (cs_keys st2) = None ∧ creds_get t v (cs_creds st2) = None).
Proof.
  intros [Hc Hk]. split.
  - unfold put_credential. destruct (target_tenant sc q) as [t| |] eqn:Ht; [|done..].
    destruct (str_is_empty (trim secret)) eqn:Hb; [done|]. intros [= <- <-]. simpl.
    unfold creds_upsert_with_secret. rewrite keys_get_set, creds_get_upsert by done. simpl.
    rewrite !decide_True by done. split; [by eapply target_tenant_seen|]. do 3 (split; [done|]).
    f_equal. by destruct (creds_get t svc (cs_creds st)).
  - destruct (delete_credential_cases sc q name st) as [(e & ->)|(t & v & Ht & Hv & [(r & _ & ->)|(_ & ->)])];
      [done| |done]. intros Heq. apply (f_equal fst) in Heq. cbn [fst] in Heq. subst st2.
    exists t, v. cbn [cs_keys cs_creds].
    rewrite keys_get_unset, creds_get_remove by done. rewrite !decide_True by done.
    split; [done|]. split; [done|]. split; [by eapply target_tenant_seen|done].
Qed.

End facts.

(** ** Witnesses *)
Definition demo_cs : MemCredState := MkCS creds_new keys_new.
Definition op_acme : TenantScope := MkTS "acme" Operator.
Definition op_other : TenantScope := MkTS "other" Operator.

Lemma demo_cs_sound : cs_sound demo_cs ∧ creds_agree demo_cs.
Proof. split; [done|]. intros t v r. unfold creds_get. simpl. by rewrite lookup_empty. Qed.

Lemma credentials_agree_witness :
  creds_agree (foldl cred_step demo_cs [CPut 1 op_acme None OpenAi "sk-1"; CPut 2 op_acme None OpenAi "sk-2"]).
Proof. apply (credentials_agree demo_cs); apply demo_cs_sound. Defined.

Lemma credentials_isolated_witness :
  keys_get "acme" OpenAi (cs_keys (foldl cred_step (MkCS creds_new (keys_set "acme" OpenAi (MkSecret "sk-1") keys_new))
     [CPut 1 op_other (Some "acme") OpenAi "evil"; CDelete op_other None "openai"])) = Some (MkSecret "sk-1").
Proof.
  destruct (credentials_isolated (MkCS creds_new (keys_set "acme" OpenAi (MkSecret "sk-1") keys_new))
     [CPut 1 op_other (Some "acme") OpenAi "evil"; CDelete op_other None "openai"] "acme" OpenAi
     op_other None (MkCred "acme" OpenAi 0 0 "x")) as [[Hk _] _].
  - split; reflexivity.
  - repeat constructor.
  - rewrite Hk. reflexivity.
Defined.

Lemma fingerprint_detects_edit_witness : fingerprint "sk-1" ≠ fingerprint "sk-2".
Proof. apply (fingerprint_detects_edit "sk-" "" "1" "2"). discriminate. Defined.

Lemma credential_writes_take_effect_witness :
  keys_get "acme" Stripe (cs_keys (put_credential 7 op_acme (Some "acme") Stripe "sk" demo_cs).1) = Some (MkSecret "sk").
Proof.
  destruct (credential_writes_take_effect 7 op_acme (Some "acme") Stripe "sk" demo_cs
     (put_credential 7 op_acme (Some "acme") Stripe "sk" demo_cs).1 demo_cs
     (MkCred "acme" Stripe 7 7 (fingerprint "sk")) "stripe") as [Hput _].
  - split; reflexivity.
  - apply Hput. reflexivity.
Defined.
