(* ===== verification/Sessions.v ===== *)
(** * Sessions: the store and the session routes

    Models [agentjail-ctl/src/session.rs] ([Session], the [SessionStore] trait as
    a class with its laws, [InMemorySessionStore], [new_session_id]) and
    [routes/sessions.rs] ([create_session], [list_sessions], [get_session],
    [delete_session]).  The handlers are written against the [SessionStore] and
    [TokenStore] interfaces, so the theorems hold for the cached token store too.
    Random bytes and clock readings are the fields of [Draw]; [hex::encode] is the
    class [HexEncode]; [OffsetDateTime + Duration] is the parameter [odt_add]
    ([None]: it panics). *)

From S2P Require Import Prelude Keys Token LruCache Provider PhantomProxy Tenant Ctl.
Local Open Scope rust_scope.

(** The [hex] crate's [encode]: lower-case digits, two per byte. *)
Class HexEncode := { hex_encode : list ascii → string; hex_encode_spec bs : hex_encode bs = hex_lower bs }.
#[export] Instance hex_encode_ref : HexEncode := {| hex_encode := hex_lower; hex_encode_spec _ := eq_refl |}.

Record Session := MkSession {
  s_id : string;
  s_tenant_id : string;
  s_created_at : Z;
  s_expires_at : option Z;
  s_services : list ServiceId;
  s_env : gmap string string
}.

(** ** The [SessionStore] trait *)
Class SessionStore (S : Type) := {
  ss_insert : Session → S → S * outcome CtlError unit;
  ss_get : string → S → option Session;
  ss_list : option string → S → list Session;
  ss_remove : string → S → option Session * S
}.

(** [b.created_at.cmp(&a.created_at) != Greater] *)
Definition newest_first (a b : Session) : bool := (s_created_at b <=? s_created_at a)%Z.

(** What the trait promises, on the map from ids to sessions. *)
Class SessionStoreLaws (S : Type) `{SessionStore S} := {
  ss_ok : S → Prop;
  ss_view : S → gmap string Session;
  law_ss_id st id s : ss_ok st → ss_view st !! id = Some s → s_id s = id;
  law_ss_insert s st :
    ss_ok st → ss_ok (ss_insert s st).1 ∧
    match ss_view st !! s_id s with
    | Some _ => ss_view (ss_insert s st).1 = ss_view st ∧
                (ss_insert s st).2 = Err (Conflict ("session " +:+ s_id s +:+ " already exists"))
    | None => ss_view (ss_insert s st).1 = <[s_id s := s]> (ss_view st) ∧ (ss_insert s st).2 = Ok tt
    end;
  law_ss_get id st : ss_ok st → ss_get id st = ss_view st !! id;
  law_ss_list t st :
    ss_ok st → StronglySorted newest_first (ss_list t st) ∧ NoDup (s_id <$> ss_list t st) ∧
    ∀ s, s ∈ ss_list t st ↔ ss_view st !! s_id s = Some s ∧ tenant_matches t (s_tenant_id s) = true;
  law_ss_remove id st :
    ss_ok st → ss_ok (ss_remove id st).2 ∧ (ss_remove id st).1 = ss_view st !! id ∧
               ss_view (ss_remove id st).2 = delete id (ss_view st)
}.

(** ** [InMemorySessionStore] *)
Definition InMemorySessionStore : Type := Lock (gmap string Session).
Definition sess_new : InMemorySessionStore := new_lock ∅.

Definition sess_insert (session : Session) (st : InMemorySessionStore)
    : InMemorySessionStore * outcome CtlError unit :=
  match lock_read st with
  | None => (st, Err (Internal "session store poisoned"))
  | Some g =>
      if bool_decide (is_Some (g !! s_id session))
      then (st, Err (Conflict ("session " +:+ s_id session +:+ " already exists")))
      else (lock_write (<[s_id session := session]>) st, Ok tt)
  end.
Definition sess_get (id : string) (st : InMemorySessionStore) : option Session :=
  g ← lock_read st; g !! id.
Definition sess_list `{HashIter} (tenant : option string) (st : InMemorySessionStore) : list Session :=
  match lock_read st with
  | None => []
  | Some g => sort_by newest_first
                (filter (λ s, tenant_matches tenant (s_tenant_id s) = true) (hash_iter g).*2)
  end.
Definition sess_remove (id : string) (st : InMemorySessionStore) : option Session * InMemorySessionStore :=
  (g ← lock_read st; g !! id, lock_write (delete id) st).

#[export] Instance InMemorySessionStore_SessionStore `{HashIter} : SessionStore InMemorySessionStore := {|
  ss_insert := sess_insert; ss_get := sess_get; ss_list := sess_list; ss_remove := sess_remove |}.

Definition new_session_id `{HexEncode} (b : list ascii) : string := "sess_" +:+ hex_encode b.

(** ** Route handlers *)
Definition tenant_filter (sc : TenantScope) : option string :=
  if is_admin (ts_role sc) then None else Some (ts_tenant sc).

Record CreateSessionRequest := MkCSR {
  rq_services : list ServiceId;
  rq_ttl_secs : option Z;
  rq_scopes : gmap ServiceId (list string)
}.

Record SessionView := MkSV {
  sv_id : string;
  sv_created_at : Z;
  sv_expires_at : option Z;
  sv_services : list ServiceId;
  sv_env : gmap string string
}.
Definition session_view (s : Session) : SessionView :=
  MkSV (s_id s) (s_created_at s) (s_expires_at s) (s_services s) (s_env s).

(** Random bytes and clock readings consumed by one [create_session] call. *)
Record Draw := MkDraw {
  d_id : list ascii;
  d_tok : nat → list ascii;
  d_clk : nat → nat → Z;
  d_expiry_now : Z;
  d_created_now : Z
}.

Definition token_var (svc : ServiceId) : string :=
  match svc with
  | OpenAi => "OPENAI_API_KEY"
  | Anthropic => "ANTHROPIC_API_KEY"
  | GitHub => "GITHUB_TOKEN"
  | Stripe => "STRIPE_API_KEY"
  end.
Definition base_var (svc : ServiceId) : string :=
  match svc with
  | OpenAi => "OPENAI_BASE_URL"
  | Anthropic => "ANTHROPIC_BASE_URL"
  | GitHub => "GITHUB_API_URL"
  | Stripe => "STRIPE_API_BASE"
  end.
Definition base_path (svc : ServiceId) : string :=
  match svc with
  | OpenAi => "/v1/openai/v1"
  | Anthropic => "/v1/anthropic"
  | GitHub => "/v1/github"
  | Stripe => "/v1/stripe"
  end.

Definition path_scope (req : CreateSessionRequest) (svc : ServiceId) : Scope :=
  match rq_scopes req !! svc with
  | Some paths => MkScope (MkGlob <$> paths)
  | None => scope_any
  end.
(** [Duration::from_secs], in nanoseconds *)
Definition req_ttl (req : CreateSessionRequest) : option Z := (λ s, s * 10 ^ 9)%Z <$> rq_ttl_secs req.

Section routes.
Context `{HexEncode} `{HashIter} {T S : Type} `{TokenStore T} `{SessionStore S}.
Variable odt_add : Z → Z → option Z.

Record SessState := MkSS {
  st_tokens : T;
  st_keys : InMemoryKeyStore;
  st_sessions : S;
  st_proxy_base_url : string
}.

Definition has_key (sc : TenantScope) (svc : ServiceId) (keys : InMemoryKeyStore) : bool :=
  match keys_get (ts_tenant sc) svc keys with Some _ => true | None => false end
  || (is_admin (ts_role sc) && match keys_get "dev" svc keys with Some _ => true | None => false end).

Fixpoint check_keys (sc : TenantScope) (keys : InMemoryKeyStore) (svcs : list ServiceId)
    : outcome CtlError unit :=
  match svcs with
  | [] => Ok tt
  | svc :: rest =>
      if negb (has_key sc svc keys)
      then Err (BadRequest ("no credential configured for service " +:+ service_name svc +:+
                            " (tenant " +:+ ts_tenant sc +:+ ")"))
      else check_keys sc keys rest
  end.

Fixpoint check_scopes (services : list ServiceId) (scoped : list ServiceId) : outcome CtlError unit :=
  match scoped with
  | [] => Ok tt
  | svc :: rest =>
      if negb (bool_decide (svc ∈ services))
      then Err (BadRequest ("scope for service " +:+ service_name svc +:+ " but it is not in services"))
      else check_scopes services rest
  end.

(** The loop that issues one token per requested service; [None]: [issue] panicked. *)
Fixpoint issue_loop (d : Draw) (req : CreateSessionRequest) (id tenant base : string)
    (i : nat) (svcs : list ServiceId) (env : gmap string string) (tokens : T)
    : T * option (gmap string string) :=
  match svcs with
  | [] => (tokens, Some env)
  | svc :: rest =>
      match ts_issue (d_clk d i) (d_tok d i) id tenant svc (path_scope req svc) (req_ttl req) tokens with
      | None => (tokens, None)
      | Some (token, tokens) =>
          let env := <[token_var svc := token_display token]> env in
          let env := <[base_var svc := base +:+ base_path svc]> env in
          issue_loop d req id tenant base (i + 1) rest env tokens
      end
  end.

Definition create_session (d : Draw) (sc : TenantScope) (req : CreateSessionRequest) (st : SessState)
    : SessState * outcome CtlError SessionView :=
  match rq_services req with
  | [] => (st, Err (BadRequest "services must contain at least one entry"))
  | _ :: _ =>
  match check_keys sc (st_keys st) (rq_services req) with
  | Err e => (st, Err e)
  | Panic => (st, Panic)
  | Ok _ =>
  let id := new_session_id (d_id d) in
  match match req_ttl req with
        | None => Some None
        | Some t => e ← odt_add (d_expiry_now d) t; Some (Some e)
        end with
  | None => (st, Panic)
  | Some expires_at =>
  match check_scopes (rq_services req) (hash_iter (rq_scopes req)).*1 with
  | Err e => (st, Err e)
  | Panic => (st, Panic)
  | Ok _ =>
  match issue_loop d req id (ts_tenant sc) (st_proxy_base_url st) 0 (rq_services req) ∅ (st_tokens st) with
  | (tokens, None) => (MkSS tokens (st_keys st) (st_sessions st) (st_proxy_base_url st), Panic)
  | (tokens, Some env) =>
      let session := MkSession id (ts_tenant sc) (d_created_now d) expires_at (rq_services req) env in
      let (sessions, r) := ss_insert session (st_sessions st) in
      let st := MkSS tokens (st_keys st) sessions (st_proxy_base_url st) in
      match r with
      | Ok _ => (st, Ok (session_view session))
      | Err e => (st, Err e)
      | Panic => (st, Panic)
      end
  end end end end end.

Definition list_sessions (sc : TenantScope) (st : SessState) : list SessionView :=
  session_view <$> ss_list (tenant_filter sc) (st_sessions st).

Definition get_session (sc : TenantScope) (id : string) (st : SessState) : outcome CtlError SessionView :=
  ok_or (session_view <$> (s ← ss_get id (st_sessions st);
                           if can_see sc (s_tenant_id s) then Some s else None))
        (NotFound ("session " +:+ id)).

Definition delete_session (sc : TenantScope) (id : string) (st : SessState)
    : SessState * outcome CtlError unit :=
  let existing := ss_get id (st_sessions st) in
  if negb (match existing with Some s => can_see sc (s_tenant_id s) | None => false end)
  then (st, Err (NotFound ("session " +:+ id))) else
  match ss_remove id (st_sessions st) with
  | (None, sessions) =>
      (MkSS (st_tokens st) (st_keys st) sessions (st_proxy_base_url st), Err (NotFound ("session " +:+ id)))
  | (Some session, sessions) =>
      (MkSS (ts_revoke_session (s_id session) (st_tokens st)) (st_keys st) sessions (st_proxy_base_url st), Ok tt)
  end.
End routes.
Arguments SessState : clear implicits.

(** ** The in-memory store keeps the trait's promise *)
Lemma newest_first_total a b : newest_first a b = true ∨ newest_first b a = true.
Proof. unfold newest_first. rewrite !Z.leb_le. lia. Qed.
Lemma newest_first_trans a b c : newest_first a b = true → newest_first b c = true → newest_first a c = true.
Proof. unfold newest_first. rewrite !Z.leb_le. lia. Qed.

Lemma NoDup_hash_values `{HashIter} (g : gmap string Session) P `{∀ s, Decision (P s)} :
  map_Forall (λ id s, s_id s = id) g → NoDup (s_id <$> filter P (hash_iter g).*2).
Proof.
  intros Hg. assert (s_id <$> (hash_iter g).*2 = (hash_iter g).*1) as Heq.
  { rewrite <- list_fmap_compose. apply list_fmap_ext. intros i [k s] Hi%list_elem_of_lookup_2.
    apply elem_of_hash_iter in Hi. by apply Hg in Hi. }
  apply NoDup_fmap_filter. rewrite Heq. apply NoDup_hash_iter.
Qed.

#[export] Instance InMemorySessionStore_laws `{HashIter} : SessionStoreLaws InMemorySessionStore.
Proof.
  refine {| ss_ok := λ st : InMemorySessionStore, poisoned st = false ∧ map_Forall (λ id s, s_id s = id) (inner st);
            ss_view := inner |}.
  - intros st id s [_ Hi] Hs. by apply Hi in Hs.
  - intros s st [Hp Hi]. simpl. unfold sess_insert, lock_read, lock_write. rewrite Hp.
    case_bool_decide as Hd; simpl.
    + destruct Hd as [x Hx]. by rewrite Hx.
    + rewrite <- eq_None_not_Some in Hd. rewrite Hd. split; [|done]. split; [done|].
      by apply map_Forall_insert_2.
  - intros id st [Hp _]. simpl. unfold sess_get, lock_read. by rewrite Hp.
  - intros t st [Hp Hi]. simpl. unfold sess_list, lock_read. rewrite Hp.
    split; [apply sort_by_sorted; [apply newest_first_total|apply newest_first_trans]|].
    split; [rewrite sort_by_perm; by apply NoDup_hash_values|].
    intros s. rewrite elem_of_sort_by, list_elem_of_filter, list_elem_of_fmap. split.
    + intros [Hm ([k s'] & -> & Hk%elem_of_hash_iter)]. simpl in *. by rewrite (Hi _ _ Hk).
    + intros [Hl Hm]. split; [done|]. exists (s_id s, s). by rewrite elem_of_hash_iter.
  - intros id st [Hp Hi]. simpl. unfold sess_remove, lock_read, lock_write. rewrite Hp. simpl.
    split; [|done]. split; [done|]. by apply map_Forall_delete.
Defined.

(** ** Lemmas: the issuing loop *)
Section issuing.
Context `{TokenStoreLaws T}.
Variables (d : Draw) (req : CreateSessionRequest) (id tenant base : string).

(** The record of the token issued for [svc] at position [j]. *)
Definition issued_record (j : nat) (svc : ServiceId) (r : TokenRecord) : Prop :=
  ∃ exp, resolve_ttl (d_clk d j 0) (req_ttl req) = Some exp ∧
         r = MkRecord id tenant svc (path_scope req svc) exp.

Lemma issue_step i svc (tokens tokens' : T) tok :
  ts_ok tokens →
  ts_issue (d_clk d i) (d_tok d i) id tenant svc (path_scope req svc) (req_ttl req) tokens = Some (tok, tokens') →
  ts_ok tokens' ∧ tok_bytes tok = d_tok d i ∧
  ∃ r, issued_record i svc r ∧ ts_view tokens' = <[d_tok d i := r]> (ts_view tokens).
Proof.
  intros Hok Hi. pose proof (law_issue (d_clk d i) (d_tok d i) id tenant svc (path_scope req svc) (req_ttl req) tokens Hok) as Hl.
  rewrite Hi in Hl. destruct Hl as (? & ? & exp & ? & ?). split; [done|]. split; [done|].
  eexists. split; [|done]. by exists exp.
Qed.

(** Whatever happens, the loop only adds records of this session. *)
Lemma issue_loop_adds svcs : ∀ i env (tokens tokens' : T) o,
  ts_ok tokens → issue_loop d req id tenant base i svcs env tokens = (tokens', o) →
  ts_ok tokens' ∧
  ∀ k r, ts_view tokens' !! k = Some r →
    ts_view tokens !! k = Some r ∨
    ∃ j svc, svcs !! j = Some svc ∧ k = d_tok d (i + j) ∧ issued_record (i + j) svc r.
Proof.
  induction svcs as [|svc svcs IH]; intros i env tokens tokens' o Hok Hl; simpl in Hl.
  { simplify_eq. auto. }
  destruct (ts_issue _ _ _ _ _ _ _ _) as [[tok tokens1]|] eqn:Hi; [|simplify_eq; auto].
  destruct (issue_step _ _ _ _ _ Hok Hi) as (Hok1 & _ & r1 & Hr1 & Hv1).
  destruct (IH _ _ _ _ _ Hok1 Hl) as [Hok' Hv]. split; [done|]. intros k r Hk.
  destruct (Hv k r Hk) as [Hk1|(j & s & Hj & -> & Hr)].
  - rewrite Hv1 in Hk1. apply lookup_insert_Some in Hk1 as [[<- <-]|[_ Hk1]]; [|auto].
    right. exists 0, svc. by rewrite Nat.add_0_r.
  - right. exists (j + 1), s. rewrite Nat.add_comm. simpl. by replace (i + 1 + j) with (i + (1 + j)) in * by lia.
Qed.

(** Keys the loop does not draw keep their records. *)
Lemma issue_loop_keeps svcs : ∀ i env (tokens tokens' : T) o k,
  ts_ok tokens → issue_loop d req id tenant base i svcs env tokens = (tokens', o) →
  (∀ j, j < length svcs → d_tok d (i + j) ≠ k) → ts_view tokens' !! k = ts_view tokens !! k.
Proof.
  induction svcs as [|svc svcs IH]; intros i env tokens tokens' o k Hok Hl Hk; simpl in Hl.
  { by simplify_eq. }
  destruct (ts_issue _ _ _ _ _ _ _ _) as [[tok tokens1]|] eqn:Hi; [|by simplify_eq].
  destruct (issue_step _ _ _ _ _ Hok Hi) as (Hok1 & _ & r1 & _ & Hv1).
  rewrite (IH _ _ _ _ _ k Hok1 Hl), Hv1.
  - apply lookup_insert_ne. specialize (Hk 0). rewrite Nat.add_0_r in Hk. apply Hk. simpl. lia.
  - intros j Hj. replace (i + 1 + j) with (i + (1 + j)) by lia. apply Hk. simpl. lia.
Qed.

(** Environment variables of services outside the list are not written. *)
Lemma issue_loop_env_other svcs : ∀ i env (tokens tokens' : T) env' x,
  issue_loop d req id tenant base i svcs env tokens = (tokens', Some env') →
  (∀ svc, svc ∈ svcs → x ≠ token_var svc ∧ x ≠ base_var svc) → env' !! x = env !! x.
Proof.
  induction svcs as [|svc svcs IH]; intros i env tokens tokens' env' x Hl Hx; simpl in Hl.
  { by simplify_eq. }
  destruct (ts_issue _ _ _ _ _ _ _ _) as [[tok tokens1]|] eqn:Hi; [|done].
  rewrite (IH _ _ _ _ _ x Hl) by set_solver.
  destruct (Hx svc) as [? ?]; [set_solver|]. by rewrite !lookup_insert_ne.
Qed.
Lemma env_vars_distinct s s' :
  token_var s ≠ base_var s' ∧ (s ≠ s' → token_var s ≠ token_var s' ∧ base_var s ≠ base_var s').
Proof. by destruct s, s'. Qed.

(** With fresh random bytes, every listed service ends up with a live token. *)
Lemma issue_loop_live svcs : ∀ i env (tokens tokens' : T) env',
  ts_ok tokens → issue_loop d req id tenant base i svcs env tokens = (tokens', Some env') →
  NoDup (d_tok d <$> seq i (length svcs)) →
  ∀ svc, svc ∈ svcs →
  env' !! base_var svc = Some (base +:+ base_path svc) ∧
  ∃ j r, i ≤ j < i + length svcs ∧ issued_record j svc r ∧ ts_view tokens' !! d_tok d j = Some r ∧
         env' !! token_var svc = Some (token_display (MkToken (d_tok d j))).
Proof.
  induction svcs as [|s svcs IH]; intros i env tokens tokens' env' Hok Hl Hnd svc Hin; simpl in Hl.
  { by apply elem_of_nil in Hin. }
  destruct (ts_issue _ _ _ _ _ _ _ _) as [[tok tokens1]|] eqn:Hi; [|done].
  destruct (issue_step _ _ _ _ _ Hok Hi) as (Hok1 & Htok & r1 & Hr1 & Hv1).
  simpl in Hnd. apply NoDup_cons in Hnd as [Hni Hnd].
  destruct (decide (svc ∈ svcs)) as [Hrest|Hrest].
  { rewrite <- Nat.add_1_r in Hnd.
    destruct (IH _ _ _ _ _ Hok1 Hl Hnd svc Hrest) as (Hb & j & r & Hj & Hr & Hv & He).
    split; [done|]. exists j, r. simpl. split; [lia|done]. }
  assert (svc = s) as -> by set_solver. clear Hin.
  assert (∀ x, x = token_var s ∨ x = base_var s → ∀ s', s' ∈ svcs → x ≠ token_var s' ∧ x ≠ base_var s') as Hx.
  { intros x Hx s' Hs'. assert (s ≠ s') as Hne by set_solver.
    pose proof (env_vars_distinct s s'). pose proof (env_vars_distinct s' s).
    destruct Hx as [->| ->]; naive_solver. }
  split.
  - rewrite (issue_loop_env_other _ _ _ _ _ _ _ Hl (Hx _ (or_intror eq_refl))). apply lookup_insert_eq.
  - exists i, r1. split; [simpl; lia|]. split; [done|]. split.
    + rewrite (issue_loop_keeps _ _ _ _ _ _ (d_tok d i) Hok1 Hl), Hv1; [apply lookup_insert_eq|].
      intros j Hj Heq. apply Hni, list_elem_of_fmap. exists (i + 1 + j). split; [done|]. apply elem_of_seq. lia.
    + rewrite (issue_loop_env_other _ _ _ _ _ _ _ Hl (Hx _ (or_introl eq_refl))).
      rewrite lookup_insert_ne by (pose proof (env_vars_distinct s s); naive_solver).
      rewrite lookup_insert_eq. do 2 f_equal. destruct tok. simpl in *. by rewrite Htok.
Qed.
End issuing.

Lemma check_keys_Ok sc keys svcs u : check_keys sc keys svcs = Ok u → Forall (λ s, has_key sc s keys = true) svcs.
Proof.
  induction svcs as [|s svcs IH]; simpl; [constructor|]. destruct (has_key sc s keys) eqn:E; [|done].
  simpl. auto.
Qed.
Lemma check_scopes_Ok services l u : check_scopes services l = Ok u → Forall (λ s, s ∈ services) l.
Proof. induction l as [|s l IH]; simpl; [constructor|]. case_bool_decide; [|done]. simpl. auto. Qed.

(** The stages of [create_session]: refused with the state untouched, or past
    all the checks with the issuing loop run. *)
Lemma create_session_cases `{HexEncode} `{HashIter} {T S} `{TokenStore T} `{SessionStore S} odt_add d sc req
    (st st' : SessState T S) r :
  create_session odt_add d sc req st = (st', r) →
  (st' = st ∧ ∀ v, r ≠ Ok v) ∨
  ∃ tokens o expires_at,
    rq_services req ≠ [] ∧
    Forall (λ s, has_key sc s (st_keys st) = true) (rq_services req) ∧
    Forall (λ s, s ∈ rq_services req) (hash_iter (rq_scopes req)).*1 ∧
    issue_loop d req (new_session_id (d_id d)) (ts_tenant sc) (st_proxy_base_url st) 0
      (rq_services req) ∅ (st_tokens st) = (tokens, o) ∧
    st_tokens st' = tokens ∧ st_keys st' = st_keys st ∧ st_proxy_base_url st' = st_proxy_base_url st ∧
    match o with
    | None => st_sessions st' = st_sessions st ∧ r = Panic
    | Some env =>
        let session := MkSession (new_session_id (d_id d)) (ts_tenant sc) (d_created_now d) expires_at
                         (rq_services req) env in
        st_sessions st' = (ss_insert session (st_sessions st)).1 ∧
        r = obind (ss_insert session (st_sessions st)).2 (λ _, Ok (session_view session))
    end.
Proof.
  unfold create_session. intros Hc. destruct (rq_services req) as [|s0 svcs] eqn:Hs; [left; by simplify_eq|].
  destruct (check_keys sc (st_keys st) (s0 :: svcs)) as [u|e|] eqn:Hk; [|left; by simplify_eq..].
  destruct (match req_ttl req with None => _ | Some _ => _ end) as [expires_at|]; [|left; by simplify_eq].
  destruct (check_scopes _ _) as [u'|e|] eqn:Hsc; [|left; by simplify_eq..].
  destruct (issue_loop _ _ _ _ _ _ _ _ _) as [tokens o] eqn:Hl. right. exists tokens, o, expires_at.
  split; [done|]. split; [by eapply check_keys_Ok|]. split; [by eapply check_scopes_Ok|]. split; [done|].
  destruct o as [env|]; [|by simplify_eq].
  destruct (ss_insert _ _) as [sessions ri] eqn:Hins. cbv zeta. rewrite ?Hins. destruct ri; by simplify_eq.
Qed.

(** What a successful call leaves in the environment and in the token store. *)
Lemma create_session_env `{HexEncode} `{HashIter} {T S} `{TokenStoreLaws T} `{SessionStore S}
    odt_add d sc req (st st' : SessState T S) v svc :
  ts_ok (st_tokens st) → NoDup (d_tok d <$> seq 0 (length (rq_services req))) →
  create_session odt_add d sc req st = (st', Ok v) → svc ∈ rq_services req →
  sv_id v = new_session_id (d_id d) ∧ st_keys st' = st_keys st ∧ ts_ok (st_tokens st') ∧
  sv_env v !! base_var svc = Some (st_proxy_base_url st +:+ base_path svc) ∧
  ∃ j r, sv_env v !! token_var svc = Some (token_display (MkToken (d_tok d j))) ∧
    issued_record d req (sv_id v) (ts_tenant sc) j svc r ∧ ts_view (st_tokens st') !! d_tok d j = Some r.
Proof.
  intros Hok Hnd Hc Hin. destruct (create_session_cases _ _ _ _ _ _ _ Hc)
    as [[-> Hne]|(tokens & o & ex & Hs & Hk & Hsc & Hl & Ht & Hkeys & _ & Ho)]; [by destruct (Hne v)|].
  destruct o as [env|]; [|by destruct Ho]. destruct Ho as [_ Hr].
  set (s := MkSession _ _ _ _ _ _) in *. destruct (ss_insert s (st_sessions st)).2; simpl in Hr; [|done..].
  injection Hr as ->. destruct (issue_loop_adds _ _ _ _ _ _ _ _ _ _ _ Hok Hl) as [Hok' _].
  destruct (issue_loop_live _ _ _ _ _ _ _ _ _ _ _ Hok Hl Hnd svc Hin) as (Hb & j & r & _ & Hr & Hv & He).
  rewrite Ht. do 4 (split; [done|]). by exists j, r.
Qed.

(** C28: A session's tokens belong to its caller.  However [create_session]
    ends (success, refusal, conflict, panic half-way through the services), every
    token record present afterwards either was there before or carries the new
    session id, the caller's own tenant, a requested service and exactly the
    scope requested for it; keys are untouched.  On success every requested
    service had a key (the caller's, or ["dev"]'s for an admin), the id was
    unused, and the session filed under it has the caller's tenant. *)
Theorem session_tokens_confined `{HexEncode} `{HashIter} {T S} `{TokenStoreLaws T} `{SessionStoreLaws S}
    (odt_add : Z → Z → option Z) (d : Draw) (sc : TenantScope) (req : CreateSessionRequest)
    (st st' : SessState T S) (res : outcome CtlError SessionView) :
  ts_ok (st_tokens st) → ss_ok (st_sessions st) →
  create_session odt_add d sc req st = (st', res) →
  st_keys st' = st_keys st ∧
  (∀ k r, ts_view (st_tokens st') !! k = Some r →
     ts_view (st_tokens st) !! k = Some r ∨
     (session_id r = new_session_id (d_id d) ∧ tenant_id r = ts_tenant sc ∧
      service r ∈ rq_services req ∧ scope r = path_scope req (service r))) ∧
  (∀ v, res = Ok v →
     Forall (λ s, has_key sc s (st_keys st) = true) (rq_services req) ∧
     Forall (λ s, s ∈ rq_services req) (hash_iter (rq_scopes req)).*1 ∧
     ss_view (st_sessions st) !! sv_id v = None ∧
     ∃ s, ss_view (st_sessions st') = <[sv_id v := s]> (ss_view (st_sessions st)) ∧
          v = session_view s ∧ s_tenant_id s = ts_tenant sc ∧ s_services s = rq_services req ∧
          sv_id v = new_session_id (d_id d)).
Proof.
  intros Hok Hsok Hc. destruct (create_session_cases _ _ _ _ _ _ _ Hc)
    as [[-> Hne]|(tokens & o & ex & Hs & Hk & Hsc & Hl & Ht & Hkeys & _ & Ho)].
  { split; [done|]. split; [auto|]. intros v ->. by destruct (Hne v). }
  split; [done|]. split.
  - intros k r. rewrite Ht. intros Hr. destruct (issue_loop_adds _ _ _ _ _ _ _ _ _ _ _ Hok Hl) as [_ Hv].
    destruct (Hv k r Hr) as [?|(j & svc & Hj & -> & exp & _ & ->)]; [auto|]. right. simpl.
    apply list_elem_of_lookup_2 in Hj. done.
  - intros v ->. destruct o as [env|]; [|by destruct Ho]. destruct Ho as [Hst Hr].
    split; [done|]. split; [done|].
    set (s := MkSession _ _ _ _ _ _) in *. destruct (law_ss_insert s (st_sessions st) Hsok) as [_ Hins].
    destruct (ss_view (st_sessions st) !! s_id s) eqn:Hid; destruct Hins as [Hview Hres];
      rewrite Hres in Hr; simpl in Hr; [done|]. injection Hr as ->. split; [done|].
    exists s. by rewrite Hst, Hview.
Qed.

(** A session works.  After a successful [create_session] whose random
    bytes are fresh 32-byte strings, every requested service's environment
    variable holds a token that parses, and that token resolves (until its
    expiry) to a record of this session, tenant and service with the requested
    scope; the base-URL variable points at the proxy's prefix for the service. *)
Theorem session_env_resolves `{HexCrate} `{HexEncode} `{HashIter} {T S} `{TokenStoreLaws T} `{SessionStore S}
    (odt_add : Z → Z → option Z) (d : Draw) (sc : TenantScope) (req : CreateSessionRequest)
    (st st' : SessState T S) (v : SessionView) (svc : ServiceId) :
  ts_ok (st_tokens st) → NoDup (d_tok d <$> seq 0 (length (rq_services req))) →
  (∀ j, length (d_tok d j) = 32) →
  create_session odt_add d sc req st = (st', Ok v) → svc ∈ rq_services req →
  sv_env v !! base_var svc = Some (st_proxy_base_url st +:+ base_path svc) ∧
  ∃ raw tok r,
    sv_env v !! token_var svc = Some raw ∧ token_parse raw = Some tok ∧
    session_id r = sv_id v ∧ tenant_id r = ts_tenant sc ∧ service r = svc ∧ scope r = path_scope req svc ∧
    (rq_ttl_secs req = None → expires_at r = None) ∧
    ∀ clk, is_expired r (clk 0) = false → (ts_lookup clk tok (st_tokens st')).1 = Some r.
Proof.
  intros Hok Hnd Hlen Hc Hin.
  destruct (create_session_env _ _ _ _ _ _ _ _ Hok Hnd Hc Hin) as (_ & _ & Hok' & Hb & j & r & He & Hr & Hv).
  split; [done|]. exists (token_display (MkToken (d_tok d j))), (MkToken (d_tok d j)), r.
  split; [done|]. split; [apply token_parse_display, Hlen|].
  destruct Hr as (exp & Hexp & ->). do 4 (split; [done|]). split.
  { unfold req_ttl in Hexp. intros Hn. rewrite Hn in Hexp. by injection Hexp as <-. }
  intros clk Hclk. destruct (law_lookup clk (MkToken (d_tok d j)) (st_tokens st') Hok') as [-> _]. simpl.
  rewrite Hv. simpl. unfold live_at. by rewrite Hclk.
Qed.

(** Deleting a session.  When [delete_session] answers 204 the session
    existed and the caller could see it; afterwards the session is gone, every
    token record of that session is gone, and every other session and token
    record is as before.  Any other answer is the same 404 and changes nothing. *)
Theorem delete_session_revokes {T S} `{TokenStoreLaws T} `{SessionStoreLaws S}
    (sc : TenantScope) (id : string) (st st' : SessState T S) (res : outcome CtlError unit) :
  ts_ok (st_tokens st) → ss_ok (st_sessions st) → delete_session sc id st = (st', res) →
  match res with
  | Ok _ =>
      (∃ s, ss_view (st_sessions st) !! id = Some s ∧ can_see sc (s_tenant_id s) = true) ∧
      ss_view (st_sessions st') = delete id (ss_view (st_sessions st)) ∧
      ∀ k r, ts_view (st_tokens st') !! k = Some r ↔ ts_view (st_tokens st) !! k = Some r ∧ session_id r ≠ id
  | _ => res = Err (NotFound ("session " +:+ id)) ∧ st' = st
  end.
Proof.
  intros Hok Hsok. unfold delete_session. rewrite (law_ss_get id _ Hsok).
  destruct (ss_view (st_sessions st) !! id) as [s|] eqn:Hs; [|intros Hd; by simplify_eq/=].
  destruct (can_see sc (s_tenant_id s)) eqn:Hcs; [|intros Hd; by simplify_eq/=]. simpl.
  destruct (law_ss_remove id _ Hsok) as (_ & Hr1 & Hr2). rewrite Hs in Hr1.
  destruct (ss_remove id (st_sessions st)) as [o sessions]. simpl in *. subst o.
  intros [= <- <-]. simpl. split; [eauto|]. split; [done|]. intros k r.
  rewrite (law_ss_id _ _ _ Hsok Hs). destruct (law_revoke_session id (st_tokens st) Hok) as [_ ->].
  unfold abs_revoke_session. rewrite map_lookup_filter_Some. done.
Qed.

(** Other tenants' sessions do not show.  To a caller who cannot see
    session [s], [get_session] and [delete_session] answer exactly as they do on
    a store without it and deletion changes nothing; a listing contains a stored
    session exactly when the caller can see its tenant. *)
Theorem sessions_hidden {T S} `{TokenStoreLaws T} `{SessionStoreLaws S}
    (sc : TenantScope) (st st0 : SessState T S) (s : Session) :
  ss_ok (st_sessions st) → ss_ok (st_sessions st0) →
  ss_view (st_sessions st0) = delete (s_id s) (ss_view (st_sessions st)) →
  ss_view (st_sessions st) !! s_id s = Some s →
  (session_view s ∈ list_sessions sc st ↔ can_see sc (s_tenant_id s) = true) ∧
  (can_see sc (s_tenant_id s) = false →
     get_session sc (s_id s) st = get_session sc (s_id s) st0 ∧
     delete_session sc (s_id s) st = (st, (delete_session sc (s_id s) st0).2)).
Proof.
  intros Hsok Hsok0 Hv0 Hs. unfold list_sessions. rewrite list_elem_of_fmap.
  destruct (law_ss_list (tenant_filter sc) _ Hsok) as (_ & _ & Hl).
  assert (∀ x, tenant_matches (tenant_filter sc) x = can_see sc x) as Hm.
  { intros x. unfold tenant_filter, can_see, tenant_matches. destruct (is_admin (ts_role sc)); simpl; [done|].
    apply String.eqb_sym. }
  setoid_rewrite Hl. setoid_rewrite Hm. split.
  - split; [|eauto]. intros (s' & Hv & Hs' & Hc). assert (s_id s = s_id s') as Hid by (by injection Hv).
    rewrite <- Hid in Hs'. congruence.
  - intros Hc. unfold get_session, delete_session. rewrite !law_ss_get by done.
    rewrite Hv0, lookup_delete_eq, Hs. simpl. by rewrite Hc.
Qed.

(** The admin's ["dev"] fallback buys nothing.  An admin whose own tenant
    has no key for a service can still create a session for it when the ["dev"]
    tenant has one, but the token is bound to the admin's tenant: as long as that
    tenant has no key, no request presenting the token is ever sent upstream. *)
Theorem dev_fallback_unspendable {H V A B} `{HttpCrate H V} `{AuditSink A} `{HexCrate} `{HexEncode} `{HashIter}
    {T S} `{TokenStoreLaws T} `{SessionStore S}
    (odt_add : Z → Z → option Z) (d : Draw) (sc : TenantScope) (req : CreateSessionRequest)
    (st st' : SessState T S) (v : SessionView) (svc : ServiceId) :
  ts_ok (st_tokens st) → NoDup (d_tok d <$> seq 0 (length (rq_services req))) →
  (∀ j, length (d_tok d j) = 32) →
  create_session odt_add d sc req st = (st', Ok v) → svc ∈ rq_services req →
  keys_get (ts_tenant sc) svc (st_keys st) = None →
  is_admin (ts_role sc) = true ∧ is_Some (keys_get "dev" svc (st_keys st)) ∧
  ∃ raw tok, sv_env v !! token_var svc = Some raw ∧ token_parse raw = Some tok ∧
    ∀ (send : UpRequest H B → outcome string (UpResponse H B)) mfb clk (rq : Request H B) reg (audit : A),
      extract_phantom (req_headers rq) = Some tok →
      (handle send mfb clk rq (MkProxy reg (st_tokens st') (st_keys st') audit)).2 = [].
Proof.
  intros Hok Hnd Hlen Hc Hin Hnone.
  destruct (create_session_env _ _ _ _ _ _ _ _ Hok Hnd Hc Hin) as (_ & Hkeys & Hok' & _ & j & r & He & Hr & Hv).
  assert (has_key sc svc (st_keys st) = true) as Hk.
  { destruct (create_session_cases _ _ _ _ _ _ _ Hc) as [[_ Hne]|(? & ? & ? & _ & Hk & _)]; [by destruct (Hne v)|].
    rewrite Forall_forall in Hk. by apply Hk. }
  unfold has_key in Hk. rewrite Hnone in Hk. simpl in Hk. apply andb_true_iff in Hk as [Hadm Hdev].
  split; [done|]. split; [by destruct (keys_get "dev" svc (st_keys st))|].
  exists (token_display (MkToken (d_tok d j))), (MkToken (d_tok d j)). split; [done|].
  split; [apply token_parse_display, Hlen|]. intros send mfb clk rq reg audit Hx.
  destruct (handle send mfb clk rq _) as [[resp px'] sent] eqn:Hh. simpl.
  destruct (handle_cases _ _ _ _ _ _ _ _ Hh) as [->|(rec & prov & secret & path & o & Ha & _)]; [done|].
  exfalso. destruct Ha as [_ (tok & Htok & Hl) _ _ Hkey]. rewrite Hx in Htok. injection Htok as <-.
  simpl in Hl, Hkey. destruct (law_lookup clk (MkToken (d_tok d j)) (st_tokens st') Hok') as [Hl' _].
  rewrite Hl' in Hl. simpl in Hl. rewrite Hv in Hl. simpl in Hl. unfold live_at in Hl.
  case_match; [done|]. injection Hl as <-. destruct Hr as (exp & _ & ->). simpl in Hkey. congruence.
Qed.

(** ** Witnesses *)
Definition demo_draw : Draw :=
  MkDraw (replicate 12 (byte_of 7)) (λ j, byte_of (Z.of_nat j) :: replicate 31 (byte_of 1)) (λ _ _, 5%Z) 5 6.
Definition demo_ss : SessState InMemoryTokenStore InMemorySessionStore :=
  MkSS mem_new demo_keys sess_new "http://proxy".
Definition demo_csr : CreateSessionRequest := MkCSR [OpenAi] (Some 60%Z) {[OpenAi := ["/v1/*"]]}.
Definition demo_op : TenantScope := MkTS "acme" Operator.
Definition demo_add (a b : Z) : option Z := Some (a + b)%Z.
Definition demo_created : SessState InMemoryTokenStore InMemorySessionStore * outcome CtlError SessionView :=
  create_session demo_add demo_draw demo_op demo_csr demo_ss.
Definition demo_view : SessionView :=
  match demo_created.2 with Ok v => v | _ => MkSV "" 0 None [] ∅ end.
Definition demo_sid : string := "sess_070707070707070707070707".

Lemma demo_draw_fresh : NoDup (d_tok demo_draw <$> seq 0 (length [OpenAi])).
Proof. apply NoDup_singleton. Qed.

Lemma demo_created_ok : demo_created = (demo_created.1, Ok demo_view).
Proof.
  assert (demo_created.2 = Ok demo_view) as <- by reflexivity. apply surjective_pairing.
Qed.

Lemma session_tokens_confined_witness :
  ss_view (st_sessions demo_created.1) !! demo_sid ≠ None.
Proof.
  destruct (session_tokens_confined demo_add demo_draw demo_op demo_csr demo_ss demo_created.1 demo_created.2)
    as (_ & _ & Hok).
  - reflexivity.
  - split; [reflexivity|]. apply map_Forall_empty.
  - reflexivity.
  - destruct (Hok demo_view) as (_ & _ & _ & s & Hs & _ & _ & _ & Hid); [vm_compute; reflexivity|].
    rewrite Hid in Hs. change (new_session_id (d_id demo_draw)) with demo_sid in Hs.
    rewrite Hs, lookup_insert_eq. discriminate.
Defined.

Lemma session_env_resolves_witness :
  sv_env demo_view !! "OPENAI_BASE_URL" = Some "http://proxy/v1/openai/v1".
Proof.
  apply (session_env_resolves demo_add demo_draw demo_op demo_csr demo_ss demo_created.1 demo_view OpenAi).
  - reflexivity.
  - apply demo_draw_fresh.
  - intros j. reflexivity.
  - exact demo_created_ok.
  - apply list_elem_of_here.
Defined.

Lemma delete_session_revokes_witness :
  ts_view (st_tokens demo_created.1) !! d_tok demo_draw 0 ≠ None ∧
  ts_view (st_tokens (delete_session demo_op demo_sid demo_created.1).1) !! d_tok demo_draw 0 = None.
Proof.
  split; [discriminate|].
  destruct (delete_session_revokes demo_op demo_sid demo_created.1
           (delete_session demo_op demo_sid demo_created.1).1 (Ok tt)) as (_ & _ & Hv).
  - reflexivity.
  - split; [reflexivity|]. apply map_Forall_insert_2; [reflexivity|apply map_Forall_empty].
  - rewrite (surjective_pairing (delete_session _ _ _)). reflexivity.
  - destruct (ts_view _ !! _) as [r|] eqn:Hr; [|reflexivity].
    apply Hv in Hr as [Hr Hne]. exfalso. apply Hne. vm_compute in Hr. injection Hr as <-. reflexivity.
Defined.

Definition demo_session : Session := MkSession demo_sid "acme" 1 None [OpenAi] ∅.
Definition demo_two : SessState InMemoryTokenStore InMemorySessionStore :=
  MkSS mem_new keys_new (new_lock {[demo_sid := demo_session]}) "".
Lemma sessions_hidden_witness :
  get_session (MkTS "other" Operator) demo_sid demo_two = Err (NotFound ("session " +:+ demo_sid)).
Proof.
  destruct (sessions_hidden (MkTS "other" Operator) demo_two (MkSS mem_new keys_new sess_new "") demo_session)
    as [_ Hh].
  - split; [reflexivity|]. apply map_Forall_singleton. reflexivity.
  - split; [reflexivity|]. apply map_Forall_empty.
  - simpl. by rewrite delete_singleton_eq.
  - reflexivity.
  - destruct (Hh eq_refl) as [Hg _]. etransitivity; [exact Hg|reflexivity].
Defined.

Definition demo_dev : SessState InMemoryTokenStore InMemorySessionStore :=
  MkSS mem_new (keys_set "dev" OpenAi (MkSecret "sk-dev") keys_new) sess_new "http://proxy".
Definition demo_root : TenantScope := MkTS "root" Admin.
Definition demo_dev_created : SessState InMemoryTokenStore InMemorySessionStore * outcome CtlError SessionView :=
  create_session demo_add demo_draw demo_root demo_csr demo_dev.
Definition demo_dev_view : SessionView :=
  match demo_dev_created.2 with Ok v => v | _ => MkSV "" 0 None [] ∅ end.
Lemma demo_dev_ok : demo_dev_created = (demo_dev_created.1, Ok demo_dev_view).
Proof.
  assert (demo_dev_created.2 = Ok demo_dev_view) as <- by reflexivity. apply surjective_pairing.
Qed.
Lemma dev_fallback_unspendable_witness :
  is_Some (keys_get "dev" OpenAi (st_keys demo_dev)).
Proof.
  apply (dev_fallback_unspendable (H := list_headers) (A := unit) (B := unit) demo_add demo_draw demo_root demo_csr
     demo_dev demo_dev_created.1 demo_dev_view OpenAi).
  - reflexivity.
  - apply demo_draw_fresh.
  - intros j. reflexivity.
  - exact demo_dev_ok.
  - apply list_elem_of_here.
  - reflexivity.
Defined.
