(* ===== verification/AuditLog.v ===== *)
(** * The audit log

    Models [agentjail-ctl/src/audit.rs] (the [AuditStore] trait, the ring buffer
    [InMemoryAuditStore], and [AuditStoreSink], which plugs a store into the
    phantom proxy) and [routes/audit.rs] ([list_audit]). *)

From S2P Require Import Prelude Keys Token Provider PhantomProxy Tenant Ctl Sessions.

Record AuditRow := MkRow {
  ar_id : Z;
  ar_at : Z;
  ar_session_id : string;
  ar_service : string;
  ar_method : string;
  ar_path : string;
  ar_status : Z;
  ar_reject_reason : option string;
  ar_upstream_ms : option Z
}.
Definition with_id (id : Z) (r : AuditRow) : AuditRow :=
  MkRow id (ar_at r) (ar_session_id r) (ar_service r) (ar_method r) (ar_path r) (ar_status r)
    (ar_reject_reason r) (ar_upstream_ms r).

Class AuditStore (A : Type) := {
  as_push : AuditRow → A → A;
  as_recent : nat → A → list AuditRow;
  as_total : A → Z
}.

(** ** [InMemoryAuditStore] *)
Record AuditInner := MkAI { ai_rows : list AuditRow; ai_next_id : Z }.
Record InMemoryAuditStore := MkAS { as_inner : Lock AuditInner; as_capacity : nat }.

Definition audit_with_capacity (capacity : nat) : InMemoryAuditStore := MkAS (new_lock (MkAI [] 0)) capacity.
Definition audit_new : InMemoryAuditStore := audit_with_capacity (Z.to_nat 10000).

Definition audit_push (row : AuditRow) (s : InMemoryAuditStore) : InMemoryAuditStore :=
  MkAS (lock_write (λ g,
          let row := with_id (ai_next_id g) row in
          MkAI (ring_push (as_capacity s) (ai_rows g) row) (u64 (ai_next_id g + 1))) (as_inner s))
       (as_capacity s).
Definition audit_recent (limit : nat) (s : InMemoryAuditStore) : list AuditRow :=
  match lock_read (as_inner s) with
  | None => []
  | Some g => take limit (reverse (ai_rows g))
  end.
Definition audit_total (s : InMemoryAuditStore) : Z :=
  match lock_read (as_inner s) with None => 0 | Some g => ai_next_id g end.

#[export] Instance InMemoryAuditStore_AuditStore : AuditStore InMemoryAuditStore := {|
  as_push := audit_push; as_recent := audit_recent; as_total := audit_total |}.

(** ** [AuditStoreSink]; [now] is the clock reading of the call, latencies are
    in nanoseconds. *)
Definition row_of_entry (now : Z) (e : AuditEntry) : AuditRow :=
  MkRow 0 now (ae_session_id e)
    (match ae_service e with Some s => service_name s | None => "" end)
    (ae_method e) (ae_path e) (ae_status e) (ae_reject_reason e)
    ((λ d, u64_sat (d / 10 ^ 6)) <$> ae_upstream_latency e).
Definition AuditStoreSink {A} `{AuditStore A} (now : Z) : AuditSink A :=
  {| audit_record e s := as_push (row_of_entry now e) s |}.

(** ** [list_audit] *)
Record AuditListResponse := MkALR { al_rows : list AuditRow; al_total : Z }.

Definition list_audit {A S} `{AuditStore A} `{SessionStore S} (sc : TenantScope) (q_limit : option nat)
    (audit : A) (sessions : S) : AuditListResponse :=
  let limit := Nat.min (default 100 q_limit) 1000 in
  let total := as_total audit in
  if is_admin (ts_role sc) then MkALR (as_recent limit audit) total else
  let tenant_sessions : gset string := list_to_set (s_id <$> ss_list (Some (ts_tenant sc)) sessions) in
  let raw := as_recent (Nat.min (limit * 4) 1000) audit in
  MkALR (take limit (filter (λ r, ar_session_id r ∈ tenant_sessions) raw)) total.

(** ** Lemmas *)
Definition stamped (rows : list AuditRow) : list AuditRow := imap (λ i r, with_id (u64 (Z.of_nat i)) r) rows.
Definition audit_run (cap : nat) (rows : list AuditRow) : InMemoryAuditStore :=
  foldl (λ s r, audit_push r s) (audit_with_capacity cap) rows.

Lemma stamped_snoc rows r : stamped (rows ++ [r]) = stamped rows ++ [with_id (u64 (Z.of_nat (length rows))) r].
Proof. unfold stamped. rewrite imap_app. simpl. by rewrite Nat.add_0_r. Qed.
Lemma u64_succ n : u64 (u64 n + 1) = u64 (n + 1).
Proof. unfold u64. by rewrite Z.add_mod_idemp_l. Qed.
Lemma audit_run_state cap rows :
  audit_run cap rows =
  MkAS (new_lock (MkAI (lastn (1 `max` cap) (stamped rows)) (u64 (Z.of_nat (length rows))))) cap.
Proof.
  unfold audit_run. induction rows as [|r rows IH] using rev_ind; [done|].
  rewrite foldl_snoc, IH. unfold audit_push, lock_write. cbn [poisoned new_lock as_inner as_capacity inner ai_rows ai_next_id].
  rewrite lastn_push, stamped_snoc, u64_succ, length_app. simpl.
  replace (Z.of_nat (length rows + 1)) with (Z.of_nat (length rows) + 1)%Z by lia. done.
Qed.

(** The audit ring is exact.  After any number of [push] calls on a fresh
    store of capacity [cap], [recent] returns the latest [max 1 cap] rows
    (capacity 0 behaves as 1), newest first and cut to [limit], each stamped with
    its position in the whole history modulo 2^64, and [total] counts every push
    ever made modulo 2^64. *)
Theorem audit_ring_exact (cap limit : nat) (rows : list AuditRow) :
  audit_recent limit (audit_run cap rows) = take limit (reverse (lastn (1 `max` cap) (stamped rows))) ∧
  audit_total (audit_run cap rows) = u64 (Z.of_nat (length rows)).
Proof. by rewrite audit_run_state. Qed.

(** Operators read only their own audit trail.  Every row [list_audit]
    returns to an operator belongs to a session currently filed under the
    operator's tenant and is among the latest 1000 rows; at most
    [min limit 1000] rows are returned; and a row of the latest [4 * limit] (at
    most 1000) that belongs to such a session is missing only if [limit] rows
    were already found.  (Rows of a session that has been deleted are therefore
    no longer shown to the tenant.) *)
Theorem list_audit_operator {A S} `{AuditStore A} `{SessionStoreLaws S} (t : string) (q_limit : option nat)
    (audit : A) (sessions : S) :
  ss_ok sessions →
  let out := al_rows (list_audit (MkTS t Operator) q_limit audit sessions) in
  let limit := Nat.min (default 100 q_limit) 1000 in
  let window := as_recent (Nat.min (limit * 4) 1000) audit in
  let owned r := ∃ s, ss_view sessions !! ar_session_id r = Some s ∧ s_tenant_id s = t in
  (∀ r, r ∈ out → r ∈ window ∧ owned r) ∧ length out ≤ limit ∧
  (∀ r, r ∈ window → owned r → r ∈ out ∨ length out = limit).
Proof.
  intros Hok. simpl. destruct (law_ss_list (Some t) sessions Hok) as (_ & _ & Hl).
  set (ids := list_to_set _ : gset string). set (lim := Nat.min (default 100 q_limit) 1000).
  set (win := as_recent _ _).
  assert (∀ r : AuditRow, ar_session_id r ∈ ids ↔ ∃ s, ss_view sessions !! ar_session_id r = Some s ∧ s_tenant_id s = t) as Hown.
  { intros r. unfold ids. rewrite elem_of_list_to_set, list_elem_of_fmap. split.
    - intros (s & Hid & Hs%Hl). exists s. rewrite Hid. simpl in Hs. by rewrite String.eqb_eq in Hs.
    - intros (s & Hs & Ht). exists s. assert (ar_session_id r = s_id s) as Hid by (symmetry; by eapply law_ss_id).
      split; [done|]. apply Hl. rewrite <- Hid. split; [done|]. simpl. by apply String.eqb_eq. }
  split; [|split].
  - intros r (i & Hi & _)%elem_of_take. apply list_elem_of_lookup_2, list_elem_of_filter in Hi as [Hi Hw].
    split; [done|]. by apply Hown.
  - rewrite length_take. lia.
  - intros r Hw Ho%Hown. rewrite length_take.
    assert (r ∈ filter (λ r, ar_session_id r ∈ ids) win) as Hin by (by apply list_elem_of_filter).
    destruct (decide (length (filter (λ r, ar_session_id r ∈ ids) win) ≤ lim)) as [Hle|]; [|lia].
    left. by rewrite take_ge.
Qed.

(** The sink of a call made at time [now]. *)
Section logged.
Context (now : Z).
#[local] Instance sink_now : AuditSink InMemoryAuditStore := AuditStoreSink now.

(** The proxy's verdicts reach the log.  Plugged into the proxy, the
    store's newest row after an answered request is that request's: its status
    is the status sent to the client, its method the request's, its time the
    clock's, and it has no rejection reason only if a request went upstream. *)
Theorem proxy_request_is_logged {H V} `{HttpCrate H V} `{HexCrate} `{HashIter} {T K B} `{TokenStore T} `{KeyStore K}
    (send : UpRequest H B → outcome string (UpResponse H B)) (mfb : string → outcome string string)
    (clk : nat → Z) (rq : Request H B) reg (tokens : T) (keys : K) (audit : InMemoryAuditStore)
    r px' sent (limit : nat) :
  poisoned (as_inner audit) = false → 0 < limit →
  handle send mfb clk rq (MkProxy reg tokens keys audit) = (Some r, px', sent) →
  ∃ row, head (audit_recent limit (px_audit px')) = Some row ∧
    ar_status row = resp_status r ∧ ar_method row = req_method rq ∧ ar_at row = now ∧
    (ar_reject_reason row = None → sent ≠ []).
Proof.
  intros Hp Hlim (e & He & Hst & Hm & Hrej)%handle_audit_entry. simpl in He. rewrite He.
  exists (with_id (ai_next_id (inner (as_inner audit))) (row_of_entry now e)).
  split; [|done]. unfold audit_recent, audit_push, lock_write, lock_read, ring_push. rewrite Hp. simpl.
  rewrite reverse_snoc. by destruct limit; [lia|].
Qed.
End logged.

(** ** Witnesses *)
Definition demo_audit : InMemoryAuditStore :=
  audit_push (MkRow 0 5 demo_sid "openai" "GET" "/x" 200 None None) (audit_with_capacity 2).

Lemma list_audit_operator_witness :
  MkRow 0 5 demo_sid "openai" "GET" "/x" 200 None None
  ∈ al_rows (list_audit (MkTS "acme" Operator) (Some 3) demo_audit (st_sessions demo_two)).
Proof.
  destruct (list_audit_operator "acme" (Some 3) demo_audit (st_sessions demo_two)) as (_ & _ & Hin).
  - split; [reflexivity|]. apply map_Forall_singleton. reflexivity.
  - destruct (Hin (MkRow 0 5 demo_sid "openai" "GET" "/x" 200 None None)) as [Hr|Hl].
    + apply list_elem_of_here.
    + exists demo_session. split; reflexivity.
    + exact Hr.
    + vm_compute in Hl. discriminate.
Defined.

Definition demo_logged : option (Response list_headers unit) *
    PhantomProxy list_headers InMemoryTokenStore InMemoryKeyStore InMemoryAuditStore * list (UpRequest list_headers unit) :=
  @handle _ _ _ _ _ _ _ _ _ _ (sink_now 9) _ demo_send Ok (λ _, 5%Z) demo_req
     (MkProxy demo_registry demo_tokens demo_keys demo_audit).
Lemma proxy_request_is_logged_witness :
  ∃ row, head (audit_recent 1 (px_audit demo_logged.1.2)) = Some row ∧ ar_status row = 200%Z.
Proof.
  destruct (proxy_request_is_logged 9 demo_send Ok (λ _, 5%Z) demo_req demo_registry demo_tokens demo_keys demo_audit
              demo_ok demo_logged.1.2 [demo_up] 1) as (row & Hh & Hs & _); [reflexivity|lia|reflexivity|].
  exists row. split; [exact Hh|exact Hs].
Defined.
