(* ===== verification/Jails.v ===== *)
(** * The jail ledger

    Models [agentjail-ctl/src/jails.rs] (record types, the ring-buffer
    [InMemoryJailStore] and all its operations, [truncate]) and [routes/jails.rs]
    ([list_jails], [get_jail]), with the [Output] and [ResourceStats] structs of
    [agentjail/src/run.rs].  Every operation locks the mutex and continues on a
    poisoned one ([into_inner]), so poisoning is not observable and the store is
    just its contents; a panic inside [finish] or [tail] leaves the part of the
    update made before it. *)

From S2P Require Import Prelude Text Keys Token Tenant Provider Ctl.
Local Open Scope rust_scope.

Definition DEFAULT_CAPACITY : nat := Z.to_nat 2000.
Definition OUTPUT_CAP : nat := Z.to_nat (16 * 1024).

Inductive JailKind := Run | Exec | Fork | Stream | Workspace.
#[export] Instance JailKind_eq_dec : EqDecision JailKind.
Proof. solve_decision. Defined.
Definition kind_as_str (k : JailKind) : string :=
  match k with
  | Run => "run" | Exec => "exec" | Fork => "fork" | Stream => "stream" | Workspace => "workspace"
  end.
Definition kind_from_str_or_run (s : string) : JailKind :=
  if String.eqb s "exec" then Exec
  else if String.eqb s "fork" then Fork
  else if String.eqb s "stream" then Stream
  else if String.eqb s "workspace" then Workspace
  else Run.
Definition matches_kind (a b : JailKind) : bool := bool_decide (a = b).

Inductive JailStatus := Running | Completed | Error.
#[export] Instance JailStatus_eq_dec : EqDecision JailStatus.
Proof. solve_decision. Defined.
Definition status_as_str (s : JailStatus) : string :=
  match s with Running => "running" | Completed => "completed" | Error => "error" end.
Definition status_from_str_or_error (s : string) : JailStatus :=
  if String.eqb s "running" then Running else if String.eqb s "completed" then Completed else Error.

Record JailConfigSnapshot := MkJCS {
  jc_network_mode : string;
  jc_network_domains : list string;
  jc_seccomp : string;
  jc_memory_mb : Z;
  jc_timeout_secs : Z;
  jc_cpu_percent : Z;
  jc_max_pids : Z;
  jc_git_repo : option string;
  jc_git_ref : option string
}.

(** [agentjail::ResourceStats] and [agentjail::Output]; the duration is in
    nanoseconds, the streams are raw bytes. *)
Record ResourceStats := MkStats {
  memory_peak_bytes : Z;
  memory_current_bytes : Z;
  cpu_usage_usec : Z;
  stats_oom_killed : bool;
  io_read_bytes : Z;
  io_write_bytes : Z;
  pids_current : Z
}.
Record Output := MkOutput {
  out_stdout : string;
  out_stderr : string;
  out_exit_code : Z;
  out_duration : Z;
  out_timed_out : bool;
  out_oom_killed : bool;
  out_stats : option ResourceStats
}.

Record JailRecord := MkJail {
  jr_id : Z;
  jr_tenant_id : string;
  jr_kind : JailKind;
  jr_started_at : Z;
  jr_ended_at : option Z;
  jr_status : JailStatus;
  jr_session_id : option string;
  jr_label : string;
  jr_parent_id : option Z;
  jr_exit_code : option Z;
  jr_duration_ms : option Z;
  jr_timed_out : option bool;
  jr_oom_killed : option bool;
  jr_memory_peak_bytes : option Z;
  jr_memory_current_bytes : option Z;
  jr_cpu_usage_usec : option Z;
  jr_io_read_bytes : option Z;
  jr_io_write_bytes : option Z;
  jr_pids_current : option Z;
  jr_stdout : option string;
  jr_stderr : option string;
  jr_error : option string;
  jr_config : option JailConfigSnapshot
}.

Definition new_running (now id : Z) (tenant : string) (kind : JailKind) (label : string)
    (session : option string) (parent : option Z) : JailRecord :=
  MkJail id tenant kind now None Running session label parent
    None None None None None None None None None None None None None None.

(** ** [truncate]: [None] is the panic of slicing inside a character. *)
Definition truncate (s : string) (cap : nat) : option string :=
  if str_len s <=? cap then Some s
  else p ← slice_to cap s; Some (p +:+ "… (truncated)").

Definition workspace_exec_label (workspace_id cmd : string) : string :=
  "workspace:" +:+ workspace_id +:+ "/" +:+ cmd.

(** ** Updates of one record; the flag says that the update panicked part-way. *)
Definition set_stats (s : ResourceStats) (r : JailRecord) : JailRecord :=
  MkJail (jr_id r) (jr_tenant_id r) (jr_kind r) (jr_started_at r) (jr_ended_at r) (jr_status r)
    (jr_session_id r) (jr_label r) (jr_parent_id r) (jr_exit_code r) (jr_duration_ms r)
    (jr_timed_out r) (jr_oom_killed r)
    (Some (memory_peak_bytes s)) (Some (memory_current_bytes s)) (Some (cpu_usage_usec s))
    (Some (io_read_bytes s)) (Some (io_write_bytes s)) (Some (pids_current s))
    (jr_stdout r) (jr_stderr r) (jr_error r) (jr_config r).
Definition set_completed (now : Z) (o : Output) (r : JailRecord) : JailRecord :=
  MkJail (jr_id r) (jr_tenant_id r) (jr_kind r) (jr_started_at r) (Some now) Completed
    (jr_session_id r) (jr_label r) (jr_parent_id r) (Some (out_exit_code o))
    (Some (u64_sat (out_duration o / 10 ^ 6))) (Some (out_timed_out o)) (Some (out_oom_killed o))
    (jr_memory_peak_bytes r) (jr_memory_current_bytes r) (jr_cpu_usage_usec r)
    (jr_io_read_bytes r) (jr_io_write_bytes r) (jr_pids_current r)
    (jr_stdout r) (jr_stderr r) (jr_error r) (jr_config r).
Definition set_output (so se : option string) (r : JailRecord) : JailRecord :=
  MkJail (jr_id r) (jr_tenant_id r) (jr_kind r) (jr_started_at r) (jr_ended_at r) (jr_status r)
    (jr_session_id r) (jr_label r) (jr_parent_id r) (jr_exit_code r) (jr_duration_ms r)
    (jr_timed_out r) (jr_oom_killed r)
    (jr_memory_peak_bytes r) (jr_memory_current_bytes r) (jr_cpu_usage_usec r)
    (jr_io_read_bytes r) (jr_io_write_bytes r) (jr_pids_current r)
    so se (jr_error r) (jr_config r).
Definition set_config (c : JailConfigSnapshot) (r : JailRecord) : JailRecord :=
  MkJail (jr_id r) (jr_tenant_id r) (jr_kind r) (jr_started_at r) (jr_ended_at r) (jr_status r)
    (jr_session_id r) (jr_label r) (jr_parent_id r) (jr_exit_code r) (jr_duration_ms r)
    (jr_timed_out r) (jr_oom_killed r)
    (jr_memory_peak_bytes r) (jr_memory_current_bytes r) (jr_cpu_usage_usec r)
    (jr_io_read_bytes r) (jr_io_write_bytes r) (jr_pids_current r)
    (jr_stdout r) (jr_stderr r) (jr_error r) (Some c).
Definition set_error (now : Z) (msg : string) (r : JailRecord) : JailRecord :=
  MkJail (jr_id r) (jr_tenant_id r) (jr_kind r) (jr_started_at r) (Some now) Error
    (jr_session_id r) (jr_label r) (jr_parent_id r) (jr_exit_code r) (jr_duration_ms r)
    (jr_timed_out r) (jr_oom_killed r)
    (jr_memory_peak_bytes r) (jr_memory_current_bytes r) (jr_cpu_usage_usec r)
    (jr_io_read_bytes r) (jr_io_write_bytes r) (jr_pids_current r)
    (jr_stdout r) (jr_stderr r) (Some msg) (jr_config r).

(** The two assignments [rec.stdout = Some(truncate(..)); rec.stderr = ...]. *)
Definition store_output (so se : string) (r : JailRecord) : JailRecord * bool :=
  match truncate so OUTPUT_CAP with
  | None => (r, true)
  | Some so =>
      let r := set_output (Some so) (jr_stderr r) r in
      match truncate se OUTPUT_CAP with
      | None => (r, true)
      | Some se => (set_output (Some so) (Some se) r, false)
      end
  end.
Definition finish_record (now : Z) (o : Output) (r : JailRecord) : JailRecord * bool :=
  let r := set_completed now o r in
  let r := match out_stats o with Some s => set_stats s r | None => r end in
  store_output (from_utf8_lossy (out_stdout o)) (from_utf8_lossy (out_stderr o)) r.

(** ** [InMemoryJailStore] *)
Record InMemoryJailStore := MkJS { js_rows : list JailRecord; js_next_id : Z; js_capacity : nat }.

Definition jails_with_capacity (capacity : nat) : InMemoryJailStore := MkJS [] 0 capacity.
Definition jails_new : InMemoryJailStore := jails_with_capacity DEFAULT_CAPACITY.

Definition jail_start (now : Z) (tenant : string) (kind : JailKind) (label : string)
    (session : option string) (parent : option Z) (s : InMemoryJailStore) : Z * InMemoryJailStore :=
  let id := js_next_id s in
  let rec := new_running now id tenant kind label session parent in
  (id, MkJS (ring_push (js_capacity s) (js_rows s) rec) (i64_wrap (id + 1)) (js_capacity s)).

(** [if let Some(rec) = g.rows.iter_mut().find(|r| r.id == id) { f(rec) }] *)
Fixpoint update_row (id : Z) (f : JailRecord → JailRecord) (rows : list JailRecord) : list JailRecord :=
  match rows with
  | [] => []
  | r :: rows' => if (jr_id r =? id)%Z then f r :: rows' else r :: update_row id f rows'
  end.
Definition jail_get (id : Z) (s : InMemoryJailStore) : option JailRecord :=
  List.find (λ r, jr_id r =? id)%Z (js_rows s).
Definition with_row (id : Z) (f : JailRecord → JailRecord) (s : InMemoryJailStore) : InMemoryJailStore :=
  MkJS (update_row id f (js_rows s)) (js_next_id s) (js_capacity s).
(** Did the update of row [id], if present, panic? *)
Definition row_panics (id : Z) (f : JailRecord → JailRecord * bool) (s : InMemoryJailStore) : bool :=
  match jail_get id s with Some r => (f r).2 | None => false end.

Definition jail_finish (now id : Z) (o : Output) (s : InMemoryJailStore) : InMemoryJailStore * bool :=
  (with_row id (λ r, (finish_record now o r).1) s, row_panics id (finish_record now o) s).
Definition jail_sample_stats (id : Z) (st : ResourceStats) (s : InMemoryJailStore) : InMemoryJailStore :=
  with_row id (set_stats st) s.
Definition jail_attach_config (id : Z) (c : JailConfigSnapshot) (s : InMemoryJailStore) : InMemoryJailStore :=
  with_row id (set_config c) s.
Definition jail_error (now id : Z) (msg : string) (s : InMemoryJailStore) : InMemoryJailStore :=
  with_row id (set_error now msg) s.
Definition jail_tail (id : Z) (so se : string) (s : InMemoryJailStore) : InMemoryJailStore * bool :=
  (with_row id (λ r, (store_output so se r).1) s, row_panics id (store_output so se) s).

Definition jail_recent (limit : nat) (status : option JailStatus) (s : InMemoryJailStore)
    : list JailRecord * Z :=
  (take limit (filter (λ r, match status with None => true | Some st => bool_decide (jr_status r = st) end = true)
                 (reverse (js_rows s))),
   u64 (js_next_id s)).

Record JailQuery := MkJQ {
  jq_tenant : option string;
  jq_limit : nat;
  jq_offset : nat;
  jq_status : option JailStatus;
  jq_kind : option JailKind;
  jq_q : option string
}.
Definition jail_matches `{Lowercase} (q : JailQuery) (r : JailRecord) : bool :=
  let needle := to_lowercase <$> jq_q q in
  match jq_tenant q with Some t => String.eqb (jr_tenant_id r) t | None => true end
  && match jq_status q with Some s => bool_decide (jr_status r = s) | None => true end
  && match jq_kind q with Some k => matches_kind (jr_kind r) k | None => true end
  && match needle with
     | Some n => str_contains n (to_lowercase (jr_label r))
                 || str_contains n (to_lowercase (default "" (jr_session_id r)))
                 || str_contains n (to_lowercase (default "" (jr_error r)))
     | None => true
     end.
Definition jail_page `{Lowercase} (q : JailQuery) (s : InMemoryJailStore) : list JailRecord * Z :=
  let filtered := filter (λ r, jail_matches q r = true) (reverse (js_rows s)) in
  (page (jq_offset q) (jq_limit q) filtered, Z.of_nat (length filtered)).

(** ** Routes *)
Record JailsQuery := MkJQ' {
  jp_limit : option nat;
  jp_offset : option nat;
  jp_status : option string;
  jp_kind : option string;
  jp_q : option string
}.
Definition query_status (s : string) : option JailStatus :=
  if String.eqb s "running" then Some Running
  else if String.eqb s "completed" then Some Completed
  else if String.eqb s "error" then Some Error else None.
Definition query_kind (s : string) : option JailKind :=
  if String.eqb s "run" then Some Run
  else if String.eqb s "exec" then Some Exec
  else if String.eqb s "fork" then Some Fork
  else if String.eqb s "stream" then Some Stream
  else if String.eqb s "workspace" then Some Workspace else None.
Definition list_jails `{Lowercase} (sc : TenantScope) (q : JailsQuery) (s : InMemoryJailStore)
    : list JailRecord * Z * nat * nat :=
  let limit := Nat.min (default 50 (jp_limit q)) 500 in
  let offset := default 0 (jp_offset q) in
  let tenant := if is_admin (ts_role sc) then None else Some (ts_tenant sc) in
  let query := MkJQ tenant limit offset (jp_status q ≫= query_status) (jp_kind q ≫= query_kind)
                 (s ← jp_q q; if str_is_empty (trim s) then None else Some s) in
  let (rows, total) := jail_page query s in (rows, total, limit, offset).
Definition get_jail (sc : TenantScope) (id : string) (s : InMemoryJailStore) : outcome CtlError JailRecord :=
  let? id := ok_or (parse_i64 id) (BadRequest "invalid id") in
  ok_or (r ← jail_get id s; if can_see sc (jr_tenant_id r) then Some r else None)
        (NotFound ("jail " +:+ pretty id)).

(** ** The append-only ledger the store implements

    The specification: a list of every record ever started, addressed by id. *)
Inductive JailOp :=
| JStart (now : Z) (tenant : string) (kind : JailKind) (label : string) (session : option string) (parent : option Z)
| JFinish (now id : Z) (o : Output)
| JSample (id : Z) (st : ResourceStats)
| JAttach (id : Z) (c : JailConfigSnapshot)
| JError (now id : Z) (msg : string)
| JTail (id : Z) (so se : string).

Definition jail_step (s : InMemoryJailStore) (op : JailOp) : InMemoryJailStore :=
  match op with
  | JStart now t k l se p => (jail_start now t k l se p s).2
  | JFinish now id o => (jail_finish now id o s).1
  | JSample id st => jail_sample_stats id st s
  | JAttach id c => jail_attach_config id c s
  | JError now id m => jail_error now id m s
  | JTail id so se => (jail_tail id so se s).1
  end.
Definition jail_run (cap : nat) (ops : list JailOp) : InMemoryJailStore :=
  foldl jail_step (jails_with_capacity cap) ops.

(** The row an operation updates, and how. *)
Definition op_update (op : JailOp) : option (Z * (JailRecord → JailRecord)) :=
  match op with
  | JStart _ _ _ _ _ _ => None
  | JFinish now id o => Some (id, λ r, (finish_record now o r).1)
  | JSample id st => Some (id, set_stats st)
  | JAttach id c => Some (id, set_config c)
  | JError now id m => Some (id, set_error now m)
  | JTail id so se => Some (id, λ r, (store_output so se r).1)
  end.
Definition at_id (id : Z) (f : JailRecord → JailRecord) (l : list JailRecord) : list JailRecord :=
  if (id <? 0)%Z then l else alter f (Z.to_nat id) l.
Definition ledger_step (l : list JailRecord) (op : JailOp) : list JailRecord :=
  match op with
  | JStart now t k lb se p => l ++ [new_running now (Z.of_nat (length l)) t k lb se p]
  | _ => match op_update op with Some (id, f) => at_id id f l | None => l end
  end.
Definition ledger (ops : list JailOp) : list JailRecord := foldl ledger_step [] ops.

(** What no update changes. *)
Definition identity (r : JailRecord) : Z * string * JailKind * Z * option string * string * option Z :=
  (jr_id r, jr_tenant_id r, jr_kind r, jr_started_at r, jr_session_id r, jr_label r, jr_parent_id r).

Lemma identity_id a b : identity a = identity b → jr_id a = jr_id b.
Proof. unfold identity. by intros [=]. Qed.
Lemma store_output_identity so se r : identity (store_output so se r).1 = identity r.
Proof. unfold store_output. destruct (truncate so OUTPUT_CAP); [|done]. by destruct (truncate se OUTPUT_CAP). Qed.
Lemma finish_identity now o r : identity (finish_record now o r).1 = identity r.
Proof. unfold finish_record. rewrite store_output_identity. by destruct (out_stats o). Qed.
Lemma op_update_identity op id f r : op_update op = Some (id, f) → identity (f r) = identity r.
Proof.
  destruct op; simpl; intros Hu; simplify_eq; auto using store_output_identity, finish_identity.
Qed.
Lemma jail_step_update s op id f : op_update op = Some (id, f) → jail_step s op = with_row id f s.
Proof. destruct op; simpl; intros Hu; by simplify_eq. Qed.
Lemma ledger_step_update l op id f : op_update op = Some (id, f) → ledger_step l op = at_id id f l.
Proof. destruct op; simpl; intros Hu; by simplify_eq. Qed.

(** Row [i] of a well-numbered list from [k] has id [k + i]. *)
Definition numbered (k : Z) (l : list JailRecord) : Prop :=
  ∀ i r, l !! i = Some r → jr_id r = (k + Z.of_nat i)%Z.
Lemma at_id_length id f l : length (at_id id f l) = length l.
Proof. unfold at_id. case_match; [done|]. apply length_alter. Qed.
Lemma ledger_numbered ops : numbered 0 (ledger ops).
Proof.
  unfold ledger. induction ops as [|op ops IH] using rev_ind; [by intros [|i] r ?|].
  rewrite foldl_snoc. set (l := foldl ledger_step [] ops) in *.
  destruct (op_update op) as [[id f]|] eqn:Hu.
  - rewrite (ledger_step_update _ _ _ _ Hu). unfold at_id. case_match; [done|].
    intros i r. rewrite list_lookup_alter. case_decide; [|by apply IH].
    intros (r0 & Hr0 & ->)%fmap_Some. rewrite (identity_id _ _ (op_update_identity _ _ _ r0 Hu)). rewrite (IH _ _ Hr0). lia.
  - destruct op; simpl in Hu; try done. simpl. intros i r [Hi|[Hi Hr]]%lookup_app_Some; [by apply IH|].
    apply list_lookup_singleton_Some in Hr as [Hz <-]. simpl. lia.
Qed.

Lemma numbered_cons k r l : numbered k (r :: l) → jr_id r = k ∧ numbered (k + 1) l.
Proof.
  intros Hn. split; [rewrite (Hn 0 r eq_refl); lia|]. intros i x Hx. rewrite (Hn (S i) x Hx). lia.
Qed.
Lemma update_row_numbered id f l : ∀ k, numbered k l →
  update_row id f l = if (id <? k)%Z then l else alter f (Z.to_nat (id - k)) l.
Proof.
  induction l as [|r l IH]; intros k Hn; simpl; [by case_match|].
  apply numbered_cons in Hn as [Hr Hn]. rewrite Hr, (IH _ Hn).
  destruct (Z.eqb_spec k id) as [->|Hne].
  { rewrite Z.ltb_irrefl, Z.sub_diag. done. }
  destruct (Z.ltb_spec id k), (Z.ltb_spec id (k + 1)); try lia; [done|].
  replace (Z.to_nat (id - k)) with (S (Z.to_nat (id - (k + 1)))) by lia. done.
Qed.
Lemma numbered_lastn n l : numbered 0 l → numbered (Z.of_nat (length l - n)) (lastn n l).
Proof. intros Hn i r. unfold lastn. rewrite lookup_drop. intros ->%Hn. lia. Qed.
Lemma update_lastn n id f l : numbered 0 l → update_row id f (lastn n l) = lastn n (at_id id f l).
Proof.
  intros Hn. rewrite (update_row_numbered id f _ _ (numbered_lastn n l Hn)).
  unfold lastn. rewrite at_id_length. unfold at_id. set (k := length l - n).
  destruct (Z.ltb_spec id 0); [destruct (Z.ltb_spec id (Z.of_nat k)); [done|lia]|].
  apply list_eq. intros i. rewrite lookup_drop, list_lookup_alter.
  destruct (Z.ltb_spec id (Z.of_nat k)).
  - rewrite decide_False by lia. by rewrite lookup_drop.
  - rewrite list_lookup_alter, lookup_drop.
    destruct (decide (Z.to_nat (id - Z.of_nat k) = i)), (decide (Z.to_nat id = k + i)); try lia;
      [do 2 f_equal; lia|by rewrite lookup_drop].
Qed.
Lemma find_numbered id l : ∀ k, numbered k l →
  List.find (λ r, jr_id r =? id)%Z l = if (id <? k)%Z then None else l !! Z.to_nat (id - k).
Proof.
  induction l as [|r l IH]; intros k Hn; simpl; [by case_match|].
  apply numbered_cons in Hn as [Hr Hn]. rewrite Hr, (IH _ Hn).
  destruct (Z.eqb_spec k id) as [->|Hne].
  { by rewrite Z.ltb_irrefl, Z.sub_diag. }
  destruct (Z.ltb_spec id k), (Z.ltb_spec id (k + 1)); try lia; [done|].
  by replace (Z.to_nat (id - k)) with (S (Z.to_nat (id - (k + 1)))) by lia.
Qed.

Lemma ledger_snoc ops op : ledger (ops ++ [op]) = ledger_step (ledger ops) op.
Proof. unfold ledger. by rewrite foldl_snoc. Qed.
Lemma ledger_step_length l op : length l ≤ length (ledger_step l op).
Proof.
  destruct (op_update op) as [[id f]|] eqn:Hu.
  - rewrite (ledger_step_update _ _ _ _ Hu), at_id_length. done.
  - destruct op; simpl in *; try done. rewrite length_app. lia.
Qed.

(** The concrete state is a window on the ledger. *)
Lemma jail_run_state cap ops :
  (Z.of_nat (length (ledger ops)) < 2 ^ 63)%Z →
  jail_run cap ops = MkJS (lastn (1 `max` cap) (ledger ops)) (Z.of_nat (length (ledger ops))) cap.
Proof.
  unfold jail_run. induction ops as [|op ops IH] using rev_ind; [done|]. intros Hb.
  rewrite foldl_snoc. rewrite ledger_snoc in *. pose proof (ledger_step_length (ledger ops) op).
  rewrite IH by lia. pose proof (ledger_numbered ops) as Hn.
  destruct (op_update op) as [[id f]|] eqn:Hu.
  - rewrite (jail_step_update _ _ _ _ Hu), (ledger_step_update _ _ _ _ Hu). unfold with_row. simpl.
    by rewrite update_lastn, at_id_length.
  - destruct op; simpl in Hu, Hb; try done. unfold jail_step, jail_start. cbn [snd js_next_id js_rows js_capacity ledger_step].
    rewrite lastn_push, length_app in *. simpl in *. f_equal. rewrite i64_wrap_id; unfold I64_MIN, I64_MAX; lia.
Qed.

(** C33: The ring buffer refines an append-only ledger.  Take any sequence of
    [start], [finish], [sample_stats], [attach_config], [error] and [tail] calls
    (fewer than 2^63 starts).  The store then shows exactly the latest
    [max 1 capacity] records of the unbounded ledger that addresses records by
    id: [get] returns the ledger's record of an id inside that window and nothing
    for any other id, and [recent]/[page] range over the window newest first. *)
Theorem jail_store_refines_ledger (cap : nat) (ops : list JailOp) :
  (Z.of_nat (length (ledger ops)) < 2 ^ 63)%Z →
  (∀ id, jail_get id (jail_run cap ops) =
     if (id <? Z.of_nat (length (ledger ops) - 1 `max` cap))%Z then None
     else ledger ops !! Z.to_nat id) ∧
  (∀ limit, jail_recent limit None (jail_run cap ops)
     = (take limit (reverse (lastn (1 `max` cap) (ledger ops))), Z.of_nat (length (ledger ops)))) ∧
  length (js_rows (jail_run cap ops)) ≤ 1 `max` cap.
Proof.
  intros Hb. rewrite (jail_run_state cap ops Hb). pose proof (ledger_numbered ops) as Hn. split; [|split].
  - intros id. unfold jail_get. simpl. rewrite (find_numbered id _ _ (numbered_lastn _ _ Hn)).
    destruct (Z.ltb_spec id (Z.of_nat (length (ledger ops) - 1 `max` cap))); [done|].
    unfold lastn. rewrite lookup_drop. f_equal. lia.
  - intros limit. unfold jail_recent. simpl. rewrite filter_every by done. f_equal.
    unfold u64. apply Z.mod_small. lia.
  - simpl. rewrite lastn_length. lia.
Qed.

(** ** A record's life *)
(** The status of record [i] after one more operation. *)
Definition verdict (i : Z) (st : JailStatus) (op : JailOp) : JailStatus :=
  match op with
  | JFinish _ id _ => if (id =? i)%Z then Completed else st
  | JError _ id _ => if (id =? i)%Z then Error else st
  | _ => st
  end.

Lemma store_output_status so se r :
  jr_status (store_output so se r).1 = jr_status r ∧ jr_ended_at (store_output so se r).1 = jr_ended_at r.
Proof. unfold store_output. destruct (truncate so OUTPUT_CAP); [|done]. by destruct (truncate se OUTPUT_CAP). Qed.
Lemma op_update_status op id f r : op_update op = Some (id, f) → jr_status (f r) = verdict id (jr_status r) op.
Proof.
  destruct op; simpl; intros Hu; simplify_eq; rewrite ?Z.eqb_refl; [|done..|apply store_output_status].
  unfold finish_record. destruct (store_output_status (from_utf8_lossy (out_stdout o)) (from_utf8_lossy (out_stderr o))
    (match out_stats o with Some s => set_stats s (set_completed now o r) | None => set_completed now o r end)) as [-> _].
  by destruct (out_stats o).
Qed.
Lemma verdict_other op id f i st : op_update op = Some (id, f) → id ≠ i → verdict i st op = st.
Proof. destruct op; simpl; intros Hu Hne; simplify_eq; try done; by destruct (Z.eqb_spec id i). Qed.

Lemma ledger_row pre now t k lb se p post :
  let i := length (ledger pre) in
  ∃ r, ledger (pre ++ JStart now t k lb se p :: post) !! i = Some r ∧
    identity r = (Z.of_nat i, t, k, now, se, lb, p) ∧
    jr_status r = foldl (verdict (Z.of_nat i)) Running post.
Proof.
  intros i. induction post as [|op post IH] using rev_ind.
  { rewrite ledger_snoc. simpl. eexists. split; [by apply list_lookup_middle|done]. }
  destruct IH as (r & Hr & Hid & Hst). rewrite app_comm_cons, app_assoc, ledger_snoc, foldl_snoc.
  set (l := ledger _) in *. destruct (op_update op) as [[id f]|] eqn:Hu.
  - rewrite (ledger_step_update _ _ _ _ Hu). unfold at_id.
    destruct (decide (id = Z.of_nat i)) as [->|Hne].
    + destruct (Z.ltb_spec (Z.of_nat i) 0); [lia|]. exists (f r). rewrite Nat2Z.id, list_lookup_alter_eq, Hr.
      split; [done|]. rewrite (op_update_identity _ _ _ _ Hu), (op_update_status _ _ _ _ Hu). by rewrite Hst.
    + exists r. rewrite (verdict_other _ _ _ _ _ Hu Hne). split; [|done]. case_match; [done|].
      rewrite list_lookup_alter_ne; [done|lia].
  - exists r. destruct op; simpl in *; try done. split; [|done]. by apply lookup_app_l_Some.
Qed.

(** A record tells the truth about its run.  The record created by a
    [start] keeps, through any later operations on any rows, the id, tenant,
    kind, start time, session, label and parent it was created with; its status
    is [Running] until the first [finish] or [error] for that id and from then on
    the latest of those two, and never [Running] again. *)
Theorem jail_record_history (cap : nat) (pre post : list JailOp) now t k lb se p :
  let i := length (ledger pre) in
  let ops := pre ++ JStart now t k lb se p :: post in
  (Z.of_nat (length (ledger ops)) < 2 ^ 63)%Z → length (ledger ops) - 1 `max` cap ≤ i →
  ∃ r, jail_get (Z.of_nat i) (jail_run cap ops) = Some r ∧
    identity r = (Z.of_nat i, t, k, now, se, lb, p) ∧
    jr_status r = foldl (verdict (Z.of_nat i)) Running post.
Proof.
  intros i ops Hb Hw. destruct (ledger_row pre now t k lb se p post) as (r & Hr & ? & ?). fold i ops in Hr.
  exists r. split; [|done]. rewrite (jail_run_state cap ops Hb). unfold jail_get. simpl.
  rewrite (find_numbered _ _ _ (numbered_lastn _ _ (ledger_numbered ops))).
  destruct (Z.ltb_spec (Z.of_nat i) (Z.of_nat (length (ledger ops) - 1 `max` cap))); [lia|].
  unfold lastn. rewrite lookup_drop. by replace (_ + _) with i by lia.
Qed.

(** ** Stored output *)
(** Output capping.  [truncate] keeps a string of at most [cap] bytes,
    and otherwise answers the first [cap] bytes and the marker, except that it
    panics exactly when byte [cap] continues a multi-byte character. *)
Theorem truncate_exact (s : string) (cap : nat) :
  (truncate s cap = None ↔ cap < str_len s ∧ ∃ a, str_nth cap s = Some a ∧ is_cont a = true) ∧
  (∀ r, truncate s cap = Some r →
     (str_len s ≤ cap ∧ r = s) ∨ (cap < str_len s ∧ r = str_take cap s +:+ "… (truncated)")).
Proof.
  unfold truncate. destruct (Nat.leb_spec (str_len s) cap) as [Hle|Hlt].
  - split; [split; [done|intros [? _]; lia]|]. intros r [= <-]. auto.
  - rewrite bind_None, (slice_to_None cap s Hlt). split.
    + split; [|naive_solver]. intros [Hx|(p & _ & Hp)]; [by split|done].
    + intros r (p & Hp%slice_to_Some & [= <-])%bind_Some; [|done]. right. by subst.
Qed.

Lemma find_update id f l : (∀ r, jr_id (f r) = jr_id r) →
  List.find (λ r, jr_id r =? id)%Z (update_row id f l) = f <$> List.find (λ r, jr_id r =? id)%Z l.
Proof.
  intros Hf. induction l as [|r l IH]; simpl; [done|]. destruct (jr_id r =? id)%Z eqn:E; simpl.
  - by rewrite Hf, E.
  - by rewrite E.
Qed.

(** Output that straddles the cap.  If the decoded standard output of a
    finished jail is longer than [OUTPUT_CAP] and a multi-byte character crosses
    that byte, [finish] panics, and the ledger row is left [Completed] with the
    exit code but without the output. *)
Theorem jail_finish_straddle (s : InMemoryJailStore) (now id : Z) (o : Output) (r : JailRecord) (a : ascii) :
  jail_get id s = Some r →
  OUTPUT_CAP < str_len (from_utf8_lossy (out_stdout o)) →
  str_nth OUTPUT_CAP (from_utf8_lossy (out_stdout o)) = Some a → is_cont a = true →
  (jail_finish now id o s).2 = true ∧
  ∃ r', jail_get id (jail_finish now id o s).1 = Some r' ∧ jr_status r' = Completed ∧
    jr_exit_code r' = Some (out_exit_code o) ∧ jr_stdout r' = jr_stdout r ∧ jr_stderr r' = jr_stderr r.
Proof.
  intros Hr Hlen Ha Hc.
  assert (∀ x, finish_record now o x =
    (match out_stats o with Some s => set_stats s (set_completed now o x) | None => set_completed now o x end, true)) as Hf.
  { intros x. unfold finish_record, store_output, truncate.
    destruct (Nat.leb_spec (str_len (from_utf8_lossy (out_stdout o))) OUTPUT_CAP); [lia|].
    by rewrite (proj2 (slice_to_None _ _ Hlen)) by eauto. }
  unfold jail_finish, row_panics. cbn [fst snd]. rewrite Hr, Hf. split; [done|].
  exists (finish_record now o r).1. split.
  - unfold jail_get, with_row. cbn [js_rows]. rewrite find_update.
    + unfold jail_get in Hr. by rewrite Hr.
    + intros x. apply identity_id, finish_identity.
  - rewrite Hf. by destruct (out_stats o).
Qed.

(** ** Tenant isolation of the ledger routes *)
Definition only_tenant (t : string) (s : InMemoryJailStore) : InMemoryJailStore :=
  MkJS (filter (λ r, jr_tenant_id r = t) (js_rows s)) (js_next_id s) (js_capacity s).

Lemma page_own `{Lowercase} t q s : jq_tenant q = Some t → jail_page q (only_tenant t s) = jail_page q s.
Proof.
  intros Ht. unfold jail_page, only_tenant. simpl.
  assert (filter (λ r, jail_matches q r = true) (reverse (filter (λ r, jr_tenant_id r = t) (js_rows s)))
          = filter (λ r, jail_matches q r = true) (reverse (js_rows s))) as ->; [|done].
  rewrite !filter_reverse. f_equal. rewrite list_filter_filter_l; [done|].
  intros r Hm. unfold jail_matches in Hm. rewrite Ht in Hm.
  do 3 apply andb_true_iff in Hm as [Hm _]. by apply String.eqb_eq.
Qed.
Lemma find_NoDup id l r : NoDup (jr_id <$> l) → r ∈ l → jr_id r = id →
  List.find (λ r, jr_id r =? id)%Z l = Some r.
Proof.
  induction l as [|x l IH]; [by intros _ ?%elem_of_nil|]. simpl. intros [Hx Hn]%NoDup_cons Hr Hid.
  destruct (Z.eqb_spec (jr_id x) id) as [He|Hne].
  - apply elem_of_cons in Hr as [->|Hr]; [done|]. exfalso. apply Hx, list_elem_of_fmap. exists r. by rewrite He.
  - apply elem_of_cons in Hr as [->|Hr]; [done|]. auto.
Qed.
Lemma get_own t id s : NoDup (jr_id <$> js_rows s) →
  jail_get id (only_tenant t s) = (r ← jail_get id s; if String.eqb t (jr_tenant_id r) then Some r else None).
Proof.
  intros Hn. unfold jail_get, only_tenant. simpl.
  destruct (List.find _ (js_rows s)) as [r|] eqn:Hf; simpl.
  - apply find_Some_iff in Hf as [Hr Hid%Z.eqb_eq].
    destruct (String.eqb_spec t (jr_tenant_id r)) as [->|Hne].
    + apply find_NoDup; [|by apply list_elem_of_filter|done].
      by apply NoDup_fmap_filter.
    + destruct (List.find _ (filter _ _)) as [r'|] eqn:Hf'; [|done]. exfalso.
      apply find_Some_iff in Hf' as [[Ht' Hr']%list_elem_of_filter Hid'%Z.eqb_eq].
      assert (Some r = Some r') as [= ->]; [|congruence].
      rewrite <- (find_NoDup id _ r Hn Hr Hid). by apply find_NoDup.
  - destruct (List.find _ (filter _ _)) as [r'|] eqn:Hf'; [|done]. exfalso.
    apply find_Some_iff in Hf' as [[_ Hr']%list_elem_of_filter Hid'].
    destruct (find_is_Some (λ r, jr_id r =? id)%Z _ _ Hr' Hid') as [y Hy]. congruence.
Qed.

(** Ledger isolation.  Every answer an operator gets from [list_jails]
    (rows, total, paging) and [get_jail] is the answer given on the same store
    with every other tenant's rows removed: other tenants' runs influence
    neither the rows, nor the totals, nor the difference between 404 and 200. *)
Theorem jail_routes_isolated `{Lowercase} (t : string) (s : InMemoryJailStore) (q : JailsQuery) (id : string) :
  NoDup (jr_id <$> js_rows s) →
  list_jails (MkTS t Operator) q s = list_jails (MkTS t Operator) q (only_tenant t s) ∧
  get_jail (MkTS t Operator) id s = get_jail (MkTS t Operator) id (only_tenant t s).
Proof.
  intros Hn. split.
  - unfold list_jails. cbn [is_admin ts_role ts_tenant]. by rewrite (page_own t).
  - unfold get_jail. destruct (parse_i64 id) as [z|]; simpl; [|done]. rewrite (get_own t z s Hn).
    destruct (jail_get z s) as [r|]; simpl; [|done]. unfold can_see. simpl.
    destruct (String.eqb t (jr_tenant_id r)) eqn:E; simpl; by rewrite ?E.
Qed.

(** ** Witnesses *)
Definition demo_ops : list JailOp :=
  [JStart 1 "acme" Run "python" None None; JStart 2 "other" Exec "ls" (Some "sess_1") None;
   JFinish 3 0 (MkOutput "hi" "" 0 5000000 false false None); JStart 4 "acme" Fork "bun" None (Some 0%Z)].

Lemma jail_store_refines_ledger_witness :
  jail_get 0 (jail_run 2 demo_ops) = None ∧ jail_get 2 (jail_run 2 demo_ops) = ledger demo_ops !! 2.
Proof.
  destruct (jail_store_refines_ledger 2 demo_ops) as [Hg _]; [vm_compute; reflexivity|].
  split; [rewrite Hg; reflexivity|]. rewrite Hg. reflexivity.
Defined.

Lemma jail_record_history_witness :
  ∃ r, jail_get 0 (jail_run 5 demo_ops) = Some r ∧ jr_status r = Completed.
Proof.
  destruct (jail_record_history 5 [] (tail demo_ops) 1 "acme" Run "python" None None) as (r & Hr & _ & Hs);
    [vm_compute; reflexivity|vm_compute; lia|]. exists r. split; [exact Hr|exact Hs].
Defined.

Definition demo_straddle : Output :=
  MkOutput (String.string_of_list_ascii (replicate (Z.to_nat 16383) "a"%char) +:+ "é") "" 0 1 false false None.
Lemma jail_finish_straddle_witness :
  (jail_finish 3 0 demo_straddle (jail_run 2 [JStart 1 "acme" Run "python" None None])).2 = true.
Proof.
  apply (jail_finish_straddle (jail_run 2 [JStart 1 "acme" Run "python" None None]) 3 0 demo_straddle
           (new_running 1 0 "acme" Run "python" None None) (byte_of 169)).
  - reflexivity.
  - apply Nat.ltb_lt. vm_compute. reflexivity.
  - vm_compute. reflexivity.
  - reflexivity.
Defined.

Lemma jail_routes_isolated_witness :
  get_jail (MkTS "acme" Operator) "1" (jail_run 5 demo_ops) = Err (NotFound "jail 1").
Proof.
  destruct (jail_routes_isolated "acme" (jail_run 5 demo_ops) (MkJQ' None None None None None) "1") as [_ Hg].
  - apply (bool_decide_unpack _). vm_compute. constructor.
  - rewrite Hg. reflexivity.
Defined.
