(* ===== verification/Workspaces.v ===== *)
(** * Workspaces: the store and the workspace routes

    Models [agentjail-ctl/src/workspaces.rs] (data types, [WorkspaceDomain::target],
    the [WorkspaceStore] operations of [InMemoryWorkspaceStore], the lock and
    in-flight registries), [workspaces/slug.rs], and of [routes/workspaces.rs] the
    handlers that only touch the store ([list], [get], [patch], [delete]) with
    [redact_for] and [options_to_spec], and [spec_to_options] of
    [routes/workspaces_exec.rs].  Paths are strings; the directories a handler asks
    the host to remove are returned in a list.  [create_workspace],
    [fork_workspace] and [exec_in_workspace] are in [WorkspaceOps]. *)

From S2P Require Import Prelude Text Keys Token Tenant Provider Ctl Jails Sessions.
Local Open Scope rust_scope.

(** ** Data *)
Record WorkspaceDomain := MkWD { wd_domain : string; wd_backend_url : option string; wd_vm_port : option Z }.
Inductive WorkspaceDomainTarget := BackendUrl (url : string) | VmPort (port : Z).

Record WorkspaceSpec := MkSpec {
  sp_memory_mb : Z;
  sp_timeout_secs : Z;
  sp_cpu_percent : Z;
  sp_max_pids : Z;
  sp_network_mode : string;
  sp_network_domains : list string;
  sp_seccomp : string;
  sp_idle_timeout_secs : Z;
  sp_flavors : list string
}.

Record Workspace := MkWs {
  w_id : string;
  w_tenant_id : string;
  w_created_at : Z;
  w_deleted_at : option Z;
  w_source_dir : string;
  w_output_dir : string;
  w_config : WorkspaceSpec;
  w_git_repo : option string;
  w_git_ref : option string;
  w_label : option string;
  w_domains : list WorkspaceDomain;
  w_last_exec_at : option Z;
  w_paused_at : option Z;
  w_auto_snapshot : option string
}.

(** [WorkspaceDomain::target] *)
Definition domain_target `{DebugFmt} (d : WorkspaceDomain) : outcome CtlError WorkspaceDomainTarget :=
  match wd_backend_url d, wd_vm_port d with
  | Some url, None =>
      if starts_with "http://" url || starts_with "https://" url then Ok (BackendUrl url)
      else Err (BadRequest ("backend_url must start with http:// or https:// (got " +:+ str_debug url +:+ ")"))
  | None, Some p =>
      if (p =? 0)%Z then Err (BadRequest "vm_port must be > 0") else Ok (VmPort p)
  | Some _, Some _ => Err (BadRequest "workspace domain: set exactly one of backend_url / vm_port")
  | None, None => Err (BadRequest "workspace domain: one of backend_url / vm_port is required")
  end.

Definition new_workspace_id `{HexEncode} (b : list ascii) : string := "wrk_" +:+ hex_encode b.

(** ** Auto-labels; [adj] and [noun] are the indices [choose] drew. *)
Definition ADJECTIVES : list string :=
  ["amber"; "bold"; "brave"; "bright"; "brisk"; "calm"; "clever"; "cozy";
   "crisp"; "deft"; "eager"; "fair"; "feisty"; "fleet"; "glossy"; "hazy";
   "jolly"; "keen"; "lively"; "lucid"; "merry"; "mild"; "misty"; "nimble";
   "noble"; "plucky"; "quiet"; "rapid"; "rustic"; "silent"; "sleek"; "snug";
   "stoic"; "sturdy"; "sunny"; "swift"; "tidy"; "vivid"; "warm"; "wise"].
Definition NOUNS : list string :=
  ["arbor"; "badger"; "basin"; "beacon"; "birch"; "bison"; "canyon"; "cedar";
   "comet"; "cove"; "delta"; "ember"; "falcon"; "fern"; "forge"; "fox";
   "harbor"; "hawk"; "heron"; "kite"; "lark"; "lynx"; "marsh"; "meadow";
   "moss"; "mountain"; "orchid"; "otter"; "owl"; "pine"; "plover"; "quill";
   "raven"; "ridge"; "river"; "sparrow"; "swan"; "thicket"; "valley"; "willow"].
Definition slug_generate (adj noun : nat) (word : Z) : string :=
  let a := default "swift" (ADJECTIVES !! adj) in
  let n := default "falcon" (NOUNS !! noun) in
  let suffix := Z.land word 0xFFFF in
  a +:+ "-" +:+ n +:+ "-" +:+ hex02 (byte_of (Z.shiftr suffix 8)) +:+ hex02 (byte_of (Z.land suffix 0xFF)).

(** ** Updates of one row *)
Definition set_deleted_at (t : option Z) (w : Workspace) : Workspace :=
  MkWs (w_id w) (w_tenant_id w) (w_created_at w) t (w_source_dir w) (w_output_dir w) (w_config w)
    (w_git_repo w) (w_git_ref w) (w_label w) (w_domains w) (w_last_exec_at w) (w_paused_at w) (w_auto_snapshot w).
Definition set_label (l : option string) (w : Workspace) : Workspace :=
  MkWs (w_id w) (w_tenant_id w) (w_created_at w) (w_deleted_at w) (w_source_dir w) (w_output_dir w) (w_config w)
    (w_git_repo w) (w_git_ref w) l (w_domains w) (w_last_exec_at w) (w_paused_at w) (w_auto_snapshot w).
Definition set_last_exec (t : option Z) (w : Workspace) : Workspace :=
  MkWs (w_id w) (w_tenant_id w) (w_created_at w) (w_deleted_at w) (w_source_dir w) (w_output_dir w) (w_config w)
    (w_git_repo w) (w_git_ref w) (w_label w) (w_domains w) t (w_paused_at w) (w_auto_snapshot w).
Definition set_pause (t : option Z) (snap : option string) (w : Workspace) : Workspace :=
  MkWs (w_id w) (w_tenant_id w) (w_created_at w) (w_deleted_at w) (w_source_dir w) (w_output_dir w) (w_config w)
    (w_git_repo w) (w_git_ref w) (w_label w) (w_domains w) (w_last_exec_at w) t snap.
Definition set_dirs (src out : string) (w : Workspace) : Workspace :=
  MkWs (w_id w) (w_tenant_id w) (w_created_at w) (w_deleted_at w) src out (w_config w)
    (w_git_repo w) (w_git_ref w) (w_label w) (w_domains w) (w_last_exec_at w) (w_paused_at w) (w_auto_snapshot w).

Definition is_live (w : Workspace) : bool := match w_deleted_at w with None => true | Some _ => false end.

(** ** [InMemoryWorkspaceStore] *)
Definition InMemoryWorkspaceStore : Type := Lock (gmap string Workspace).
Definition wss_new : InMemoryWorkspaceStore := new_lock ∅.

Definition ws_insert (ws : Workspace) (s : InMemoryWorkspaceStore) : InMemoryWorkspaceStore * outcome CtlError unit :=
  match lock_read s with
  | None => (s, Err (Internal "workspace store poisoned"))
  | Some g =>
      if bool_decide (is_Some (g !! w_id ws))
      then (s, Err (Conflict ("workspace " +:+ w_id ws +:+ " already exists")))
      else (lock_write (<[w_id ws := ws]>) s, Ok tt)
  end.
Definition ws_get (id : string) (s : InMemoryWorkspaceStore) : option Workspace :=
  g ← lock_read s; w ← g !! id; if is_live w then Some w else None.

(** The two nested loops of [by_domain], flattened in their order. *)
Definition domain_pairs (w : Workspace) : list (Workspace * WorkspaceDomain) :=
  if is_live w then (λ d, (w, d)) <$> w_domains w else [].
Definition ws_by_domain `{HashIter} (host : string) (s : InMemoryWorkspaceStore)
    : option (Workspace * WorkspaceDomain) :=
  g ← lock_read s;
  let host_lc := str_ascii_lower host in
  List.find (λ wd, eq_ignore_ascii_case (wd_domain wd.2) host_lc) (mbind domain_pairs (hash_iter g).*2).

Definition ws_newest (a b : Workspace) : bool := (w_created_at b <=? w_created_at a)%Z.
Definition ws_needle `{Lowercase} (q : option string) : option string :=
  s ← q; let n := to_lowercase (trim s) in if str_is_empty n then None else Some n.
Definition ws_matches `{Lowercase} (needle : option string) (w : Workspace) : bool :=
  match needle with
  | None => true
  | Some n =>
      str_contains n (to_lowercase (w_id w))
      || match w_label w with Some l => str_contains n (to_lowercase l) | None => false end
      || match w_git_repo w with Some r => str_contains n (to_lowercase r) | None => false end
  end.
Definition ws_list `{HashIter} `{Lowercase} (tenant : option string) (limit offset : nat) (q : option string)
    (s : InMemoryWorkspaceStore) : list Workspace * Z :=
  match lock_read s with
  | None => ([], 0%Z)
  | Some g =>
      let live := sort_by ws_newest
        (filter (λ w, is_live w && tenant_matches tenant (w_tenant_id w) && ws_matches (ws_needle q) w = true)
           (hash_iter g).*2) in
      (page offset limit live, Z.of_nat (length live))
  end.

(** [g.get_mut(id)?], refused on a deleted row *)
Definition ws_update_live (id : string) (f : Workspace → Workspace) (s : InMemoryWorkspaceStore)
    : option Workspace * InMemoryWorkspaceStore :=
  match ws_get id s with
  | None => (None, s)
  | Some w => (Some (f w), lock_write (<[id := f w]>) s)
  end.
Definition ws_mark_deleted (now : Z) (id : string) (s : InMemoryWorkspaceStore)
    : option Workspace * InMemoryWorkspaceStore :=
  ws_update_live id (set_deleted_at (Some now)) s.
Definition ws_set_label (id : string) (label : option string) (s : InMemoryWorkspaceStore)
    : option Workspace * InMemoryWorkspaceStore :=
  ws_update_live id (set_label label) s.
(** These three do not look at [deleted_at]. *)
Definition ws_touch (now : Z) (id : string) (s : InMemoryWorkspaceStore) : InMemoryWorkspaceStore :=
  lock_write (alter (set_last_exec (Some now)) id) s.
Definition ws_mark_paused (now : Z) (id auto_snapshot : string) (s : InMemoryWorkspaceStore) : InMemoryWorkspaceStore :=
  lock_write (alter (set_pause (Some now) (Some auto_snapshot)) id) s.
Definition ws_mark_resumed (id : string) (s : InMemoryWorkspaceStore) : option string * InMemoryWorkspaceStore :=
  (g ← lock_read s; w ← g !! id; w_auto_snapshot w, lock_write (alter (set_pause None None) id) s).

(** ** In-flight registries *)
Definition ActiveMap (A : Type) : Type := Lock (gmap string A).
Definition active_insert {A} (id : string) (a : A) (s : ActiveMap A) : ActiveMap A := lock_write (<[id := a]>) s.
Definition active_remove {A} (id : string) (s : ActiveMap A) : ActiveMap A := lock_write (delete id) s.
Definition active_get {A} (id : string) (s : ActiveMap A) : option A := g ← lock_read s; g !! id.

(** ** Options and their stored form *)
Inductive NetworkSpec := NetNone | NetLoopback | NetAllowlist (domains : list string).
Inductive SeccompSpec := SecStandard | SecStrict.
Record ExecOptions := MkOpts {
  eo_network : option NetworkSpec;
  eo_seccomp : option SeccompSpec;
  eo_cpu_percent : option Z;
  eo_max_pids : option Z
}.
Definition zclamp (lo hi x : Z) : Z := if (x <? lo)%Z then lo else if (hi <? x)%Z then hi else x.

(** The code returns a [Result] here but has no error path. *)
Definition options_to_spec (o : ExecOptions) (memory_mb timeout_secs idle : Z) (flavors : list string) : WorkspaceSpec :=
  let '(mode, domains) :=
    match eo_network o with
    | None | Some NetNone => ("none", [])
    | Some NetLoopback => ("loopback", [])
    | Some (NetAllowlist ds) => ("allowlist", ds)
    end in
  let seccomp := match eo_seccomp o with None | Some SecStandard => "standard" | Some SecStrict => "strict" end in
  MkSpec memory_mb timeout_secs
    (zclamp 1 800 (default 100%Z (eo_cpu_percent o))) (zclamp 1 1024 (default 64%Z (eo_max_pids o)))
    mode domains seccomp idle flavors.

Definition spec_to_options (s : WorkspaceSpec) : outcome CtlError ExecOptions :=
  let? network :=
    (if String.eqb (sp_network_mode s) "none" then Ok None
     else if String.eqb (sp_network_mode s) "loopback" then Ok (Some NetLoopback)
     else if String.eqb (sp_network_mode s) "allowlist" then Ok (Some (NetAllowlist (sp_network_domains s)))
     else Err (Internal ("workspace has unknown network_mode: " +:+ sp_network_mode s))) in
  let? seccomp :=
    (if String.eqb (sp_seccomp s) "standard" then Ok (Some SecStandard)
     else if String.eqb (sp_seccomp s) "strict" then Ok (Some SecStrict)
     else Err (Internal ("workspace has unknown seccomp: " +:+ sp_seccomp s))) in
  Ok (MkOpts network seccomp (Some (sp_cpu_percent s)) (Some (sp_max_pids s))).

(** Git blocks of a request, and the repository recorded for them. *)
Record GitRepoEntry := MkGitEntry { ge_repo : string; ge_ref : option string; ge_dir : option string }.
Record GitSpec := MkGit { gs_repo : option string; gs_ref : option string; gs_repos : list GitRepoEntry }.
Definition git_primary (g : GitSpec) : option string * option string :=
  match gs_repo g with
  | Some repo => (Some repo, gs_ref g)
  | None => match gs_repos g with
            | first :: _ => (Some (ge_repo first), ge_ref first)
            | [] => (None, None)
            end
  end.

Definition config_snapshot (o : ExecOptions) (memory_mb timeout_secs : Z) (git : option GitSpec)
    : JailConfigSnapshot :=
  let '(mode, domains) :=
    match eo_network o with
    | None | Some NetNone => ("none", [])
    | Some NetLoopback => ("loopback", [])
    | Some (NetAllowlist ds) => ("allowlist", ds)
    end in
  let seccomp := match eo_seccomp o with None | Some SecStandard => "standard" | Some SecStrict => "strict" end in
  let '(repo, ref) := default (None, None) (git_primary <$> git) in
  MkJCS mode domains seccomp memory_mb timeout_secs
    (zclamp 1 800 (default 100%Z (eo_cpu_percent o))) (zclamp 1 1024 (default 64%Z (eo_max_pids o))) repo ref.

(** ** Routes *)
Definition redact_for (sc : TenantScope) (w : Workspace) : Workspace :=
  if negb (is_admin (ts_role sc)) then set_dirs "" "" w else w.

Definition list_workspaces `{HashIter} `{Lowercase} (sc : TenantScope) (q_limit q_offset : option nat)
    (q : option string) (s : InMemoryWorkspaceStore) : list Workspace * Z * nat * nat :=
  let limit := Nat.min (default 50 q_limit) 500 in
  let offset := default 0 q_offset in
  let needle := s ← trim <$> q; if str_is_empty s then None else Some s in
  let (rows, total) := ws_list (tenant_filter sc) limit offset needle s in
  (redact_for sc <$> rows, total, limit, offset).

Definition ws_not_found {A} (id : string) : outcome CtlError A := Err (NotFound ("workspace " +:+ id)).
Definition visible (sc : TenantScope) (o : option Workspace) : bool :=
  match o with Some w => can_see sc (w_tenant_id w) | None => false end.

Definition get_workspace (sc : TenantScope) (id : string) (s : InMemoryWorkspaceStore) : outcome CtlError Workspace :=
  ok_or (redact_for sc <$> (w ← ws_get id s; if can_see sc (w_tenant_id w) then Some w else None))
        (NotFound ("workspace " +:+ id)).

(** [slug] is the label [slug::generate] would produce. *)
Definition patch_workspace (sc : TenantScope) (id : string) (label : option string) (slug : string)
    (s : InMemoryWorkspaceStore) : InMemoryWorkspaceStore * outcome CtlError Workspace :=
  if negb (visible sc (ws_get id s)) then (s, ws_not_found id) else
  let next := default slug (l ← trim <$> label; if str_is_empty l then None else Some l) in
  let (o, s) := ws_set_label id (Some next) s in
  (s, ok_or (redact_for sc <$> o) (NotFound ("workspace " +:+ id))).

(** The last component: directories the handler asks the host to remove, and
    the lock slot it drops. *)
Definition delete_workspace (now : Z) (sc : TenantScope) (state_dir id : string) (s : InMemoryWorkspaceStore)
    : InMemoryWorkspaceStore * outcome CtlError unit * list string :=
  if negb (visible sc (ws_get id s)) then (s, ws_not_found id, []) else
  match ws_mark_deleted now id s with
  | (None, s) => (s, ws_not_found id, [])
  | (Some w, s) => (s, Ok tt, [path_join (path_join state_dir "workspaces") (w_id w)])
  end.

(** [reconcile_on_startup]: [exists_dir] is [Path::exists], [slug i] the i-th
    generated label, [now] the clock. *)
Fixpoint reconcile_loop (exists_dir : string → bool) (slug : nat → string) (now : Z) (state_dir : string)
    (i : nat) (rows : list Workspace) (s : InMemoryWorkspaceStore) : InMemoryWorkspaceStore :=
  match rows with
  | [] => s
  | w :: rest =>
      let expected := path_join (path_join state_dir "workspaces") (w_id w) in
      let s :=
        if negb (exists_dir expected) then (ws_mark_deleted now (w_id w) s).2
        else if match w_label w with Some l => str_is_empty (trim l) | None => true end
             then (ws_set_label (w_id w) (Some (slug i)) s).2 else s in
      reconcile_loop exists_dir slug now state_dir (i + 1) rest s
  end.
Definition reconcile_on_startup `{HashIter} `{Lowercase} (exists_dir : string → bool) (slug : nat → string) (now : Z)
    (state_dir : string) (s : InMemoryWorkspaceStore) : InMemoryWorkspaceStore :=
  reconcile_loop exists_dir slug now state_dir 0 (ws_list None 500 0 None s).1 s.

(** ** Histories of the store *)
Inductive WsOp :=
| WInsert (ws : Workspace)
| WDelete (now : Z) (id : string)
| WLabel (id : string) (label : option string)
| WTouch (now : Z) (id : string)
| WPause (now : Z) (id snap : string)
| WResume (id : string).
Definition ws_step (s : InMemoryWorkspaceStore) (op : WsOp) : InMemoryWorkspaceStore :=
  match op with
  | WInsert ws => (ws_insert ws s).1
  | WDelete now id => (ws_mark_deleted now id s).2
  | WLabel id l => (ws_set_label id l s).2
  | WTouch now id => ws_touch now id s
  | WPause now id snap => ws_mark_paused now id snap s
  | WResume id => (ws_mark_resumed id s).2
  end.
Definition ws_run (ops : list WsOp) : InMemoryWorkspaceStore := foldl ws_step wss_new ops.

(** The fields no operation changes. *)
Definition ws_fixed (w : Workspace) :=
  (w_id w, w_tenant_id w, w_created_at w, w_source_dir w, w_output_dir w, w_config w, w_git_repo w, w_git_ref w, w_domains w).
(** A paused row knows its snapshot, and only a paused row has one. *)
Definition pause_ok (w : Workspace) : Prop := is_Some (w_paused_at w) ↔ is_Some (w_auto_snapshot w).

Definition ws_ok (s : InMemoryWorkspaceStore) : Prop :=
  poisoned s = false ∧ map_Forall (λ id w, w_id w = id) (inner s).

(** One step, as a function on the stored row of [id]. *)
Definition row_step (id : string) (op : WsOp) (o : option Workspace) : option Workspace :=
  match op with
  | WInsert ws => match o with None => if decide (w_id ws = id) then Some ws else None | Some w => Some w end
  | WDelete now i =>
      (λ w, if decide (i = id) then if is_live w then set_deleted_at (Some now) w else w else w) <$> o
  | WLabel i l => (λ w, if decide (i = id) then if is_live w then set_label l w else w else w) <$> o
  | WTouch now i => (λ w, if decide (i = id) then set_last_exec (Some now) w else w) <$> o
  | WPause now i snap => (λ w, if decide (i = id) then set_pause (Some now) (Some snap) w else w) <$> o
  | WResume i => (λ w, if decide (i = id) then set_pause None None w else w) <$> o
  end.

Lemma alter_row (f : Workspace → Workspace) i id (g : gmap string Workspace) :
  alter f i g !! id = (λ w, if decide (i = id) then f w else w) <$> g !! id.
Proof. rewrite lookup_alter. case_decide; [by subst|]. by destruct (g !! id). Qed.
Lemma update_live_row f i id s : poisoned s = false →
  inner (ws_update_live i f s).2 !! id
  = (λ w, if decide (i = id) then if is_live w then f w else w else w) <$> inner s !! id.
Proof.
  intros Hp. unfold ws_update_live, ws_get, lock_read. rewrite Hp. simpl.
  destruct (inner s !! i) as [w|] eqn:Hi; simpl.
  - destruct (is_live w) eqn:Hl; simpl.
    + unfold lock_write. rewrite Hp. simpl. rewrite lookup_insert. case_decide as Hd; [|by destruct (inner s !! id)].
      subst. rewrite Hi. simpl. by rewrite Hl.
    + destruct (inner s !! id) as [w'|] eqn:Hid; [|done]. simpl. case_decide; [|done]. simplify_eq. by rewrite Hl.
  - destruct (inner s !! id) as [w'|] eqn:Hid; [|done]. simpl. case_decide; [|done]. simplify_eq.
Qed.
Lemma ws_step_row s op id : poisoned s = false →
  poisoned (ws_step s op) = false ∧ inner (ws_step s op) !! id = row_step id op (inner s !! id).
Proof.
  intros Hp.
  assert (∀ i f, poisoned (ws_update_live i f s).2 = false) as Hup.
  { intros i f. unfold ws_update_live. destruct (ws_get i s); [|done]. unfold lock_write. by rewrite Hp. }
  destruct op as [ws|now i|i l|now i|now i snap|i]; simpl.
  - unfold ws_insert, lock_read, lock_write. rewrite Hp. case_bool_decide as Hd; simpl.
    + split; [done|]. destruct (inner s !! id) eqn:Hid; [done|]. case_decide; [|done]. subst.
      rewrite Hid in Hd. by destruct Hd.
    + split; [done|]. rewrite lookup_insert. rewrite <- eq_None_not_Some in Hd.
      case_decide as He; [|by destruct (inner s !! id)]. subst. by rewrite Hd.
  - split; [apply Hup|]. by apply update_live_row.
  - split; [apply Hup|]. by apply update_live_row.
  - unfold ws_touch, lock_write. rewrite Hp. split; [done|]. apply alter_row.
  - unfold ws_mark_paused, lock_write. rewrite Hp. split; [done|]. apply alter_row.
  - unfold ws_mark_resumed, lock_write. rewrite Hp. split; [done|]. apply alter_row.
Qed.
Lemma ws_run_row ops s id : poisoned s = false →
  poisoned (foldl ws_step s ops) = false ∧
  inner (foldl ws_step s ops) !! id = foldl (λ o op, row_step id op o) (inner s !! id) ops.
Proof.
  revert s. induction ops as [|op ops IH]; intros s Hp; [done|]. simpl.
  destruct (ws_step_row s op id Hp) as [Hp' Hr]. rewrite <- Hr. by apply IH.
Qed.

(** Is [op] a deletion of [id]? *)
Definition deletes (id : string) (op : WsOp) : bool :=
  match op with WDelete _ i => String.eqb i id | _ => false end.

Lemma row_step_Some id op w :
  ∃ w', row_step id op (Some w) = Some w' ∧ ws_fixed w' = ws_fixed w ∧
    is_live w' = is_live w && negb (deletes id op) ∧ (pause_ok w → pause_ok w').
Proof.
  destruct op as [ws|now i|i l|now i|now i snap|i]; simpl; eexists; (split; [done|]); rewrite ?andb_true_r; [done|..].
  - destruct (String.eqb_spec i id); case_decide; try done; rewrite ?andb_true_r, ?andb_false_r; [|done].
    destruct (is_live w) eqn:E; [done|]. by rewrite E.
  - case_decide; [|done]. destruct (is_live w) eqn:E; [|by rewrite E]. done.
  - by case_decide.
  - case_decide; [|done]. split; [done|]. split; [done|]. intros _. unfold pause_ok. simpl. split; eauto.
  - case_decide; [|done]. split; [done|]. split; [done|]. intros _. unfold pause_ok. simpl. split; by intros [].
Qed.
Lemma rows_step_Some id ops w :
  ∃ w', foldl (λ o op, row_step id op o) (Some w) ops = Some w' ∧ ws_fixed w' = ws_fixed w ∧
    is_live w' = is_live w && negb (existsb (deletes id) ops) ∧ (pause_ok w → pause_ok w').
Proof.
  revert w. induction ops as [|op ops IH]; intros w; simpl.
  { exists w. by rewrite andb_true_r. }
  destruct (row_step_Some id op w) as (w1 & -> & Hf1 & Hl1 & Hp1).
  destruct (IH w1) as (w2 & -> & Hf2 & Hl2 & Hp2). exists w2. split; [done|]. split; [congruence|].
  split; [|auto]. rewrite Hl2, Hl1. by destruct (is_live w), (deletes id op).
Qed.

Lemma ws_step_ok s op : ws_ok s → ws_ok (ws_step s op).
Proof.
  intros [Hp Hid]. split; [by apply (ws_step_row s op "")|]. intros id w.
  destruct (ws_step_row s op id Hp) as [_ ->]. destruct (inner s !! id) as [w0|] eqn:Hw0.
  - destruct (row_step_Some id op w0) as (w' & -> & Hf & _). intros [= <-].
    apply Hid in Hw0. unfold ws_fixed in Hf. congruence.
  - destruct op; simpl; try done. case_decide; [|done]. by intros [= <-].
Qed.
Lemma ws_run_ok ops : ws_ok (ws_run ops).
Proof.
  unfold ws_run. assert (ws_ok wss_new) as H0 by (split; [done|apply map_Forall_empty]).
  revert H0. generalize wss_new. induction ops as [|op ops IH]; intros s Hs; [done|]. simpl. auto using ws_step_ok.
Qed.

(** A workspace's life.  Insert a live workspace under an unused id into
    a store built by any history, then run any further operations: the row keeps
    its tenant, directories, configuration, git origin and domains for ever;
    [get] returns it exactly until the first [mark_deleted] of its id, after
    which nothing brings it back (an insert with that id conflicts); and a row
    that started unpaused is paused exactly while it has an auto-snapshot. *)
Theorem workspace_history (pre post : list WsOp) (ws : Workspace) :
  inner (ws_run pre) !! w_id ws = None → is_live ws = true →
  let s := ws_run (pre ++ WInsert ws :: post) in
  ∃ w, inner s !! w_id ws = Some w ∧ ws_fixed w = ws_fixed ws ∧
    ws_get (w_id ws) s = (if existsb (deletes (w_id ws)) post then None else Some w) ∧
    (ws_insert ws s).2 = Err (Conflict ("workspace " +:+ w_id ws +:+ " already exists")) ∧
    (pause_ok ws → pause_ok w).
Proof.
  intros Hnone Hlive s. destruct (rows_step_Some (w_id ws) post ws) as (w & Hw & Hf & Hl & Hpo). exists w.
  assert (poisoned s = false ∧ inner s !! w_id ws = Some w) as [Hp Hr].
  { destruct (ws_run_row pre wss_new (w_id ws) eq_refl) as [Hp Hr].
    destruct (ws_run_row (WInsert ws :: post) (ws_run pre) (w_id ws) Hp) as [Hp2 Hr2].
    assert (s = foldl ws_step (ws_run pre) (WInsert ws :: post)) as -> by apply foldl_app.
    split; [exact Hp2|]. rewrite Hr2, Hnone. simpl. by rewrite decide_True. }
  clearbody s. split; [done|]. split; [done|]. split; [|split; [|done]].
  - unfold ws_get, lock_read. rewrite Hp. simpl. rewrite Hr. simpl. rewrite Hl, Hlive. simpl.
    by destruct (existsb _ post).
  - unfold ws_insert, lock_read. rewrite Hp. by rewrite bool_decide_eq_true_2 by (rewrite Hr; eauto).
Qed.

(** ** Lemmas: listing, looking up, by host name *)
Lemma ws_newest_total a b : ws_newest a b = true ∨ ws_newest b a = true.
Proof. unfold ws_newest. rewrite !Z.leb_le. lia. Qed.
Lemma ws_newest_trans a b c : ws_newest a b = true → ws_newest b c = true → ws_newest a c = true.
Proof. unfold ws_newest. rewrite !Z.leb_le. lia. Qed.
Lemma ws_get_Some id s w : poisoned s = false →
  ws_get id s = Some w ↔ inner s !! id = Some w ∧ is_live w = true.
Proof.
  intros Hp. unfold ws_get, lock_read. rewrite Hp. simpl. destruct (inner s !! id) as [x|]; simpl; [|naive_solver].
  destruct (is_live x) eqn:E; split.
  - intros [= ->]. done.
  - by intros [[= ->] _].
  - done.
  - intros [[= ->] Hl]. congruence.
Qed.
Lemma tenant_filter_sees sc x : tenant_matches (tenant_filter sc) x = can_see sc x.
Proof.
  unfold tenant_filter, can_see, tenant_matches. destruct (is_admin (ts_role sc)); simpl; [done|]. apply String.eqb_sym.
Qed.
Lemma update_live_spec id f s : poisoned s = false →
  match ws_get id s with
  | Some w => ws_update_live id f s = (Some (f w), MkLock false (<[id := f w]> (inner s)))
  | None => ws_update_live id f s = (None, s)
  end.
Proof.
  intros Hp. unfold ws_update_live. destruct (ws_get id s); [|done]. unfold lock_write. by rewrite Hp.
Qed.

(** Listing is exact.  [list_workspaces] pages (at most 500 rows) through
    all live workspaces of the tenants the caller may see that match the search,
    newest first, each such workspace once; [total] counts all of them; and no
    row shown to an operator carries a host path. *)
Theorem list_workspaces_exact `{HashIter} `{Lowercase} (sc : TenantScope) (q_limit q_offset : option nat)
    (q : option string) (s : InMemoryWorkspaceStore) rows total limit offset :
  ws_ok s → list_workspaces sc q_limit q_offset q s = (rows, total, limit, offset) →
  ∃ all,
    rows = redact_for sc <$> page offset limit all ∧ total = Z.of_nat (length all) ∧
    StronglySorted ws_newest all ∧ NoDup (w_id <$> all) ∧
    (∀ w, w ∈ all ↔ ws_get (w_id w) s = Some w ∧ can_see sc (w_tenant_id w) = true ∧
            ws_matches (ws_needle (s ← trim <$> q; if str_is_empty s then None else Some s)) w = true) ∧
    (is_admin (ts_role sc) = false → Forall (λ w, w_source_dir w = "" ∧ w_output_dir w = "") rows).
Proof.
  intros [Hp Hid]. unfold list_workspaces, ws_list, lock_read. rewrite Hp. cbv zeta.
  set (needle := s ← trim <$> q; _). set (P := λ w, is_live w && tenant_matches _ _ && _ = true).
  intros [= <- <- <- <-]. exists (sort_by ws_newest (filter P (hash_iter (inner s)).*2)).
  split; [done|]. split; [done|].
  split; [apply sort_by_sorted; [apply ws_newest_total|apply ws_newest_trans]|].
  split; [|split].
  - rewrite sort_by_perm. apply NoDup_fmap_filter.
    replace (w_id <$> (hash_iter (inner s)).*2) with (hash_iter (inner s)).*1; [apply NoDup_hash_iter|].
    rewrite <- list_fmap_compose. apply list_fmap_ext. intros i [k w] Hi%list_elem_of_lookup_2.
    apply elem_of_hash_iter in Hi. symmetry. by apply Hid in Hi.
  - intros w. rewrite elem_of_sort_by, list_elem_of_filter, list_elem_of_fmap. unfold P.
    rewrite !andb_true_iff, tenant_filter_sees, ws_get_Some by done. split.
    + intros [[[? ?] ?] ([k w'] & -> & Hk%elem_of_hash_iter)]. simpl in *. by rewrite (Hid _ _ Hk).
    + intros ([Hl ?] & ? & ?). split; [done|]. exists (w_id w, w). by rewrite elem_of_hash_iter.
  - intros Hop. apply Forall_fmap, Forall_true. intros w. unfold redact_for. simpl. by rewrite Hop.
Qed.

(** The label a [PATCH] ends up storing. *)
Definition next_label (label : option string) (slug : string) : string :=
  match label with
  | Some l => if str_is_empty (trim l) then slug else trim l
  | None => slug
  end.

(** Workspace reads and writes, exactly.  If the caller can see the live
    workspace under [id], [get] shows it (host paths blanked for an operator),
    [patch] changes nothing but its label (to the trimmed label or a generated
    one), and [delete] changes nothing but its deletion mark and asks for the
    removal of exactly its own directory.  Otherwise (no such row, a deleted row,
    or another tenant's) all three give the same 404, change nothing and remove
    nothing. *)
Theorem workspace_routes_exact (now : Z) (sc : TenantScope) (state_dir id : string) (label : option string)
    (slug : string) (s : InMemoryWorkspaceStore) :
  ws_ok s →
  match ws_get id s with
  | Some w =>
      if can_see sc (w_tenant_id w) then
        get_workspace sc id s = Ok (redact_for sc w) ∧
        patch_workspace sc id label slug s =
          (MkLock false (<[id := set_label (Some (next_label label slug)) w]> (inner s)),
           Ok (redact_for sc (set_label (Some (next_label label slug)) w))) ∧
        delete_workspace now sc state_dir id s =
          (MkLock false (<[id := set_deleted_at (Some now) w]> (inner s)), Ok tt,
           [path_join (path_join state_dir "workspaces") id])
      else get_workspace sc id s = ws_not_found id ∧ patch_workspace sc id label slug s = (s, ws_not_found id) ∧
           delete_workspace now sc state_dir id s = (s, ws_not_found id, [])
  | None => get_workspace sc id s = ws_not_found id ∧ patch_workspace sc id label slug s = (s, ws_not_found id) ∧
            delete_workspace now sc state_dir id s = (s, ws_not_found id, [])
  end.
Proof.
  intros [Hp Hid]. unfold get_workspace, patch_workspace, delete_workspace, ws_set_label, ws_mark_deleted.
  pose proof (λ f, update_live_spec id f s Hp) as Hu.
  destruct (ws_get id s) as [w|] eqn:Hg; simpl; [|done].
  destruct (can_see sc (w_tenant_id w)); simpl; [|done]. rewrite !Hu. simpl.
  apply ws_get_Some in Hg as [Hw _]; [|done]. rewrite (Hid _ _ Hw). split; [done|]. split; [|done].
  unfold next_label. destruct label as [l|]; simpl; [|done]. by destruct (str_is_empty (trim l)).
Qed.

(** ** Options *)
Lemma zclamp_range lo hi x : (lo ≤ hi → lo ≤ zclamp lo hi x ≤ hi)%Z.
Proof. intros. unfold zclamp. destruct (Z.ltb_spec x lo), (Z.ltb_spec hi x); lia. Qed.
Lemma zclamp_id lo hi x : (lo ≤ x ≤ hi → zclamp lo hi x = x)%Z.
Proof. intros. unfold zclamp. destruct (Z.ltb_spec x lo), (Z.ltb_spec hi x); lia. Qed.
Lemma zclamp_idem lo hi x : (lo ≤ hi)%Z → zclamp lo hi (zclamp lo hi x) = zclamp lo hi x.
Proof. intros Hle. apply zclamp_id. by apply zclamp_range. Qed.

(** Options survive storage.  Rebuilding the options of a stored
    workspace never fails and loses nothing: they map to the same stored form
    and to the same configuration snapshot as the options given at creation, and
    the stored CPU and process limits are within 1..800 and 1..1024. *)
Theorem options_roundtrip (o : ExecOptions) (memory_mb timeout_secs idle : Z) (flavors : list string) (git : option GitSpec) :
  let spec := options_to_spec o memory_mb timeout_secs idle flavors in
  (1 ≤ sp_cpu_percent spec ≤ 800 ∧ 1 ≤ sp_max_pids spec ≤ 1024)%Z ∧
  ∃ o', spec_to_options spec = Ok o' ∧
    options_to_spec o' memory_mb timeout_secs idle flavors = spec ∧
    config_snapshot o' memory_mb timeout_secs git = config_snapshot o memory_mb timeout_secs git.
Proof.
  destruct o as [net sec cpu pids].
  assert (∀ z, zclamp 1 800 (zclamp 1 800 z) = zclamp 1 800 z)%Z as Hc by (intros; by apply zclamp_idem).
  assert (∀ z, zclamp 1 1024 (zclamp 1 1024 z) = zclamp 1 1024 z)%Z as Hq by (intros; by apply zclamp_idem).
  pose proof (zclamp_range 1 800 (default 100%Z cpu)) as H1. pose proof (zclamp_range 1 1024 (default 64%Z pids)) as H2.
  destruct net as [[| |ds]|], sec as [[|]|]; simpl; (split; [lia|]); eexists; (split; [done|]);
    unfold options_to_spec, config_snapshot; simpl; by rewrite Hc, Hq.
Qed.

(** ** Host-name routing *)
Lemma to_lower_idem a : to_ascii_lower (to_ascii_lower a) = to_ascii_lower a.
Proof. by destruct a as [[] [] [] [] [] [] [] []]. Qed.
Lemma str_lower_idem s : str_ascii_lower (str_ascii_lower s) = str_ascii_lower s.
Proof. induction s as [|a s IH]; [done|]. simpl. by rewrite to_lower_idem, IH. Qed.

(** Workspace [w] declares host [h] with entry [d]. *)
Definition declares (w : Workspace) (d : WorkspaceDomain) (h : string) : Prop :=
  d ∈ w_domains w ∧ eq_ignore_ascii_case (wd_domain d) h = true.

(** Host-name routing.  [by_domain] answers with a live workspace and one
    of its entries for that host, compared without regard to ASCII case, and
    answers nothing exactly when no live workspace declares the host. *)
Theorem by_domain_exact `{HashIter} (host : string) (s : InMemoryWorkspaceStore) :
  ws_ok s →
  match ws_by_domain host s with
  | Some (w, d) => ws_get (w_id w) s = Some w ∧ declares w d host
  | None => ∀ id w d, ws_get id s = Some w → ¬ declares w d host
  end.
Proof.
  intros [Hp Hid]. unfold ws_by_domain, lock_read. rewrite Hp. simpl.
  set (f := λ wd : Workspace * WorkspaceDomain, _).
  assert (∀ w d, f (w, d) = eq_ignore_ascii_case (wd_domain d) host) as Hf.
  { intros w d. unfold f, eq_ignore_ascii_case. simpl. by rewrite str_lower_idem. }
  assert (∀ w d, (w, d) ∈ mbind domain_pairs (hash_iter (inner s)).*2 ↔ ws_get (w_id w) s = Some w ∧ d ∈ w_domains w) as Hin.
  { intros w d. rewrite ws_get_Some, list_elem_of_bind by done. setoid_rewrite list_elem_of_fmap. unfold domain_pairs. split.
    - intros (w' & Hwd & [k w''] & -> & Hk%elem_of_hash_iter). simpl in *.
      destruct (is_live w'') eqn:E; [|by apply elem_of_nil in Hwd].
      apply list_elem_of_fmap in Hwd as (d' & [= -> ->] & Hd). by rewrite (Hid _ _ Hk).
    - intros [[Hw Hl] Hd]. exists w. rewrite Hl. split; [by apply list_elem_of_fmap_2|].
      exists (w_id w, w). by rewrite elem_of_hash_iter. }
  destruct (List.find f _) as [[w d]|] eqn:Hfind.
  - apply find_Some_iff in Hfind as [[? ?]%Hin He]. rewrite Hf in He. done.
  - intros id w d Hg [Hd He]. pose proof Hg as [Hw _]%ws_get_Some; [|done]. pose proof (Hid _ _ Hw) as Hi. simpl in Hi. subst id.
    destruct (find_is_Some f _ (w, d) (proj2 (Hin w d) (conj Hg Hd))) as [y Hy]; [by rewrite Hf|]. congruence.
Qed.

(** Two live workspaces of different tenants may declare the same host; which
    one [by_domain] answers with then depends on the iteration order alone. *)
Definition hash_iter_rev : HashIter.
Proof.
  refine {| hash_iter K V _ _ m := reverse (map_to_list m) |}. intros. by rewrite reverse_Permutation.
Defined.
Definition demo_spec : WorkspaceSpec := MkSpec 512 60 100 64 "none" [] "standard" 0 [].
Definition demo_ws (id tenant : string) : Workspace :=
  MkWs id tenant 1 None ("/s/" +:+ id) ("/o/" +:+ id) demo_spec None None None
    [MkWD "app.example.com" (Some "http://10.0.0.1") None] None None None.
Definition demo_wss : InMemoryWorkspaceStore :=
  ws_run [WInsert (demo_ws "wrk_a" "acme"); WInsert (demo_ws "wrk_b" "other")].
Theorem by_domain_ambiguous :
  (w_tenant_id ∘ fst <$> @ws_by_domain hash_iter_ref "app.example.com" demo_wss) = Some "acme" ∧
  (w_tenant_id ∘ fst <$> @ws_by_domain hash_iter_rev "app.example.com" demo_wss) = Some "other".
Proof. vm_compute. split; reflexivity. Qed.

(** ** Witnesses *)
Lemma demo_wss_ok : ws_ok demo_wss.
Proof. apply ws_run_ok. Qed.

Lemma workspace_history_witness :
  ws_get "wrk_a" (ws_run ([] ++ WInsert (demo_ws "wrk_a" "acme") :: [WTouch 2 "wrk_a"; WDelete 3 "wrk_a"; WLabel "wrk_a" None])) = None.
Proof.
  destruct (workspace_history [] [WTouch 2 "wrk_a"; WDelete 3 "wrk_a"; WLabel "wrk_a" None] (demo_ws "wrk_a" "acme"))
    as (w & _ & _ & Hg & _); [reflexivity|reflexivity|]. exact Hg.
Defined.

Lemma list_workspaces_exact_witness :
  ∃ all, Forall (λ w, w_source_dir w = "" ∧ w_output_dir w = "")
    (list_workspaces (MkTS "acme" Operator) None None None demo_wss).1.1.1 ∧
    (list_workspaces (MkTS "acme" Operator) None None None demo_wss).1.1.2 = Z.of_nat (length all) ∧ NoDup (w_id <$> all).
Proof.
  destruct (list_workspaces_exact (MkTS "acme" Operator) None None None demo_wss
     (list_workspaces (MkTS "acme" Operator) None None None demo_wss).1.1.1
     (list_workspaces (MkTS "acme" Operator) None None None demo_wss).1.1.2 50 0)
    as (all & _ & Ht & _ & Hn & _ & Hf); [apply demo_wss_ok|reflexivity|].
  exists all. split; [apply Hf; reflexivity|]. split; [exact Ht|exact Hn].
Defined.

Lemma workspace_routes_exact_witness :
  get_workspace (MkTS "other" Operator) "wrk_a" demo_wss = ws_not_found "wrk_a".
Proof. apply (workspace_routes_exact 5 (MkTS "other" Operator) "/state" "wrk_a" None "slug" demo_wss demo_wss_ok). Defined.

Lemma by_domain_exact_witness :
  ∃ w, ws_get "wrk_a" demo_wss = Some w ∧ ws_by_domain "APP.example.com" demo_wss ≠ None.
Proof.
  pose proof (by_domain_exact "APP.example.com" demo_wss demo_wss_ok) as Hd.
  exists (demo_ws "wrk_a" "acme"). split; [reflexivity|]. intros Hn. rewrite Hn in Hd.
  apply (Hd "wrk_a" (demo_ws "wrk_a" "acme") (MkWD "app.example.com" (Some "http://10.0.0.1") None)); [reflexivity|].
  split; [apply list_elem_of_here|reflexivity].
Defined.
