(* ===== verification/Snapshots.v ===== *)
(** * Snapshots: the ledger and its garbage collector

    Models [agentjail-ctl/src/snapshots.rs]: [SnapshotRecord], the in-memory
    [SnapshotStore], [SnapshotGcConfig] and [gc::run_once].  Clock readings are
    arguments; subtracting a duration from an [OffsetDateTime] is the parameter
    [odt_sub] ([None]: it panics); [exists_path] is [Path::exists].  The paths the
    collector asks the host to remove are returned in a list.  [Sweepers] has the same
    pass with its calls. *)

From S2P Require Import Prelude Text Keys Token Tenant Provider Ctl Sessions Workspaces.
Local Open Scope rust_scope.

Record SnapshotRecord := MkSnap {
  sn_id : string;
  sn_tenant_id : string;
  sn_workspace_id : option string;
  sn_name : option string;
  sn_created_at : Z;
  sn_path : string;
  sn_size_bytes : Z
}.

Definition new_snapshot_id `{HexEncode} (b : list ascii) : string := "snap_" +:+ hex_encode b.

(** ** [InMemorySnapshotStore] *)
Definition InMemorySnapshotStore : Type := Lock (gmap string SnapshotRecord).
Definition snaps_new : InMemorySnapshotStore := new_lock ∅.

Definition snap_insert (snap : SnapshotRecord) (s : InMemorySnapshotStore)
    : InMemorySnapshotStore * outcome CtlError unit :=
  match lock_read s with
  | None => (s, Err (Internal "snapshot store poisoned"))
  | Some g =>
      if bool_decide (is_Some (g !! sn_id snap))
      then (s, Err (Conflict ("snapshot " +:+ sn_id snap +:+ " already exists")))
      else (lock_write (<[sn_id snap := snap]>) s, Ok tt)
  end.
Definition snap_get (id : string) (s : InMemorySnapshotStore) : option SnapshotRecord :=
  g ← lock_read s; g !! id.
Definition snap_newest (a b : SnapshotRecord) : bool := (sn_created_at b <=? sn_created_at a)%Z.
Definition snap_matches `{Lowercase} (needle : option string) (r : SnapshotRecord) : bool :=
  match needle with
  | None => true
  | Some n =>
      str_contains n (to_lowercase (sn_id r))
      || match sn_name r with Some x => str_contains n (to_lowercase x) | None => false end
      || match sn_workspace_id r with Some x => str_contains n (to_lowercase x) | None => false end
  end.
Definition snap_list `{HashIter} `{Lowercase} (tenant workspace_id : option string) (limit offset : nat)
    (q : option string) (s : InMemorySnapshotStore) : list SnapshotRecord * Z :=
  match lock_read s with
  | None => ([], 0%Z)
  | Some g =>
      let needle := ws_needle q in
      let rows := sort_by snap_newest
        (filter (λ r, tenant_matches tenant (sn_tenant_id r)
                      && match workspace_id with Some w => opt_eqb (sn_workspace_id r) (Some w) | None => true end
                      && snap_matches needle r = true)
           (hash_iter g).*2) in
      (page offset limit rows, Z.of_nat (length rows))
  end.
Definition snap_remove (id : string) (s : InMemorySnapshotStore) : option SnapshotRecord * InMemorySnapshotStore :=
  (g ← lock_read s; g !! id, lock_write (delete id) s).

(** ** Garbage collection *)
Record SnapshotGcConfig := MkGc { gc_max_age_secs : option Z; gc_max_count : option nat; gc_tick_secs : Z }.
Definition gc_is_enabled (c : SnapshotGcConfig) : bool :=
  match gc_max_age_secs c with Some _ => true | None => false end
  || match gc_max_count c with Some _ => true | None => false end.

(** [Vec::dedup_by]: drop an element equal to the last one kept. *)
Fixpoint dedup_from (prev : SnapshotRecord) (l : list SnapshotRecord) : list SnapshotRecord :=
  match l with
  | [] => []
  | y :: l' => if String.eqb (sn_id y) (sn_id prev) then dedup_from prev l' else y :: dedup_from y l'
  end.
Definition dedup_by_id (l : list SnapshotRecord) : list SnapshotRecord :=
  match l with [] => [] | x :: l' => x :: dedup_from x l' end.
Definition snap_id_le (a b : SnapshotRecord) : bool := String.leb (sn_id a) (sn_id b).

Section gc.
Context `{HashIter} `{Lowercase}.
Variable odt_sub : Z → Z → option Z.
Variable exists_path : string → bool.

(** The loop over the doomed rows: the store, the count, the removed paths. *)
Fixpoint gc_loop (doomed : list SnapshotRecord) (s : InMemorySnapshotStore) (deleted : nat) (removed : list string)
    : InMemorySnapshotStore * nat * list string :=
  match doomed with
  | [] => (s, deleted, removed)
  | r :: rest =>
      let removed := if exists_path (sn_path r) then removed ++ [sn_path r] else removed in
      let (o, s) := snap_remove (sn_id r) s in
      gc_loop rest s (match o with Some _ => deleted + 1 | None => deleted end) removed
  end.

(** Rows over age; [None]: computing the cut-off panicked.  [as i64] wraps. *)
Definition gc_too_old (now : Z) (c : SnapshotGcConfig) (rows : list SnapshotRecord) : option (list SnapshotRecord) :=
  match gc_max_age_secs c with
  | None => Some []
  | Some secs =>
      cutoff ← odt_sub now (i64_wrap secs * 10 ^ 9);
      Some (filter (λ r, sn_created_at r < cutoff)%Z rows)
  end.
Definition gc_surplus (c : SnapshotGcConfig) (rows : list SnapshotRecord) : list SnapshotRecord :=
  match gc_max_count c with
  | Some m => if m <? length rows then take (length rows - m) (reverse rows) else []
  | None => []
  end.

(** [gc::run_once]; the outer [None] is a panic. *)
Definition gc_run_once (now : Z) (c : SnapshotGcConfig) (s : InMemorySnapshotStore)
    : option (InMemorySnapshotStore * nat * list string) :=
  if negb (gc_is_enabled c) then Some (s, 0, []) else
  let (rows, _) := snap_list None None (Z.to_nat 10000) 0 None s in
  old ← gc_too_old now c rows;
  let to_delete := dedup_by_id (sort_by snap_id_le (old ++ gc_surplus c rows)) in
  Some (gc_loop to_delete s 0 []).
End gc.

(** ** Lemmas *)
Definition snaps_ok (s : InMemorySnapshotStore) : Prop :=
  poisoned s = false ∧ map_Forall (λ id r, sn_id r = id) (inner s).

Lemma snap_newest_total a b : snap_newest a b = true ∨ snap_newest b a = true.
Proof. unfold snap_newest. rewrite !Z.leb_le. lia. Qed.
Lemma snap_newest_trans a b c : snap_newest a b = true → snap_newest b c = true → snap_newest a c = true.
Proof. unfold snap_newest. rewrite !Z.leb_le. lia. Qed.

Lemma dedup_from_ids prev l x : x ∈ sn_id <$> dedup_from prev l → x ∈ sn_id <$> l.
Proof.
  revert prev. induction l as [|y l IH]; intros prev; simpl; [done|]. case_match; simpl; set_solver.
Qed.
Lemma dedup_from_ids_inv prev l x : x ∈ sn_id <$> l → x = sn_id prev ∨ x ∈ sn_id <$> dedup_from prev l.
Proof.
  revert prev. induction l as [|y l IH]; intros prev; simpl; [set_solver|].
  intros [->|Hx]%elem_of_cons; destruct (String.eqb_spec (sn_id y) (sn_id prev)); simpl; [auto|set_solver|auto|].
  destruct (IH y Hx); set_solver.
Qed.
Lemma dedup_by_ids l x : x ∈ sn_id <$> dedup_by_id l ↔ x ∈ sn_id <$> l.
Proof.
  destruct l as [|y l]; [done|]. simpl. rewrite !elem_of_cons. split.
  - intros [->|Hx%dedup_from_ids]; auto.
  - intros [->|Hx]; [auto|]. by destruct (dedup_from_ids_inv y l x Hx); auto.
Qed.

(** What the loop leaves, and that it counts the rows it removed. *)
Lemma gc_loop_spec ex doomed s deleted removed s' deleted' removed' :
  poisoned s = false → gc_loop ex doomed s deleted removed = (s', deleted', removed') →
  poisoned s' = false ∧
  (∀ id, inner s' !! id = if decide (id ∈ sn_id <$> doomed) then None else inner s !! id) ∧
  deleted' + size (inner s') = deleted + size (inner s) ∧
  removed' = removed ++ filter (λ p, ex p = true) (sn_path <$> doomed).
Proof.
  revert s deleted removed. induction doomed as [|r doomed IH]; intros s deleted removed Hp; simpl.
  { intros [= <- <- <-]. rewrite app_nil_r. done. }
  unfold lock_read, lock_write. rewrite Hp. simpl. intros Hl.
  apply IH in Hl; [|done]. destruct Hl as (Hp' & Hv & Hc & Hr). split; [done|]. split; [|split].
  - intros id. rewrite Hv. simpl. rewrite lookup_delete.
    destruct (decide (id ∈ sn_id <$> doomed)); [by rewrite decide_True by set_solver|].
    case_decide as Hd; [by rewrite decide_True by set_solver|]. by rewrite decide_False by set_solver.
  - rewrite Hc. simpl. rewrite map_size_delete. destruct (inner s !! sn_id r) as [x|] eqn:Hx; simpl; [|lia].
    assert (size (inner s) ≠ 0) by (rewrite map_size_non_empty_iff; intros He; by rewrite He in Hx). lia.
  - rewrite Hr, filter_cons. destruct (ex (sn_path r)); simpl; [|done]. by rewrite <- app_assoc.
Qed.

Lemma elem_of_surplus (c : SnapshotGcConfig) rows r :
  r ∈ gc_surplus c rows ↔ ∃ m i, gc_max_count c = Some m ∧ m ≤ i ∧ rows !! i = Some r.
Proof.
  unfold gc_surplus. destruct (gc_max_count c) as [m|]; [|split; [by intros ?%elem_of_nil|naive_solver]].
  destruct (Nat.ltb_spec m (length rows)) as [Hlt|Hge].
  - assert (take (length rows - m) (reverse rows) = reverse (drop m rows)) as ->.
    { rewrite <- (take_drop m rows) at 2. rewrite reverse_app, take_app_le by (rewrite length_reverse, length_drop; lia).
      apply take_ge. rewrite length_reverse, length_drop. lia. }
    rewrite elem_of_reverse, list_elem_of_lookup. setoid_rewrite lookup_drop. split.
    + intros [i Hi]. exists m, (m + i). split; [done|]. split; [lia|done].
    + intros (m' & i & [= <-] & Hle & Hi). exists (i - m). by replace (m + (i - m)) with i by lia.
  - split; [by intros ?%elem_of_nil|]. intros (m' & i & [= <-] & Hle & Hi%lookup_lt_Some). lia.
Qed.

(** Is the row at position [i] of the newest-first list kept by the policy? *)
Definition gc_keeps (odt_sub : Z → Z → option Z) (now : Z) (c : SnapshotGcConfig) (i : nat) (r : SnapshotRecord) : bool :=
  match gc_max_count c with Some m => i <? m | None => true end
  && match gc_max_age_secs c with
     | Some secs => match odt_sub now (i64_wrap secs * 10 ^ 9)%Z with
                    | Some cutoff => (cutoff <=? sn_created_at r)%Z
                    | None => true
                    end
     | None => true
     end.

Lemma snap_list_all `{HashIter} `{Lowercase} s : snaps_ok s →
  ∃ all, (snap_list None None (Z.to_nat 10000) 0 None s).1 = take 500 all ∧
    StronglySorted snap_newest all ∧ NoDup (sn_id <$> all) ∧
    ∀ r, r ∈ all ↔ inner s !! sn_id r = Some r.
Proof.
  intros [Hp Hid]. unfold snap_list, lock_read. rewrite Hp. simpl fst.
  exists (sort_by snap_newest (hash_iter (inner s)).*2). split.
  { rewrite filter_every by done. done. }
  split; [apply sort_by_sorted; [apply snap_newest_total|apply snap_newest_trans]|]. split.
  - rewrite sort_by_perm.
    replace (sn_id <$> (hash_iter (inner s)).*2) with (hash_iter (inner s)).*1; [apply NoDup_hash_iter|].
    rewrite <- list_fmap_compose. apply list_fmap_ext. intros i [k w] Hi%list_elem_of_lookup_2.
    apply elem_of_hash_iter in Hi. symmetry. by apply Hid in Hi.
  - intros r. rewrite elem_of_sort_by, list_elem_of_fmap. split.
    + intros ([k r'] & -> & Hk%elem_of_hash_iter). simpl. by rewrite (Hid _ _ Hk).
    + intros Hr. exists (sn_id r, r). by rewrite elem_of_hash_iter.
Qed.

Lemma lookup_inj_id all i j r r' :
  NoDup (sn_id <$> all) → all !! i = Some r → all !! j = Some r' → sn_id r = sn_id r' → i = j.
Proof.
  intros Hn Hi Hj He. eapply (NoDup_lookup _ i j (sn_id r) Hn); rewrite list_lookup_fmap; [by rewrite Hi|by rewrite Hj, He].
Qed.
Lemma dedup_from_elem prev l x : x ∈ dedup_from prev l → x ∈ l.
Proof. revert prev. induction l as [|y l IH]; intros prev; simpl; [done|]. case_match; set_solver. Qed.
Lemma dedup_by_elem l x : x ∈ dedup_by_id l → x ∈ l.
Proof. destruct l as [|y l]; [done|]. simpl. intros [->|?%dedup_from_elem]%elem_of_cons; set_solver. Qed.
Lemma doomed_subset odt_sub now c rows old r : gc_too_old odt_sub now c rows = Some old →
  r ∈ old ∨ r ∈ gc_surplus c rows → r ∈ rows.
Proof.
  intros Hold [Hr|(m & i & _ & _ & Hi)%elem_of_surplus]; [|by eapply list_elem_of_lookup_2].
  unfold gc_too_old in Hold. destruct (gc_max_age_secs c).
  - apply bind_Some in Hold as (cut & _ & [= <-]). by apply list_elem_of_filter in Hr as [_ ?].
  - injection Hold as <-. by apply elem_of_nil in Hr.
Qed.
(** Which rows a pass dooms. *)
Lemma doomed_iff odt_sub now c rows old i r :
  NoDup (sn_id <$> rows) → gc_too_old odt_sub now c rows = Some old → rows !! i = Some r →
  r ∈ old ∨ r ∈ gc_surplus c rows ↔ gc_keeps odt_sub now c i r = false.
Proof.
  intros Hn Hold Hi. unfold gc_keeps. rewrite andb_false_iff.
  rewrite (comm (∨) (r ∈ old)). apply Morphisms_Prop.or_iff_morphism.
  - rewrite elem_of_surplus. split.
    + intros (m & j & -> & Hle & Hj). apply Nat.ltb_ge. by rewrite (lookup_inj_id _ _ _ _ _ Hn Hi Hj eq_refl).
    + destruct (gc_max_count c) as [m|]; [|done]. rewrite Nat.ltb_ge. eauto.
  - unfold gc_too_old in Hold. destruct (gc_max_age_secs c) as [secs|].
    + apply bind_Some in Hold as (cut & -> & [= <-]). rewrite list_elem_of_filter, Z.leb_gt.
      split; [tauto|]. split; [done|]. by eapply list_elem_of_lookup_2.
    + injection Hold as <-. split; [by intros ?%elem_of_nil|done].
Qed.

(** The collector is exact.  When a pass returns, there is a newest-first
    list of all rows such that the rows left are exactly those the policy keeps
    (position below [max_count], not older than [max_age_secs]) together with
    every row from position 500 on, which the pass never looks at; the number
    returned is the number of rows removed, and the directories removed from disk are
    exactly the existing ones of the rows that were removed from the ledger. *)
Theorem gc_exact `{HashIter} `{Lowercase} (odt_sub : Z → Z → option Z) (exists_path : string → bool)
    (now : Z) (c : SnapshotGcConfig) (s s' : InMemorySnapshotStore) (deleted : nat) (removed : list string) :
  snaps_ok s → gc_is_enabled c = true →
  gc_run_once odt_sub exists_path now c s = Some (s', deleted, removed) →
  ∃ all, StronglySorted snap_newest all ∧ NoDup (sn_id <$> all) ∧ (∀ r, r ∈ all ↔ inner s !! sn_id r = Some r) ∧
    (∀ i r, all !! i = Some r →
       inner s' !! sn_id r = if (500 <=? i) || gc_keeps odt_sub now c i r then Some r else None) ∧
    (∀ id r, inner s' !! id = Some r → inner s !! id = Some r) ∧
    deleted + size (inner s') = size (inner s) ∧
    (∀ p, p ∈ removed ↔ ∃ r, inner s !! sn_id r = Some r ∧ sn_path r = p ∧ inner s' !! sn_id r = None ∧ exists_path p = true).
Proof.
  intros Hok Hen. unfold gc_run_once. rewrite Hen. simpl negb.
  destruct (snap_list_all s Hok) as (all & Hrows & Hsort & Hn & Hin).
  destruct (snap_list None None _ 0 None s) as [rows total]. simpl in Hrows. subst rows.
  intros (old & Hold & [= Hl])%bind_Some. set (doomed := dedup_by_id _) in Hl.
  destruct Hok as [Hp Hid]. destruct (gc_loop_spec _ _ _ _ _ _ _ _ Hp Hl) as (_ & Hv & Hc & Hr).
  assert (NoDup (sn_id <$> take 500 all)) as Hn500.
  { rewrite fmap_take. eapply sublist_NoDup; [exact Hn|apply sublist_take]. }
  assert (∀ r, r ∈ doomed → r ∈ take 500 all) as Hsub.
  { intros r Hx%dedup_by_elem. rewrite elem_of_sort_by, elem_of_app in Hx. by eapply doomed_subset. }
  assert (∀ i r, all !! i = Some r → sn_id r ∈ sn_id <$> doomed ↔ i < 500 ∧ gc_keeps odt_sub now c i r = false) as Hdoom.
  { intros i r Hi. unfold doomed. rewrite dedup_by_ids, list_elem_of_fmap. setoid_rewrite elem_of_sort_by.
    setoid_rewrite elem_of_app. split.
    - intros (r' & He & Hr'). pose proof (doomed_subset _ _ _ _ _ _ Hold Hr') as [j Hj]%list_elem_of_lookup.
      pose proof Hj as [Hj' Hlt]%lookup_take_Some. pose proof (lookup_inj_id _ _ _ _ _ Hn Hi Hj' He) as <-.
      split; [done|]. assert (r' = r) as -> by congruence. by apply (doomed_iff _ _ _ _ _ _ _ Hn500 Hold Hj).
    - intros [Hlt Hk]. exists r. split; [done|]. apply (doomed_iff _ _ _ _ _ i _ Hn500 Hold); [|done].
      by apply lookup_take_Some. }
  exists all. do 3 (split; [done|]). split; [|split; [|split; [done|]]].
  - intros i r Hi. rewrite Hv. assert (inner s !! sn_id r = Some r) as -> by (apply Hin; by eapply list_elem_of_lookup_2).
    destruct (Nat.leb_spec 500 i); simpl.
    + rewrite decide_False; [done|]. rewrite (Hdoom _ _ Hi). lia.
    + destruct (gc_keeps odt_sub now c i r) eqn:Hk.
      * rewrite decide_False; [done|]. rewrite (Hdoom _ _ Hi). intros [_ Hk']. congruence.
      * rewrite decide_True; [done|]. by rewrite (Hdoom _ _ Hi).
  - intros id r. rewrite Hv. by case_decide.
  - assert (∀ r, r ∈ doomed → inner s !! sn_id r = Some r) as Hrow.
    { intros r Hr'. apply Hin. apply Hsub, elem_of_take in Hr' as (i & Hi & _). by eapply list_elem_of_lookup_2. }
    intros p. rewrite Hr. cbn [app]. rewrite list_elem_of_filter, list_elem_of_fmap. split.
    + intros (Hx & r & -> & Hr'). exists r. rewrite Hv, decide_True by (by apply list_elem_of_fmap_2). split; [by apply Hrow|done].
    + intros (r & Hs & <- & Hg & Hx). rewrite Hv in Hg. case_decide as Hd; [|congruence].
      apply list_elem_of_fmap in Hd as (r' & He & Hr'). pose proof (Hrow r' Hr'). split; [done|]. exists r'. split; [congruence|done].
Qed.

Lemma snap_list_short `{HashIter} `{Lowercase} t w limit off q s : length (snap_list t w limit off q s).1 ≤ 500.
Proof. unfold snap_list. destruct (lock_read s); simpl; [apply page_length|lia]. Qed.

(** A count cap of 500 or more does nothing.  The pass asks for 10 000
    rows but the store returns at most 500, so with no age limit and
    [max_count >= 500] nothing is ever collected, however many rows there are. *)
Theorem gc_count_cap_ineffective `{HashIter} `{Lowercase} (odt_sub : Z → Z → option Z) (exists_path : string → bool)
    (now tick : Z) (m : nat) (s : InMemorySnapshotStore) :
  500 ≤ m → gc_run_once odt_sub exists_path now (MkGc None (Some m) tick) s = Some (s, 0, []).
Proof.
  intros Hm. unfold gc_run_once. simpl negb.
  pose proof (snap_list_short None None (Z.to_nat 10000) 0 None s) as Hlen.
  destruct (snap_list None None (Z.to_nat 10000) 0 None s) as [rows total]. simpl in Hlen. simpl.
  unfold gc_surplus. simpl. destruct (Nat.ltb_spec m (length rows)); [lia|]. done.
Qed.

(** ** Witnesses *)
Definition demo_snap (id : string) (t : Z) : SnapshotRecord := MkSnap id "acme" None None t ("/snap/" +:+ id) 10.
Definition demo_snaps : InMemorySnapshotStore :=
  new_lock {["snap_1" := demo_snap "snap_1" 1; "snap_2" := demo_snap "snap_2" 2]}.
Definition demo_sub (a b : Z) : option Z := Some (a - b)%Z.
Lemma demo_snaps_ok : snaps_ok demo_snaps.
Proof.
  split; [reflexivity|]. unfold demo_snaps. simpl. apply map_Forall_insert_2; [reflexivity|].
  apply map_Forall_singleton. reflexivity.
Qed.

Definition demo_gc : option (InMemorySnapshotStore * nat * list string) :=
  gc_run_once demo_sub (λ _, true) 5 (MkGc None (Some 1) 60) demo_snaps.
Definition demo_gc_state : InMemorySnapshotStore := match demo_gc with Some (s, _, _) => s | None => snaps_new end.
Lemma demo_gc_some : demo_gc = Some (demo_gc_state, 1, ["/snap/snap_1"]).
Proof.
  unfold demo_gc_state. destruct demo_gc as [[[s n] l]|] eqn:E; [|discriminate E].
  assert ((λ o : option (InMemorySnapshotStore * nat * list string), match o with Some (_, n, l) => Some (n, l) | None => None end) demo_gc
          = Some (1, ["/snap/snap_1"])) as Hnl by reflexivity.
  rewrite E in Hnl. injection Hnl as -> ->. reflexivity.
Qed.
Lemma gc_exact_witness : 1 + size (inner demo_gc_state) = size (inner demo_snaps).
Proof.
  destruct (gc_exact demo_sub (λ _, true) 5 (MkGc None (Some 1) 60) demo_snaps demo_gc_state 1 ["/snap/snap_1"]
              demo_snaps_ok eq_refl demo_gc_some) as (_ & _ & _ & _ & _ & _ & Hc & _). exact Hc.
Defined.

Lemma gc_count_cap_ineffective_witness :
  gc_run_once demo_sub (λ _, true) 5 (MkGc None (Some (Z.to_nat 1000)) 60) demo_snaps = Some (demo_snaps, 0, []).
Proof. apply (gc_count_cap_ineffective demo_sub (λ _, true) 5 60 (Z.to_nat 1000) demo_snaps). apply Nat.leb_le. vm_compute. reflexivity. Defined.
