(* ===== verification/Idle.v ===== *)
(** * The idle reaper

    Models [agentjail-ctl/src/workspaces/idle.rs]: [run_once], [pause_one] and the
    wiping of a source directory.  The engine's snapshot call ([Snapshot::create]
    or [create_incremental], with the recorded size) is the parameter [capture];
    its error text is [Err].  Wiped and removed directories are recorded in lists;
    random bytes and clock readings are arguments, indexed by the row.  [Sweepers] has
    the same pass on the engine's own programs. *)

From S2P Require Import Prelude Text Keys Token Tenant Provider Ctl Sessions Workspaces Snapshots.

Record IdleState := MkIdle {
  id_ws : InMemoryWorkspaceStore;
  id_snaps : InMemorySnapshotStore;
  id_wiped : list string;
  id_rmdirs : list string
}.

Section idle.
Context `{HexEncode} `{HashIter} `{Lowercase}.
Variable odt_sub : Z → Z → option Z.
Variable capture : string → string → outcome string Z.
Variable state_dir : string.
Variable rnd : nat → list ascii.
Variable clk : nat → Z.

(** The tests of the loop body; the outer [None] is a panic of the cut-off. *)
Definition idle_due (now : Z) (w : Workspace) : option bool :=
  if match w_paused_at w with Some _ => true | None => false end then Some false
  else if (sp_idle_timeout_secs (w_config w) =? 0)%Z then Some false
  else
    let last := default (w_created_at w) (w_last_exec_at w) in
    cutoff ← odt_sub now (i64_wrap (sp_idle_timeout_secs (w_config w)) * 10 ^ 9);
    Some (negb (cutoff <=? last)%Z).

Definition auto_record (i : nat) (w : Workspace) (snap_dir : string) (size : Z) : SnapshotRecord :=
  MkSnap (new_snapshot_id (rnd i)) (w_tenant_id w) (Some (w_id w)) (Some ("auto:" +:+ w_id w))
    (clk (2 * i)) snap_dir size.

Definition pause_one (i : nat) (w : Workspace) (st : IdleState) : IdleState * outcome string unit :=
  let snap_id := new_snapshot_id (rnd i) in
  let snap_dir := path_join (path_join state_dir "snapshots") snap_id in
  match capture (w_source_dir w) snap_dir with
  | Err e => (st, Err ("snapshot create: " +:+ e))
  | Panic => (st, Panic)
  | Ok size =>
      match snap_insert (auto_record i w snap_dir size) (id_snaps st) with
      | (snaps, Ok _) =>
          (MkIdle (ws_mark_paused (clk (2 * i + 1)) (w_id w) snap_id (id_ws st)) snaps
             (id_wiped st ++ [w_source_dir w]) (id_rmdirs st), Ok tt)
      | (snaps, Err e) =>
          (MkIdle (id_ws st) snaps (id_wiped st) (id_rmdirs st ++ [snap_dir]), Err ("snapshot insert: " +:+ ctl_display e))
      | (snaps, Panic) => (MkIdle (id_ws st) snaps (id_wiped st) (id_rmdirs st), Panic)
      end
  end.

Fixpoint idle_loop (now : Z) (i : nat) (rows : list Workspace) (st : IdleState) (paused : nat)
    : option (IdleState * nat) :=
  match rows with
  | [] => Some (st, paused)
  | w :: rest =>
      due ← idle_due now w;
      if negb due then idle_loop now (i + 1) rest st paused else
      match pause_one i w st with
      | (st, Ok _) => idle_loop now (i + 1) rest st (paused + 1)
      | (st, Err _) => idle_loop now (i + 1) rest st paused
      | (_, Panic) => None
      end
  end.

Definition idle_run_once (now : Z) (st : IdleState) : option (IdleState * nat) :=
  idle_loop now 0 (ws_list None 500 0 None (id_ws st)).1 st 0.

(** ** Lemmas *)
Definition idle_ok (st : IdleState) : Prop := ws_ok (id_ws st) ∧ snaps_ok (id_snaps st).

(** The directory [dir] was wiped for a row that can be restored: the row is
    paused on a stored snapshot that [capture] took of this very directory. *)
Definition restorable (st : IdleState) (dir : string) : Prop :=
  ∃ w snap, inner (id_ws st) !! w_id w = Some w ∧ w_source_dir w = dir ∧ is_Some (w_paused_at w) ∧
    w_auto_snapshot w = Some (sn_id snap) ∧ inner (id_snaps st) !! sn_id snap = Some snap ∧
    sn_tenant_id snap = w_tenant_id w ∧ sn_workspace_id snap = Some (w_id w) ∧
    capture dir (sn_path snap) = Ok (sn_size_bytes snap).

Lemma pause_one_spec i w st st' r :
  idle_ok st → inner (id_ws st) !! w_id w = Some w → pause_one i w st = (st', r) →
  (∃ snap t, r = Ok tt ∧ id_wiped st' = id_wiped st ++ [w_source_dir w] ∧
     inner (id_ws st') = <[w_id w := set_pause (Some t) (Some (sn_id snap)) w]> (inner (id_ws st)) ∧
     inner (id_snaps st) !! sn_id snap = None ∧ inner (id_snaps st') = <[sn_id snap := snap]> (inner (id_snaps st)) ∧
     poisoned (id_ws st') = false ∧ poisoned (id_snaps st') = false ∧
     sn_tenant_id snap = w_tenant_id w ∧ sn_workspace_id snap = Some (w_id w) ∧
     capture (w_source_dir w) (sn_path snap) = Ok (sn_size_bytes snap)) ∨
  (r ≠ Ok tt ∧ id_wiped st' = id_wiped st ∧ id_ws st' = id_ws st ∧ id_snaps st' = id_snaps st).
Proof.
  intros [[Hpw _] [Hps _]] Hw. unfold pause_one. set (dir := path_join _ _).
  destruct (capture (w_source_dir w) dir) as [size|e|] eqn:Hc; [|intros [= <- <-]; by right..].
  set (snap := auto_record i w dir size). unfold snap_insert, lock_read, lock_write. rewrite Hps.
  case_bool_decide as Hd; [intros [= <- <-]; by right|]. intros [= <- <-]. left. exists snap, (clk (2 * i + 1)).
  simpl. rewrite <- eq_None_not_Some in Hd. unfold ws_mark_paused, lock_write. rewrite Hpw.
  split; [done|]. split; [done|]. split; [|done]. cbn [inner]. by apply map_eq; intros k;
    rewrite alter_row, lookup_insert; case_decide; subst; [rewrite Hw|destruct (inner (id_ws st) !! k)].
Qed.

Lemma ws_id_pause t o w : w_id (set_pause t o w) = w_id w.
Proof. done. Qed.

(** Pausing one row keeps the stores well-formed and earlier wipes restorable. *)
Lemma pause_one_ok i w st st' r :
  idle_ok st → inner (id_ws st) !! w_id w = Some w → pause_one i w st = (st', r) →
  idle_ok st' ∧
  (∀ k, k ≠ w_id w → inner (id_ws st') !! k = inner (id_ws st) !! k) ∧
  (w_paused_at w = None → Forall (restorable st) (id_wiped st) → Forall (restorable st') (id_wiped st')) ∧
  length (id_wiped st') = length (id_wiped st) + (if is_ok r then 1 else 0).
Proof.
  intros Hok Hw Hp. destruct (pause_one_spec i w st st' r Hok Hw Hp)
    as [(snap & t & -> & Hwipe & Hws & Hnew & Hsn & Hp1 & Hp2 & Ht & Hwid & Hcap)|(Hr & Hwipe & Hws & Hsn)].
  - destruct Hok as [[_ Hid] [_ Hsid]]. split; [|split; [|split]].
    + split; (split; [done|]); [rewrite Hws|rewrite Hsn]; by apply map_Forall_insert_2.
    + intros k Hk. by rewrite Hws, lookup_insert_ne.
    + intros Hun Hall. rewrite Hwipe. apply Forall_app. split.
      * eapply Forall_impl; [exact Hall|]. intros dir (w0 & s0 & E1 & E2 & E3 & E4 & E5 & E6 & E7 & E8).
        exists w0, s0. rewrite Hws, Hsn. rewrite !lookup_insert_ne; [done|congruence|].
        intros He. rewrite <- He in E1. rewrite Hw in E1. injection E1 as <-. rewrite Hun in E3. by destruct E3.
      * apply Forall_singleton. exists (set_pause (Some t) (Some (sn_id snap)) w), snap.
        rewrite Hws, Hsn, ws_id_pause, !lookup_insert_eq. simpl. eauto 10.
    + rewrite Hwipe, length_app. done.
  - assert (idle_ok st') as Hok' by (destruct Hok; split; by rewrite ?Hws, ?Hsn).
    split; [done|]. split; [by intros; rewrite Hws|]. split.
    + intros _ Hall. rewrite Hwipe. eapply Forall_impl; [exact Hall|]. intros dir. unfold restorable. by rewrite Hws, Hsn.
    + rewrite Hwipe. destruct r as [[]| |]; simpl; [done|lia..].
Qed.

Lemma idle_due_unpaused now w : idle_due now w = Some true → w_paused_at w = None.
Proof. unfold idle_due. by destruct (w_paused_at w). Qed.

Lemma idle_loop_spec now : ∀ rows i st paused st' n,
  idle_ok st → NoDup (w_id <$> rows) → (∀ w, w ∈ rows → inner (id_ws st) !! w_id w = Some w) →
  Forall (restorable st) (id_wiped st) → idle_loop now i rows st paused = Some (st', n) →
  idle_ok st' ∧ Forall (restorable st') (id_wiped st') ∧
  n + length (id_wiped st) = paused + length (id_wiped st') ∧
  (∀ k, (∀ w, w ∈ rows → w_id w = k → idle_due now w ≠ Some true) →
        inner (id_ws st') !! k = inner (id_ws st) !! k).
Proof.
  induction rows as [|w rows IH]; intros i st paused st' n Hok Hnd Hrows Hall; simpl.
  { intros [= <- <-]. split; [done|]. split; [done|]. split; [lia|done]. }
  apply NoDup_cons in Hnd as [Hni Hnd]. intros (due & Hdue & Hl)%bind_Some.
  assert (∀ x, x ∈ rows → w_id x ≠ w_id w) as Hne.
  { intros x Hx He. apply Hni. rewrite <- He. by apply list_elem_of_fmap_2. }
  destruct due; simpl in Hl.
  - destruct (pause_one i w st) as [st1 r] eqn:Hp.
    destruct (pause_one_ok i w st st1 r Hok (Hrows w (list_elem_of_here _ _)) Hp) as (Hok1 & Hoth & Hres & Hlen).
    assert (∀ m, idle_loop now (i + 1) rows st1 m = Some (st', n) → m = paused + (if is_ok r then 1 else 0) →
      idle_ok st' ∧ Forall (restorable st') (id_wiped st') ∧ n + length (id_wiped st) = paused + length (id_wiped st') ∧
      (∀ k, (∀ x, x ∈ w :: rows → w_id x = k → idle_due now x ≠ Some true) →
            inner (id_ws st') !! k = inner (id_ws st) !! k)) as Hgo.
    { intros m Hl' ->.
      assert (∀ x, x ∈ rows → inner (id_ws st1) !! w_id x = Some x) as Hrows1.
      { intros x Hx. rewrite Hoth by auto. apply Hrows. set_solver. }
      assert (Forall (restorable st1) (id_wiped st1)) as Hres1 by (apply Hres; [by eapply idle_due_unpaused|done]).
      destruct (IH _ _ _ _ _ Hok1 Hnd Hrows1 Hres1 Hl') as (? & ? & Hn & Hk).
      split; [done|]. split; [done|]. split; [lia|]. intros k Hkk.
      rewrite Hk by set_solver. apply Hoth. intros ->. by apply (Hkk w (list_elem_of_here _ _)). }
    destruct r as [[]|e|]; [by apply (Hgo (paused + 1))| |done]. apply (Hgo paused); [done|]. simpl. lia.
  - assert (∀ x, x ∈ rows → inner (id_ws st) !! w_id x = Some x) as Hrows1 by (intros; apply Hrows; set_solver).
    destruct (IH _ _ _ _ _ Hok Hnd Hrows1 Hall Hl) as (? & ? & Hn & Hk).
    split; [done|]. split; [done|]. split; [done|]. intros k Hkk. apply Hk. set_solver.
Qed.
End idle.

Lemma ws_list_rows `{HashIter} `{Lowercase} s : ws_ok s →
  NoDup (w_id <$> (ws_list None 500 0 None s).1) ∧
  ∀ w, w ∈ (ws_list None 500 0 None s).1 → inner s !! w_id w = Some w ∧ is_live w = true.
Proof.
  intros [Hp Hid]. unfold ws_list, lock_read. rewrite Hp. simpl fst. unfold page. rewrite drop_0. split.
  - rewrite fmap_take. eapply sublist_NoDup; [|apply sublist_take]. rewrite sort_by_perm. apply NoDup_fmap_filter.
    replace (w_id <$> (hash_iter (inner s)).*2) with (hash_iter (inner s)).*1; [apply NoDup_hash_iter|].
    rewrite <- list_fmap_compose. apply list_fmap_ext. intros i [k w] Hi%list_elem_of_lookup_2.
    apply elem_of_hash_iter in Hi. symmetry. by apply Hid in Hi.
  - intros w (i & Hi & _)%elem_of_take. apply list_elem_of_lookup_2 in Hi.
    rewrite elem_of_sort_by, list_elem_of_filter, list_elem_of_fmap in Hi.
    destruct Hi as [[[Hl _]%andb_true_iff _]%andb_true_iff ([k w'] & -> & Hk%elem_of_hash_iter)]. simpl in *.
    by rewrite (Hid _ _ Hk).
Qed.

(** Pausing loses nothing.  After a reaper pass that returns, every source
    directory it wiped belongs to a workspace row that is now paused on a
    snapshot present in the snapshot store, taken of that very directory and
    filed under the workspace's own tenant; the number returned is the number of
    directories wiped; and a workspace that was not due (already paused, no idle
    timeout, or active since the cut-off) is left exactly as it was. *)
Theorem idle_pass_restorable `{HexEncode} `{HashIter} `{Lowercase} (odt_sub : Z → Z → option Z)
    (capture : string → string → outcome string Z) (state_dir : string) (rnd : nat → list ascii) (clk : nat → Z)
    (now : Z) (wss : InMemoryWorkspaceStore) (snaps : InMemorySnapshotStore) (st' : IdleState) (n : nat) :
  ws_ok wss → snaps_ok snaps →
  idle_run_once odt_sub capture state_dir rnd clk now (MkIdle wss snaps [] []) = Some (st', n) →
  Forall (restorable capture st') (id_wiped st') ∧ n = length (id_wiped st') ∧
  ∀ id w, inner wss !! id = Some w → idle_due odt_sub now w ≠ Some true → inner (id_ws st') !! id = Some w.
Proof.
  intros Hws Hsn Hrun. destruct (ws_list_rows wss Hws) as [Hnd Hrows].
  destruct (idle_loop_spec odt_sub capture state_dir rnd clk now (ws_list None 500 0 None wss).1 0 (MkIdle wss snaps [] []) 0 st' n)
    as (_ & Hall & Hn & Hk); [by split|done|apply Hrows|constructor|done|].
  split; [done|]. split; [simpl in Hn; lia|]. intros id w Hw Hd. rewrite Hk; [done|].
  intros x Hx%Hrows <-. simpl in Hx. destruct Hx as [Hx _]. congruence.
Qed.

(** ** Witnesses *)
Definition demo_idle_ws : Workspace :=
  MkWs "wrk_i" "acme" 1 None "/s/i" "/o/i" (MkSpec 512 60 100 64 "none" [] "standard" 30 []) None None None [] None None None.
Definition demo_capture (_ _ : string) : outcome string Z := Ok 42%Z.
Definition demo_idle : option (IdleState * nat) :=
  idle_run_once demo_sub demo_capture "/state" (λ _, replicate 12 (byte_of 9)) (λ _, 7%Z) (10 ^ 15)
    (MkIdle (ws_run [WInsert demo_idle_ws]) snaps_new [] []).
Definition demo_idle_state : IdleState :=
  match demo_idle with Some (st, _) => st | None => MkIdle wss_new snaps_new [] [] end.
Lemma demo_idle_some : demo_idle = Some (demo_idle_state, 1).
Proof.
  assert ((snd <$> demo_idle) = Some 1) as Hn by (vm_compute; reflexivity).
  unfold demo_idle_state. destruct demo_idle as [[st n]|]; [|discriminate Hn]. injection Hn as ->. reflexivity.
Qed.
Lemma idle_pass_restorable_witness :
  id_wiped demo_idle_state = ["/s/i"] ∧ Forall (restorable demo_capture demo_idle_state) (id_wiped demo_idle_state).
Proof.
  split; [vm_compute; reflexivity|].
  apply (idle_pass_restorable demo_sub demo_capture "/state" (λ _, replicate 12 (byte_of 9)) (λ _, 7%Z) (10 ^ 15)
           (ws_run [WInsert demo_idle_ws]) snaps_new demo_idle_state 1).
  - apply ws_run_ok.
  - split; [reflexivity|apply map_Forall_empty].
  - exact demo_idle_some.
Defined.
