(* ===== verification/EgressProxy.v ===== *)
(** * The engine's allow-list proxy

    Models [agentjail/src/proxy.rs]: [DomainPattern], [parse_host_port],
    [is_allowed], [is_public_routable], [read_line_bounded] and phase 1 of
    [handle_connection] (everything up to the established tunnel).  The client's
    byte stream is a string; name resolution and [TcpStream::connect] are the
    parameters [lookup_host] and [connect]; every connection attempt and every
    response line is recorded (writing it to the client is taken to succeed; a
    failed write ends the connection).  The accept loop and the tunnel are in
    [Lifecycle]. *)

From S2P Require Import Prelude Text.
Local Open Scope rust_scope.

Definition MAX_LINE_BYTES : nat := Z.to_nat 8192.
Definition MAX_HEADER_LINES : nat := 64.

(** ** Domain patterns *)
Inductive DomainPattern :=
| Exact (domain : string)
| Wildcard (base suffix : string).

Definition pattern_parse `{Lowercase} (pattern : string) : DomainPattern :=
  let lower := to_lowercase pattern in
  match strip_prefix "*." lower with
  | Some base => Wildcard base ("." +:+ base)
  | None => Exact lower
  end.
Definition pattern_matches `{Lowercase} (p : DomainPattern) (host : string) : bool :=
  let host_lower := to_lowercase host in
  match p with
  | Exact domain => String.eqb host_lower domain
  | Wildcard base suffix => ends_with suffix host_lower || String.eqb host_lower base
  end.
Definition is_allowed `{Lowercase} (host : string) (allowlist : list DomainPattern) : bool :=
  existsb (λ p, pattern_matches p host) allowlist.

(** ** [parse_host_port] *)
Inductive HostPortError := UnterminatedBracket | InvalidPort | GarbageAfterV6 | UnbracketedV6.
Definition parse_host_port (s : string) : outcome HostPortError (string * Z) :=
  match strip_prefix "[" s with
  | Some rest =>
      let? '(v6, tail) := ok_or (split_once "]" rest) UnterminatedBracket in
      match strip_prefix ":" tail with
      | Some p => let? port := ok_or (parse_u16 p) InvalidPort in Ok (v6, port)
      | None => if str_is_empty tail then Ok (v6, 443%Z) else Err GarbageAfterV6
      end
  | None =>
      match rsplit_once ":" s with
      | Some (host, port_str) =>
          if str_contains ":" host then Err UnbracketedV6
          else let? port := ok_or (parse_u16 port_str) InvalidPort in Ok (host, port)
      | None => Ok (s, 443%Z)
      end
  end.

(** ** Addresses *)
Inductive IpAddr :=
| V4 (a b c d : Z)
| V6 (s0 s1 s2 s3 s4 s5 s6 s7 : Z).
Definition octet (x : Z) : Prop := (0 ≤ x < 2 ^ 8)%Z.
Definition segment (x : Z) : Prop := (0 ≤ x < 2 ^ 16)%Z.
Definition ip_wf (ip : IpAddr) : Prop :=
  match ip with
  | V4 a b c d => octet a ∧ octet b ∧ octet c ∧ octet d
  | V6 s0 s1 s2 s3 s4 s5 s6 s7 =>
      segment s0 ∧ segment s1 ∧ segment s2 ∧ segment s3 ∧ segment s4 ∧ segment s5 ∧ segment s6 ∧ segment s7
  end.

(** [IpAddr::is_loopback], [is_unspecified], [is_multicast] *)
Definition is_loopback (ip : IpAddr) : bool :=
  match ip with
  | V4 a _ _ _ => (a =? 127)%Z
  | V6 s0 s1 s2 s3 s4 s5 s6 s7 => forallb (λ s, s =? 0)%Z [s0; s1; s2; s3; s4; s5; s6] && (s7 =? 1)%Z
  end.
Definition is_unspecified (ip : IpAddr) : bool :=
  match ip with
  | V4 a b c d => forallb (λ s, s =? 0)%Z [a; b; c; d]
  | V6 s0 s1 s2 s3 s4 s5 s6 s7 => forallb (λ s, s =? 0)%Z [s0; s1; s2; s3; s4; s5; s6; s7]
  end.
Definition is_multicast (ip : IpAddr) : bool :=
  match ip with
  | V4 a _ _ _ => (224 <=? a)%Z && (a <=? 239)%Z
  | V6 s0 _ _ _ _ _ _ _ => (Z.land s0 0xff00 =? 0xff00)%Z
  end.

Definition between (lo hi x : Z) : bool := (lo <=? x)%Z && (x <=? hi)%Z.
Definition v4_routable (a b c d : Z) : bool :=
  if is_loopback (V4 a b c d) || is_unspecified (V4 a b c d) || is_multicast (V4 a b c d) then false
  else if (a =? 10)%Z then false
  else if (a =? 172)%Z && between 16 31 b then false
  else if (a =? 192)%Z && (b =? 168)%Z then false
  else if (a =? 169)%Z && (b =? 254)%Z then false
  else if (a =? 100)%Z && between 64 127 b then false
  else if (a =? 192)%Z && (b =? 0)%Z && (c =? 0)%Z then false
  else if (a =? 192)%Z && (b =? 0)%Z && (c =? 2)%Z then false
  else if (a =? 198)%Z && (b =? 51)%Z && (c =? 100)%Z then false
  else if (a =? 203)%Z && (b =? 0)%Z && (c =? 113)%Z then false
  else if (a =? 198)%Z && between 18 19 b then false
  else if (240 <=? a)%Z then false
  else true.

(** [Ipv6Addr::to_ipv4_mapped]: [::ffff:a.b.c.d] *)
Definition to_ipv4_mapped (s0 s1 s2 s3 s4 s5 s6 s7 : Z) : option (Z * Z * Z * Z) :=
  if forallb (λ s, s =? 0)%Z [s0; s1; s2; s3; s4] && (s5 =? 0xffff)%Z
  then Some (Z.shiftr s6 8, Z.land s6 0xff, Z.shiftr s7 8, Z.land s7 0xff) else None.

Definition is_public_routable (ip : IpAddr) : bool :=
  if is_loopback ip || is_unspecified ip || is_multicast ip then false else
  match ip with
  | V4 a b c d => v4_routable a b c d
  | V6 s0 s1 s2 s3 s4 s5 s6 s7 =>
      match to_ipv4_mapped s0 s1 s2 s3 s4 s5 s6 s7 with
      | Some (a, b, c, d) => v4_routable a b c d
      | None =>
          if (Z.land s0 0xffc0 =? 0xfe80)%Z then false
          else if (Z.land s0 0xfe00 =? 0xfc00)%Z then false
          else if (s0 =? 0x2001)%Z && (s1 =? 0x0db8)%Z then false
          else true
      end
  end.

(** ** Reading lines *)
Definition LF : ascii := byte_of 10.
Definition CRLF : string := ws_bytes [13; 10]%Z.
(** [AsyncBufReadExt::read_line]: through the first line feed, or to the end. *)
Definition read_line (input : string) : string * string :=
  match str_find LF input with
  | Some i => (str_take (S i) input, str_drop (S i) input)
  | None => (input, EmptyString)
  end.
(** [None]: an I/O error (not UTF-8, or longer than [max]). *)
Definition read_line_bounded (input : string) (max : nat) : option (string * string) :=
  let (line, rest) := read_line input in
  if negb (utf8_valid line) then None
  else if max <? str_len line then None
  else Some (line, rest).
Fixpoint consume_headers (n : nat) (input : string) : option string :=
  match n with
  | O => Some input
  | S n' =>
      '(line, rest) ← read_line_bounded input MAX_LINE_BYTES;
      if String.eqb line CRLF || str_is_empty line then Some rest else consume_headers n' rest
  end.

(** ** Phase 1 of [handle_connection] *)
Abbreviation SocketAddr := (IpAddr * Z)%type.
Record Phase1 := MkP1 {
  p1_writes : list string;
  p1_attempts : list SocketAddr;
  p1_tunnel : option SocketAddr;
  p1_io_error : bool
}.
Definition BAD_REQUEST : string := "HTTP/1.1 400 Bad Request" +:+ CRLF +:+ CRLF.
Definition FORBIDDEN : string := "HTTP/1.1 403 Forbidden" +:+ CRLF +:+ CRLF.
Definition BAD_GATEWAY : string := "HTTP/1.1 502 Bad Gateway" +:+ CRLF +:+ CRLF.
Definition ESTABLISHED : string := "HTTP/1.1 200 Connection Established" +:+ CRLF +:+ CRLF.

Section connection.
Context `{Lowercase}.
Variable lookup_host : string → option (list SocketAddr).
(** [None]: connected; [Some e]: the error. *)
Variable connect : SocketAddr → option string.

(** Try each address in turn: the attempts made, and the stream or last error. *)
Fixpoint connect_first (addrs : list SocketAddr) (last_err : option string)
    : list SocketAddr * (SocketAddr + option string) :=
  match addrs with
  | [] => ([], inr last_err)
  | sa :: rest =>
      match connect sa with
      | None => ([sa], inl sa)
      | Some e => let (tried, r) := connect_first rest (Some e) in (sa :: tried, r)
      end
  end.

Definition answer (w : string) : Phase1 := MkP1 [w] [] None false.
Definition io_error : Phase1 := MkP1 [] [] None true.

Definition handle_connection (allowlist : list DomainPattern) (input : string) : Phase1 :=
  match read_line_bounded input MAX_LINE_BYTES with
  | None => io_error
  | Some (request_line, rest) =>
      match split_whitespace request_line with
      | method :: target :: _ :: _ =>
          if negb (String.eqb method "CONNECT") then answer BAD_REQUEST else
          match parse_host_port target with
          | Err _ | Panic => io_error
          | Ok (host, port) =>
              if negb (is_allowed host allowlist) then answer FORBIDDEN else
              let resolved := default [] (lookup_host (host +:+ ":" +:+ pretty port)) in
              let routable := filter (λ sa, is_public_routable sa.1 = true) resolved in
              match routable with
              | [] => answer FORBIDDEN
              | _ :: _ =>
                  match consume_headers MAX_HEADER_LINES rest with
                  | None => io_error
                  | Some _ =>
                      match connect_first routable None with
                      | (tried, inl sa) => MkP1 [ESTABLISHED] tried (Some sa) false
                      | (tried, inr (Some e)) => MkP1 [BAD_GATEWAY +:+ e] tried None false
                      | (tried, inr None) => MkP1 [BAD_GATEWAY] tried None false
                      end
                  end
              end
          end
      | _ => answer BAD_REQUEST
      end
  end.
End connection.

(** ** Blocked ranges, as CIDR blocks *)
Definition v4_addr (a b c d : Z) : Z := (a * 2 ^ 24 + b * 2 ^ 16 + c * 2 ^ 8 + d)%Z.
(** [addr] (of [width] bits) is in [base/len]. *)
Definition in_block (width addr : Z) (blk : Z * Z) : bool :=
  (addr / 2 ^ (width - blk.2) =? blk.1 / 2 ^ (width - blk.2))%Z.
Definition blocked_v4 : list (Z * Z) :=
  [(v4_addr 0 0 0 0, 32); (v4_addr 10 0 0 0, 8); (v4_addr 100 64 0 0, 10); (v4_addr 127 0 0 0, 8);
   (v4_addr 169 254 0 0, 16); (v4_addr 172 16 0 0, 12); (v4_addr 192 0 0 0, 24); (v4_addr 192 0 2 0, 24);
   (v4_addr 192 168 0 0, 16); (v4_addr 198 18 0 0, 15); (v4_addr 198 51 100 0, 24); (v4_addr 203 0 113 0, 24);
   (v4_addr 224 0 0 0, 4); (v4_addr 240 0 0 0, 4)]%Z.
Definition v6_addr (s0 s1 s2 s3 s4 s5 s6 s7 : Z) : Z :=
  (foldl (λ acc s, acc * 2 ^ 16 + s) 0 [s0; s1; s2; s3; s4; s5; s6; s7])%Z.
Definition blocked_v6 : list (Z * Z) :=
  [(0, 128); (1, 128); (v6_addr 0xfe80 0 0 0 0 0 0 0, 10); (v6_addr 0xfc00 0 0 0 0 0 0 0, 7);
   (v6_addr 0xff00 0 0 0 0 0 0 0, 8); (v6_addr 0x2001 0x0db8 0 0 0 0 0 0, 32)]%Z.
Definition MAPPED : Z * Z := (v6_addr 0 0 0 0 0 0xffff 0 0, 96)%Z.

(** The reference: outside every blocked range, where an IPv4-mapped IPv6
    address counts as its IPv4 address. *)
Definition routable_spec (ip : IpAddr) : bool :=
  match ip with
  | V4 a b c d => negb (existsb (in_block 32 (v4_addr a b c d)) blocked_v4)
  | V6 s0 s1 s2 s3 s4 s5 s6 s7 =>
      let addr := v6_addr s0 s1 s2 s3 s4 s5 s6 s7 in
      if in_block 128 addr MAPPED then negb (existsb (in_block 32 (addr mod 2 ^ 32)%Z) blocked_v4)
      else negb (existsb (in_block 128 addr) blocked_v6)
  end.

(** Conditions on one 16-bit segment, checked on all 65536 values. *)
Fixpoint all_from (n : nat) (x : Z) (f : Z → bool) : bool :=
  match n with O => true | S n' => f x && all_from n' (x + 1) f end.
Lemma all_from_spec n f x y : all_from n x f = true → (x ≤ y < x + Z.of_nat n)%Z → f y = true.
Proof.
  revert x. induction n as [|n IH]; intros x; simpl; [lia|]. intros [Hf Hr]%andb_true_iff Hy.
  destruct (decide (y = x)) as [->|]; [done|]. apply (IH _ Hr). lia.
Qed.
Lemma segment_masks x : segment x →
  (Z.land x 0xffc0 =? 0xfe80)%Z = (x / 2 ^ 6 =? 0x3fa)%Z ∧ (Z.land x 0xfe00 =? 0xfc00)%Z = (x / 2 ^ 9 =? 0x7e)%Z ∧
  (Z.land x 0xff00 =? 0xff00)%Z = (x / 2 ^ 8 =? 0xff)%Z ∧ Z.shiftr x 8 = (x / 2 ^ 8)%Z ∧ Z.land x 0xff = (x mod 2 ^ 8)%Z.
Proof.
  unfold segment. intros Hx.
  set (f := λ x, Bool.eqb (Z.land x 0xffc0 =? 0xfe80)%Z (x / 2 ^ 6 =? 0x3fa)%Z
          && Bool.eqb (Z.land x 0xfe00 =? 0xfc00)%Z (x / 2 ^ 9 =? 0x7e)%Z
          && Bool.eqb (Z.land x 0xff00 =? 0xff00)%Z (x / 2 ^ 8 =? 0xff)%Z
          && (Z.shiftr x 8 =? x / 2 ^ 8)%Z && (Z.land x 0xff =? x mod 2 ^ 8)%Z).
  assert (f x = true) as Hall.
  { apply (all_from_spec (Z.to_nat 65536) f 0); [vm_compute; reflexivity|lia]. }
  unfold f in Hall.
  rewrite !andb_true_iff, !Bool.eqb_true_iff, !Z.eqb_eq in Hall. naive_solver.
Qed.

Lemma if_false (c x : bool) : (if c then false else x) = negb c && x.
Proof. by destruct c. Qed.
(** Compare a chain of refusals with a negated disjunction, condition by condition. *)
Ltac conditions :=
  rewrite ?if_false; apply eq_true_iff_eq;
  rewrite ?andb_true_iff, ?negb_true_iff, ?orb_false_iff, ?andb_true_r; tauto.

(** One block at a time, on the octets. *)
Section blocks.
Variables a b c d : Z.
Hypotheses (Ha : octet a) (Hb : octet b) (Hc : octet c) (Hd : octet d).
Lemma block_32 : in_block 32 (v4_addr a b c d) (v4_addr 0 0 0 0, 32)%Z = is_unspecified (V4 a b c d).
Proof.
  unfold in_block, v4_addr, octet in *. cbn [fst snd is_unspecified forallb]. change (2 ^ (32 - 32))%Z with 1%Z.
  rewrite !Z.div_1_r. apply eq_true_iff_eq. rewrite !andb_true_iff, !Z.eqb_eq. lia.
Qed.
Lemma block_24 x y z : octet x → octet y → octet z →
  in_block 32 (v4_addr a b c d) (v4_addr x y z 0, 24)%Z = (a =? x)%Z && (b =? y)%Z && (c =? z)%Z.
Proof.
  unfold in_block, v4_addr, octet in *. intros. apply eq_true_iff_eq. rewrite !andb_true_iff, !Z.eqb_eq. cbn [fst snd].
  change (2 ^ (32 - 24))%Z with 256%Z. Z.div_mod_to_equations. lia.
Qed.
Lemma block_16 x y : octet x → octet y →
  in_block 32 (v4_addr a b c d) (v4_addr x y 0 0, 16)%Z = (a =? x)%Z && (b =? y)%Z.
Proof.
  unfold in_block, v4_addr, octet in *. intros. apply eq_true_iff_eq. rewrite !andb_true_iff, !Z.eqb_eq. cbn [fst snd].
  change (2 ^ (32 - 16))%Z with 65536%Z. Z.div_mod_to_equations. lia.
Qed.
Lemma block_8 x : octet x → in_block 32 (v4_addr a b c d) (v4_addr x 0 0 0, 8)%Z = (a =? x)%Z.
Proof.
  unfold in_block, v4_addr, octet in *. intros. apply eq_true_iff_eq. rewrite !Z.eqb_eq. cbn [fst snd].
  change (2 ^ (32 - 8))%Z with 16777216%Z. Z.div_mod_to_equations. lia.
Qed.
Lemma block_100 : in_block 32 (v4_addr a b c d) (v4_addr 100 64 0 0, 10)%Z = (a =? 100)%Z && between 64 127 b.
Proof.
  unfold in_block, v4_addr, octet, between in *. apply eq_true_iff_eq. rewrite !andb_true_iff, !Z.eqb_eq, !Z.leb_le. cbn [fst snd].
  change (2 ^ (32 - 10))%Z with 4194304%Z. Z.div_mod_to_equations. lia.
Qed.
Lemma block_172 : in_block 32 (v4_addr a b c d) (v4_addr 172 16 0 0, 12)%Z = (a =? 172)%Z && between 16 31 b.
Proof.
  unfold in_block, v4_addr, octet, between in *. apply eq_true_iff_eq. rewrite !andb_true_iff, !Z.eqb_eq, !Z.leb_le. cbn [fst snd].
  change (2 ^ (32 - 12))%Z with 1048576%Z. Z.div_mod_to_equations. lia.
Qed.
Lemma block_198 : in_block 32 (v4_addr a b c d) (v4_addr 198 18 0 0, 15)%Z = (a =? 198)%Z && between 18 19 b.
Proof.
  unfold in_block, v4_addr, octet, between in *. apply eq_true_iff_eq. rewrite !andb_true_iff, !Z.eqb_eq, !Z.leb_le. cbn [fst snd].
  change (2 ^ (32 - 15))%Z with 131072%Z. Z.div_mod_to_equations. lia.
Qed.
Lemma block_224 : in_block 32 (v4_addr a b c d) (v4_addr 224 0 0 0, 4)%Z = is_multicast (V4 a b c d).
Proof.
  unfold in_block, v4_addr, octet in *. simpl is_multicast. apply eq_true_iff_eq. rewrite !andb_true_iff, !Z.eqb_eq, !Z.leb_le. cbn [fst snd].
  change (2 ^ (32 - 4))%Z with 268435456%Z. Z.div_mod_to_equations. lia.
Qed.
Lemma block_240 : in_block 32 (v4_addr a b c d) (v4_addr 240 0 0 0, 4)%Z = (240 <=? a)%Z.
Proof.
  unfold in_block, v4_addr, octet in *. apply eq_true_iff_eq. rewrite !Z.eqb_eq, !Z.leb_le. cbn [fst snd].
  change (2 ^ (32 - 4))%Z with 268435456%Z. Z.div_mod_to_equations. lia.
Qed.
Lemma v4_routable_spec : v4_routable a b c d = negb (existsb (in_block 32 (v4_addr a b c d)) blocked_v4).
Proof.
  unfold blocked_v4. cbn [existsb].
  rewrite block_32, !block_24, !block_16, !block_8, block_100, block_172, block_198, block_224, block_240 by (unfold octet; lia).
  unfold v4_routable. change (is_loopback (V4 a b c d)) with (a =? 127)%Z.
  by conditions.
Qed.
End blocks.

Section blocks6.
Variables s0 s1 s2 s3 s4 s5 s6 s7 : Z.
Hypotheses (H0 : segment s0) (H1 : segment s1) (H2 : segment s2) (H3 : segment s3)
  (H4 : segment s4) (H5 : segment s5) (H6 : segment s6) (H7 : segment s7).
Let addr : Z := v6_addr s0 s1 s2 s3 s4 s5 s6 s7.

Lemma div_split (q r k : Z) : (0 ≤ k → 0 ≤ r < 2 ^ k → (q * 2 ^ k + r) / 2 ^ k = q)%Z.
Proof. intros Hk Hr. rewrite Z.div_add_l by lia. rewrite Z.div_small by lia. lia. Qed.
Lemma addr_112 : (addr / 2 ^ 112 = s0)%Z.
Proof.
  replace addr with (s0 * 2 ^ 112 + v6_addr 0 s1 s2 s3 s4 s5 s6 s7)%Z by (unfold addr, v6_addr; cbn [foldl]; lia).
  apply div_split; [lia|]. unfold v6_addr, segment in *. cbn [foldl]. lia.
Qed.
Lemma addr_96 : (addr / 2 ^ 96 = s0 * 2 ^ 16 + s1)%Z.
Proof.
  replace addr with ((s0 * 2 ^ 16 + s1) * 2 ^ 96 + v6_addr 0 0 s2 s3 s4 s5 s6 s7)%Z by (unfold addr, v6_addr; cbn [foldl]; lia).
  apply div_split; [lia|]. unfold v6_addr, segment in *. cbn [foldl]. lia.
Qed.
Lemma addr_32 : (addr / 2 ^ 32 = v6_addr 0 0 s0 s1 s2 s3 s4 s5)%Z.
Proof.
  replace addr with (v6_addr 0 0 s0 s1 s2 s3 s4 s5 * 2 ^ 32 + v6_addr 0 0 0 0 0 0 s6 s7)%Z
    by (unfold addr, v6_addr; cbn [foldl]; lia).
  apply div_split; [lia|]. unfold v6_addr, segment in *. cbn [foldl]. lia.
Qed.
Lemma addr_mod : (addr mod 2 ^ 32 = s6 * 2 ^ 16 + s7)%Z.
Proof.
  rewrite Z.mod_eq, addr_32 by lia. unfold addr, v6_addr. cbn [foldl]. lia.
Qed.
Lemma block6_top (x k : Z) : (0 ≤ k ≤ 16)%Z →
  in_block 128 addr (v6_addr x 0 0 0 0 0 0 0, 16 - k)%Z = (s0 / 2 ^ k =? x / 2 ^ k)%Z.
Proof.
  intros Hk. unfold in_block. cbn [fst snd]. replace (128 - (16 - k))%Z with (112 + k)%Z by lia.
  rewrite Z.pow_add_r, <- !Z.div_div by lia. rewrite addr_112.
  replace (v6_addr x 0 0 0 0 0 0 0) with (x * 2 ^ 112 + 0)%Z by (unfold v6_addr; cbn [foldl]; lia).
  by rewrite div_split by lia.
Qed.
Lemma block6_doc : in_block 128 addr (v6_addr 0x2001 0x0db8 0 0 0 0 0 0, 32)%Z = (s0 =? 0x2001)%Z && (s1 =? 0x0db8)%Z.
Proof.
  unfold in_block. cbn [fst snd]. change (128 - 32)%Z with 96%Z. rewrite addr_96.
  replace (v6_addr 0x2001 0x0db8 0 0 0 0 0 0) with ((0x2001 * 2 ^ 16 + 0x0db8) * 2 ^ 96 + 0)%Z by reflexivity.
  rewrite div_split by lia. apply eq_true_iff_eq. rewrite andb_true_iff, !Z.eqb_eq. unfold segment in *. lia.
Qed.
Lemma block6_low (x : Z) : (0 ≤ x < 2 ^ 16)%Z →
  in_block 128 addr (x, 128)%Z = forallb (λ s, s =? 0)%Z [s0; s1; s2; s3; s4; s5; s6] && (s7 =? x)%Z.
Proof.
  intros Hx. unfold in_block. cbn [fst snd]. change (2 ^ (128 - 128))%Z with 1%Z. rewrite !Z.div_1_r.
  apply eq_true_iff_eq. cbn [forallb]. rewrite !andb_true_iff, !Z.eqb_eq. unfold addr, v6_addr, segment in *.
  cbn [foldl]. lia.
Qed.
Lemma block6_mapped : in_block 128 addr MAPPED = forallb (λ s, s =? 0)%Z [s0; s1; s2; s3; s4] && (s5 =? 0xffff)%Z.
Proof.
  unfold in_block, MAPPED. cbn [fst snd]. change (128 - 96)%Z with 32%Z. rewrite addr_32.
  change (v6_addr 0 0 0 0 0 0xffff 0 0 / 2 ^ 32)%Z with 0xffff%Z. apply eq_true_iff_eq. cbn [forallb].
  rewrite !andb_true_iff, !Z.eqb_eq. unfold v6_addr, segment in *. cbn [foldl]. lia.
Qed.
End blocks6.

(** C34: The address filter, exactly.  For every IPv4 and IPv6 address,
    [is_public_routable] agrees with membership in a list of CIDR blocks: it
    refuses 0.0.0.0/32, 10/8, 100.64/10, 127/8, 169.254/16 (the metadata
    service), 172.16/12, 192.0.0/24, 192.0.2/24, 192.168/16, 198.18/15,
    198.51.100/24, 203.0.113/24, 224/4, 240/4, and ::/128, ::1/128, fe80::/10,
    fc00::/7, ff00::/8, 2001:db8::/32, with ::ffff:0:0/96 judged as IPv4; and it
    accepts every other address. *)
Theorem public_routable_exact (ip : IpAddr) : ip_wf ip → is_public_routable ip = routable_spec ip.
Proof.
  destruct ip as [a b c d|s0 s1 s2 s3 s4 s5 s6 s7]; simpl ip_wf.
  - intros (Ha & Hb & Hc & Hd). unfold is_public_routable, routable_spec. rewrite <- v4_routable_spec by done.
    unfold v4_routable. by destruct (is_loopback _ || is_unspecified _ || is_multicast _).
  - intros (H0 & H1 & H2 & H3 & H4 & H5 & H6 & H7). unfold is_public_routable, routable_spec, to_ipv4_mapped.
    rewrite block6_mapped, addr_mod by done.
    destruct (segment_masks s0 H0) as (M1 & M2 & M3 & _). rewrite M1, M2.
    destruct (forallb _ [s0; s1; s2; s3; s4] && (s5 =? 0xffff)%Z) eqn:Hm.
    + cbn [forallb] in Hm. rewrite !andb_true_iff, !Z.eqb_eq in Hm.
      destruct Hm as ((-> & -> & -> & -> & -> & _) & ->).
      assert (is_loopback (V6 0 0 0 0 0 0xffff s6 s7) || is_unspecified (V6 0 0 0 0 0 0xffff s6 s7)
              || is_multicast (V6 0 0 0 0 0 0xffff s6 s7) = false) as -> by reflexivity.
      destruct (segment_masks s6 H6) as (_ & _ & _ & -> & ->), (segment_masks s7 H7) as (_ & _ & _ & -> & ->).
      rewrite v4_routable_spec by (unfold octet, segment in *; Z.div_mod_to_equations; lia).
      do 2 f_equal. unfold v4_addr. unfold segment in *. f_equal. Z.div_mod_to_equations. lia.
    + unfold blocked_v6. cbn [existsb].
      rewrite !block6_low, block6_doc by (done || lia).
      rewrite block6_top with (x := 0xfe80%Z) (k := 6%Z) by (done || lia).
      rewrite block6_top with (x := 0xfc00%Z) (k := 9%Z) by (done || lia).
      rewrite block6_top with (x := 0xff00%Z) (k := 8%Z) by (done || lia).
      change (0xfe80 / 2 ^ 6)%Z with 0x3fa%Z. change (0xfc00 / 2 ^ 9)%Z with 0x7e%Z. change (0xff00 / 2 ^ 8)%Z with 0xff%Z.
      assert (is_unspecified (V6 s0 s1 s2 s3 s4 s5 s6 s7)
              = forallb (λ s, s =? 0)%Z [s0; s1; s2; s3; s4; s5; s6] && (s7 =? 0)%Z) as ->.
      { cbn [is_unspecified forallb]. by rewrite !andb_true_r, !andb_assoc. }
      cbn [is_loopback is_multicast]. rewrite M3. conditions.
Qed.

(** NAT64 (64:ff9b::/96) embeds IPv4 addresses too, and is not unwrapped: the
    embedded metadata address passes the filter. *)
Lemma nat64_metadata_passes : is_public_routable (V6 0x64 0xff9b 0 0 0 0 0xa9fe 0xa9fe) = true.
Proof. reflexivity. Qed.

(** ** Patterns *)
(** Allow-list semantics.  A host is allowed by a list of pattern strings
    exactly when, lower-cased, it equals some lower-cased pattern that does not
    start with ["*."], or, for a pattern ["*.base"], it equals [base] or ends in
    [".base"].  So an empty list allows nothing, and a host that merely ends in
    the letters of [base] without a dot before them is refused. *)
Theorem is_allowed_exact `{Lowercase} (host : string) (patterns : list string) :
  is_allowed host (pattern_parse <$> patterns) = true ↔
  ∃ p, p ∈ patterns ∧
    ((strip_prefix "*." (to_lowercase p) = None ∧ to_lowercase host = to_lowercase p) ∨
     ∃ base, to_lowercase p = "*." +:+ base ∧
       (to_lowercase host = base ∨ ∃ sub, to_lowercase host = sub +:+ "." +:+ base)).
Proof.
  unfold is_allowed. rewrite existsb_exists. setoid_rewrite <- list_elem_of_In. setoid_rewrite list_elem_of_fmap.
  assert (∀ p, pattern_matches (pattern_parse p) host = true ↔
    (strip_prefix "*." (to_lowercase p) = None ∧ to_lowercase host = to_lowercase p) ∨
     ∃ base, to_lowercase p = "*." +:+ base ∧
       (to_lowercase host = base ∨ ∃ sub, to_lowercase host = sub +:+ "." +:+ base)) as Hp.
  { intros p. unfold pattern_parse, pattern_matches. destruct (strip_prefix "*." (to_lowercase p)) as [base|] eqn:E.
    - apply strip_prefix_Some in E. rewrite orb_true_iff, ends_with_true, String.eqb_eq. rewrite E. split.
      + intros [[sub Hs]|Hs]; right; exists base; (split; [done|]); eauto.
      + intros [[? _]|(base' & Hb%(inj _) & Hh)]; [done|]. subst. naive_solver.
    - rewrite String.eqb_eq. split; [auto|]. intros [[_ ?]|(base & Hb & _)]; [done|].
      rewrite <- strip_prefix_Some in Hb. congruence. }
  setoid_rewrite <- Hp. split.
  - intros (x & (p & -> & Hin) & Hm). eauto.
  - intros (p & Hin & Hm). eauto.
Qed.

(** ** Host and port *)
Lemma str_contains_char c s : str_contains (String c EmptyString) s = true ↔ str_elem c s.
Proof.
  induction s as [|a s IH]; simpl; [done|]. rewrite orb_true_iff, IH.
  destruct (Ascii.eqb_spec c a) as [->|Hne]; naive_solver.
Qed.
Lemma parse_int_range lo hi s z : parse_int lo hi s = Some z → (lo ≤ z ≤ hi)%Z.
Proof.
  unfold parse_int. intros (x & _ & Hx)%bind_Some. destruct ((lo <=? x)%Z && (x <=? hi)%Z) eqn:E; [|done].
  injection Hx as <-. rewrite andb_true_iff, !Z.leb_le in E. lia.
Qed.

(** No host/port confusion.  When [parse_host_port] accepts an authority,
    the port fits 16 bits, and the text is one of: [\[v6\]] or [\[v6\]:port] with
    nothing else after the bracket, a colon-free host alone (port 443), or a
    colon-free host, one colon and the port.  An unbracketed IPv6 literal is
    never accepted. *)
Theorem parse_host_port_sound (s host : string) (port : Z) :
  parse_host_port s = Ok (host, port) →
  (0 ≤ port < 2 ^ 16)%Z ∧
  ((s = "[" +:+ host +:+ "]" ∧ port = 443%Z) ∨
   (∃ p, s = "[" +:+ host +:+ "]:" +:+ p ∧ parse_u16 p = Some port) ∨
   (s = host ∧ port = 443%Z ∧ ¬ str_elem ":" host) ∨
   (∃ p, s = host +:+ ":" +:+ p ∧ parse_u16 p = Some port ∧ ¬ str_elem ":" host)).
Proof.
  unfold parse_host_port. destruct (strip_prefix "[" s) as [rest|] eqn:Hb.
  - apply strip_prefix_Some in Hb as ->. destruct (split_once "]" rest) as [[v6 tail]|] eqn:Hs; simpl; [|done].
    apply split_once_Some in Hs as [-> _]. destruct (strip_prefix ":" tail) as [p|] eqn:Hc.
    + apply strip_prefix_Some in Hc as ->. destruct (parse_u16 p) as [z|] eqn:Hp; simpl; [|done].
      intros [= <- <-]. pose proof (parse_int_range _ _ _ _ Hp). split; [lia|]. right. left. by exists p.
    + destruct (str_is_empty tail) eqn:He; [|done]. intros [= <- <-]. destruct tail; [|done].
      split; [lia|]. left. done.
  - destruct (rsplit_once ":" s) as [[h p]|] eqn:Hr.
    + destruct (str_contains ":" h) eqn:Hc; [done|]. destruct (parse_u16 p) as [z|] eqn:Hp; simpl; [|done].
      intros [= <- <-]. pose proof (parse_int_range _ _ _ _ Hp). split; [lia|].
      apply rsplit_once_Some in Hr as [-> _]. right. right. right. exists p. split; [done|]. split; [done|].
      rewrite <- str_contains_char, Hc. done.
    + intros [= <- <-]. apply rsplit_once_None in Hr. split; [lia|]. right. right. left. done.
Qed.

(** ** What a connection can reach *)
Lemma connect_first_tried connect addrs le tried r sa :
  connect_first connect addrs le = (tried, r) → sa ∈ tried → sa ∈ addrs.
Proof.
  revert le tried r. induction addrs as [|x addrs IH]; intros le tried r; simpl.
  - intros [= <- _]. by intros ?%elem_of_nil.
  - destruct (connect x) as [e|]; [|intros [= <- _]; set_solver].
    destruct (connect_first connect addrs (Some e)) as [tried' r'] eqn:E. intros [= <- <-]. set_solver.
Qed.
Lemma connect_first_ok connect addrs le tried sa :
  connect_first connect addrs le = (tried, inl sa) → sa ∈ tried ∧ connect sa = None.
Proof.
  revert le tried. induction addrs as [|x addrs IH]; intros le tried; simpl; [done|].
  destruct (connect x) as [e|] eqn:Hx; [|intros [= <- <-]; set_solver].
  destruct (connect_first connect addrs (Some e)) as [tried' r'] eqn:E. intros [= <- ->].
  destruct (IH _ _ E). set_solver.
Qed.

(** Nothing was tried and no tunnel was announced. *)
Definition quiet (r : Phase1) : Prop :=
  p1_attempts r = [] ∧ p1_tunnel r = None ∧ p1_writes r ≠ [ESTABLISHED].
Lemma quiet_io_error : quiet io_error.
Proof. done. Qed.
Lemma quiet_answers : quiet (answer BAD_REQUEST) ∧ quiet (answer FORBIDDEN).
Proof. repeat split; intros Heq; vm_compute in Heq; discriminate. Qed.
Lemma gateway_not_established e : [BAD_GATEWAY +:+ e] ≠ [ESTABLISHED] ∧ [BAD_GATEWAY] ≠ [ESTABLISHED].
Proof. split; intros Heq; vm_compute in Heq; discriminate. Qed.

Lemma handle_connection_cases `{Lowercase} lookup_host connect allowlist input :
  let r := handle_connection lookup_host connect allowlist input in
  quiet r ∨
  ∃ line rest target more host port addrs tried res,
    read_line_bounded input MAX_LINE_BYTES = Some (line, rest) ∧
    split_whitespace line = "CONNECT" :: target :: more ∧
    parse_host_port target = Ok (host, port) ∧ is_allowed host allowlist = true ∧
    lookup_host (host +:+ ":" +:+ pretty port) = Some addrs ∧
    connect_first connect (filter (λ sa, is_public_routable sa.1 = true) addrs) None = (tried, res) ∧
    p1_attempts r = tried ∧
    match res with
    | inl sa => p1_tunnel r = Some sa ∧ p1_writes r = [ESTABLISHED]
    | inr _ => p1_tunnel r = None ∧ p1_writes r ≠ [ESTABLISHED]
    end.
Proof.
  destruct quiet_answers as [Qb Qf]. cbv zeta. unfold handle_connection.
  destruct (read_line_bounded input MAX_LINE_BYTES) as [[line rest]|] eqn:Hline; [|left; apply quiet_io_error].
  destruct (split_whitespace line) as [|method [|target [|x more]]] eqn:Hsp; [by left..|].
  destruct (String.eqb_spec method "CONNECT") as [->|]; [|by left]. simpl negb. cbv iota.
  destruct (parse_host_port target) as [[host port]|e|] eqn:Hhp; [|left; apply quiet_io_error..].
  destruct (is_allowed host allowlist) eqn:Hal; simpl negb; cbv iota; [|by left].
  destruct (lookup_host _) as [addrs|] eqn:Hlk; simpl default; [|by left].
  destruct (filter _ addrs) as [|a0 al] eqn:Hf; [by left|].
  destruct (consume_headers MAX_HEADER_LINES rest); [|left; apply quiet_io_error].
  destruct (connect_first connect (a0 :: al) None) as [tried res] eqn:Hc. right.
  exists line, rest, target, (x :: more), host, port, addrs, tried, res. rewrite Hf.
  do 6 (split; [done|]). destruct res as [sa|[e|]]; simpl; [done|..]; (split; [done|]); (split; [done|]);
    by apply (gateway_not_established "") || apply gateway_not_established.
Qed.

(** C4: Egress is confined.  Whatever bytes the jailed client sends and
    whatever the resolver answers: every address the proxy tries to connect to
    is a publicly routable address from the single resolution of a host the
    allow-list allows, named by a [CONNECT] request line; a tunnel exists only to
    an address that was tried and accepted, exactly when ["200"] was written. *)
Theorem egress_confined `{Lowercase} (lookup_host : string → option (list SocketAddr))
    (connect : SocketAddr → option string) (allowlist : list DomainPattern) (input : string) :
  let r := handle_connection lookup_host connect allowlist input in
  (∀ sa, sa ∈ p1_attempts r →
     is_public_routable sa.1 = true ∧
     ∃ line rest target more host port addrs,
       read_line_bounded input MAX_LINE_BYTES = Some (line, rest) ∧
       split_whitespace line = "CONNECT" :: target :: more ∧
       parse_host_port target = Ok (host, port) ∧ is_allowed host allowlist = true ∧
       lookup_host (host +:+ ":" +:+ pretty port) = Some addrs ∧ sa ∈ addrs) ∧
  (∀ sa, p1_tunnel r = Some sa → sa ∈ p1_attempts r ∧ connect sa = None) ∧
  (is_Some (p1_tunnel r) ↔ p1_writes r = [ESTABLISHED]).
Proof.
  cbv zeta. destruct (handle_connection_cases lookup_host connect allowlist input)
    as [(Ha & Ht & Hw)|(line & rest & target & more & host & port & addrs & tried & res & Hl & Hs & Hp & Hal & Hlk & Hc & Ha & Hr)].
  - rewrite Ha, Ht. split; [by intros sa ?%elem_of_nil|]. split; [done|]. split; [by intros []|done].
  - rewrite Ha. split; [|split].
    + intros sa Hsa. pose proof (connect_first_tried _ _ _ _ _ _ Hc Hsa) as [Hpub Hin]%list_elem_of_filter.
      split; [done|]. exists line, rest, target, more, host, port, addrs. done.
    + intros sa Ht. destruct res as [sa'|e]; destruct Hr as [Hr _]; rewrite Hr in Ht; [|done].
      injection Ht as <-. by eapply connect_first_ok.
    + destruct res as [sa'|e]; destruct Hr as [-> Hw]; [split; [done|eauto]|]. split; [by intros []|done].
Qed.

(** ** Witnesses *)
Lemma public_routable_exact_witness : is_public_routable (V4 169 254 169 254) = routable_spec (V4 169 254 169 254).
Proof. apply (public_routable_exact (V4 169 254 169 254)). unfold ip_wf, octet. lia. Defined.

Lemma parse_host_port_sound_witness : ¬ str_elem ":" "api.example.com".
Proof.
  destruct (parse_host_port_sound "api.example.com:8443" "api.example.com" 8443) as [_ [[Hf _]|[(p & Hf & _)|[(_ & Hf & _)|(p & _ & _ & Hh)]]]].
  - reflexivity.
  - discriminate Hf.
  - discriminate Hf.
  - discriminate Hf.
  - exact Hh.
Defined.

(** A request that goes through: the resolver's private answer is skipped. *)
Example demo_connect :
  handle_connection (λ _, Some [(V4 169 254 169 254, 443%Z); (V4 93 184 216 34, 443%Z)]) (λ _, None)
    [pattern_parse "*.Example.com"] ("CONNECT API.example.com:443 HTTP/1.1" +:+ CRLF +:+ "Host: x" +:+ CRLF +:+ CRLF)
  = MkP1 [ESTABLISHED] [(V4 93 184 216 34, 443%Z)] (Some (V4 93 184 216 34, 443%Z)) false.
Proof. vm_compute. reflexivity. Qed.
