(* ===== verification/Sys.v ===== *)
(** * Talking to the kernel

    The jail engine ([crates/agentjail]) is straight-line code around system
    calls whose answers it cannot predict.  A program is therefore a tree: a call
    and, for every answer, the rest of the program.  [run] executes it against a
    kernel (any function from the history and the call to an answer), recording
    the calls and answers; [wp] speaks about every kernel at once.

    A function of [std::fs] or of the [rustix], [landlock] and [seccompiler]
    crates that the engine calls is one call of the kind [io::Result]: a negative
    value is an error. *)

From S2P Require Import Prelude.

(** A byte, as an integer. *)
Abbreviation bytes := (list Z).

Inductive syscall :=
(* files, by [std::fs], [Path] and [std::env] *)
| Exists (path : string) | IsDir (path : string)
| CreateDirAll (path : string) | CreateDir (path : string) | DirBuilder (mode : Z) (path : string)
| CreateFile (path : string) | RemoveDir (path : string) | ReadDir (path : string)
| IsFile (path : string) | Canonicalize (path : string) | CommandOutput (cmd : string) (args : list string)
| CommandEnv (cmd : string) (args : list string) (env : list (string * string)) (timeout_secs : Z)
| WriteFile (path text : string) | ReadFile (path : string) | MetaDev (path : string)
| Chdir (path : string) | TempDir | Getrandom (n : Z)
| FileType (path : string) | Metadata (path : string) | LMetadata (path : string) | OpenFile (path : string)
| SetPermissions (path : string) (mode : Z)
| CopyFile (src dst : string) | HardLink (src dst : string) | Rename (src dst : string) | FiClone (src dst : string)
| RemoveFile (path : string) | RemoveDirAll (path : string)
| ReadChunk (path : string) (offset : Z) | AppendFile (path text : string)
(* mounts *)
| MountFs (src dst fstype : string) (flags : Z) (data : string)
| Remount (dst : string) (flags : Z) | MountChange (path : string) (flags : Z)
| PivotRoot (new_root put_old : string) | Umount2 (path : string) (flags : Z)
(* descriptors and sockets *)
| Socket (domain type proto : Z) | Bind (fd : Z) | SocketPair | PipeCall (flags : Z)
| Send (fd : Z) (msg : bytes) | Recv (fd n : Z) | ReadFd (fd n : Z) | WriteFd (fd : Z) (msg : bytes)
| Ioctl (fd req : Z) (ifr_name : bytes) (ifr_flags : Z)
| Close (fd : Z) | Dup2 (old new : Z) | CloseRange (first last flags : Z)
(* processes *)
| Fork | Setsid | Exit (code : Z) | Kill (pid sig : Z) | Waitpid (pid flags : Z)
| Prctl (op a : Z) | Setrlimit (res max : Z) | Unshare (flags : Z)
| Capset (version pid : Z) (data : list Z) | Getuid | Getgid | Getpid
| Execve (cmd : string) (args env : list string)
(* crates *)
| LandlockCreate (abi : Z) | LandlockOpen (path : string) | LandlockAddRule (fd : Z) (access : list Z)
| LandlockRestrict | LandlockProbe
| SeccompLoad (level : Z)
| SpawnProxy (domains : list string) (bind_ip : list Z) | ProxyStop | RegisterPipe (fd : Z)
(* time and the log *)
| Elapsed | SleepUs (us : Z) | Eprintln (msg : string)
(* process-wide statics and the async runtime *)
| OnceBaseGet | OnceBaseSet (r : option string) | FetchVethId | FetchUniq
| AwaitExit (pid remaining : Z) | DrainPipe (fd : Z) | EventSend (kind : string)
| Select (stdout_open stderr_open : bool)
(* the control plane's own *)
| MkTempDir | NowUtc | GetEnv (name : string).
#[export] Instance syscall_eq_dec : EqDecision syscall.
Proof. solve_decision. Defined.

(** What a call answers: its value, [errno] after it, and the bytes, the text or
    the directory entries it fills in ([None]: reading that entry failed). *)
Record ret := MkRet { rv : Z; rerr : Z; rbytes : bytes; rtext : string; rlist : list (option string) }.
Definition rint (v : Z) : ret := MkRet v 0 [] "" [].
Definition rfail (errno : Z) : ret := MkRet (-1) errno [] "" [].
Definition ok (r : ret) : bool := (0 <=? rv r)%Z.

(** ** Programs *)
Inductive prog (A : Type) :=
| Ret (a : A)
| Halt (** the process has left this program: [_exit], a successful [execve] *)
| Call (c : syscall) (k : ret → prog A).
Arguments Ret {A} a.
Arguments Halt {A}.
Arguments Call {A} c k.

Fixpoint pbind {A B} (p : prog A) (f : A → prog B) : prog B :=
  match p with
  | Ret a => f a
  | Halt => Halt
  | Call c k => Call c (λ r, pbind (k r) f)
  end.
(** A bare call. *)
Definition sys (c : syscall) : prog ret := Call c Ret.
(** [libc::_exit(code)] *)
Definition exit {A} (code : Z) : prog A := Call (Exit code) (λ _, Halt).

Declare Scope prog_scope.
Delimit Scope prog_scope with prog.
Notation "'let*' x ':=' m 'in' k" := (pbind m (λ x, k))
  (at level 10, x binder, m at level 100, k at level 200) : prog_scope.
Notation "m ';;*' k" := (pbind m (λ _, k)) (at level 100, right associativity) : prog_scope.
#[global] Open Scope prog_scope.

(** Fallible programs: [?] is [let! x := m in k]. *)
Definition jbind {E A B} (m : prog (outcome E A)) (f : A → prog (outcome E B)) : prog (outcome E B) :=
  pbind m (λ o, match o with Ok a => f a | Err e => Ret (Err e) | Panic => Ret Panic end).
Notation "'let!' x ':=' m 'in' k" := (jbind m (λ x, k))
  (at level 10, x binder, m at level 100, k at level 200) : prog_scope.
Notation "m ';;!' k" := (jbind m (λ _, k)) (at level 100, right associativity) : prog_scope.
Definition pok {E A} (a : A) : prog (outcome E A) := Ret (Ok a).
Definition perr {E A} (e : E) : prog (outcome E A) := Ret (Err e).

(** A loop over a slice with a fallible body. *)
Fixpoint for_each {E A} (body : A → prog (outcome E unit)) (l : list A) : prog (outcome E unit) :=
  match l with [] => pok tt | x :: l' => body x ;;! for_each body l' end.
(** A loop whose body cannot fail. *)
Fixpoint for_all_do {A} (body : A → prog unit) (l : list A) : prog unit :=
  match l with [] => Ret tt | x :: l' => body x ;;* for_all_do body l' end.
(** A value dropped at the end of a scope, whatever the scope's result. *)
Definition finally {A} (p : prog A) (c : syscall) : prog A :=
  let* a := p in sys c ;;* Ret a.

(** ** Errors of the engine ([error.rs]) *)
Inductive IoError := Os (errno : Z) | OtherErr (msg : string) | TimedOutErr (msg : string) | NotFoundErr (msg : string).
Inductive JailError :=
| Namespace (errno : Z) | UidMap (e : IoError) | MountErr (errno : Z) | Io (e : IoError)
| SeccompErr (msg : string) | CgroupErr (e : IoError) | SnapshotErr (e : IoError) | GpuErr (e : IoError)
| LandlockErr (errno : Z) | NetworkErr (e : IoError) | ExecErr (e : IoError) | ForkErr (errno : Z)
| PipeErr (errno : Z) | PathNotFound (path : string) | BadConfig (msg : string).
#[export] Instance IoError_eq_dec : EqDecision IoError.
Proof. solve_decision. Defined.
#[export] Instance JailError_eq_dec : EqDecision JailError.
Proof. solve_decision. Defined.

(** A call with an [io::Result], its error wrapped by [map_err]. *)
Definition try_io (wrap : IoError → JailError) (c : syscall) : prog (outcome JailError ret) :=
  Call c (λ r, Ret (if ok r then Ok r else Err (wrap (Os (rerr r))))).
(** The same for [rustix], whose errors are bare [Errno]s. *)
Definition try_errno (wrap : Z → JailError) (c : syscall) : prog (outcome JailError ret) :=
  Call c (λ r, Ret (if ok r then Ok r else Err (wrap (rerr r)))).

(** ** Execution *)
Abbreviation event := (syscall * ret)%type.
Abbreviation trace := (list event).
Definition kernel : Type := trace → syscall → ret.

Fixpoint run {A} (K : kernel) (tr : trace) (p : prog A) : trace * option A :=
  match p with
  | Ret a => (tr, Some a)
  | Halt => (tr, None)
  | Call c k => let r := K tr c in run K (tr ++ [(c, r)]) (k r)
  end.

Lemma run_bind {A B} K tr (p : prog A) (f : A → prog B) :
  run K tr (pbind p f) =
  match run K tr p with (tr', Some a) => run K tr' (f a) | (tr', None) => (tr', None) end.
Proof. revert tr. induction p as [a| |c k IH]; intros tr; simpl; auto. Qed.

(** Execution only appends. *)
Lemma run_app {A} K tr (p : prog A) : ∃ tr', (run K tr p).1 = tr ++ tr'.
Proof.
  revert tr. induction p as [a| |c k IH]; intros tr; simpl; [by exists []; rewrite app_nil_r..|].
  destruct (IH (K tr c) (tr ++ [(c, K tr c)])) as [tr' ->]. rewrite <- app_assoc. eauto.
Qed.

(** ** What holds after a program, whatever the kernel answers *)
Fixpoint wp {A} (p : prog A) (Q : option A → trace → Prop) (tr : trace) : Prop :=
  match p with
  | Ret a => Q (Some a) tr
  | Halt => Q None tr
  | Call c k => ∀ r, wp (k r) Q (tr ++ [(c, r)])
  end.

Lemma wp_run {A} (p : prog A) Q tr K : wp p Q tr → Q (run K tr p).2 (run K tr p).1.
Proof. revert tr. induction p as [a| |c k IH]; intros tr H; simpl in *; [done..|]. by apply IH. Qed.
(** [wp] is exact: it asks no more than what every kernel gives. *)
Lemma wp_complete {A} (p : prog A) Q tr :
  (∀ K, Q (run K tr p).2 (run K tr p).1) → wp p Q tr.
Proof.
  revert tr. induction p as [a| |c k IH]; intros tr H; simpl in *; [exact (H (λ _ _, rint 0))..|].
  intros r. apply IH. intros K. specialize (H (λ t c', if decide (length t = length tr) then r else K t c')).
  simpl in H. rewrite decide_True in H by done.
  assert (∀ B (q : prog B) t, length tr < length t →
    run (λ t c', if decide (length t = length tr) then r else K t c') t q = run K t q) as Hsame.
  { clear. intros B q. induction q as [b| |c' k' IH']; intros t Hn; simpl; [done..|].
    rewrite decide_False by lia. apply IH'. rewrite length_app. simpl. lia. }
  rewrite Hsame in H; [done|]. rewrite length_app. simpl. lia.
Qed.
Lemma wp_bind {A B} (p : prog A) (f : A → prog B) Q tr :
  wp (pbind p f) Q tr ↔ wp p (λ o tr', match o with Some a => wp (f a) Q tr' | None => Q None tr' end) tr.
Proof.
  revert tr. induction p as [a| |c k IH]; intros tr; simpl; [done..|].
  split; intros H r; apply IH, H.
Qed.
Lemma wp_mono {A} (p : prog A) (Q Q' : option A → trace → Prop) tr :
  (∀ o t, Q o t → Q' o t) → wp p Q tr → wp p Q' tr.
Proof. intros HQ. revert tr. induction p as [a| |c k IH]; intros tr; simpl; eauto. Qed.
Lemma wp_and {A} (p : prog A) (Q Q' : option A → trace → Prop) tr :
  wp p Q tr → wp p Q' tr → wp p (λ o t, Q o t ∧ Q' o t) tr.
Proof. revert tr. induction p as [a| |c k IH]; intros tr; simpl; auto. Qed.

Lemma wp_prefix {A} (p : prog A) tr : wp p (λ _ t, tr `prefix_of` t) tr.
Proof. apply wp_complete. intros K. destruct (run_app K tr p) as [t' ->]. by apply prefix_app_r. Qed.

(** A post-condition of a fallible program: what holds on success, and what
    holds however it ends. *)
Definition upon {E A} (Good : A → trace → Prop) (Always : trace → Prop)
    (o : option (outcome E A)) (t : trace) : Prop :=
  Always t ∧ match o with Some (Ok a) => Good a t | _ => True end.

Lemma wp_jbind {E A B} (m : prog (outcome E A)) (f : A → prog (outcome E B)) G G' I tr :
  wp m (upon G' I) tr → (∀ a t, G' a t → wp (f a) (upon G I) t) →
  wp (jbind m f) (upon G I) tr.
Proof.
  intros Hm Hf. unfold jbind. rewrite wp_bind. eapply wp_mono; [|exact Hm].
  intros [[a|e|]|] t [Hi Ha]; simpl; [by apply Hf|done..].
Qed.
Lemma wp_try_io wrap c (G : ret → trace → Prop) (I : trace → Prop) tr :
  (∀ r, I (tr ++ [(c, r)])) → (∀ r, ok r = true → G r (tr ++ [(c, r)])) →
  wp (try_io wrap c) (upon G I) tr.
Proof. intros Hi Hg r. simpl. destruct (ok r) eqn:E; split; auto. Qed.
Lemma wp_try_errno wrap c (G : ret → trace → Prop) (I : trace → Prop) tr :
  (∀ r, I (tr ++ [(c, r)])) → (∀ r, ok r = true → G r (tr ++ [(c, r)])) →
  wp (try_errno wrap c) (upon G I) tr.
Proof. intros Hi Hg r. simpl. destruct (ok r) eqn:E; split; auto. Qed.
Lemma wp_for_each {E A} (body : A → prog (outcome E unit)) (G I : trace → Prop) l tr :
  (∀ x t, x ∈ l → G t → wp (body x) (upon (λ _, G) I) t) → G tr → (∀ t, G t → I t) →
  wp (for_each body l) (upon (λ _, G) I) tr.
Proof.
  intros Hb Hg Hi. revert tr Hg. induction l as [|x l IH]; intros tr Hg; simpl; [split; auto|].
  eapply wp_jbind; [apply Hb; [set_solver|done]|]. intros a t Ht. apply IH; [|done].
  intros y t' Hy. apply Hb. set_solver.
Qed.
