(* ===== verification/Netlink.v ===== *)
(** * Netlink messages and the veth pair

    Models [agentjail/src/netlink.rs] and the addressing part of [veth.rs].
    Numbers are laid out in the byte order of the machine ([Target]), structures
    in the field order of [repr(C)] (they have no padding).  The attribute format
    of rtnetlink(7), which the kernel reads, is [parse_attrs]. *)

From S2P Require Import Prelude Text Sys.
Local Open Scope Z_scope.

(** ** Machine integers *)
Definition u8 (z : Z) : Z := z mod 2 ^ 8.
Definition u16 (z : Z) : Z := z mod 2 ^ 16.
Definition u32 (z : Z) : Z := z mod 2 ^ 32.
Definition i32 (z : Z) : Z := (z + 2 ^ 31) mod 2 ^ 32 - 2 ^ 31.

(** The byte order of the machine. *)
Class Target := big_endian : bool.
#[export] Instance x86_64 : Target := false.

Fixpoint to_le (n : nat) (z : Z) : bytes :=
  match n with O => [] | S n' => z mod 256 :: to_le n' (z / 256) end.
Fixpoint from_le (bs : bytes) : Z :=
  match bs with [] => 0 | b :: bs' => b + 256 * from_le bs' end.
(** [x.to_ne_bytes()], [T::from_ne_bytes(bs)] *)
Definition to_ne `{Target} (n : nat) (z : Z) : bytes := if big_endian then reverse (to_le n z) else to_le n z.
Definition from_ne `{Target} (bs : bytes) : Z := from_le (if big_endian then reverse bs else bs).

Definition is_byte (b : Z) : Prop := 0 <= b < 256.

Lemma to_le_length n z : length (to_le n z) = n.
Proof. revert z. induction n as [|n IH]; intros z; simpl; auto. Qed.
Lemma from_to_le n z : from_le (to_le n z) = z mod 256 ^ Z.of_nat n.
Proof.
  revert z. induction n as [|n IH]; intros z; [by rewrite Z.mod_1_r|]. cbn [to_le from_le].
  rewrite IH, Nat2Z.inj_succ, Z.pow_succ_r by lia. rewrite Z.rem_mul_r by lia. done.
Qed.
Lemma to_le_bytes n z : Forall is_byte (to_le n z).
Proof.
  revert z. induction n as [|n IH]; intros z; constructor; [|apply IH].
  apply Z.mod_pos_bound. lia.
Qed.
Section ne.
Context `{Target}.
Lemma to_ne_length n z : length (to_ne n z) = n.
Proof. unfold to_ne. destruct big_endian; by rewrite ?length_reverse, to_le_length. Qed.
Lemma from_to_ne n z : from_ne (to_ne n z) = z mod 256 ^ Z.of_nat n.
Proof. unfold from_ne, to_ne. destruct big_endian; by rewrite ?reverse_involutive, from_to_le. Qed.
Lemma to_ne_bytes n z : Forall is_byte (to_ne n z).
Proof. unfold to_ne. destruct big_endian; [apply Forall_reverse|]; apply to_le_bytes. Qed.
End ne.

(** ** Constants *)
Definition AF_INET := 2.
Definition AF_NETLINK := 16.
Definition SOCK_DGRAM_CLOEXEC := Z.lor 2 524288.
Definition SOCK_RAW_CLOEXEC := Z.lor 3 524288.
Definition NETLINK_ROUTE := 0.
Definition SIOCGIFINDEX := 35123.
Definition SIOCSIFFLAGS := 35092.
Definition IFF_UP := 1.
Definition IFF_LOOPBACK := 8.

Definition NLM_F_REQUEST := 1.
Definition NLM_F_ACK := 4.
Definition NLM_F_EXCL := 512.
Definition NLM_F_CREATE := 1024.
Definition NLA_F_NESTED := Z.shiftl 1 15.
Definition NLMSG_ERROR := 2.
Definition RTM_NEWLINK := 16.
Definition RTM_DELLINK := 17.
Definition RTM_NEWADDR := 20.
Definition RTM_NEWROUTE := 24.
Definition IFLA_IFNAME := 3.
Definition IFLA_LINKINFO := 18.
Definition IFLA_NET_NS_PID := 19.
Definition IFLA_INFO_KIND := 1.
Definition IFLA_INFO_DATA := 2.
Definition VETH_INFO_PEER := 1.
Definition IFA_ADDRESS := 1.
Definition IFA_LOCAL := 2.
Definition RTA_GATEWAY := 5.
Definition RT_TABLE_MAIN := 254.
Definition RTPROT_BOOT := 3.
Definition RT_SCOPE_UNIVERSE := 0.
Definition RTN_UNICAST := 1.
Definition IFNAMSIZ := 16%nat.
(** [size_of::<libc::nlmsghdr>()] *)
Definition NLMSGHDR_SIZE := 16.

(** ** Structures *)
Section messages.
Context `{Target}.

Record Ifaddrmsg := MkIfaddrmsg {
  ifa_family : Z; ifa_prefixlen : Z; ifa_flags : Z; ifa_scope : Z; ifa_index : Z }.
Definition ifaddrmsg_bytes (m : Ifaddrmsg) : bytes :=
  [u8 (ifa_family m); u8 (ifa_prefixlen m); u8 (ifa_flags m); u8 (ifa_scope m)] ++ to_ne 4 (ifa_index m).

Record Rtmsg := MkRtmsg {
  rtm_family : Z; rtm_dst_len : Z; rtm_src_len : Z; rtm_tos : Z;
  rtm_table : Z; rtm_protocol : Z; rtm_scope : Z; rtm_type : Z; rtm_flags : Z }.
Definition rtmsg_bytes (m : Rtmsg) : bytes :=
  [u8 (rtm_family m); u8 (rtm_dst_len m); u8 (rtm_src_len m); u8 (rtm_tos m);
   u8 (rtm_table m); u8 (rtm_protocol m); u8 (rtm_scope m); u8 (rtm_type m)] ++ to_ne 4 (rtm_flags m).

(** [libc::ifinfomsg], of which only [ifi_index] is ever set: family, pad, type,
    index, flags, change. *)
Definition ifinfomsg_bytes (ifi_index : Z) : bytes :=
  [0; 0] ++ to_ne 2 0 ++ to_ne 4 ifi_index ++ to_ne 4 0 ++ to_ne 4 0.

(** [libc::nlmsghdr] *)
Record nlmsghdr := MkHdr { nlmsg_len : Z; nlmsg_type : Z; nlmsg_flags : Z; nlmsg_seq : Z; nlmsg_pid : Z }.
Definition nlmsghdr_bytes (h : nlmsghdr) : bytes :=
  to_ne 4 (nlmsg_len h) ++ to_ne 2 (nlmsg_type h) ++ to_ne 2 (nlmsg_flags h) ++
  to_ne 4 (nlmsg_seq h) ++ to_ne 4 (nlmsg_pid h).

(** ** Attributes *)
Definition push_attr (buf : bytes) (rta_type : Z) (data : bytes) : bytes :=
  let hdr_len := 4 in
  let rta_len := u16 (hdr_len + Z.of_nat (length data)) in
  let padded := Z.land (rta_len + 3) (Z.lnot 3) in
  buf ++ to_ne 2 rta_len ++ to_ne 2 rta_type ++ data ++ replicate (Z.to_nat (padded - rta_len)) 0.
Definition push_attr_nested (buf : bytes) (rta_type : Z) (data : bytes) : bytes :=
  push_attr buf (Z.lor rta_type NLA_F_NESTED) data.

Definition str_bytes (s : string) : bytes := byte_val <$> String.list_ascii_of_string s.
Definition name_nul (name : string) : bytes := str_bytes name ++ [0].

Definition validate_ifname (name : string) : outcome IoError unit :=
  if str_is_empty name || (IFNAMSIZ <=? str_len name)%nat then
    Err (OtherErr ("interface name must be 1.." +:+ pretty (IFNAMSIZ - 1)%nat +:+ " bytes, got " +:+ pretty (str_len name)))
  else Ok tt.

(** The 16 bytes of [ifr_name] after [write_ifr_name] on a zeroed [ifreq]. *)
Definition write_ifr_name (name : string) : bytes :=
  let src := take IFNAMSIZ (str_bytes name) in src ++ replicate (IFNAMSIZ - length src)%nat 0.

(** ** Socket plumbing *)
Definition nl_socket : prog (outcome IoError Z) :=
  let* r := sys (Socket AF_NETLINK SOCK_RAW_CLOEXEC NETLINK_ROUTE) in
  if rv r <? 0 then perr (Os (rerr r)) else
  let fd := rv r in
  let* b := sys (Bind fd) in
  if rv b <? 0 then sys (Close fd) ;;* perr (Os (rerr b)) else pok fd.

(** The reply: at least a header and an error code, and no negative code. *)
Definition parse_ack (n : Z) (buf : bytes) : outcome IoError unit :=
  if n <? NLMSGHDR_SIZE + 4 then Err (OtherErr "netlink: short ACK") else
  if from_ne (take 2 (drop 4 buf)) =? NLMSG_ERROR then
    let code := i32 (from_ne (take 4 (drop 16 buf))) in
    if code <? 0 then Err (Os (- code)) else Ok tt
  else Ok tt.

(** The received bytes at the front of the zeroed buffer. *)
Definition recv_buf (r : ret) : bytes := take 1024 (rbytes r ++ replicate 1024 0).
#[global] Arguments recv_buf : simpl never.
Definition nl_exec (fd : Z) (msg : bytes) : prog (outcome IoError unit) :=
  let* sent := sys (Send fd msg) in
  if rv sent <? 0 then perr (Os (rerr sent)) else
  let* r := sys (Recv fd 1024) in
  if rv r <? 0 then perr (Os (rerr r)) else
  Ret (parse_ack (rv r) (recv_buf r)).

Definition ifindex (name : string) : prog (outcome IoError Z) :=
  match validate_ifname name with
  | Ok _ =>
      let* sock := sys (Socket AF_INET SOCK_DGRAM_CLOEXEC 0) in
      if rv sock <? 0 then perr (Os (rerr sock)) else
      let* r := sys (Ioctl (rv sock) SIOCGIFINDEX (write_ifr_name name) 0) in
      sys (Close (rv sock)) ;;*
      if rv r <? 0 then perr (Os (rerr r)) else pok (u32 (from_ne (rbytes r)))
  | Err e => perr e
  | Panic => Ret Panic
  end.

(** [r.map_err(JailError::Network)] *)
Definition net {A} (p : prog (outcome IoError A)) : prog (outcome JailError A) :=
  let* o := p in Ret (omap_err NetworkErr o).

(** Header and payload of a request. *)
Definition nl_message (ty flags seq : Z) (payload : bytes) : bytes :=
  nlmsghdr_bytes (MkHdr (u32 (NLMSGHDR_SIZE + Z.of_nat (length payload))) ty flags seq 0) ++ payload.
(** Open the socket, run the body, close the socket on every path out of it. *)
Definition with_nl_socket (body : Z → prog (outcome JailError unit)) : prog (outcome JailError unit) :=
  let! sock := net nl_socket in finally (body sock) (Close sock).

Definition CREATE_FLAGS := Z.lor (Z.lor (Z.lor NLM_F_REQUEST NLM_F_CREATE) NLM_F_EXCL) NLM_F_ACK.
Definition PLAIN_FLAGS := Z.lor NLM_F_REQUEST NLM_F_ACK.

(** ** Operations *)
Definition veth_payload (host_name jail_name : string) : bytes :=
  let peer_data := push_attr (ifinfomsg_bytes 0) IFLA_IFNAME (name_nul jail_name) in
  let info_data := push_attr_nested [] VETH_INFO_PEER peer_data in
  let linkinfo := push_attr_nested (push_attr [] IFLA_INFO_KIND (str_bytes "veth" ++ [0])) IFLA_INFO_DATA info_data in
  push_attr_nested (push_attr (ifinfomsg_bytes 0) IFLA_IFNAME (name_nul host_name)) IFLA_LINKINFO linkinfo.
Definition create_veth_pair (host_name jail_name : string) : prog (outcome JailError unit) :=
  with_nl_socket (λ sock,
    net (nl_exec sock (nl_message RTM_NEWLINK CREATE_FLAGS 1 (veth_payload host_name jail_name)))).

Definition move_to_netns (ifname : string) (pid : Z) : prog (outcome JailError unit) :=
  with_nl_socket (λ sock,
    let! idx := net (ifindex ifname) in
    let payload := push_attr (ifinfomsg_bytes (i32 idx)) IFLA_NET_NS_PID (to_ne 4 pid) in
    net (nl_exec sock (nl_message RTM_NEWLINK PLAIN_FLAGS 2 payload))).

Definition addr_payload (idx : Z) (octets : bytes) (prefix_len : Z) : bytes :=
  push_attr (push_attr (ifaddrmsg_bytes (MkIfaddrmsg AF_INET prefix_len 0 0 idx)) IFA_LOCAL octets) IFA_ADDRESS octets.
Definition add_ipv4_addr (ifname : string) (octets : bytes) (prefix_len : Z) : prog (outcome JailError unit) :=
  with_nl_socket (λ sock,
    let! idx := net (ifindex ifname) in
    net (nl_exec sock (nl_message RTM_NEWADDR CREATE_FLAGS 3 (addr_payload idx octets prefix_len)))).

Definition set_link_up (ifname : string) : prog (outcome JailError unit) :=
  match validate_ifname ifname with
  | Ok _ =>
      let* sock := sys (Socket AF_INET SOCK_DGRAM_CLOEXEC 0) in
      if rv sock <? 0 then perr (NetworkErr (Os (rerr sock))) else
      let* r := sys (Ioctl (rv sock) SIOCSIFFLAGS (write_ifr_name ifname) IFF_UP) in
      sys (Close (rv sock)) ;;*
      if rv r <? 0 then perr (NetworkErr (Os (rerr r))) else pok tt
  | Err e => perr (NetworkErr e)
  | Panic => Ret Panic
  end.

Definition route_payload (gateway : bytes) : bytes :=
  push_attr (rtmsg_bytes (MkRtmsg AF_INET 0 0 0 RT_TABLE_MAIN RTPROT_BOOT RT_SCOPE_UNIVERSE RTN_UNICAST 0))
    RTA_GATEWAY gateway.
Definition add_default_route (gateway : bytes) : prog (outcome JailError unit) :=
  with_nl_socket (λ sock, net (nl_exec sock (nl_message RTM_NEWROUTE CREATE_FLAGS 4 (route_payload gateway)))).

Definition delete_link (ifname : string) : prog (outcome JailError unit) :=
  let* i := ifindex ifname in
  match i with
  | Ok idx =>
      with_nl_socket (λ sock,
        net (nl_exec sock (nl_message RTM_DELLINK PLAIN_FLAGS 5 (ifinfomsg_bytes (i32 idx)))))
  | Err _ => pok tt
  | Panic => Ret Panic
  end.

(** ** [veth.rs] *)
Definition PROXY_PORT := 8080.
Definition veth_addrs (id : Z) : bytes * bytes :=
  let b2 := u8 (Z.land (Z.shiftr id 8) 255) in
  let b3 := u8 (Z.land id 255) in
  let b3 := if (b2 =? 0) && (b3 =? 0) then 1 else b3 in
  ([10; b2; b3; 1], [10; b2; b3; 2]).

(** [Display] of an [Ipv4Addr] *)
Definition ipv4_display (ip : bytes) : string :=
  match ip with
  | [a; b; c; d] => pretty a +:+ "." +:+ pretty b +:+ "." +:+ pretty c +:+ "." +:+ pretty d
  | _ => ""
  end.
Definition proxy_env_vars (host_ip : bytes) : list (string * string) :=
  let url := "http://" +:+ ipv4_display host_ip +:+ ":" +:+ pretty PROXY_PORT in
  [("HTTP_PROXY", url); ("HTTPS_PROXY", url); ("http_proxy", url); ("https_proxy", url)]%string.

Definition cleanup_stale_veths : prog unit :=
  let* r := sys (ReadDir "/sys/class/net") in
  if ok r then
    for_all_do (λ entry,
      let name := from_utf8_lossy entry in
      if starts_with "aj-h" name then delete_link name ;;* Ret tt else Ret tt) (omap id (rlist r))
  else Ret tt.
End messages.

(** ** The format of rtnetlink(7)

    An attribute is a 16-bit length (header included), a 16-bit type and the
    data, padded to a multiple of four bytes.  Every round takes at least four
    bytes, so as many rounds as there are bytes are enough. *)
Section format.
Context `{Target}.
Definition rta_align (n : Z) : Z := 4 * ((n + 3) / 4).
Fixpoint parse_attrs_fuel (fuel : nat) (bs : bytes) : option (list (Z * bytes)) :=
  match fuel, bs with
  | _, [] => Some []
  | O, _ => None
  | S f, _ =>
      let len := from_ne (take 2 bs) in
      if (Z.of_nat (length bs) <? 4) || (len <? 4) || (Z.of_nat (length bs) <? len) then None else
      rest ← parse_attrs_fuel f (drop (Z.to_nat (rta_align len)) bs);
      Some ((from_ne (take 2 (drop 2 bs)), take (Z.to_nat (len - 4)) (drop 4 bs)) :: rest)
  end.
Definition parse_attrs (bs : bytes) : option (list (Z * bytes)) := parse_attrs_fuel (length bs) bs.

Definition parse_header (bs : bytes) : nlmsghdr :=
  MkHdr (from_ne (take 4 bs)) (from_ne (take 2 (drop 4 bs))) (from_ne (take 2 (drop 6 bs)))
    (from_ne (take 4 (drop 8 bs))) (from_ne (take 4 (drop 12 bs))).
(** A whole message: a header whose length field is the length of the message. *)
Definition parse_message (bs : bytes) : option (nlmsghdr * bytes) :=
  let h := parse_header bs in
  if (16 <=? length bs)%nat && (nlmsg_len h =? Z.of_nat (length bs)) then Some (h, drop 16 bs) else None.

Lemma land_not3 n : Z.land (n + 3) (Z.lnot 3) = rta_align n.
Proof.
  unfold rta_align. rewrite <- Z.ldiff_land, Z.mul_comm. change 3 with (Z.ones 2).
  by rewrite Z.ldiff_ones_r, Z.shiftl_mul_pow2, Z.shiftr_div_pow2 by lia.
Qed.
Lemma push_attr_app buf ty data : push_attr buf ty data = buf ++ push_attr [] ty data.
Proof. done. Qed.
(** The bytes of one attribute, when its length fits the field. *)
Lemma push_attr_nil ty data :
  Z.of_nat (length data) <= 65531 →
  push_attr [] ty data =
  to_ne 2 (4 + Z.of_nat (length data)) ++ to_ne 2 ty ++ data ++
  replicate (Z.to_nat (rta_align (4 + Z.of_nat (length data)) - (4 + Z.of_nat (length data)))) 0.
Proof.
  intros Hl. unfold push_attr, u16. rewrite Z.mod_small by lia. by rewrite land_not3.
Qed.
Lemma push_attr_length ty data :
  Z.of_nat (length data) <= 65531 →
  Z.of_nat (length (push_attr [] ty data)) = rta_align (4 + Z.of_nat (length data)).
Proof.
  intros Hl. rewrite push_attr_nil by done. rewrite !length_app, !to_ne_length, length_replicate.
  unfold rta_align. Z.div_mod_to_equations. lia.
Qed.

Lemma parse_attrs_fuel_S f bs :
  bs ≠ [] → parse_attrs_fuel (S f) bs =
  let len := from_ne (take 2 bs) in
  if (Z.of_nat (length bs) <? 4) || (len <? 4) || (Z.of_nat (length bs) <? len) then None else
  rest ← parse_attrs_fuel f (drop (Z.to_nat (rta_align len)) bs);
  Some ((from_ne (take 2 (drop 2 bs)), take (Z.to_nat (len - 4)) (drop 4 bs)) :: rest).
Proof. by destruct bs. Qed.
Lemma parse_attrs_push fuel ty data rest :
  Z.of_nat (length data) <= 65531 →
  parse_attrs_fuel (S fuel) (push_attr [] ty data ++ rest) =
  attrs ← parse_attrs_fuel fuel rest; Some ((u16 ty, data) :: attrs).
Proof.
  intros Hl. pose proof (push_attr_length ty data Hl) as Hlen. rewrite push_attr_nil in * by done.
  set (len := 4 + Z.of_nat (length data)) in *. set (pad := replicate _ 0) in *.
  assert (from_ne (take 2 ((to_ne 2 len ++ to_ne 2 ty ++ data ++ pad) ++ rest)) = len) as Hlen2.
  { rewrite <- app_assoc, take_app_le by (by rewrite to_ne_length).
    rewrite take_ge by (by rewrite to_ne_length). rewrite from_to_ne. apply Z.mod_small. simpl. lia. }
  rewrite parse_attrs_fuel_S; cycle 1.
  { intros E. apply (f_equal length) in E. rewrite !length_app, !to_ne_length in E. simpl in E. lia. }
  cbv zeta. rewrite Hlen2. clear Hlen2. rewrite !length_app in *. rewrite !to_ne_length in *.
  assert (len <= rta_align len) by (unfold rta_align; Z.div_mod_to_equations; lia).
  destruct (Z.ltb_spec (Z.of_nat (2 + (2 + (length data + length pad)) + length rest)%nat) 4); [lia|].
  destruct (Z.ltb_spec len 4); [lia|].
  destruct (Z.ltb_spec (Z.of_nat (2 + (2 + (length data + length pad)) + length rest)%nat) len); [lia|].
  cbn [orb]. rewrite (drop_app_length' _ rest (Z.to_nat (rta_align len))) by (rewrite !length_app, !to_ne_length; lia).
  destruct (parse_attrs_fuel fuel rest) as [attrs|]; [|done]. simpl. do 2 f_equal.
  rewrite <- !app_assoc. rewrite !drop_app_length' by (by rewrite to_ne_length).
  replace (to_ne 2 len ++ to_ne 2 ty ++ data ++ pad ++ rest)
    with ((to_ne 2 len ++ to_ne 2 ty) ++ data ++ pad ++ rest) by (by rewrite <- app_assoc).
  rewrite drop_app_length' by (by rewrite length_app, !to_ne_length).
  rewrite take_app_length' by (by rewrite to_ne_length). rewrite take_app_length' by lia.
  by rewrite from_to_ne.
Qed.
End format.

(** ** Attributes round-trip *)
Section roundtrip.
Context `{Target}.
(** The attributes [l] appended to [buf], as the code appends them. *)
Definition push_attrs (buf : bytes) (l : list (Z * bytes)) : bytes :=
  foldl (λ b a, push_attr b a.1 a.2) buf l.
Definition attr_fits (a : Z * bytes) : Prop := 0 <= a.1 < 2 ^ 16 ∧ Z.of_nat (length a.2) <= 65531.

Lemma push_attrs_app buf l : push_attrs buf l = buf ++ push_attrs [] l.
Proof.
  revert buf. induction l as [|a l IH] using rev_ind; intros buf; [by rewrite app_nil_r|].
  unfold push_attrs in *. rewrite !foldl_app. simpl. rewrite (push_attr_app (foldl _ buf l)), IH.
  by rewrite (push_attr_app (foldl _ [] l)), app_assoc.
Qed.
Lemma push_attrs_cons a l : push_attrs [] (a :: l) = push_attr [] a.1 a.2 ++ push_attrs [] l.
Proof. unfold push_attrs. simpl. apply push_attrs_app. Qed.
Lemma parse_attrs_mono f f' bs l :
  (f <= f')%nat → parse_attrs_fuel f bs = Some l → parse_attrs_fuel f' bs = Some l.
Proof.
  revert f' bs l. induction f as [|f IH]; intros f' bs l Hf.
  { destruct bs; [by destruct f'|done]. }
  destruct f' as [|f']; [lia|]. destruct bs as [|b bs]; [done|]. rewrite !parse_attrs_fuel_S by done.
  cbv zeta. destruct (_ || _); [done|]. intros (rest & Hr & Hl)%bind_Some.
  rewrite (IH f' _ rest) by (done || lia). done.
Qed.
Lemma parse_push_attrs l :
  Forall attr_fits l → parse_attrs_fuel (length l) (push_attrs [] l) = Some l.
Proof.
  induction 1 as [|a l [Hty Hlen] Hl IH]; [done|]. rewrite push_attrs_cons. cbn [length].
  rewrite parse_attrs_push by done. rewrite IH. simpl. unfold u16. rewrite Z.mod_small by lia. by destruct a.
Qed.
Lemma push_attrs_length l : Forall attr_fits l → (length l <= length (push_attrs [] l))%nat.
Proof.
  induction 1 as [|a l [Hty Hlen] Hl IH]; [done|]. rewrite push_attrs_cons, length_app. simpl.
  pose proof (push_attr_length a.1 a.2 Hlen) as Ha. unfold rta_align in Ha. Z.div_mod_to_equations. lia.
Qed.

Lemma parse_attrs_push_attrs l : Forall attr_fits l → parse_attrs (push_attrs [] l) = Some l.
Proof.
  intros Hl. unfold parse_attrs. eapply parse_attrs_mono; [apply (push_attrs_length _ Hl)|].
  by apply parse_push_attrs.
Qed.

(** Attribute encoding round-trips.  Whatever attributes the code appends to a
    message with [push_attr] (16-bit types, at most 65531 bytes of data each),
    the kernel's attribute walk reads back exactly those, in order, with their
    data byte for byte and no padding. *)
Theorem attrs_roundtrip (l : list (Z * bytes)) :
  Forall attr_fits l → parse_attrs (push_attrs [] l) = Some l.
Proof. apply parse_attrs_push_attrs. Qed.

Lemma parse_attrs_one ty data :
  0 <= ty < 2 ^ 16 → Z.of_nat (length data) <= 65531 → parse_attrs (push_attr [] ty data) = Some [(ty, data)].
Proof. intros. apply (parse_attrs_push_attrs [(ty, data)]). repeat constructor; simpl; lia. Qed.
Lemma parse_attrs_two ty data ty' data' :
  0 <= ty < 2 ^ 16 → Z.of_nat (length data) <= 65531 → 0 <= ty' < 2 ^ 16 → Z.of_nat (length data') <= 65531 →
  parse_attrs (push_attr (push_attr [] ty data) ty' data') = Some [(ty, data); (ty', data')].
Proof. intros. apply (parse_attrs_push_attrs [(ty, data); (ty', data')]). repeat constructor; simpl; lia. Qed.

(** The attribute length field is the bound.  One attribute of a 16-bit type
    is read back exactly when its data has at most 65531 bytes: from 65532 bytes
    on the 16-bit [rta_len] wraps around and the kernel sees something else. *)
Theorem attr_length_bound (ty : Z) (data : bytes) :
  0 <= ty < 2 ^ 16 →
  parse_attrs (push_attr [] ty data) = Some [(ty, data)] ↔ Z.of_nat (length data) <= 65531.
Proof.
  intros Hty. split; [|by apply parse_attrs_one]. intros Hp.
  destruct (Z.le_gt_cases (Z.of_nat (length data)) 65531) as [|Hgt]; [done|]. exfalso.
  unfold parse_attrs in Hp. set (bs := push_attr [] ty data) in *.
  assert (from_ne (take 2 bs) = u16 (4 + Z.of_nat (length data))) as Hlen.
  { unfold bs, push_attr. rewrite app_nil_l, take_app_length' by (by rewrite to_ne_length).
    rewrite from_to_ne. unfold u16. change (256 ^ Z.of_nat 2) with (2 ^ 16). by rewrite Z.mod_mod by lia. }
  destruct (length bs) as [|f] eqn:El; [by destruct bs|].
  assert (bs ≠ []) by (by intros E; rewrite E in El).
  rewrite parse_attrs_fuel_S in Hp by done. cbv zeta in Hp. rewrite Hlen in Hp.
  destruct (_ || _); [done|]. apply bind_Some in Hp as (rest & _ & [= _ Hd _]).
  apply (f_equal length) in Hd. rewrite length_take in Hd.
  assert (u16 (4 + Z.of_nat (length data)) < 65536) by (apply Z.mod_pos_bound; lia). lia.
Qed.
End roundtrip.

(** ** The veth request *)
Section veth.
Context `{Target}.
Lemma str_bytes_length s : length (str_bytes s) = str_len s.
Proof. unfold str_bytes. rewrite length_fmap. induction s as [|a s IH]; [done|]. simpl. by rewrite IH. Qed.
Lemma name_nul_length s : length (name_nul s) = S (str_len s).
Proof. unfold name_nul. rewrite length_app, str_bytes_length. simpl. lia. Qed.
Lemma ifinfomsg_length i : length (ifinfomsg_bytes i) = 16%nat.
Proof. unfold ifinfomsg_bytes. by rewrite !length_app, !to_ne_length. Qed.
Lemma nlmsghdr_length h : length (nlmsghdr_bytes h) = 16%nat.
Proof. unfold nlmsghdr_bytes. by rewrite !length_app, !to_ne_length. Qed.

Definition hdr_fits (h : nlmsghdr) : Prop :=
  0 <= nlmsg_len h < 2 ^ 32 ∧ 0 <= nlmsg_type h < 2 ^ 16 ∧ 0 <= nlmsg_flags h < 2 ^ 16 ∧
  0 <= nlmsg_seq h < 2 ^ 32 ∧ 0 <= nlmsg_pid h < 2 ^ 32.
Lemma parse_header_bytes h rest : hdr_fits h → parse_header (nlmsghdr_bytes h ++ rest) = h.
Proof.
  intros (H1 & H2 & H3 & H4 & H5). destruct h as [a b c d e]. unfold parse_header, nlmsghdr_bytes. cbn [nlmsg_len nlmsg_type nlmsg_flags nlmsg_seq nlmsg_pid] in *.
  assert (∀ (n m : nat) (x : bytes) y, length x = m → take n (drop m (x ++ y)) = take n y) as Hd.
  { intros n m x y <-. by rewrite drop_app_length. }
  assert (∀ n z y, from_ne (take n (to_ne n z ++ y)) = z mod 256 ^ Z.of_nat n) as Ht.
  { intros n z y. rewrite take_app_length' by (by rewrite to_ne_length). apply from_to_ne. }
  f_equal; rewrite <- ?app_assoc.
  - rewrite Ht. apply Z.mod_small. simpl. lia.
  - rewrite Hd by (by rewrite to_ne_length). rewrite Ht. apply Z.mod_small. simpl. lia.
  - rewrite (app_assoc (to_ne 4 a)), Hd by (by rewrite length_app, !to_ne_length). rewrite Ht. apply Z.mod_small. simpl. lia.
  - rewrite (app_assoc (to_ne 4 a)), (app_assoc (_ ++ _)), Hd by (by rewrite !length_app, !to_ne_length). rewrite Ht. apply Z.mod_small. simpl. lia.
  - rewrite (app_assoc (to_ne 4 a)), 2!(app_assoc (_ ++ _)), Hd by (by rewrite !length_app, !to_ne_length). rewrite Ht. apply Z.mod_small. simpl. lia.
Qed.
Lemma parse_nl_message ty flags seq payload :
  0 <= ty < 2 ^ 16 → 0 <= flags < 2 ^ 16 → 0 <= seq < 2 ^ 32 → Z.of_nat (length payload) + 16 < 2 ^ 32 →
  parse_message (nl_message ty flags seq payload) =
  Some (MkHdr (16 + Z.of_nat (length payload)) ty flags seq 0, payload).
Proof.
  intros Hty Hf Hs Hp. unfold parse_message, nl_message.
  assert (u32 (NLMSGHDR_SIZE + Z.of_nat (length payload)) = 16 + Z.of_nat (length payload)) as ->.
  { unfold u32. apply Z.mod_small. unfold NLMSGHDR_SIZE. lia. }
  rewrite parse_header_bytes by (repeat split; simpl; lia).
  rewrite length_app, nlmsghdr_length, drop_app_length' by (by rewrite nlmsghdr_length).
  destruct (Nat.leb_spec 16 (16 + length payload)%nat); [|lia]. cbn [andb nlmsg_len].
  destruct (Z.eqb_spec (16 + Z.of_nat (length payload)) (Z.of_nat (16 + length payload)%nat)); [done|lia].
Qed.

Local Ltac zrange := split; [apply Z.leb_le; reflexivity|apply Z.ltb_lt; reflexivity].
(** An attribute takes at most seven bytes more than its data. *)
Lemma push_attr_bound ty data n :
  (length data + 7 <= n)%nat → Z.of_nat n <= 65000 → (length (push_attr [] ty data) <= n)%nat.
Proof.
  intros Hd Hn. pose proof (push_attr_length ty data ltac:(lia)) as Hl.
  unfold rta_align in Hl. Z.div_mod_to_equations. lia.
Qed.

(** What the kernel must find in a request for the pair [host], [jail]. *)
Definition veth_request (host jail : string) (h : nlmsghdr) (payload : bytes) : Prop :=
  h = MkHdr (16 + Z.of_nat (length payload)) RTM_NEWLINK 1541 1 0 ∧
  take 16 payload = replicate 16 0 ∧
  ∃ linkinfo info peer,
    parse_attrs (drop 16 payload) = Some [(IFLA_IFNAME, name_nul host); (Z.lor IFLA_LINKINFO NLA_F_NESTED, linkinfo)] ∧
    parse_attrs linkinfo = Some [(IFLA_INFO_KIND, name_nul "veth"); (Z.lor IFLA_INFO_DATA NLA_F_NESTED, info)] ∧
    parse_attrs info = Some [(Z.lor VETH_INFO_PEER NLA_F_NESTED, peer)] ∧
    take 16 peer = replicate 16 0 ∧ parse_attrs (drop 16 peer) = Some [(IFLA_IFNAME, name_nul jail)].

Lemma ifinfomsg_zero : ifinfomsg_bytes 0 = replicate 16 0.
Proof. unfold ifinfomsg_bytes, to_ne. by destruct big_endian. Qed.

(** The veth request says what it means.  For interface names that fit the
    kernel's 15 bytes, the message [create_veth_pair] sends is one well-formed
    RTM_NEWLINK request (create, exclusive, acknowledged; its length field is its
    length) whose nested attributes name the host end, the kind [veth] and, three
    levels down, the jail end. *)
Theorem veth_request_decodes (host jail : string) :
  (str_len host < IFNAMSIZ)%nat → (str_len jail < IFNAMSIZ)%nat →
  ∃ h payload,
    parse_message (nl_message RTM_NEWLINK CREATE_FLAGS 1 (veth_payload host jail)) = Some (h, payload) ∧
    veth_request host jail h payload.
Proof.
  unfold IFNAMSIZ. intros Hh Hj. unfold veth_payload.
  rewrite (push_attr_app (ifinfomsg_bytes 0) _ (name_nul jail)). set (peerattr := push_attr [] IFLA_IFNAME (name_nul jail)).
  assert (length peerattr <= 23)%nat by (apply push_attr_bound; rewrite ?name_nul_length; lia).
  set (peer := ifinfomsg_bytes 0 ++ peerattr).
  assert (length peer <= 39)%nat by (unfold peer; rewrite length_app, ifinfomsg_length; lia).
  set (info := push_attr_nested [] VETH_INFO_PEER peer).
  assert (length info <= 46)%nat by (apply push_attr_bound; lia).
  set (li := push_attr_nested (push_attr [] IFLA_INFO_KIND (str_bytes "veth" ++ [0])) IFLA_INFO_DATA info).
  assert (length li <= 65)%nat.
  { unfold li, push_attr_nested. rewrite push_attr_app, length_app.
    assert (length (push_attr [] IFLA_INFO_KIND (str_bytes "veth" ++ [0%Z])) <= 12)%nat by (apply push_attr_bound; simpl; lia).
    assert (length (push_attr [] (Z.lor IFLA_INFO_DATA NLA_F_NESTED) info) <= 53)%nat by (apply push_attr_bound; lia). lia. }
  unfold push_attr_nested at 1. rewrite push_attr_app, (push_attr_app (ifinfomsg_bytes 0)), <- app_assoc.
  rewrite <- (push_attr_app (push_attr [] IFLA_IFNAME (name_nul host))).
  set (attrs := push_attr (push_attr [] IFLA_IFNAME (name_nul host)) (Z.lor IFLA_LINKINFO NLA_F_NESTED) li).
  assert (length attrs <= 100)%nat.
  { unfold attrs. rewrite push_attr_app, length_app.
    assert (length (push_attr [] IFLA_IFNAME (name_nul host)) <= 23)%nat by (apply push_attr_bound; rewrite ?name_nul_length; lia).
    assert (length (push_attr [] (Z.lor IFLA_LINKINFO NLA_F_NESTED) li) <= 72)%nat by (apply push_attr_bound; lia). lia. }
  eexists _, _. split.
  { apply parse_nl_message; [zrange|zrange|zrange|].
    rewrite length_app, ifinfomsg_length. change (2 ^ 32) with 4294967296. lia. }
  split; [done|]. rewrite take_app_length', drop_app_length' by (by rewrite ifinfomsg_length).
  split; [apply ifinfomsg_zero|]. exists li, info, peer. repeat split.
  - apply parse_attrs_two; try zrange; rewrite ?name_nul_length; lia.
  - apply parse_attrs_two; try zrange; [vm_compute; discriminate|lia].
  - apply parse_attrs_one; [zrange|lia].
  - unfold peer. rewrite take_app_length' by (by rewrite ifinfomsg_length). apply ifinfomsg_zero.
  - unfold peer. rewrite drop_app_length' by (by rewrite ifinfomsg_length).
    apply parse_attrs_one; [zrange|rewrite name_nul_length; lia].
Qed.
End veth.

Lemma veth_request_decodes_witness :
  ∃ h payload,
    parse_message (nl_message RTM_NEWLINK CREATE_FLAGS 1 (veth_payload "aj-h1" "aj-j1")) = Some (h, payload) ∧
    veth_request "aj-h1" "aj-j1" h payload.
Proof. apply (veth_request_decodes "aj-h1" "aj-j1"); vm_compute; lia. Defined.
Lemma attrs_roundtrip_witness : parse_attrs (push_attrs [] [(3, [97; 0]); (18, [])]) = Some [(3, [97; 0]); (18, [])].
Proof. apply (attrs_roundtrip [(3, [97; 0]); (18, [])]). repeat constructor; simpl; lia. Defined.
Lemma attr_length_bound_witness :
  parse_attrs (push_attr [] 3 [97; 0]) = Some [(3, [97; 0])] ↔ Z.of_nat (length [97; 0]) <= 65531.
Proof. apply (attr_length_bound 3 [97; 0]). lia. Defined.

(** ** Descriptors *)
Create HintDb balanced.
Fixpoint remove_first (x : Z) (l : list Z) : list Z :=
  match l with [] => [] | y :: l' => if x =? y then l' else y :: remove_first x l' end.
(** The sockets a trace has opened and not closed, latest first. *)
Definition fd_step (fds : list Z) (e : event) : list Z :=
  match e with
  | (Socket _ _ _, r) => if rv r <? 0 then fds else rv r :: fds
  | (Close fd, _) => remove_first fd fds
  | _ => fds
  end.
Definition open_fds (tr : trace) : list Z := foldl fd_step [] tr.
Lemma open_fds_snoc tr e : open_fds (tr ++ [e]) = fd_step (open_fds tr) e.
Proof. unfold open_fds. by rewrite foldl_app. Qed.

Inductive nl_op :=
| CreateVeth (host_name jail_name : string) | MoveToNetns (ifname : string) (pid : Z)
| AddIpv4 (ifname : string) (octets : bytes) (prefix_len : Z) | LinkUp (ifname : string)
| DefaultRoute (gateway : bytes) | DeleteLink (ifname : string).

Section sockets.
Context `{Target}.
Definition nl_prog (op : nl_op) : prog (outcome JailError unit) :=
  match op with
  | CreateVeth h j => create_veth_pair h j
  | MoveToNetns i p => move_to_netns i p
  | AddIpv4 i o p => add_ipv4_addr i o p
  | LinkUp i => set_link_up i
  | DefaultRoute g => add_default_route g
  | DeleteLink i => delete_link i
  end.
(** The request an operation makes of the kernel, for the interface index the
    kernel gave; [set_link_up] makes none, it uses an ioctl. *)
Definition nl_request (op : nl_op) (idx : Z) : option bytes :=
  match op with
  | CreateVeth h j => Some (nl_message RTM_NEWLINK CREATE_FLAGS 1 (veth_payload h j))
  | MoveToNetns i p => Some (nl_message RTM_NEWLINK PLAIN_FLAGS 2 (push_attr (ifinfomsg_bytes (i32 idx)) IFLA_NET_NS_PID (to_ne 4 p)))
  | AddIpv4 i o p => Some (nl_message RTM_NEWADDR CREATE_FLAGS 3 (addr_payload idx o p))
  | LinkUp i => None
  | DefaultRoute g => Some (nl_message RTM_NEWROUTE CREATE_FLAGS 4 (route_payload g))
  | DeleteLink i => Some (nl_message RTM_DELLINK PLAIN_FLAGS 5 (ifinfomsg_bytes (i32 idx)))
  end.

(** A program that, if it ends, leaves the sockets [f] of the open ones. *)
Definition leaves {A} (f : list Z → list Z) (p : prog A) : Prop :=
  ∀ tr, wp p (λ o t, is_Some o → open_fds t = f (open_fds tr)) tr.
Abbreviation balanced := (leaves id).
Lemma balanced_ret {A} (a : A) : balanced (Ret a).
Proof. by intros tr _. Qed.
Lemma leaves_bind {A B} g (p : prog A) (f : A → prog B) :
  balanced p → (∀ a, leaves g (f a)) → leaves g (pbind p f).
Proof.
  intros Hp Hf tr. rewrite wp_bind. eapply wp_mono; [|apply Hp]. intros [a|] t Ht; [|by intros []].
  eapply wp_mono; [|apply Hf]. simpl. intros o t' Ht' Ho. rewrite Ht' by done. by rewrite Ht.
Qed.
Lemma balanced_sys c : (∀ fds r, fd_step fds (c, r) = fds) → balanced (sys c).
Proof. intros Hc tr r _. by rewrite open_fds_snoc, Hc. Qed.
Lemma balanced_net {A} (p : prog (outcome IoError A)) : balanced p → balanced (net p).
Proof. intros Hp. apply leaves_bind; [done|]. intros o. apply balanced_ret. Qed.
Lemma balanced_jbind {E A B} (m : prog (outcome E A)) (f : A → prog (outcome E B)) :
  balanced m → (∀ a, balanced (f a)) → balanced (jbind m f).
Proof. intros Hm Hf. apply leaves_bind; [done|]. intros [a|e|]; [apply Hf|apply balanced_ret..]. Qed.

Lemma remove_first_head x l : remove_first x (x :: l) = l.
Proof. simpl. by rewrite Z.eqb_refl. Qed.
(** Opening a socket and leaving it closed. *)
Lemma balanced_socket {A} d t p (e : ret → prog A) (body : ret → prog A) :
  (∀ r, balanced (e r)) → (∀ r, leaves (remove_first (rv r)) (body r)) →
  balanced (let* r := sys (Socket d t p) in if rv r <? 0 then e r else body r).
Proof.
  intros He Hb tr r. cbn [pbind]. destruct (rv r <? 0) eqn:E.
  - eapply wp_mono; [|apply He]. simpl. intros o t' Ht Ho. rewrite Ht by done. rewrite open_fds_snoc. simpl. by rewrite E.
  - eapply wp_mono; [|apply Hb]. simpl. intros o t' Ht Ho. rewrite Ht by done. rewrite open_fds_snoc. simpl. rewrite E.
    apply remove_first_head.
Qed.
(** Closing, then something balanced. *)
Lemma leaves_close {A} fd (p : prog A) : balanced p → leaves (remove_first fd) (sys (Close fd) ;;* p).
Proof.
  intros Hp tr r. cbn [pbind]. eapply wp_mono; [|apply Hp]. simpl. intros o t Ht Ho.
  rewrite Ht by done. by rewrite open_fds_snoc.
Qed.

Lemma balanced_nl_exec fd msg : balanced (nl_exec fd msg).
Proof.
  apply leaves_bind; [by apply balanced_sys|]. intros s. destruct (rv s <? 0); [apply balanced_ret|].
  apply leaves_bind; [by apply balanced_sys|]. intros r. destruct (rv r <? 0); apply balanced_ret.
Qed.
Lemma balanced_ioctl {A} name req flags (k : ret → prog A) (e : ret → prog A) :
  (∀ r, balanced (k r)) → (∀ r, balanced (e r)) →
  balanced (let* sock := sys (Socket AF_INET SOCK_DGRAM_CLOEXEC 0) in
            if rv sock <? 0 then e sock else
            let* r := sys (Ioctl (rv sock) req (write_ifr_name name) flags) in
            sys (Close (rv sock)) ;;* k r).
Proof.
  intros Hk He. apply (balanced_socket _ _ _ e); [done|]. intros s.
  apply leaves_bind; [by apply balanced_sys|]. intros r. by apply leaves_close.
Qed.
Lemma balanced_ifindex name : balanced (ifindex name).
Proof.
  unfold ifindex. destruct (validate_ifname name); [|apply balanced_ret..].
  apply balanced_ioctl; intros r; [destruct (rv r <? 0)|]; apply balanced_ret.
Qed.
Lemma balanced_with_nl_socket body : (∀ fd, balanced (body fd)) → balanced (with_nl_socket body).
Proof.
  intros Hb. unfold with_nl_socket, net, nl_socket, jbind, finally.
  intros tr. rewrite wp_bind, wp_bind, wp_bind. intros r. cbn [wp pbind].
  destruct (rv r <? 0) eqn:E; cbn.
  { intros _. rewrite open_fds_snoc. simpl. by rewrite E. }
  intros b. destruct (rv b <? 0); cbn.
  { intros c _. rewrite !open_fds_snoc. simpl. rewrite E. apply remove_first_head. }
  rewrite wp_bind. eapply wp_mono; [|apply Hb]. intros [o|] t Ht; [|by intros []].
  intros c _. rewrite open_fds_snoc, Ht by done. rewrite !open_fds_snoc. simpl. rewrite E. apply remove_first_head.
Qed.
#[local] Hint Resolve balanced_ret balanced_net balanced_jbind balanced_nl_exec balanced_ifindex balanced_with_nl_socket : balanced.
Lemma balanced_nl_prog op : balanced (nl_prog op).
Proof.
  destruct op as [h j|i p|i o p|i|g|i]; simpl; unfold create_veth_pair, move_to_netns, add_ipv4_addr, add_default_route; auto with balanced.
  - unfold set_link_up. destruct (validate_ifname i); [|apply balanced_ret..].
    apply balanced_ioctl; intros r; [destruct (rv r <? 0)|]; apply balanced_ret.
  - apply leaves_bind; [apply balanced_ifindex|]. intros [idx|e|]; [auto with balanced|apply balanced_ret..].
Qed.

(** No descriptor leaks.  Whatever the kernel answers, at whichever call it
    fails, every netlink operation that returns leaves exactly the sockets open
    that were open before it. *)
Theorem netlink_no_fd_leak (K : kernel) (tr : trace) (op : nl_op) (o : outcome JailError unit) :
  (run K tr (nl_prog op)).2 = Some o → open_fds (run K tr (nl_prog op)).1 = open_fds tr.
Proof. intros Ho. apply (wp_run _ _ _ K (balanced_nl_prog op tr)). by rewrite Ho. Qed.

(** A request acknowledged on some socket: the message went out, and the reply
    was long enough and carried no error code. *)
Definition acked (msg : bytes) (t : trace) : Prop :=
  ∃ fd s r, (Send fd msg, s) ∈ t ∧ (Recv fd 1024, r) ∈ t ∧ 0 <= rv s ∧
    parse_ack (rv r) (recv_buf r) = Ok tt.
Lemma acked_app msg t t' : acked msg t → acked msg (t ++ t').
Proof. intros (fd & s & r & ? & ? & ?). exists fd, s, r. rewrite !elem_of_app. naive_solver. Qed.

Abbreviation succeeds_with Q p tr := (wp p (upon (λ _, Q) (λ _, True)) tr).
Lemma wp_nl_exec fd msg tr : succeeds_with (acked msg) (net (nl_exec fd msg)) tr.
Proof.
  unfold net, nl_exec. rewrite !wp_bind. intros s. cbn [wp pbind].
  destruct (Z.ltb_spec (rv s) 0); [by cbn|]. rewrite wp_bind. intros r. cbn [wp pbind].
  destruct (Z.ltb_spec (rv r) 0); [by cbn|]. cbn [wp pbind].
  destruct (parse_ack _ _) as [[]|e|] eqn:E; [|by split..]. split; [done|].
  exists fd, s, r. rewrite !elem_of_app, !list_elem_of_singleton. auto 10.
Qed.
Lemma wp_with_nl_socket (Q : trace → Prop) body tr :
  (∀ t t', Q t → Q (t ++ t')) → (∀ fd t, succeeds_with Q (body fd) t) →
  succeeds_with Q (with_nl_socket body) tr.
Proof.
  intros Hmono Hb. unfold with_nl_socket. eapply (wp_jbind _ _ _ (λ _ _, True)).
  { eapply wp_mono; [|apply (wp_complete _ (λ _ _, True)); done]. intros [[]|] t; by split. }
  intros fd t _. unfold finally. rewrite wp_bind. eapply wp_mono; [|apply Hb].
  intros [[[]|e|]|] t' [_ Ht]; intros; split; auto. Qed.
Lemma wp_any {E A} (p : prog (outcome E A)) tr : wp p (upon (λ _ _, True) (λ _, True)) tr.
Proof. apply wp_complete. intros K. split; [done|]. by destruct (run K tr p) as [? [[]|]]. Qed.

Lemma wp_requested (Q : trace → Prop) (name : string) (body : Z → prog (outcome JailError unit)) tr :
  (∀ idx t, succeeds_with Q (body idx) t) → succeeds_with Q (let! idx := net (ifindex name) in body idx) tr.
Proof. intros Hb. eapply wp_jbind; [apply wp_any|]. intros idx t _. apply Hb. Qed.

(** The operation's request, for some interface index, was acknowledged. *)
Definition requested (op : nl_op) (t : trace) : Prop := ∃ idx msg, nl_request op idx = Some msg ∧ acked msg t.
Lemma requested_app op t t' : requested op t → requested op (t ++ t').
Proof. intros (idx & msg & Hr & Ha). exists idx, msg. split; [done|]. by apply acked_app. Qed.
Lemma wp_request op idx msg fd tr :
  nl_request op idx = Some msg → succeeds_with (requested op) (net (nl_exec fd msg)) tr.
Proof.
  intros Hr. eapply wp_mono; [|apply wp_nl_exec]. intros [[]|] t [_ Hg]; split; auto. by exists idx, msg.
Qed.
(** No netlink message sent. *)
Definition silent (t : trace) : Prop := ∀ fd msg r, (Send fd msg, r) ∉ t.
Lemma silent_snoc t c r : silent t → (∀ fd msg, c ≠ Send fd msg) → silent (t ++ [(c, r)]).
Proof. intros Ht Hc fd msg r'. rewrite elem_of_app, list_elem_of_singleton. intros [?|[= ? ?]]; [by eapply Ht|]. by eapply Hc. Qed.
Lemma wp_ifindex_silent i tr : silent tr → wp (ifindex i) (λ _ t, silent t) tr.
Proof.
  intros Ht. unfold ifindex. destruct (validate_ifname i); [|done..].
  intros s. cbn [wp pbind]. destruct (rv s <? 0); [by apply silent_snoc|].
  intros r c. cbn [wp pbind]. destruct (rv r <? 0); repeat apply silent_snoc; done.
Qed.

(** The outcome of an operation that reports success: acknowledged by the
    kernel; for [set_link_up] the ioctl succeeded; [delete_link] also succeeds,
    sending nothing, when the interface has no index. *)
Definition nl_done (op : nl_op) (t : trace) : Prop :=
  match op with
  | LinkUp i => ∃ fd r, (Ioctl fd SIOCSIFFLAGS (write_ifr_name i) IFF_UP, r) ∈ t ∧ 0 <= rv r
  | DeleteLink i => silent t ∨ requested op t
  | _ => requested op t
  end.
Lemma wp_link_up i tr : succeeds_with (nl_done (LinkUp i)) (set_link_up i) tr.
Proof.
  unfold set_link_up. destruct (validate_ifname i); [|by split..].
  intros s. cbn [wp pbind]. destruct (Z.ltb_spec (rv s) 0); [by cbn|].
  intros r c. cbn [wp pbind]. destruct (Z.ltb_spec (rv r) 0); [by cbn|]. split; [done|].
  exists (rv s), r. rewrite !elem_of_app, !list_elem_of_singleton. auto.
Qed.
Lemma wp_nl_prog op tr : silent tr → succeeds_with (nl_done op) (nl_prog op) tr.
Proof.
  intros Htr. destruct op as [h j|i p|i o p|i|g|i]; simpl; [| | |apply wp_link_up| |].
  1-3,4: apply wp_with_nl_socket; [apply requested_app|intros fd t].
  - by eapply (wp_request _ 0).
  - apply wp_requested. intros idx t'. apply (wp_request (MoveToNetns i p) idx). reflexivity.
  - apply wp_requested. intros idx t'. apply (wp_request (AddIpv4 i o p) idx). reflexivity.
  - by eapply (wp_request _ 0).
  - unfold delete_link. rewrite wp_bind. eapply wp_mono; [|by apply wp_ifindex_silent].
    intros [[idx|e|]|] t Ht; cbn [wp pbind pok]; [|split; [done|]; try (by left); done..].
    eapply wp_mono; [|apply (wp_with_nl_socket (requested (DeleteLink i))); [apply requested_app|intros fd t'; by apply (wp_request _ idx)]].
    intros [[a|e|]|] t' [_ Hg]; (split; [done|]); [by right|done..].
Qed.

(** Success means the kernel agreed.  When a netlink operation returns [Ok],
    then on every kernel the operation's own request (for the interface index the
    kernel reported) was sent, and answered with a complete reply that carries no
    error code; [set_link_up] had its ioctl accepted; only [delete_link] may
    return [Ok] with nothing sent, when the interface is already gone. *)
Theorem netlink_ok_is_acked (K : kernel) (op : nl_op) :
  (run K [] (nl_prog op)).2 = Some (Ok tt) → nl_done op (run K [] (nl_prog op)).1.
Proof.
  intros Ho. assert (silent []) as Hs by (intros fd msg r; apply not_elem_of_nil).
  destruct (wp_run _ _ _ K (wp_nl_prog op [] Hs)) as [_ Hg]. by rewrite Ho in Hg.
Qed.
End sockets.

(** ** Names and addresses of a jail's veth pair *)

(** The two /24-style slots an id selects; ids 0 and 1 share the first. *)
Definition veth_slot (id : Z) : Z := Z.max 1 (id mod 2 ^ 16).

Lemma veth_addrs_slot id :
  0 <= id → veth_addrs id = ([10; veth_slot id / 256; veth_slot id mod 256; 1], [10; veth_slot id / 256; veth_slot id mod 256; 2]).
Proof.
  intros Hid. unfold veth_addrs, u8.
  change 255 with (Z.ones 8). rewrite !Z.land_ones, Z.shiftr_div_pow2 by lia.
  rewrite !Z.mod_mod by lia. change (2 ^ 8) with 256.
  assert (id mod 256 = (id mod 2 ^ 16) mod 256) as -> by (change (2 ^ 16) with (256 * 256); Z.div_mod_to_equations; lia).
  assert ((id / 256) mod 256 = (id mod 2 ^ 16) / 256) as -> by (change (2 ^ 16) with (256 * 256); Z.div_mod_to_equations; lia).
  unfold veth_slot. assert (0 <= id mod 2 ^ 16 < 2 ^ 16) by (apply Z.mod_pos_bound; lia).
  set (s := id mod 2 ^ 16) in *. clearbody s.
  destruct (Z.eqb_spec (s / 256) 0), (Z.eqb_spec (s mod 256) 0); cbn [andb].
  - assert (s = 0) as -> by (Z.div_mod_to_equations; lia). done.
  - rewrite Z.max_r by (Z.div_mod_to_equations; lia). done.
  - rewrite Z.max_r by (Z.div_mod_to_equations; lia). done.
  - rewrite Z.max_r by (Z.div_mod_to_equations; lia). done.
Qed.

(** When two jails share addresses.  Two veth ids get the same pair of
    addresses exactly when they select the same of the 65535 slots.  So the ids
    1 to 65535 never collide, and the counter, which runs through 32 bits, starts
    handing out the addresses of earlier jails after that. *)
Theorem veth_addrs_collide_iff (i j : Z) :
  0 <= i → 0 <= j → veth_addrs i = veth_addrs j ↔ veth_slot i = veth_slot j.
Proof.
  intros Hi Hj. rewrite !veth_addrs_slot by done. split; [|by intros ->].
  intros [= H1 H2]. assert (∀ s, s = 256 * (s / 256) + s mod 256) as E by (intros s; apply Z.div_mod; lia).
  rewrite (E (veth_slot i)), (E (veth_slot j)), H1, H2. done.
Qed.
Lemma veth_addrs_collide_iff_witness : veth_addrs 65537 = veth_addrs 1 ↔ veth_slot 65537 = veth_slot 1.
Proof. apply (veth_addrs_collide_iff 65537 1); lia. Defined.

(** A kernel on which everything works: descriptor 3, index 7, a clean ACK. *)
Definition kind_kernel : kernel := λ _ c,
  match c with
  | Recv _ _ => MkRet 36 0 (to_ne 4 36 ++ to_ne 2 NLMSG_ERROR ++ replicate 30 0) "" []
  | Ioctl _ _ _ _ => MkRet 0 0 (to_ne 4 7) "" []
  | _ => rint 3
  end.
Lemma netlink_no_fd_leak_witness :
  open_fds (run kind_kernel [] (nl_prog (MoveToNetns "aj-j1" 42))).1 = open_fds [].
Proof. apply (netlink_no_fd_leak kind_kernel [] (MoveToNetns "aj-j1" 42) (Ok tt)). reflexivity. Defined.
Lemma netlink_ok_is_acked_witness :
  nl_done (MoveToNetns "aj-j1" 42) (run kind_kernel [] (nl_prog (MoveToNetns "aj-j1" 42))).1.
Proof. apply (netlink_ok_is_acked kind_kernel (MoveToNetns "aj-j1" 42)). reflexivity. Defined.

Lemma pretty_N_go_len (k : nat) x s :
  (Z.of_N x < 10 ^ Z.of_nat k) → (str_len (pretty_N_go x s) <= k + str_len s)%nat.
Proof.
  revert x s. induction k as [|k IH]; intros x s Hx.
  { assert (x = 0%N) as -> by (simpl in Hx; lia). by rewrite pretty_N_go_0. }
  destruct (decide (x = 0%N)) as [->|Hn]; [rewrite pretty_N_go_0; lia|].
  rewrite pretty_N_go_step by lia.
  etransitivity; [apply IH|unfold str_len; simpl; lia].
  rewrite Nat2Z.inj_succ, Z.pow_succ_r in Hx by lia. rewrite N2Z.inj_div. simpl.
  apply Z.div_lt_upper_bound; lia.
Qed.
Lemma pretty_Z_len (k : nat) (z : Z) :
  0 <= z < 10 ^ Z.of_nat (S k) → (str_len (pretty z) <= S k)%nat.
Proof.
  intros Hz. destruct z as [|p|p]; [unfold str_len; simpl; lia| |lia].
  unfold pretty, pretty_Z, pretty, pretty_N. destruct (decide (N.pos p = 0%N)); [lia|].
  etransitivity; [apply (pretty_N_go_len (S k))|unfold str_len; simpl; lia]. simpl Z.of_N. lia.
Qed.

(** Interface names always fit.  For every value of the 32-bit veth counter,
    the names [aj-h<id>] and [aj-j<id>] pass the kernel's 15-byte limit, so no
    jail is refused a network because of its number. *)
Theorem veth_names_fit (id : Z) :
  0 <= id < 2 ^ 32 →
  validate_ifname ("aj-h" +:+ pretty id) = Ok tt ∧ validate_ifname ("aj-j" +:+ pretty id) = Ok tt.
Proof.
  intros Hid. pose proof (pretty_Z_len 9 id) as Hl. change (10 ^ Z.of_nat 10) with 10000000000 in Hl.
  specialize (Hl ltac:(lia)). unfold validate_ifname, IFNAMSIZ. rewrite !str_len_app.
  change (str_len "aj-h") with 4%nat. change (str_len "aj-j") with 4%nat.
  rewrite !app_cons. simpl str_is_empty.
  destruct (Nat.leb_spec 16 (4 + str_len (pretty id))%nat); [lia|]. done.
Qed.
Lemma veth_names_fit_witness :
  validate_ifname ("aj-h" +:+ pretty 4294967295) = Ok tt ∧ validate_ifname ("aj-j" +:+ pretty 4294967295) = Ok tt.
Proof. apply (veth_names_fit 4294967295). lia. Defined.
