(* ===== verification/Order.v ===== *)
(** * Calls in order

    Properties of the order in which a program talks to the kernel: which events
    must precede every call of a given kind, whatever the kernel answers. *)

From S2P Require Import Prelude Sys.
Local Open Scope Z_scope.

(** [in_order fs t]: the trace has events satisfying the tests [fs], one after
    the other. *)
Fixpoint in_order (fs : list (event → bool)) (t : trace) : bool :=
  match fs, t with
  | [], _ => true
  | _, [] => false
  | f :: fs', e :: t' => if f e then in_order fs' t' else in_order fs t'
  end.
Lemma in_order_cons fs e t : in_order fs t = true → in_order fs (e :: t) = true.
Proof.
  revert e t. induction fs as [|f fs IH]; intros e t Hin; [done|]. simpl.
  destruct (f e) eqn:Ef; [|done]. revert e Ef Hin. induction t as [|e' t IHt]; intros e Ef Hin; [done|]. simpl in Hin.
  destruct (f e') eqn:Ee'; [by apply IH|]. apply IH. by eapply IHt.
Qed.
Lemma in_order_drop fs t1 t : in_order fs t = true → in_order fs (t1 ++ t) = true.
Proof. induction t1 as [|e t1 IH]; intros Hin; [done|]. by apply in_order_cons, IH. Qed.
Lemma in_order_app fs gs t1 t2 :
  in_order fs t1 = true → in_order gs t2 = true → in_order (fs ++ gs) (t1 ++ t2) = true.
Proof.
  revert fs. induction t1 as [|e t1 IH]; intros fs H1 H2; simpl.
  { by destruct fs. }
  destruct fs as [|f fs]; simpl in *.
  { by apply in_order_cons, in_order_drop. }
  destruct (f e); [by apply IH|]. by apply (IH (f :: fs)).
Qed.
Lemma in_order_mono fs t t' : in_order fs t = true → in_order fs (t ++ t') = true.
Proof. intros H1. rewrite <- (app_nil_r fs). apply in_order_app; [done|by destruct t']. Qed.

Lemma in_order_prefix fs gs t : in_order (fs ++ gs) t = true → in_order fs t = true.
Proof.
  revert fs. induction t as [|e t IH]; intros [|f fs]; simpl; try done. destruct (f e); [apply IH|apply (IH (f :: fs))].
Qed.

Lemma in_order_split fs gs t :
  in_order (fs ++ gs) t = true → ∃ t1 t2, t = t1 ++ t2 ∧ in_order fs t1 = true ∧ in_order gs t2 = true.
Proof.
  revert fs. induction t as [|e t IH]; intros [|f fs] Hin; simpl in *.
  - by exists [], [].
  - done.
  - by exists [], (e :: t).
  - destruct (f e) eqn:Ef.
    + destruct (IH fs Hin) as (t1 & t2 & -> & H1 & H2). exists (e :: t1), t2. simpl. by rewrite Ef.
    + destruct (IH (f :: fs) Hin) as (t1 & t2 & -> & H1 & H2). exists (e :: t1), t2. simpl. by rewrite Ef.
Qed.
(** Each test of an ordered list has its event. *)
Lemma in_order_event f fs t : in_order (f :: fs) t = true → ∃ i e, t !! i = Some e ∧ f e = true.
Proof.
  induction t as [|e t IH]; simpl; [done|]. destruct (f e) eqn:Ef; [by exists 0%nat, e|].
  intros (i & e' & Hi & He)%IH. by exists (S i), e'.
Qed.

(** Every answer of a run is the kernel's. *)
Lemma run_follows {A} K (p : prog A) tr :
  (∀ i c r, tr !! i = Some (c, r) → r = K (take i tr) c) →
  ∀ i c r, (run K tr p).1 !! i = Some (c, r) → r = K (take i (run K tr p).1) c.
Proof.
  revert tr. induction p as [a| |c' k IH]; intros tr Htr; simpl; [done..|]. apply IH.
  intros i c r Hi. destruct (decide (i < length tr)%nat) as [Hlt|Hge].
  - rewrite lookup_app_l in Hi by done. rewrite take_app_le by lia. by apply Htr.
  - rewrite lookup_app_r in Hi by lia. apply list_lookup_singleton_Some in Hi as [Hi [= -> <-]].
    rewrite take_app_le by lia. by rewrite take_ge by lia.
Qed.

Section order.
(** The calls to be guarded. *)
Context {bad : syscall → bool}.

(** Every guarded call is preceded by [R], in order. *)
Definition guarded (R : list (event → bool)) (t : trace) : Prop :=
  ∀ i c r, t !! i = Some (c, r) → bad c = true → in_order R (take i t) = true.
Lemma guarded_nil R : guarded R [].
Proof. by intros i c r Hi. Qed.
Lemma guarded_snoc R t c r :
  guarded R t → (bad c = true → in_order R t = true) → guarded R (t ++ [(c, r)]).
Proof.
  intros Hg Hc i c' r' Hi Hb. destruct (decide (i < length t)%nat) as [Hlt|Hge].
  - rewrite lookup_app_l in Hi by done. rewrite take_app_le by lia. by eapply Hg.
  - rewrite lookup_app_r in Hi by lia. apply list_lookup_singleton_Some in Hi as [Hi [= -> ->]].
    rewrite take_app_le by lia. rewrite take_ge by lia. by apply Hc.
Qed.

(** Programs that make no guarded call. *)
Fixpoint avoids {A} (p : prog A) : Prop :=
  match p with
  | Call c k => bad c = false ∧ ∀ r, avoids (k r)
  | _ => True
  end.
Lemma avoids_bind {A B} (p : prog A) (f : A → prog B) : avoids p → (∀ a, avoids (f a)) → avoids (pbind p f).
Proof. intros Hp Hf. induction p as [a| |c k IH]; simpl in *; [auto..|]. destruct Hp as [Hc Hk]. split; auto. Qed.
Lemma avoids_assoc {A B C} (p : prog A) (f : A → prog B) (k : B → prog C) :
  avoids (let* a := p in pbind (f a) k) → avoids (pbind (pbind p f) k).
Proof. induction p as [a| |c k' IH]; simpl; [done..|]. intros [Hc Hk]. split; auto. Qed.
Lemma avoids_jbind {E A B} (m : prog (outcome E A)) (f : A → prog (outcome E B)) :
  avoids m → (∀ a, avoids (f a)) → avoids (jbind m f).
Proof. intros Hm Hf. apply avoids_bind; [done|]. intros [a|e|]; simpl; auto. Qed.
Lemma avoids_for_each_in {E A} (body : A → prog (outcome E unit)) l : (∀ x, x ∈ l → avoids (body x)) → avoids (for_each body l).
Proof.
  intros Hb. induction l as [|x l IH]; [done|]. simpl. apply avoids_jbind; [apply Hb; set_solver|].
  intros _. apply IH. set_solver.
Qed.
Lemma avoids_for_all {A} (body : A → prog unit) l : (∀ x, avoids (body x)) → avoids (for_all_do body l).
Proof. intros Hb. induction l as [|x l IH]; [done|]. simpl. by apply avoids_bind. Qed.
Lemma avoids_sys c : bad c = false → avoids (sys c).
Proof. by split. Qed.
Lemma avoids_try_io w c : bad c = false → avoids (try_io w c).
Proof. by split. Qed.
Lemma avoids_try_errno w c : bad c = false → avoids (try_errno w c).
Proof. by split. Qed.
Lemma avoids_exit {A} code : bad (Exit code) = false → avoids (A := A) (exit code).
Proof. by split. Qed.
Lemma avoids_finally {A} (p : prog A) c : avoids p → bad c = false → avoids (finally p c).
Proof. intros Hp Hc. apply avoids_bind; [done|]. done. Qed.

(** [adds R gs p]: [p] is guarded by [R], and when it succeeds, tests [gs] have
    been met after those met before it. *)
Definition adds {A} (R gs : list (event → bool)) (p : prog (outcome JailError A)) : Prop :=
  ∀ fs tr, in_order fs tr = true → guarded R tr →
    wp p (upon (λ _ t, in_order (fs ++ gs) t = true ∧ guarded R t) (guarded R)) tr.
Lemma adds_jbind {A B} R gs hs (m : prog (outcome JailError A)) (f : A → prog (outcome JailError B)) :
  adds R gs m → (∀ a, adds R hs (f a)) → adds R (gs ++ hs) (jbind m f).
Proof.
  intros Hm Hf fs tr Hin Hg. eapply wp_jbind; [by apply Hm|]. intros a t [Ha Hga]. rewrite app_assoc. by apply Hf.
Qed.
Lemma wp_avoids {A} R (p : prog A) fs tr :
  avoids p → in_order fs tr = true → guarded R tr → wp p (λ _ t, in_order fs t = true ∧ guarded R t) tr.
Proof.
  revert tr. induction p as [a| |c k IH]; intros tr Hn Hin Hg; simpl in *; [done..|].
  destruct Hn as [Hc Hk]. intros r. apply IH; [done|by apply in_order_mono|].
  apply guarded_snoc; [done|congruence].
Qed.
Lemma adds_avoids {A} R (p : prog (outcome JailError A)) : avoids p → adds R [] p.
Proof.
  intros Hn fs tr Hin Hg. rewrite app_nil_r. eapply wp_mono; [|by apply (wp_avoids R)].
  intros [[a|e|]|] t [Ht Hgt]; by repeat split.
Qed.
(** Programs that cannot return [Ok]. *)
Definition fails {A} (q : prog (outcome JailError A)) : Prop :=
  avoids q ∧ ∀ tr, wp q (λ o _, match o with Some (Ok _) => False | _ => True end) tr.
Lemma fails_err {A} e : fails (A := A) (perr e).
Proof. by split. Qed.
Lemma fails_exit {A} code : bad (Exit code) = false → fails (A := A) (exit code).
Proof. by split. Qed.
Lemma fails_log {A} msg (q : prog (outcome JailError A)) :
  bad (Eprintln msg) = false → fails q → fails (sys (Eprintln msg) ;;* q).
Proof. intros Hb [Hn Hq]. split; [by split|]. intros tr r. apply Hq. Qed.
Lemma adds_fails {A} R gs (q : prog (outcome JailError A)) : fails q → adds R gs q.
Proof.
  intros [Hn Hq] fs tr Hin Hg. eapply wp_mono; [|apply wp_and; [apply (wp_avoids R _ fs)|apply Hq]]; [|done..].
  intros [[a|e|]|] t [[Ht Hgt] Hf]; by repeat split.
Qed.
(** A call whose answer is tested: what follows a good answer adds [gs], what
    follows a bad one fails. *)
Lemma adds_call {A} R (f : event → bool) gs c (k : ret → prog (outcome JailError A)) :
  bad c = false → (∀ r, f (c, r) = true → adds R gs (k r)) → (∀ r, f (c, r) = false → fails (k r)) →
  adds R (f :: gs) (let* r := sys c in k r).
Proof.
  intros Hc Hgood Hbad fs tr Hin Hg r. simpl.
  assert (guarded R (tr ++ [(c, r)])) as Hg' by (apply guarded_snoc; [done|congruence]).
  destruct (f (c, r)) eqn:Ef.
  - replace (fs ++ f :: gs) with ((fs ++ [f]) ++ gs) by (by rewrite <- app_assoc).
    apply Hgood; [done| |done]. apply in_order_app; [done|]. simpl. by rewrite Ef.
  - apply adds_fails; [by apply Hbad| |done]. by apply in_order_mono.
Qed.
(** A call that matters for nothing. *)
Lemma adds_skip {A} R gs c (k : ret → prog (outcome JailError A)) :
  bad c = false → (∀ r, adds R gs (k r)) → adds R gs (let* r := sys c in k r).
Proof.
  intros Hc Hk fs tr Hin Hg r. apply Hk; [by apply in_order_mono|]. apply guarded_snoc; [done|congruence].
Qed.
Lemma adds_avoids_bind {A B} R gs (p : prog A) (k : A → prog (outcome JailError B)) :
  avoids p → (∀ a, adds R gs (k a)) → adds R gs (pbind p k).
Proof.
  intros Hn Hk fs tr Hin Hg. rewrite wp_bind. eapply wp_mono; [|by apply (wp_avoids R _ fs)].
  intros [a|] t [Ht Hgt]; [by apply Hk|]. by repeat split.
Qed.

(** Tests: the call was made; it succeeded; it returned 0. *)
Definition called (c : syscall) (e : event) : bool := bool_decide (e.1 = c).
Definition succeeded (c : syscall) (e : event) : bool := bool_decide (e.1 = c) && ok e.2.
Definition zeroed (c : syscall) (e : event) : bool := bool_decide (e.1 = c) && (rv e.2 =? 0).
Lemma succeeded_at c r : succeeded c (c, r) = ok r.
Proof. unfold succeeded. by rewrite bool_decide_eq_true_2. Qed.
Lemma zeroed_at c r : zeroed c (c, r) = (rv r =? 0).
Proof. unfold zeroed. by rewrite bool_decide_eq_true_2. Qed.
Lemma called_at c r : called c (c, r) = true.
Proof. unfold called. by rewrite bool_decide_eq_true_2. Qed.
Lemma adds_try_io R w c : bad c = false → adds R [succeeded c] (try_io w c).
Proof.
  intros Hc. apply (adds_call R _ [] c (λ r, Ret (if ok r then Ok r else Err (w (Os (rerr r)))))); [done|..]; intros r; rewrite succeeded_at; intros ->; [by apply adds_avoids|by split].
Qed.
Lemma adds_try_errno R w c : bad c = false → adds R [succeeded c] (try_errno w c).
Proof.
  intros Hc. apply (adds_call R _ [] c (λ r, Ret (if ok r then Ok r else Err (w (rerr r))))); [done|..]; intros r; rewrite succeeded_at; intros ->; [by apply adds_avoids|by split].
Qed.
Lemma adds_try_io_test R (f : event → bool) w c :
  bad c = false → (∀ r, ok r = true → f (c, r) = true) → adds R [f] (try_io w c).
Proof.
  intros Hc Hf. apply (adds_call R f [] c (λ r, Ret (if ok r then Ok r else Err (w (Os (rerr r)))))); [done|..]; intros r Hr.
  - by apply adds_avoids.
  - destruct (ok r) eqn:E; [by rewrite Hf in Hr|by split].
Qed.
Lemma adds_called {A} R gs c (k : ret → prog (outcome JailError A)) :
  bad c = false → (∀ r, adds R gs (k r)) → adds R (called c :: gs) (let* r := sys c in k r).
Proof. intros Hc Hk. apply adds_call; [done|intros r _; apply Hk|]. intros r. by rewrite called_at. Qed.

(** [finishes R p fs]: after the tests [fs], [p] makes a guarded call only
    once all of [R] has been met. *)
Definition finishes {A} (R : list (event → bool)) (fs : list (event → bool)) (p : prog A) : Prop :=
  ∀ tr, in_order fs tr = true → guarded R tr → wp p (λ _ t, guarded R t) tr.
Lemma finishes_avoids {A} R fs (p : prog A) : avoids p → finishes R fs p.
Proof. intros Hn tr Hin Hg. eapply wp_mono; [|by apply (wp_avoids R _ fs)]. intros o t [_ Ht]. done. Qed.
Lemma finishes_bind {A B} R fs gs (m : prog (outcome JailError A)) (k : outcome JailError A → prog B) :
  adds R gs m → (∀ a, finishes R (fs ++ gs) (k (Ok a))) → (∀ e, avoids (k (Err e))) → avoids (k Panic) →
  finishes R fs (pbind m k).
Proof.
  intros Hm Hk He Hp tr Hin Hg. rewrite wp_bind. eapply wp_mono; [|by apply Hm].
  intros [[a|e|]|] t [Hg' Ht]; [destruct Ht; by apply Hk| | |done].
  all: apply (finishes_avoids R []); [done|by destruct t|done].
Qed.
Lemma finishes_jbind {A B} R fs gs (m : prog (outcome JailError A)) (f : A → prog (outcome JailError B)) :
  adds R gs m → (∀ a, finishes R (fs ++ gs) (f a)) → finishes R fs (jbind m f).
Proof. intros Hm Hf. by apply finishes_bind with gs. Qed.
Lemma finishes_skip {A B} R fs (m : prog A) (k : A → prog B) :
  avoids m → (∀ a, finishes R fs (k a)) → finishes R fs (pbind m k).
Proof.
  intros Hm Hk tr Hin Hg. rewrite wp_bind. eapply wp_mono; [|by apply (wp_avoids R _ fs)].
  intros [a|] t [Ht Hgt]; [by apply Hk|done].
Qed.
Lemma finishes_call {A} R fs f c (k : ret → prog A) :
  bad c = false → (∀ r, f (c, r) = true → finishes R (fs ++ [f]) (k r)) → (∀ r, f (c, r) = false → avoids (k r)) →
  finishes R fs (let* r := sys c in k r).
Proof.
  intros Hc Hgood Hbad tr Hin Hg r. simpl.
  assert (guarded R (tr ++ [(c, r)])) as Hg' by (apply guarded_snoc; [done|congruence]).
  destruct (f (c, r)) eqn:Ef.
  - apply Hgood; [done| |done]. apply in_order_app; [done|]. simpl. by rewrite Ef.
  - apply (finishes_avoids R fs); [by apply Hbad| |done]. by apply in_order_mono.
Qed.
Lemma finishes_called {A} R fs c (k : ret → prog A) :
  bad c = false → (∀ r, finishes R (fs ++ [called c]) (k r)) → finishes R fs (let* r := sys c in k r).
Proof. intros Hc Hk. apply (finishes_call R fs (called c)); [done|auto|]. intros r. by rewrite called_at. Qed.

Lemma finishes_jassoc {A B C} R fs (p : prog (outcome JailError A)) (q : prog (outcome JailError B)) (k : B → prog (outcome JailError C)) :
  finishes R fs (let! b := (p ;;! q) in k b) → finishes R fs (p ;;! (let! b := q in k b)).
Proof.
  intros Hp tr Hin Hg. specialize (Hp tr Hin Hg). unfold jbind in *. rewrite !wp_bind in Hp. rewrite !wp_bind.
  eapply wp_mono; [|exact Hp]. intros [[a|e|]|] t Ht; try done. by apply wp_bind.
Qed.
Lemma finishes_assoc {A B C} R fs (p : prog A) (f : A → prog B) (k : B → prog C) :
  finishes R fs (let* a := p in pbind (f a) k) → finishes R fs (pbind (pbind p f) k).
Proof.
  intros Hp tr Hin Hg. specialize (Hp tr Hin Hg). rewrite wp_bind in Hp. rewrite !wp_bind.
  eapply wp_mono; [|exact Hp]. intros [a|] t Ht; [by apply wp_bind|done].
Qed.
(** What follows makes no guarded call. *)
Lemma finishes_then {A B} R fs (p : prog A) (k : A → prog B) :
  finishes R fs p → (∀ a, avoids (k a)) → finishes R fs (pbind p k).
Proof.
  intros Hp Hk tr Hin Hg. rewrite wp_bind. eapply wp_mono; [|by apply Hp]. intros [a|] t Ht; [|done].
  by apply (finishes_avoids R []); [|destruct t|].
Qed.
(** Once [R] is met, nothing more is asked. *)
Lemma finishes_all {A} R fs (p : prog A) : finishes R (R ++ fs) p.
Proof.
  intros tr Hin. assert (in_order R tr = true) as HR by (by eapply in_order_prefix). clear Hin.
  revert tr HR. induction p as [a| |c k IH]; intros tr HR Hg; simpl; [done..|].
  intros r. apply IH; [by apply in_order_mono|]. by apply guarded_snoc.
Qed.
End order.
Arguments guarded bad R t : clear implicits.
Arguments avoids bad {A} p.
Arguments adds bad {A} R gs p.
Arguments fails bad {A} q.
Arguments finishes bad {A} R fs p.

(** Only starting a program and probing for a directory are guarded. *)
Definition quiet (bad : syscall → bool) : Prop :=
  ∀ c, match c with Execve _ _ _ | IsDir _ => True | _ => bad c = false end.

(** Programs assembled from calls that are not guarded avoid the guarded ones;
    leaves the calls that need an argument. *)
Ltac avoids_tac :=
  repeat lazymatch goal with
  | |- ∀ _, _ => intros ?
  | |- avoids _ (pbind _ _) => apply avoids_bind
  | |- avoids _ (jbind _ _) => apply avoids_jbind
  | |- avoids _ (for_each _ _) => apply avoids_for_each_in
  | |- avoids _ (for_all_do _ _) => apply avoids_for_all
  | |- avoids _ (finally _ _) => apply avoids_finally
  | |- avoids _ (sys _) => apply avoids_sys
  | |- avoids _ (try_io _ _) => apply avoids_try_io
  | |- avoids _ (try_errno _ _) => apply avoids_try_errno
  | |- avoids _ (exit _) => apply avoids_exit
  | |- avoids _ (pok _) => exact I
  | |- avoids _ (perr _) => exact I
  | |- avoids _ (Ret _) => exact I
  | |- avoids _ (if ?b then _ else _) => destruct b
  | |- avoids _ (match ?x with _ => _ end) => destruct x
  | |- _ = false =>
      first [ reflexivity | assumption
            | match goal with Hb : quiet ?bad |- ?bad ?c = false => exact (Hb c) end
            | fail 1 ]
  end.

(** ** Programs that make only calls with [P] *)
Fixpoint only {A} (P : syscall → Prop) (p : prog A) : Prop :=
  match p with Call c k => P c ∧ ∀ r, only P (k r) | _ => True end.
Lemma only_bind {A B} P (p : prog A) (f : A → prog B) : only P p → (∀ a, only P (f a)) → only P (pbind p f).
Proof. intros Hp Hf. induction p as [a| |c k IH]; simpl in *; [auto..|]. destruct Hp as [Hc Hk]. split; auto. Qed.
Lemma only_jbind {E A B} P (m : prog (outcome E A)) (f : A → prog (outcome E B)) : only P m → (∀ a, only P (f a)) → only P (jbind m f).
Proof. intros Hm Hf. apply only_bind; [done|]. intros [a|e|]; simpl; auto. Qed.
Lemma only_for_each {E A} P (body : A → prog (outcome E unit)) l : (∀ x, x ∈ l → only P (body x)) → only P (for_each body l).
Proof.
  intros Hb. induction l as [|x l IH]; [done|]. simpl. apply only_jbind; [apply Hb; set_solver|]. intros _. apply IH. set_solver.
Qed.
Lemma only_run {A} P (p : prog A) K tr c r :
  only P p → (c, r) ∈ (run K tr p).1 → (c, r) ∈ tr ∨ P c.
Proof.
  revert tr. induction p as [a| |c' k IH]; intros tr Hp Hin; simpl in *; [by left..|]. destruct Hp as [Hc Hk].
  destruct (IH _ _ (Hk _) Hin) as [Ht|?]; [|by right]. apply elem_of_app in Ht as [?|?%list_elem_of_singleton]; [by left|]. simplify_eq. by right.
Qed.
