(* ===== verification/Config.v ===== *)
(** * Jail configuration and system-call filters

    Models [agentjail/src/config.rs] (the configuration and its presets) and
    [seccomp.rs].  The [seccompiler] crate is a class: how its conditions, rules
    and compiled filters decide is what its documentation says. *)

From S2P Require Import Prelude Text Sys.
Local Open Scope Z_scope.

Inductive Access := ReadOnly | WriteOnly | ReadWrite.
#[export] Instance Access_eq_dec : EqDecision Access.
Proof. solve_decision. Defined.
Inductive Network := NetNone | NetLoopback | NetAllowlist (domains : list string).
Inductive SeccompLevel := SecDisabled | SecStandard | SecStrict.
#[export] Instance SeccompLevel_eq_dec : EqDecision SeccompLevel.
Proof. solve_decision. Defined.
Record GpuConfig := MkGpuConfig { gpu_enabled : bool; gpu_devices : list Z }.

Record JailConfig := MkJailConfig {
  source : string; output : string; source_rw : bool;
  network : Network; seccomp : SeccompLevel; landlock : bool;
  memory_mb : Z; cpu_percent : Z; max_pids : Z; io_read_mbps : Z; io_write_mbps : Z;
  timeout_secs : Z; cfg_env : list (string * string);
  user_namespace : bool; pid_namespace : bool; ipc_namespace : bool;
  workdir : string; gpu : GpuConfig; readonly_overlays : list string
}.
Definition config_default : JailConfig := {|
  source := ""; output := ""; source_rw := false;
  network := NetNone; seccomp := SecStandard; landlock := true;
  memory_mb := 512; cpu_percent := 100; max_pids := 64; io_read_mbps := 0; io_write_mbps := 0;
  timeout_secs := 300; cfg_env := [];
  user_namespace := true; pid_namespace := true; ipc_namespace := true;
  workdir := "/workspace"; gpu := MkGpuConfig false []; readonly_overlays := []
|}.
(** Struct update syntax: the fields a preset names, the rest from the default. *)
Definition with_fields (src out : string) (net : Network) (sec : SeccompLevel) (mem cpu pids timeout : Z) (g : GpuConfig) : JailConfig :=
  let d := config_default in {|
  source := src; output := out; source_rw := source_rw d;
  network := net; seccomp := sec; landlock := landlock d;
  memory_mb := mem; cpu_percent := cpu; max_pids := pids;
  io_read_mbps := io_read_mbps d; io_write_mbps := io_write_mbps d;
  timeout_secs := timeout; cfg_env := cfg_env d;
  user_namespace := user_namespace d; pid_namespace := pid_namespace d; ipc_namespace := ipc_namespace d;
  workdir := workdir d; gpu := g; readonly_overlays := readonly_overlays d
|}.
Definition no_gpu : GpuConfig := gpu config_default.
Definition preset_build (src out : string) : JailConfig :=
  with_fields src out NetNone SecStrict 512 400 128 600 no_gpu.
Definition preset_install (src out : string) (allowed : list string) : JailConfig :=
  with_fields src out (NetAllowlist allowed) SecStandard 512 400 128 600 no_gpu.
Definition preset_agent (src out : string) : JailConfig :=
  with_fields src out NetNone SecStandard 256 100 32 300 no_gpu.
Definition preset_gpu (src out : string) : JailConfig :=
  with_fields src out NetNone SecStandard 8192 400 256 3600 (MkGpuConfig true []).
Definition preset_dev (src out : string) : JailConfig :=
  with_fields src out NetLoopback SecStandard 1024 400 256 3600 no_gpu.

(** ** System-call numbers (x86_64) *)
Definition SYS_ioctl := 16.
Definition SYS_socket := 41.
Definition SYS_clone := 56.
Definition SYS_clone3 := 435.
Definition SYS_mount := 165.
Definition SYS_unshare := 272.

(** Modules, reboot, tracing, both mount APIs, namespaces, host identity,
    accounting and swap, clocks, keyrings, bpf and perf, userfaultfd, io_uring,
    personality, clone3, memfd_create, mount_setattr, chroot, file handles,
    mknodat, fanotify, quotactl, syslog; then the x86_64-only ones. *)
Definition base_blocked_syscalls : list Z :=
  [175; 313; 176] ++ [169; 246] ++ [101; 310; 311] ++ [SYS_mount; 166; 155] ++
  [428; 429; 430; 431; 432; 433] ++ [SYS_unshare; 308] ++ [170; 171] ++ [163; 167; 168] ++
  [164; 227; 159] ++ [248; 249; 250] ++ [321; 298] ++ [323] ++ [425; 426; 427] ++
  [135] ++ [SYS_clone3] ++ [319] ++ [442] ++ [161] ++ [303; 304] ++ [259] ++ [300] ++ [179] ++ [103] ++
  [172; 173; 320; 133].
(** socket, socketpair, connect, accept, accept4, bind, listen, sendto, recvfrom,
    sendmsg, recvmsg, sendmmsg, recvmmsg, shutdown *)
Definition strict_extra : list Z :=
  [SYS_socket; 53; 42; 43; 288; 49; 50; 44; 45; 46; 47; 307; 299; 48].

(** ** The [seccompiler] crate

    A condition compares the low 32 bits of one argument with a value ([Dword],
    [Eq]); a rule holds when all its conditions do; a filter built with the
    mismatch action [Allow] and the match action [Errno(EPERM)] denies a call when
    its number is a key with an empty rule list or with a rule that holds. *)
Class Seccompiler := {
  Condition : Type; Rule : Type; Filter : Type; Program : Type;
  cond_new : Z → Z → outcome string Condition;
  rule_new : list Condition → outcome string Rule;
  filter_new : gmap Z (list Rule) → outcome string Filter;
  filter_compile : Filter → outcome string Program;
  cond_holds : Condition → list Z → bool;
  rule_holds : Rule → list Z → bool;
  program_denies : Program → Z → list Z → bool;
  cond_new_spec arg v c args :
    cond_new arg v = Ok c →
    cond_holds c args = (nth (Z.to_nat arg) args 0 mod 2 ^ 32 =? v mod 2 ^ 32);
  rule_new_spec cs r args : rule_new cs = Ok r → rule_holds r args = forallb (λ c, cond_holds c args) cs;
  compile_spec rules f p nr args :
    filter_new rules = Ok f → filter_compile f = Ok p →
    program_denies p nr args =
    match rules !! nr with
    | None => false
    | Some [] => true
    | Some rs => existsb (λ r, rule_holds r args) rs
    end
}.

Section seccomp.
Context `{Seccompiler}.
Definition TIOCSTI := 21522.
Definition sec_err {A} (o : outcome string A) : outcome JailError A := omap_err SeccompErr o.
Definition one_cond (arg v : Z) : outcome JailError Rule :=
  (let? c := sec_err (cond_new arg v) in sec_err (rule_new [c]))%rust.
(** AF_NETLINK, AF_PACKET, AF_VSOCK *)
Definition blocked_families : list Z := [16; 17; 40].
Fixpoint family_rules (afs : list Z) : outcome JailError (list Rule) :=
  match afs with
  | [] => Ok []
  | af :: afs' => (let? r := one_cond 0 af in let? rs := family_rules afs' in Ok (r :: rs))%rust
  end.
(** The map collected from the numbers, each with an empty rule list. *)
Definition blocklist_rules (blocked : list Z) : gmap Z (list Rule) := list_to_map ((λ n, (n, [])) <$> blocked).
Definition build_blocklist_filter (blocked : list Z) : outcome JailError Filter :=
  (let? tiocsti_rule := one_cond 1 TIOCSTI in
   let rules := <[SYS_ioctl := [tiocsti_rule]]> (blocklist_rules blocked) in
   let? rules := match rules !! SYS_socket with
                 | Some _ => Ok rules
                 | None => let? socket_rules := family_rules blocked_families in Ok (<[SYS_socket := socket_rules]> rules)
                 end in
   sec_err (filter_new rules))%rust.
Definition build_standard_filter : outcome JailError Filter := build_blocklist_filter base_blocked_syscalls.
Definition build_strict_filter : outcome JailError Filter :=
  build_blocklist_filter (base_blocked_syscalls ++ strict_extra).
Definition compile (level : SeccompLevel) : outcome JailError (option Program) :=
  match level with
  | SecDisabled => Ok None
  | _ => (let? filter := (if decide (level = SecStandard) then build_standard_filter else build_strict_filter) in
          let? bpf := sec_err (filter_compile filter) in Ok (Some bpf))%rust
  end.

(** ** What the filters deny *)
Definition arg32 (i : nat) (args : list Z) : Z := nth i args 0 mod 2 ^ 32.
Definition denied_spec (level : SeccompLevel) (nr : Z) (args : list Z) : bool :=
  match level with
  | SecDisabled => false
  | _ => bool_decide (nr ∈ base_blocked_syscalls)
         || (bool_decide (level = SecStrict) && bool_decide (nr ∈ strict_extra))
         || ((nr =? SYS_ioctl) && (arg32 1 args =? TIOCSTI))
         || ((nr =? SYS_socket) && bool_decide (arg32 0 args ∈ blocked_families))
  end.

Lemma one_cond_holds arg v r args :
  one_cond arg v = Ok r → rule_holds r args = (nth (Z.to_nat arg) args 0 mod 2 ^ 32 =? v mod 2 ^ 32).
Proof.
  unfold one_cond, sec_err. destruct (cond_new arg v) as [c|e|] eqn:Ec; [|done..]. simpl.
  destruct (rule_new [c]) as [r'|e|] eqn:Er; [|done..]. intros [= <-].
  rewrite (rule_new_spec _ _ args Er). simpl. by rewrite (cond_new_spec _ _ _ args Ec), andb_true_r.
Qed.
Lemma family_rules_hold afs rs args :
  Forall (λ a, 0 <= a < 2 ^ 32) afs → family_rules afs = Ok rs →
  existsb (λ r, rule_holds r args) rs = bool_decide (arg32 0 args ∈ afs) ∧ length rs = length afs.
Proof.
  intros Ha. revert rs. induction Ha as [|af afs Haf Hafs IH]; intros rs; simpl.
  { by intros [= <-]. }
  destruct (one_cond 0 af) as [r|e|] eqn:Er; [|done..]. simpl.
  destruct (family_rules afs) as [rs'|e|]; [|done..]. intros [= <-]. destruct (IH rs' eq_refl) as [IHe IHl].
  simpl. rewrite (one_cond_holds _ _ _ args Er), IHe, IHl. split; [|done].
  change (Z.to_nat 0) with 0%nat. fold (arg32 0 args). rewrite (Z.mod_small af) by lia.
  apply eq_true_iff_eq. rewrite orb_true_iff, Z.eqb_eq, !bool_decide_eq_true, elem_of_cons. done.
Qed.
Lemma blocklist_lookup blocked nr :
  blocklist_rules blocked !! nr = if bool_decide (nr ∈ blocked) then Some [] else None.
Proof.
  unfold blocklist_rules. induction blocked as [|b bs IH]; [done|]. rewrite fmap_cons, list_to_map_cons.
  destruct (decide (nr = b)) as [->|Hn].
  - rewrite lookup_insert_eq. by rewrite bool_decide_eq_true_2 by set_solver.
  - rewrite lookup_insert_ne by done. rewrite IH.
    by destruct (bool_decide_reflect (nr ∈ bs)), (bool_decide_reflect (nr ∈ b :: bs)); set_solver.
Qed.

Lemma build_denies blocked f p nr args :
  SYS_ioctl ∉ blocked → build_blocklist_filter blocked = Ok f → filter_compile f = Ok p →
  program_denies p nr args =
  bool_decide (nr ∈ blocked) || ((nr =? SYS_ioctl) && (arg32 1 args =? TIOCSTI))
  || ((nr =? SYS_socket) && bool_decide (arg32 0 args ∈ blocked_families)).
Proof.
  intros Hio. unfold build_blocklist_filter.
  destruct (one_cond 1 TIOCSTI) as [r|e|] eqn:Er; [|done..]. cbn [obind]. unfold sec_err.
  pose proof (one_cond_holds _ _ _ args Er) as Hr. change (Z.to_nat 1) with 1%nat in Hr.
  fold (arg32 1 args) in Hr. change (TIOCSTI mod 2 ^ 32) with TIOCSTI in Hr.
  rewrite lookup_insert_ne, blocklist_lookup by done.
  destruct (bool_decide_reflect (SYS_socket ∈ blocked)) as [Hs|Hs]; cbn [obind].
  - destruct (filter_new _) as [f'|e|] eqn:Ef; [|done..]. intros [= <-] Hp. rewrite (compile_spec _ _ _ nr args Ef Hp).
    destruct (Z.eqb_spec nr SYS_ioctl) as [->|Hn].
    + rewrite lookup_insert_eq. simpl. rewrite Hr, bool_decide_eq_false_2 by done. by rewrite !orb_false_r.
    + rewrite lookup_insert_ne, blocklist_lookup by done.
      destruct (bool_decide_reflect (nr ∈ blocked)); [done|]. simpl.
      destruct (Z.eqb_spec nr SYS_socket) as [->|]; [done|]. done.
  - destruct (family_rules blocked_families) as [rs|e|] eqn:Efam; [|done..]. cbn [obind].
    destruct (family_rules_hold blocked_families _ args ltac:(repeat constructor; lia) Efam) as [Hfam Hlen].
    destruct (filter_new _) as [f'|e|] eqn:Ef; [|done..]. intros [= <-] Hp. rewrite (compile_spec _ _ _ nr args Ef Hp).
    destruct (Z.eqb_spec nr SYS_socket) as [->|Hns].
    + rewrite lookup_insert_eq. rewrite bool_decide_eq_false_2 by done. simpl.
      destruct rs as [|r0 rs]; [done|]. by rewrite Hfam.
    + rewrite lookup_insert_ne by done. rewrite andb_false_l, orb_false_r.
      destruct (Z.eqb_spec nr SYS_ioctl) as [->|Hn].
      * rewrite lookup_insert_eq. simpl. rewrite Hr, bool_decide_eq_false_2 by done. by rewrite orb_false_r.
      * rewrite lookup_insert_ne, blocklist_lookup by done. by destruct (bool_decide_reflect (nr ∈ blocked)).
Qed.

Lemma ioctl_not_base : SYS_ioctl ∉ base_blocked_syscalls.
Proof. by apply (bool_decide_unpack _); vm_compute. Qed.
Lemma ioctl_not_strict : SYS_ioctl ∉ base_blocked_syscalls ++ strict_extra.
Proof. by apply (bool_decide_unpack _); vm_compute. Qed.
Lemma compile_denies level p nr args :
  compile level = Ok (Some p) → program_denies p nr args = denied_spec level nr args.
Proof.
  destruct level; simpl; [done| |].
  - unfold build_standard_filter. destruct (build_blocklist_filter _) as [f|e|] eqn:Ef; [|done..]. simpl.
    unfold sec_err. destruct (filter_compile f) as [p'|e|] eqn:Ep; [|done..]. intros [= <-].
    rewrite (build_denies _ _ _ nr args ioctl_not_base Ef Ep). simpl. by rewrite orb_false_r.
  - unfold build_strict_filter. destruct (build_blocklist_filter _) as [f|e|] eqn:Ef; [|done..]. simpl.
    unfold sec_err. destruct (filter_compile f) as [p'|e|] eqn:Ep; [|done..]. intros [= <-].
    rewrite (build_denies _ _ _ nr args ioctl_not_strict Ef Ep). f_equal. f_equal.
    apply eq_true_iff_eq. rewrite orb_true_iff, !bool_decide_eq_true. apply elem_of_app.
Qed.

(** ** The reference

    The x86_64 numbers of the kernel's table, in its order, that no jail may use
    whatever the arguments; written down from the kernel's table and not from the
    lists above. *)
Definition never_allowed (nr : Z) : bool :=
  match nr with
  | 101 (* ptrace *) | 103 (* syslog *) | 133 (* mknod *) | 135 (* personality *) | 155 (* pivot_root *)
  | 159 (* adjtimex *) | 161 (* chroot *) | 163 (* acct *) | 164 (* settimeofday *) | 165 (* mount *)
  | 166 (* umount2 *) | 167 (* swapon *) | 168 (* swapoff *) | 169 (* reboot *) | 170 (* sethostname *)
  | 171 (* setdomainname *) | 172 (* iopl *) | 173 (* ioperm *) | 175 (* init_module *) | 176 (* delete_module *)
  | 179 (* quotactl *) | 227 (* clock_settime *) | 246 (* kexec_load *) | 248 (* add_key *) | 249 (* request_key *)
  | 250 (* keyctl *) | 259 (* mknodat *) | 272 (* unshare *) | 298 (* perf_event_open *) | 300 (* fanotify_init *)
  | 303 (* name_to_handle_at *) | 304 (* open_by_handle_at *) | 308 (* setns *) | 310 (* process_vm_readv *)
  | 311 (* process_vm_writev *) | 313 (* finit_module *) | 319 (* memfd_create *) | 320 (* kexec_file_load *)
  | 321 (* bpf *) | 323 (* userfaultfd *) | 425 | 426 | 427 (* io_uring_* *)
  | 428 | 429 | 430 | 431 | 432 | 433 (* open_tree to fspick: the new mount API *)
  | 435 (* clone3 *) | 442 (* mount_setattr *) => true
  | _ => false
  end.
(** The calls on sockets: socket (41) to listen (50) and socketpair (53) without
    getsockname (51) and getpeername (52), then accept4, recvmmsg and sendmmsg. *)
Definition socket_call (nr : Z) : bool :=
  ((41 <=? nr) && (nr <=? 50)) || (nr =? 53) || (nr =? 288) || (nr =? 299) || (nr =? 307).
(** The decision, on the whole registers: the kernel reads an ioctl request and a
    socket family from the low half of theirs. *)
Definition denied_ref (level : SeccompLevel) (nr : Z) (args : list Z) : bool :=
  match level with
  | SecDisabled => false
  | SecStandard => never_allowed nr || ((nr =? 16) && (arg32 1 args =? 0x5412))
                   || ((nr =? 41) && ((arg32 0 args =? 16) || (arg32 0 args =? 17) || (arg32 0 args =? 40)))
  | SecStrict => never_allowed nr || ((nr =? 16) && (arg32 1 args =? 0x5412)) || socket_call nr
  end.
(** What the README's table of attacks says is blocked, by attack. *)
Definition readme_blocked : list (string * list Z) :=
  [("Mount manipulation", [165; 428; 429; 430; 431; 432; 433; 442]); ("chroot escape", [161]); ("io_uring bypass", [425; 426; 427]);
   ("Compat-mode escape", [135]); ("Namespace escape", [435; 272; 308]); ("BPF / perf", [321; 298; 323]); ("Executable memory", [319])]%string.

(** Two decisions on a finite set of numbers agree everywhere if they agree on it. *)
Lemma agree_on (f g : Z → bool) (l : list Z) :
  Forall (λ n, f n = g n) l → (∀ n, f n = true → n ∈ l) → (∀ n, g n = true → n ∈ l) → ∀ n, f n = g n.
Proof.
  intros Hl Hf Hg n. rewrite Forall_forall in Hl. destruct (f n) eqn:Ef; [by rewrite <- Ef; apply Hl, Hf|].
  destruct (g n) eqn:Eg; [|done]. rewrite <- Ef, <- Eg. by apply Hl, Hg.
Qed.
Definition table : list Z := Z.of_nat <$> seq 0 512.
Lemma in_table n : 0 <= n < 512 → n ∈ table.
Proof. intros Hn. apply list_elem_of_fmap. exists (Z.to_nat n). rewrite Z2Nat.id by lia. split; [done|]. apply elem_of_seq. lia. Qed.
Lemma never_allowed_range n : never_allowed n = true → n ∈ table.
Proof.
  intros Hn. apply in_table. destruct (decide (0 <= n < 512)) as [|Ho]; [done|]. exfalso.
  destruct n as [|p|p]; [done| |done]. do 10 (destruct p as [p|p|]; try discriminate Hn; try lia).
Qed.
Lemma blocked_range l n : forallb (λ x, (0 <=? x) && (x <? 512)) l = true → bool_decide (n ∈ l) = true → n ∈ table.
Proof.
  rewrite forallb_forall, bool_decide_eq_true. intros Hl Hn. apply in_table. apply list_elem_of_In, Hl, andb_true_iff in Hn. lia.
Qed.
Lemma base_is_never_allowed n : bool_decide (n ∈ base_blocked_syscalls) = never_allowed n.
Proof.
  revert n. apply (agree_on _ _ table); [|by intros n; apply blocked_range|apply never_allowed_range].
  apply Forall_forall. intros n Hn. revert n Hn. apply (Forall_forall (λ n, bool_decide (n ∈ base_blocked_syscalls) = never_allowed n)).
  apply (Forall_impl (λ n, Is_true (Bool.eqb (bool_decide (n ∈ base_blocked_syscalls)) (never_allowed n)))).
  - apply forallb_True. by vm_compute.
  - intros n Hn%Is_true_true. by apply eqb_prop.
Qed.
Lemma extra_is_socket n : bool_decide (n ∈ strict_extra) = socket_call n.
Proof.
  revert n. apply (agree_on _ _ table); [|by intros n; apply blocked_range|].
  - apply (Forall_impl (λ n, Is_true (Bool.eqb (bool_decide (n ∈ strict_extra)) (socket_call n)))).
    + apply forallb_True. by vm_compute.
    + intros n Hn%Is_true_true. by apply eqb_prop.
  - intros n Hn. apply in_table. unfold socket_call in Hn. rewrite !orb_true_iff, andb_true_iff, !Z.eqb_eq, !Z.leb_le in Hn. lia.
Qed.
Lemma denied_spec_ref level nr args : denied_spec level nr args = denied_ref level nr args.
Proof.
  unfold denied_spec, denied_ref. destruct level; [done|..]; rewrite base_is_never_allowed; simpl.
  - rewrite orb_false_r. f_equal. f_equal. apply eq_true_iff_eq. unfold blocked_families.
    rewrite bool_decide_eq_true, !elem_of_cons, elem_of_nil, !orb_true_iff, !Z.eqb_eq. tauto.
  - rewrite extra_is_socket. fold SYS_ioctl. destruct (never_allowed nr); [done|]. cbn [orb].
    destruct (Z.eqb_spec nr SYS_socket) as [->|]; simpl; [by rewrite ?orb_true_r|]. rewrite ?orb_false_r. apply orb_comm.
Qed.

(** C36: What the filters deny.  Whenever a filter compiles, the program's decision is
    that of a reference written down independently from the kernel's table, on every
    number and all arguments: the calls that no jail may use; [ioctl] with the
    request 0x5412 (TIOCSTI) in the low half of its register; in standard mode
    [socket] for the netlink, packet and vsock families, in strict mode every call on
    sockets; everything else passes.  Both levels so deny, whatever the arguments,
    every system call that the README's table of attacks says is blocked, and
    [Disabled] yields no program. *)
Theorem seccomp_denies_exactly (level : SeccompLevel) (o : option Program) :
  compile level = Ok o →
  match o with
  | Some p => level ≠ SecDisabled ∧ (∀ nr args, program_denies p nr args = denied_ref level nr args) ∧
      (∀ attack calls nr args, (attack, calls) ∈ readme_blocked → nr ∈ calls → program_denies p nr args = true)
  | None => level = SecDisabled
  end.
Proof.
  intros Hc. destruct o as [p|].
  - assert (level ≠ SecDisabled) as Hl by (by intros ->). split; [done|].
    assert (∀ nr args, program_denies p nr args = denied_ref level nr args) as Hd
      by (intros nr args; rewrite (compile_denies _ _ _ _ Hc); apply denied_spec_ref).
    split; [done|]. intros attack calls nr args Ha Hnr. rewrite Hd.
    assert (never_allowed nr = true) as Hn; [|by destruct level; simpl; rewrite ?Hn].
    assert (Forall (λ r, Forall (λ n, never_allowed n = true) r.2) readme_blocked) as Hall by (repeat constructor).
    rewrite Forall_forall in Hall. specialize (Hall _ Ha). rewrite Forall_forall in Hall. auto.
  - destruct level; [done|exfalso..]; revert Hc; simpl.
    + by destruct build_standard_filter as [f|e|]; simpl; [destruct (filter_compile f)|..].
    + by destruct build_strict_filter as [f|e|]; simpl; [destruct (filter_compile f)|..].
Qed.

(** The [clone] gap.  The filters deny [clone3], with the stated reason that it
    can create new namespaces past the [unshare]/[setns] block, and [unshare]
    itself; the older [clone], which takes the same namespace flags, passes every
    filter whatever its arguments. *)
Theorem clone_passes_filter (level : SeccompLevel) (p : Program) (args : list Z) :
  compile level = Ok (Some p) →
  program_denies p SYS_clone args = false ∧ program_denies p SYS_clone3 args = true ∧
  program_denies p SYS_unshare args = true.
Proof.
  intros Hc. rewrite !(compile_denies _ _ _ _ Hc). by destruct level; [simpl in Hc; simplify_eq|..].
Qed.
End seccomp.

(** The documentation's reading of the crate, as an instance. *)
#[export] Instance seccompiler_ref : Seccompiler.
Proof.
  refine {| Condition := Z * Z; Rule := list (Z * Z); Filter := gmap Z (list (list (Z * Z))); Program := gmap Z (list (list (Z * Z)));
    cond_new a v := Ok (a, v); rule_new cs := Ok cs; filter_new m := Ok m; filter_compile f := Ok f;
    cond_holds c args := nth (Z.to_nat c.1) args 0 mod 2 ^ 32 =? c.2 mod 2 ^ 32;
    rule_holds r args := forallb (λ c, nth (Z.to_nat c.1) args 0 mod 2 ^ 32 =? c.2 mod 2 ^ 32) r;
    program_denies p nr args :=
      match p !! nr with None => false | Some [] => true
      | Some rs => existsb (λ r, forallb (λ c, nth (Z.to_nat c.1) args 0 mod 2 ^ 32 =? c.2 mod 2 ^ 32) r) rs end |};
    [by intros ???? [= <-]|by intros ??? [= <-]|by intros ????? [= <-] [= <-]].
Defined.
Definition ref_program (level : SeccompLevel) : option Program :=
  match compile level with Ok o => o | _ => None end.
Lemma seccomp_denies_exactly_witness :
  match ref_program SecStrict with
  | Some p => program_denies p 101 [] = true ∧ program_denies p 0 [] = false
  | None => False
  end.
Proof.
  pose proof (seccomp_denies_exactly SecStrict (ref_program SecStrict) eq_refl) as Hs.
  destruct (ref_program SecStrict) as [p|]; [|discriminate Hs]. destruct Hs as (_ & Hd & _). by rewrite !Hd.
Defined.
Lemma clone_passes_filter_witness :
  ∃ p, ref_program SecStandard = Some p ∧
  (program_denies p SYS_clone [268435456] = false ∧ program_denies p SYS_clone3 [268435456] = true ∧
   program_denies p SYS_unshare [268435456] = true).
Proof. eexists. split; [reflexivity|]. apply (clone_passes_filter SecStandard). reflexivity. Defined.
