(* ===== verification/Mount.v ===== *)
(** * The jail's file system view

    Models [agentjail/src/mount.rs]: bind mounts, tmpfs, /proc, the temporary root
    and the switch into it.  [setup_root_exposes] says what a jail sees of the
    host. *)

From S2P Require Import Prelude Text Sys Config.
Local Open Scope Z_scope.

(** ** Paths

    [Path::parent] and [Path::file_name]; trailing slashes and [.] components do
    not count.  Every round shortens the text, so its length is enough fuel. *)
Fixpoint trim_path_fuel (fuel : nat) (s : string) : string :=
  match fuel with
  | O => s
  | S f =>
      match strip_suffix "/" s with
      | Some r => trim_path_fuel f r
      | None => match strip_suffix "/." s with Some r => trim_path_fuel f r | None => s end
      end
  end.
Definition trim_path (s : string) : string := trim_path_fuel (str_len s) s.
Definition path_parent (s : string) : option string :=
  let t := trim_path s in
  if str_is_empty t then None else
  match rsplit_once "/" t with
  | Some (a, _) => Some (let a := trim_path a in if str_is_empty a then "/" else a)
  | None => Some ""
  end.
Definition file_name (s : string) : option string :=
  let t := trim_path s in
  let last := match rsplit_once "/" t with Some (_, b) => b | None => t end in
  if str_is_empty last || String.eqb last ".." || String.eqb last "." then None else Some last.
(** [path.trim_start_matches('/')] *)
Fixpoint trim_slashes (s : string) : string :=
  match s with String a s' => if Ascii.eqb a "/" then trim_slashes s' else s | EmptyString => EmptyString end.

(** ** Flags *)
Definition MS_RDONLY := 1.
Definition MS_NOSUID := 2.
Definition MS_NODEV := 4.
Definition MS_NOEXEC := 8.
Definition MS_BIND := 4096.
Definition MS_REC := 16384.
Definition MS_PRIVATE := 262144.
Definition MNT_DETACH := 2.
(** [path.exists()], [path.is_dir()] *)
Definition yes (r : ret) : bool := 0 <? rv r.

(** The flags of the remount that follows a bind mount. *)
Definition bind_flags (access : Access) (nodev : bool) : Z :=
  let flags := Z.lor MS_BIND MS_NOSUID in
  let flags := if nodev then Z.lor flags MS_NODEV else flags in
  if decide (access = ReadOnly) then Z.lor flags MS_RDONLY else flags.

Definition do_bind_mount (src dst : string) (access : Access) (nodev : bool) : prog (outcome JailError unit) :=
  let* e := sys (Exists src) in
  if negb (yes e) then pok tt else
  let* d := sys (IsDir src) in
  (if yes d then try_io Io (CreateDirAll dst) ;;! pok tt
   else
     match path_parent dst with
     | Some parent => try_io Io (CreateDirAll parent) ;;! pok tt
     | None => pok tt
     end ;;! try_io Io (CreateFile dst) ;;! pok tt) ;;!
  try_errno MountErr (MountFs src dst "" MS_BIND "") ;;!
  try_errno MountErr (Remount dst (bind_flags access nodev)) ;;! pok tt.
Definition bind_mount (src dst : string) (access : Access) := do_bind_mount src dst access true.
Definition bind_mount_dev (src dst : string) (access : Access) := do_bind_mount src dst access false.

Definition tmpfs_options (size_mb : Z) : string := "size=" +:+ pretty size_mb +:+ "m,mode=1777".
Definition mount_tmpfs (dst : string) (size_mb : Z) : prog (outcome JailError unit) :=
  try_io Io (CreateDirAll dst) ;;!
  try_errno MountErr (MountFs "tmpfs" dst "tmpfs" (Z.lor MS_NOSUID MS_NODEV) (tmpfs_options size_mb)) ;;! pok tt.
Definition mount_tmpfs_noexec (dst : string) (size_mb : Z) : prog (outcome JailError unit) :=
  try_io Io (CreateDirAll dst) ;;!
  try_errno MountErr (MountFs "tmpfs" dst "tmpfs" (Z.lor (Z.lor MS_NOSUID MS_NODEV) MS_NOEXEC) (tmpfs_options size_mb)) ;;! pok tt.
Definition mount_proc (dst : string) : prog (outcome JailError unit) :=
  try_io Io (CreateDirAll dst) ;;!
  try_errno MountErr (MountFs "proc" dst "proc" (Z.lor (Z.lor MS_NOSUID MS_NODEV) MS_NOEXEC) "hidepid=invisible") ;;! pok tt.
Definition bind_self (path : string) : prog (outcome JailError unit) :=
  try_errno MountErr (MountFs path path "" (Z.lor MS_BIND MS_REC) "") ;;! pok tt.

(** The suffix is the random bytes at the front of the zeroed array, in hex. *)
Definition make_jail_root : prog (outcome JailError string) :=
  let* n := sys (Getrandom 16) in
  if negb (rv n =? 16) then perr (Io (Os (rerr n))) else
  let suffix := hex_lower (byte_of <$> take 16 (rbytes n ++ replicate 16 0)) in
  let* tmp := sys TempDir in
  let path := path_join (rtext tmp) ("agentjail-" +:+ suffix) in
  try_io Io (DirBuilder 448 path) ;;! pok path.

Definition pivot_into (new_root : string) : prog (outcome JailError unit) :=
  try_io ExecErr (Chdir new_root) ;;!
  let* rc := sys (PivotRoot "." ".") in
  if negb (rv rc =? 0) then perr (MountErr (rerr rc)) else
  let* rc := sys (Umount2 "." MNT_DETACH) in
  if negb (rv rc =? 0) then perr (MountErr (rerr rc)) else
  try_io ExecErr (Chdir "/") ;;! pok tt.

Definition make_root_private : prog (outcome JailError unit) :=
  try_errno MountErr (MountChange "/" (Z.lor MS_REC MS_PRIVATE)) ;;! pok tt.

Definition system_dirs : list string := ["/bin"; "/lib"; "/lib64"; "/usr"]%string.
Definition safe_etc_files : list string :=
  ["ld.so.cache"; "ld.so.conf"; "resolv.conf"; "nsswitch.conf"; "passwd"; "group";
   "ssl/certs/ca-certificates.crt"; "ssl/openssl.cnf"]%string.
Definition dev_rw : list string := ["/dev/null"]%string.
Definition dev_ro : list string := ["/dev/zero"; "/dev/urandom"; "/dev/random"]%string.

Create HintDb keeps.
Section setup.
Context `{DebugFmt}.
(** The loop over the overlays, with the basenames seen so far. *)
Fixpoint mount_overlays (flavors_root : string) (seen : list string) (overlays : list string) : prog (outcome JailError unit) :=
  match overlays with
  | [] => pok tt
  | overlay :: rest =>
      match file_name overlay ≫= (λ n, if utf8_valid n then Some n else None) with
      | None => perr (BadConfig ("readonly overlay has no utf-8 basename: " +:+ from_utf8_lossy overlay))
      | Some name =>
          if bool_decide (name ∈ seen) then
            perr (BadConfig ("duplicate flavor basename " +:+ str_debug name +:+ " in readonly_overlays"))
          else bind_mount overlay (path_join flavors_root name) ReadOnly ;;!
               mount_overlays flavors_root (name :: seen) rest
      end
  end.

Definition setup_root (new_root source output : string) (source_rw : bool) (overlays : list string) : prog (outcome JailError unit) :=
  try_io Io (CreateDirAll new_root) ;;!
  bind_self new_root ;;!
  let source_access := if source_rw then ReadWrite else ReadOnly in
  bind_mount source (path_join new_root "workspace") source_access ;;!
  bind_mount output (path_join new_root "output") ReadWrite ;;!
  for_each (λ dir,
    let* e := sys (Exists dir) in
    if negb (yes e) then pok tt else bind_mount dir (path_join new_root (trim_slashes dir)) ReadOnly) system_dirs ;;!
  let etc_dst := path_join new_root "etc" in
  mount_tmpfs etc_dst 1 ;;!
  for_each (λ name, bind_mount (path_join "/etc" name) (path_join etc_dst name) ReadOnly) safe_etc_files ;;!
  mount_tmpfs_noexec (path_join new_root "tmp") 100 ;;!
  mount_proc (path_join new_root "proc") ;;!
  try_io Io (CreateDirAll (path_join new_root "dev")) ;;!
  for_each (λ node, bind_mount_dev node (path_join new_root (trim_slashes node)) ReadWrite) dev_rw ;;!
  for_each (λ node, bind_mount_dev node (path_join new_root (trim_slashes node)) ReadOnly) dev_ro ;;!
  match overlays with
  | [] => pok tt
  | _ => let flavors_root := path_join new_root "opt/flavors" in
         try_io Io (CreateDirAll flavors_root) ;;! mount_overlays flavors_root [] overlays
  end.

(** ** What a jail may see of the host *)

(** Host path, place in the jail, access, and whether devices are disabled. *)
Definition exposure : Type := string * string * Access * bool.
Definition allowed_exposures (root source output : string) (source_rw : bool) (overlays : list string) : list exposure :=
  let etc f := ("/etc/" +:+ f, path_join (path_join root "etc") f, ReadOnly, true) in
  [(source, path_join root "workspace", if source_rw then ReadWrite else ReadOnly, true);
   (output, path_join root "output", ReadWrite, true);
   ("/bin", path_join root "bin", ReadOnly, true); ("/lib", path_join root "lib", ReadOnly, true);
   ("/lib64", path_join root "lib64", ReadOnly, true); ("/usr", path_join root "usr", ReadOnly, true);
   etc "ld.so.cache"; etc "ld.so.conf"; etc "resolv.conf"; etc "nsswitch.conf"; etc "passwd"; etc "group";
   etc "ssl/certs/ca-certificates.crt"; etc "ssl/openssl.cnf";
   ("/dev/null", path_join root "dev/null", ReadWrite, false); ("/dev/zero", path_join root "dev/zero", ReadOnly, false);
   ("/dev/urandom", path_join root "dev/urandom", ReadOnly, false);
   ("/dev/random", path_join root "dev/random", ReadOnly, false)]%string ++
  omap (λ o, n ← file_name o; Some (o, path_join (path_join root "opt/flavors") n, ReadOnly, true)) overlays.
(** The bits of mount(2): a bind remount, nosuid, read-only and nodev as granted. *)
Definition flags_grant (access : Access) (nodev : bool) (flags : Z) : Prop :=
  Z.testbit flags 12 = true ∧ Z.testbit flags 1 = true ∧
  Z.testbit flags 0 = bool_decide (access = ReadOnly) ∧ Z.testbit flags 2 = nodev.
Lemma bind_flags_grant access nodev : flags_grant access nodev (bind_flags access nodev).
Proof. by destruct access, nodev. Qed.

(** The file systems that do not come from the host: type, place, and whether
    programs on it can be executed. *)
Definition fresh_mounts (root : string) : list (string * string * bool) :=
  [("tmpfs", path_join root "etc", false); ("tmpfs", path_join root "tmp", true); ("proc", path_join root "proc", true)]%string.
Definition fresh_flags (noexec : bool) (flags : Z) : Prop :=
  Z.testbit flags 1 = true ∧ Z.testbit flags 2 = true ∧ Z.testbit flags 3 = noexec.
(** A mount with the bind bit is the new root onto itself, or one of [A] that was
    remounted at once with its flags, successfully; a mount without it is one of the
    fresh file systems, nosuid and nodev. *)
Definition licensed (root : string) (A : list exposure) (src dst fstype : string) (flags : Z) (t : trace) : Prop :=
  if Z.testbit flags 12 then
    (src = root ∧ dst = root) ∨
    ∃ access nodev fl r rest, (src, dst, access, nodev) ∈ A ∧ flags_grant access nodev fl ∧
      t = (Remount dst fl, r) :: rest ∧ ok r = true
  else src = fstype ∧ ∃ noexec, (fstype, dst, noexec) ∈ fresh_mounts root ∧ fresh_flags noexec flags.
(** Every mount of the trace is licensed. *)
Fixpoint locked (root : string) (A : list exposure) (t : trace) : Prop :=
  match t with
  | [] => True
  | (MountFs src dst fstype flags _, _) :: t' => licensed root A src dst fstype flags t' ∧ locked root A t'
  | _ :: t' => locked root A t'
  end.
(** [e] was bound and remounted, both successfully. *)
Definition bound (e : exposure) (t : trace) : Prop :=
  let '(src, dst, access, nodev) := e in
  ∃ t1 r1 fl r2 t2, t = t1 ++ (MountFs src dst "" MS_BIND "", r1) :: (Remount dst fl, r2) :: t2 ∧
    ok r1 = true ∧ ok r2 = true ∧ flags_grant access nodev fl.
(** The kernel said that there is nothing at [src]. *)
Definition absent (src : string) (t : trace) : Prop := ∃ r, (Exists src, r) ∈ t ∧ yes r = false.
Definition shown (e : exposure) (t : trace) : Prop := bound e t ∨ absent e.1.1.1 t.
Lemma locked_app root A t1 t2 : locked root A t1 → locked root A t2 → locked root A (t1 ++ t2).
Proof.
  intros H1 H2. induction t1 as [|[c r] t1 IH]; [done|]. destruct c; simpl in *; auto.
  destruct H1 as [Hb H1]. split; [|auto]. unfold licensed in *. destruct (Z.testbit flags 12); [|done].
  destruct Hb as [Hb|(a & n & fl & r' & rest & Ha & Hfl & -> & Hr)]; [by left|]. right. by exists a, n, fl, r', (rest ++ t2).
Qed.

(** A program that, when it succeeds, has locked all it has mounted. *)
Definition keeps {B} (root : string) (A : list exposure) (p : prog (outcome JailError B)) : Prop :=
  ∀ tr, locked root A tr → wp p (upon (λ _ t, locked root A t) (λ _, True)) tr.
(** A program that, when it succeeds, has made [P] true of the calls. *)
Definition gives {B} (P : trace → Prop) (p : prog (outcome JailError B)) : Prop :=
  ∀ tr, wp p (upon (λ _ t, P t) (λ _, True)) tr.
Definition harmless (c : syscall) : bool := match c with MountFs _ _ _ _ _ => false | _ => true end.
Lemma locked_harmless root A t c r : harmless c = true → locked root A t → locked root A (t ++ [(c, r)]).
Proof. intros Hc Ht. apply locked_app; [done|]. by destruct c. Qed.
Lemma keeps_ok {B} root A (b : B) : keeps root A (pok b).
Proof. intros tr Ht. by split. Qed.
Lemma keeps_err {B} root A e : keeps (B := B) root A (perr e).
Proof. intros tr Ht. by split. Qed.
Lemma keeps_jbind {B C} root A (m : prog (outcome JailError B)) (f : B → prog (outcome JailError C)) :
  keeps root A m → (∀ b, keeps root A (f b)) → keeps root A (jbind m f).
Proof. intros Hm Hf tr Ht. eapply wp_jbind; [by apply Hm|]. intros b t Hb. by apply Hf. Qed.
Lemma keeps_sys {B} root A c (k : ret → prog (outcome JailError B)) :
  harmless c = true → (∀ r, keeps root A (k r)) → keeps root A (let* r := sys c in k r).
Proof. intros Hc Hk tr Ht r. simpl. apply Hk. by apply locked_harmless. Qed.
Lemma keeps_try_io root A w c : harmless c = true → keeps root A (try_io w c).
Proof. intros Hc tr Ht. apply wp_try_io; [done|]. intros r _. by apply locked_harmless. Qed.
Lemma keeps_try_errno root A w c : harmless c = true → keeps root A (try_errno w c).
Proof. intros Hc tr Ht. apply wp_try_errno; [done|]. intros r _. by apply locked_harmless. Qed.
Lemma keeps_mount root A w src dst fstype flags opt :
  licensed root A src dst fstype flags [] → keeps root A (try_errno w (MountFs src dst fstype flags opt)).
Proof. intros Hl tr Ht. apply wp_try_errno; [done|]. intros r _. by apply locked_app. Qed.
Lemma keeps_for_each {B} root A (body : B → prog (outcome JailError unit)) l :
  (∀ x, x ∈ l → keeps root A (body x)) → keeps root A (for_each body l).
Proof.
  intros Hb. induction l as [|x l IH]; [apply keeps_ok|]. simpl. apply keeps_jbind; [apply Hb; set_solver|].
  intros _. apply IH. set_solver.
Qed.
#[local] Hint Resolve keeps_ok keeps_err keeps_try_io keeps_try_errno keeps_jbind : keeps.

Lemma keeps_do_bind root A src dst access nodev :
  (src, dst, access, nodev) ∈ A → keeps root A (do_bind_mount src dst access nodev).
Proof.
  intros Ha. unfold do_bind_mount. apply keeps_sys; [done|]. intros e. destruct (negb (yes e)); [apply keeps_ok|].
  apply keeps_sys; [done|]. intros d. apply keeps_jbind.
  { destruct (yes d); [auto with keeps|]. apply keeps_jbind; [|auto with keeps].
    destruct (path_parent dst); auto with keeps. }
  intros _ tr Ht r. simpl. destruct (ok r); simpl; [|by split].
  intros r'. simpl. destruct (ok r') eqn:Er; simpl; [|by split]. split; [done|].
  rewrite <- app_assoc. apply locked_app; [done|]. simpl. split; [|done]. right. exists access, nodev, (bind_flags access nodev), r', [].
  auto using bind_flags_grant.
Qed.
Lemma keeps_fresh root A dst fstype flags opt noexec :
  Z.testbit flags 12 = false → (fstype, dst, noexec) ∈ fresh_mounts root → fresh_flags noexec flags →
  keeps root A (try_io Io (CreateDirAll dst) ;;! try_errno MountErr (MountFs fstype dst fstype flags opt) ;;! pok tt).
Proof.
  intros Hb Hin Hf. apply keeps_jbind; [auto with keeps|intros _]. apply keeps_jbind; [|auto with keeps].
  apply keeps_mount. unfold licensed. rewrite Hb. eauto.
Qed.
Lemma keeps_overlays root A base seen overlays :
  (∀ o n, o ∈ overlays → file_name o = Some n → (o, path_join base n, ReadOnly, true) ∈ A) →
  keeps root A (mount_overlays base seen overlays).
Proof.
  revert seen. induction overlays as [|o os IH]; intros seen HA; simpl; [apply keeps_ok|].
  destruct (file_name o) as [n|] eqn:En; simpl; [|apply keeps_err].
  destruct (utf8_valid n); [|apply keeps_err]. destruct (bool_decide (n ∈ seen)); [apply keeps_err|].
  apply keeps_jbind; [apply keeps_do_bind, HA; [set_solver|done]|]. intros _. apply IH. set_solver.
Qed.

(** ** What is there in the end *)
Definition monotone (P : trace → Prop) : Prop := ∀ t t', P t → P (t ++ t').
Lemma shown_monotone e : monotone (shown e).
Proof.
  destruct e as [[[src dst] access] nodev]. intros t t' [(t1 & r1 & fl & r2 & t2 & -> & Hr)|(r & Hin & Hr)].
  - left. exists t1, r1, fl, r2, (t2 ++ t'). by rewrite <- app_assoc.
  - right. exists r. rewrite elem_of_app. auto.
Qed.
Lemma gives_left {B C} P (m : prog (outcome JailError B)) (f : B → prog (outcome JailError C)) :
  monotone P → gives P m → gives P (jbind m f).
Proof.
  intros HP Hm tr. eapply wp_jbind; [apply Hm|]. intros b t Ht. eapply wp_mono; [|apply wp_prefix].
  intros o t' [t'' ->]. split; [done|]. destruct o as [[]|]; [by apply HP|done..].
Qed.
Lemma gives_right {B C} P (m : prog (outcome JailError B)) (f : B → prog (outcome JailError C)) :
  (∀ b, gives P (f b)) → gives P (jbind m f).
Proof.
  intros Hf tr. eapply (wp_jbind _ _ _ (λ _ _, True)); [|intros b t _; apply Hf].
  eapply wp_mono; [|apply wp_prefix]. intros o t _. by destruct o as [[]|].
Qed.
Lemma gives_sys {B} P c (k : ret → prog (outcome JailError B)) : (∀ r, gives P (k r)) → gives P (let* r := sys c in k r).
Proof. intros Hk tr r. apply Hk. Qed.
Lemma gives_err {B} P e : gives (B := B) P (perr e).
Proof. by split. Qed.
Lemma gives_for_each {B} P (body : B → prog (outcome JailError unit)) l x :
  monotone P → x ∈ l → gives P (body x) → gives P (for_each body l).
Proof.
  intros HP Hx Hb. induction l as [|y l IH]; [by apply elem_of_nil in Hx|]. simpl.
  apply elem_of_cons in Hx as [->|Hx]; [by apply gives_left|]. apply gives_right. auto.
Qed.
Lemma gives_do_bind src dst access nodev : gives (shown (src, dst, access, nodev)) (do_bind_mount src dst access nodev).
Proof.
  intros tr e. cbn [sys pbind wp]. destruct (yes e) eqn:Ee; cbn [negb].
  2:{ split; [done|]. right. exists e. split; [|done]. rewrite elem_of_app. right. by apply elem_of_cons; left. }
  generalize (tr ++ [(Exists src, e)]). clear. intros tr. revert tr.
  change (gives (shown (src, dst, access, nodev)) (let* d := sys (IsDir src) in
    (if yes d then try_io Io (CreateDirAll dst) ;;! pok tt
     else match path_parent dst with
          | Some parent => try_io Io (CreateDirAll parent) ;;! pok tt
          | None => pok tt
          end ;;! try_io Io (CreateFile dst) ;;! pok tt) ;;!
    try_errno MountErr (MountFs src dst "" MS_BIND "") ;;! try_errno MountErr (Remount dst (bind_flags access nodev)) ;;! pok tt)).
  apply gives_sys. intros d. apply gives_right. intros _ tr r. simpl. destruct (ok r) eqn:Er; simpl; [|by split].
  intros r'. simpl. destruct (ok r') eqn:Er'; simpl; [|by split]. split; [done|]. left.
  exists tr, r, (bind_flags access nodev), r', []. rewrite <- app_assoc. auto using bind_flags_grant.
Qed.
Lemma gives_overlays base seen overlays o n :
  o ∈ overlays → file_name o = Some n → gives (shown (o, path_join base n, ReadOnly, true)) (mount_overlays base seen overlays).
Proof.
  revert seen. induction overlays as [|x os IH]; intros seen Ho Hn; simpl; [by apply elem_of_nil in Ho|].
  destruct (file_name x) as [nx|] eqn:En; simpl; [|apply gives_err].
  destruct (utf8_valid nx); [|apply gives_err]. destruct (bool_decide (nx ∈ seen)); [apply gives_err|].
  apply elem_of_cons in Ho as [->|Ho].
  - rewrite En in Hn. injection Hn as <-. apply gives_left; [apply shown_monotone|apply gives_do_bind].
  - apply gives_right. auto.
Qed.
(** The mounts that are not the host's, made successfully. *)
Definition mounted (root : string) (f : string * string * bool) (t : trace) : Prop :=
  let '(fstype, dst, noexec) := f in ∃ flags opt r, (MountFs fstype dst fstype flags opt, r) ∈ t ∧ ok r = true ∧ fresh_flags noexec flags.
Lemma mounted_monotone root f : monotone (mounted root f).
Proof. destruct f as [[fs dst] nx]. intros t t' (fl & o & r & Hin & Hr). exists fl, o, r. rewrite elem_of_app. tauto. Qed.
Lemma gives_fresh root dst fstype flags opt noexec : fresh_flags noexec flags →
  gives (mounted root (fstype, dst, noexec)) (try_io Io (CreateDirAll dst) ;;! try_errno MountErr (MountFs fstype dst fstype flags opt) ;;! pok tt).
Proof.
  intros Hf. apply gives_right. intros _. apply gives_left; [apply mounted_monotone|]. intros tr. apply wp_try_errno; [done|].
  intros r Hr. exists flags, opt, r. split; [|done]. rewrite elem_of_app. right. by apply elem_of_cons; left.
Qed.

(** The parts of [allowed_exposures]. *)
Section parts.
Context (root src out : string) (rw : bool) (overlays : list string).
Let A := allowed_exposures root src out rw overlays.
Lemma allowed_workspace : (src, path_join root "workspace", if rw then ReadWrite else ReadOnly, true) ∈ A.
Proof. apply elem_of_cons. by left. Qed.
Lemma allowed_output : (out, path_join root "output", ReadWrite, true) ∈ A.
Proof. apply elem_of_cons. right. apply elem_of_cons. by left. Qed.
(** Every entry of a fixed list is found in the table. *)
Ltac in_table Hd :=
  unfold A, allowed_exposures; apply elem_of_app; left; apply list_elem_of_In in Hd; simpl in Hd;
  repeat destruct Hd as [<-|Hd]; [..|done];
  apply list_elem_of_In; simpl; auto 25.
Lemma allowed_system d : d ∈ system_dirs → (d, path_join root (trim_slashes d), ReadOnly, true) ∈ A.
Proof. intros Hd. in_table Hd. Qed.
Lemma allowed_etc n : n ∈ safe_etc_files → (path_join "/etc" n, path_join (path_join root "etc") n, ReadOnly, true) ∈ A.
Proof. intros Hd. in_table Hd. Qed.
Lemma allowed_dev_rw d : d ∈ dev_rw → (d, path_join root (trim_slashes d), ReadWrite, false) ∈ A.
Proof. intros Hd. in_table Hd. Qed.
Lemma allowed_dev_ro d : d ∈ dev_ro → (d, path_join root (trim_slashes d), ReadOnly, false) ∈ A.
Proof. intros Hd. in_table Hd. Qed.
Lemma allowed_overlay o n :
  o ∈ overlays → file_name o = Some n → (o, path_join (path_join root "opt/flavors") n, ReadOnly, true) ∈ A.
Proof. intros Ho Hn. unfold A, allowed_exposures. rewrite !elem_of_app. right. apply list_elem_of_omap. exists o. by rewrite Hn. Qed.
End parts.
#[local] Hint Resolve keeps_do_bind allowed_workspace allowed_output allowed_system allowed_etc allowed_dev_rw allowed_dev_ro : keeps.

Lemma setup_root_keeps root src out rw overlays :
  keeps root (allowed_exposures root src out rw overlays) (setup_root root src out rw overlays).
Proof.
  unfold setup_root, bind_mount, bind_mount_dev, bind_self, mount_tmpfs, mount_tmpfs_noexec, mount_proc.
  apply keeps_jbind; [auto with keeps|intros _].
  apply keeps_jbind; [apply keeps_jbind; [apply keeps_mount; by left|auto with keeps]|intros _].
  apply keeps_jbind; [auto with keeps|intros _]. apply keeps_jbind; [auto with keeps|intros _].
  apply keeps_jbind.
  { apply keeps_for_each. intros d Hd. apply keeps_sys; [done|]. intros e.
    destruct (negb (yes e)); auto with keeps. }
  intros _. apply keeps_jbind; [apply (keeps_fresh _ _ _ _ _ _ false); [done|by left|done]|intros _].
  apply keeps_jbind; [apply keeps_for_each; auto with keeps|intros _].
  apply keeps_jbind; [apply (keeps_fresh _ _ _ _ _ _ true); [done|by right; left|done]|intros _].
  apply keeps_jbind; [apply (keeps_fresh _ _ _ _ _ _ true); [done|by right; right; left|done]|intros _].
  apply keeps_jbind; [auto with keeps|intros _].
  apply keeps_jbind; [apply keeps_for_each; auto with keeps|intros _].
  apply keeps_jbind; [apply keeps_for_each; auto with keeps|intros _].
  destruct overlays as [|o os]; [apply keeps_ok|]. apply keeps_jbind; [auto with keeps|intros _].
  apply keeps_overlays. intros o' n Ho Hn. by apply allowed_overlay.
Qed.

(** Steps of [setup_root] that an entry of the table is not about are skipped. *)
Ltac skip := apply gives_right; intros _.
Ltac here := apply gives_left; [apply shown_monotone|].
(** The table, by the lists that the code goes through. *)
Lemma allowed_exposures_lists root src out rw overlays : allowed_exposures root src out rw overlays =
  [(src, path_join root "workspace", if rw then ReadWrite else ReadOnly, true); (out, path_join root "output", ReadWrite, true)] ++
  ((λ d, (d, path_join root (trim_slashes d), ReadOnly, true)) <$> system_dirs) ++
  ((λ n, (path_join "/etc" n, path_join (path_join root "etc") n, ReadOnly, true)) <$> safe_etc_files) ++
  ((λ d, (d, path_join root (trim_slashes d), ReadWrite, false)) <$> dev_rw) ++
  ((λ d, (d, path_join root (trim_slashes d), ReadOnly, false)) <$> dev_ro) ++
  omap (λ o, n ← file_name o; Some (o, path_join (path_join root "opt/flavors") n, ReadOnly, true)) overlays.
Proof. reflexivity. Qed.
Lemma gives_each {B} (f : B → exposure) (body : B → prog (outcome JailError unit)) l e :
  e ∈ f <$> l → (∀ x, gives (shown (f x)) (body x)) → gives (shown e) (for_each body l).
Proof. intros (x & -> & Hx)%list_elem_of_fmap Hb. by apply gives_for_each with x; [apply shown_monotone| |]. Qed.
Lemma gives_system root dir : gives (shown (dir, path_join root (trim_slashes dir), ReadOnly, true))
  (let* r := sys (Exists dir) in if negb (yes r) then pok tt else bind_mount dir (path_join root (trim_slashes dir)) ReadOnly).
Proof.
  intros tr r. cbn [sys pbind wp]. destruct (yes r) eqn:Er; cbn [negb]; [apply gives_do_bind|].
  split; [done|]. right. exists r. split; [|done]. rewrite elem_of_app. right. by apply elem_of_cons; left.
Qed.
Lemma setup_root_shows root src out rw overlays e :
  e ∈ allowed_exposures root src out rw overlays → gives (shown e) (setup_root root src out rw overlays).
Proof.
  rewrite allowed_exposures_lists, !elem_of_app, !elem_of_cons, elem_of_nil. unfold setup_root.
  intros [[->|[->|[]]]|[He|[He|[He|[He|He]]]]].
  - do 2 skip. here. apply gives_do_bind.
  - do 3 skip. here. apply gives_do_bind.
  - do 4 skip. here. eapply gives_each; [exact He|]. intros d. apply gives_system.
  - do 6 skip. here. eapply gives_each; [exact He|]. intros d. apply gives_do_bind.
  - do 10 skip. here. eapply gives_each; [exact He|]. intros d. apply gives_do_bind.
  - do 11 skip. here. eapply gives_each; [exact He|]. intros d. apply gives_do_bind.
  - apply list_elem_of_omap in He as (o & Ho & Hn). apply bind_Some in Hn as (n & Hn & [= <-]).
    do 12 skip. destruct overlays as [|o' os]; [by apply elem_of_nil in Ho|]. skip. by apply gives_overlays.
Qed.
Lemma setup_root_fresh root src out rw overlays f :
  f ∈ fresh_mounts root → gives (mounted root f) (setup_root root src out rw overlays).
Proof.
  intros Hf. unfold setup_root, mount_tmpfs, mount_tmpfs_noexec, mount_proc. apply list_elem_of_In in Hf. simpl in Hf.
  destruct Hf as [<-|[<-|[<-|[]]]].
  - do 5 skip. apply gives_left; [apply mounted_monotone|by apply gives_fresh].
  - do 7 skip. apply gives_left; [apply mounted_monotone|by apply gives_fresh].
  - do 8 skip. apply gives_left; [apply mounted_monotone|by apply gives_fresh].
Qed.

(** C6: A jail sees exactly what it should of the host.  The table has the source
    directory (writable only when asked), the output directory, the four system
    directories, eight files of /etc, four device nodes and the overlays under their
    basenames.  If [setup_root] succeeds then, on every kernel: every mount with the
    bind flag is the new root onto itself or an entry of the table, and an entry was
    at once remounted, successfully, nosuid, read-only except for the source (when
    asked), the output and /dev/null, and without devices except for the four nodes;
    every other mount is a tmpfs at /etc or /tmp or a proc at /proc, nosuid, nodev
    and, for the last two, noexec.  Conversely each entry of the table was so mounted,
    unless the kernel said that there is nothing at its path on the host, and so was
    each of the three. *)
Theorem setup_root_exposes (K : kernel) (root src out : string) (rw : bool) (overlays : list string) :
  (run K [] (setup_root root src out rw overlays)).2 = Some (Ok tt) →
  let t := (run K [] (setup_root root src out rw overlays)).1 in
  locked root (allowed_exposures root src out rw overlays) t ∧
  (∀ e, e ∈ allowed_exposures root src out rw overlays → shown e t) ∧
  (∀ f, f ∈ fresh_mounts root → mounted root f t).
Proof.
  intros Ho. cbv zeta. split; [|split].
  - destruct (wp_run _ _ _ K (setup_root_keeps root src out rw overlays [] I)) as [_ Hg]. by rewrite Ho in Hg.
  - intros e He. destruct (wp_run _ _ _ K (setup_root_shows root src out rw overlays e He [])) as [_ Hg]. by rewrite Ho in Hg.
  - intros f Hf. destruct (wp_run _ _ _ K (setup_root_fresh root src out rw overlays f Hf [])) as [_ Hg]. by rewrite Ho in Hg.
Qed.
End setup.

(** A host on which every path exists and every call works. *)
Definition host_kernel : kernel := λ _ _, rint 1.
Lemma setup_root_exposes_witness :
  shown ("/src", path_join "/r" "workspace", ReadWrite, true)
    (run host_kernel [] (setup_root "/r" "/src" "/out" true ["/flavors/node"])).1.
Proof.
  destruct (setup_root_exposes host_kernel "/r" "/src" "/out" true ["/flavors/node"]%string) as (_ & Hs & _); [reflexivity|].
  apply Hs. by left.
Defined.
