(* ===== verification/Isolation.v ===== *)
(** * Namespaces, landlock and GPUs

    Models [agentjail/src/namespace.rs], [landlock.rs] and [gpu.rs]. *)

From S2P Require Import Prelude Text Sys Config Netlink Mount.
Local Open Scope Z_scope.

(** ** [namespace.rs] *)
Definition CLONE_NEWNS := 131072.
Definition CLONE_NEWIPC := 134217728.
Definition CLONE_NEWUSER := 268435456.
Definition CLONE_NEWPID := 536870912.
Definition CLONE_NEWNET := 1073741824.

Record NamespaceConfig := MkNs { ns_user : bool; ns_mount : bool; ns_pid : bool; ns_network : bool; ns_ipc : bool }.
Definition ns_default : NamespaceConfig := MkNs true true true true true.
Definition ns_flags (c : NamespaceConfig) : Z :=
  let flag (b : bool) f flags := if b then Z.lor flags f else flags in
  flag (ns_ipc c) CLONE_NEWIPC (flag (ns_network c) CLONE_NEWNET (flag (ns_pid c) CLONE_NEWPID
    (flag (ns_mount c) CLONE_NEWNS (flag (ns_user c) CLONE_NEWUSER 0)))).
Definition enter_namespaces (c : NamespaceConfig) : prog (outcome JailError unit) :=
  try_errno Namespace (Unshare (ns_flags c)) ;;! pok tt.
Definition enter_user_namespace_alone : prog (outcome JailError unit) :=
  try_errno Namespace (Unshare CLONE_NEWUSER) ;;! pok tt.

Definition write_uid_gid_map (child_pid : Z) : prog (outcome JailError unit) :=
  let* uid := sys Getuid in
  let* gid := sys Getgid in
  let proc f := "/proc/" +:+ pretty child_pid +:+ f in
  let map_line id := "0 " +:+ pretty id +:+ " 1" +:+ String NL EmptyString in
  try_io UidMap (WriteFile (proc "/setgroups") "deny") ;;!
  try_io UidMap (WriteFile (proc "/uid_map") (map_line (rv uid))) ;;!
  try_io UidMap (WriteFile (proc "/gid_map") (map_line (rv gid))) ;;! pok tt.

(** [errno] is read after [close] here. *)
Definition setup_loopback : prog (outcome JailError unit) :=
  let* sock := sys (Socket AF_INET SOCK_DGRAM_CLOEXEC 0) in
  if rv sock <? 0 then perr (ExecErr (Os (rerr sock))) else
  let* r := sys (Ioctl (rv sock) SIOCSIFFLAGS (write_ifr_name "lo") (Z.lor IFF_UP IFF_LOOPBACK)) in
  let* c := sys (Close (rv sock)) in
  if rv r <? 0 then perr (ExecErr (Os (rerr c))) else pok tt.

(** ** [landlock.rs]

    The rights of [AccessFs], by their bit. *)
Definition AccessExecute := 1.
Definition AccessWriteFile := 2.
Definition AccessReadFile := 4.
Definition AccessReadDir := 8.
Definition AccessRemoveDir := 16.
Definition AccessRemoveFile := 32.
Definition AccessMakeDir := 128.
Definition AccessMakeReg := 256.
Definition AccessMakeSym := 4096.
Definition access_to_landlock (a : Access) : list Z :=
  match a with
  | ReadOnly => [AccessReadFile; AccessReadDir; AccessExecute]
  | WriteOnly => [AccessWriteFile; AccessRemoveFile; AccessRemoveDir; AccessMakeReg; AccessMakeDir; AccessMakeSym]
  | ReadWrite => [AccessReadFile; AccessReadDir; AccessExecute; AccessWriteFile; AccessRemoveFile;
                  AccessRemoveDir; AccessMakeReg; AccessMakeDir; AccessMakeSym]
  end.
Definition apply_rules (rules : list (string * Access)) : prog (outcome JailError unit) :=
  try_errno LandlockErr (LandlockCreate 5) ;;!
  for_each (λ rule,
    let* e := sys (Exists rule.1) in
    if negb (yes e) then sys (Eprintln ("landlock: skipping non-existent path: " +:+ rule.1)) ;;* pok tt else
    let* fd := sys (LandlockOpen rule.1) in
    if negb (ok fd) then sys (Eprintln ("landlock: cannot open " +:+ rule.1)) ;;* pok tt else
    try_errno LandlockErr (LandlockAddRule (rv fd) (access_to_landlock rule.2)) ;;! pok tt) rules ;;!
  try_errno LandlockErr LandlockRestrict ;;! pok tt.
Definition is_available : prog bool := let* r := sys LandlockProbe in Ret (ok r).

(** ** [gpu.rs] *)
Record NvidiaResources := MkNvidia { nv_ctl : string; nv_uvm : option string; nv_gpus : list string; nv_lib_dirs : list string }.

(** Byte order, which is the order of paths in one directory. *)
Definition path_le (a b : string) : bool := match String.compare a b with Gt => false | _ => true end.
(** The entries up to the first that cannot be read, which is an error. *)
Fixpoint gpu_entries (filter : list Z) (entries : list (option string)) : option (list string) :=
  match entries with
  | [] => Some []
  | None :: _ => None
  | Some name :: rest =>
      gpus ← gpu_entries filter rest;
      Some (match strip_prefix "nvidia" (from_utf8_lossy name) ≫= parse_u32 with
            | Some idx => if bool_decide (filter = []) || bool_decide (idx ∈ filter)
                          then path_join "/dev" name :: gpus else gpus
            | None => gpus
            end)
  end.
Definition discover_gpu_devices (filter : list Z) : prog (outcome JailError (list string)) :=
  let! r := try_io GpuErr (ReadDir "/dev") in
  match gpu_entries filter (rlist r) with
  | Some gpus => pok (sort_by path_le gpus)
  | None => perr (GpuErr (Os (rerr r)))
  end.

Definition nvidia_search_paths : list string :=
  ["/usr/lib/x86_64-linux-gnu"; "/usr/lib/aarch64-linux-gnu"; "/usr/lib64"; "/usr/lib"; "/usr/local/cuda/lib64"]%string.
Definition ldconfig_dir (stdout : string) : option string :=
  let fix go lines := match lines with
    | [] => None
    | line :: rest =>
        if str_contains "libcuda.so.1" line then
          match str_split "=>" line !! 1%nat with
          | Some p => Some (path_parent (trim p))
          | None => go rest
          end
        else go rest
    end in
  go (str_lines stdout) ≫= id.
Definition find_nvidia_lib_via_ldconfig : prog (option string) :=
  let* r := sys (CommandOutput "ldconfig" ["-p"%string]) in
  Ret (if ok r then ldconfig_dir (from_utf8_lossy (rtext r)) else None).
Fixpoint existing_lib_dirs (paths : list string) : prog (list string) :=
  match paths with
  | [] => Ret []
  | dir :: rest =>
      let* a := sys (Exists (path_join dir "libcuda.so.1")) in
      let* found := (if yes a then Ret true else let* b := sys (Exists (path_join dir "libcuda.so")) in Ret (yes b)) in
      let* dirs := existing_lib_dirs rest in
      Ret (if found then dir :: dirs else dirs)
  end.
Definition discover_nvidia_libs : prog (list string) :=
  let* dirs := existing_lib_dirs nvidia_search_paths in
  match dirs with
  | [] => let* o := find_nvidia_lib_via_ldconfig in Ret (match o with Some d => [d] | None => [] end)
  | _ => Ret dirs
  end.
Definition discover (c : GpuConfig) : prog (outcome JailError NvidiaResources) :=
  let ctl := "/dev/nvidiactl" in
  let* e := sys (Exists ctl) in
  if negb (yes e) then perr (GpuErr (NotFoundErr "no NVIDIA GPU found (/dev/nvidiactl missing)")) else
  let* u := sys (Exists "/dev/nvidia-uvm") in
  let uvm := if yes u then Some "/dev/nvidia-uvm"%string else None in
  let! gpus := discover_gpu_devices (gpu_devices c) in
  match gpus with
  | [] => perr (GpuErr (NotFoundErr "no NVIDIA GPU devices found in /dev"))
  | _ =>
      let* lib_dirs := discover_nvidia_libs in
      match lib_dirs with
      | [] => perr (GpuErr (NotFoundErr "NVIDIA libraries not found (libcuda.so.1 missing)"))
      | _ => pok (MkNvidia ctl uvm gpus lib_dirs)
      end
  end.

Definition nvidia_lib (name : string) : bool :=
  (starts_with "libcuda" name || starts_with "libnvidia" name || starts_with "libnvoptix" name
   || starts_with "libnvcuvid" name) && str_contains ".so" name.
Definition mount_nvidia_libs_from (host_dir jail_lib_dir : string) : prog (outcome JailError unit) :=
  let* r := sys (ReadDir host_dir) in
  if negb (ok r) then pok tt else
  for_each (λ entry,
    match entry with
    | None => pok tt
    | Some name =>
        if nvidia_lib (from_utf8_lossy name) then
          let* real := sys (Canonicalize (path_join host_dir name)) in
          if negb (ok real) then pok tt else
          let* f := sys (IsFile (rtext real)) in
          if yes f then bind_mount (rtext real) (path_join jail_lib_dir name) ReadOnly else pok tt
        else pok tt
    end) (rlist r).
Definition gpu_setup_mounts (new_root : string) (res : NvidiaResources) : prog (outcome JailError unit) :=
  let dev_dir := path_join new_root "dev" in
  try_io GpuErr (CreateDirAll dev_dir) ;;!
  bind_mount_dev (nv_ctl res) (path_join dev_dir "nvidiactl") ReadWrite ;;!
  match nv_uvm res with
  | Some uvm => bind_mount_dev uvm (path_join dev_dir "nvidia-uvm") ReadWrite
  | None => pok tt
  end ;;!
  for_each (λ gpu_path,
    match file_name gpu_path with
    | Some name => bind_mount_dev gpu_path (path_join dev_dir name) ReadWrite
    | None => pok tt
    end) (nv_gpus res) ;;!
  let nvidia_lib_dir := path_join new_root "usr/lib/nvidia" in
  try_io GpuErr (CreateDirAll nvidia_lib_dir) ;;!
  for_each (λ host_dir, mount_nvidia_libs_from host_dir nvidia_lib_dir) (nv_lib_dirs res).
Definition gpu_env_vars (c : GpuConfig) : list (string * string) :=
  [("LD_LIBRARY_PATH", "/usr/lib/nvidia")]%string ++
  match gpu_devices c with
  | [] => []
  | ds => [("CUDA_VISIBLE_DEVICES"%string, str_join "," (pretty <$> ds))]
  end.
