(* ===== verification/Child.v ===== *)
(** * Inside the forked child

    Models [agentjail/src/exec.rs]: everything a child does between [fork] and
    [execve].  The compiled seccomp filter is represented by the level it was
    compiled for.  [command_starts_confined] says that no kernel, whatever it
    answers, gets a command to run before every configured confinement step has
    succeeded, in order. *)

From S2P Require Import Prelude Text Sys Order Config Netlink Mount Isolation.
Local Open Scope Z_scope.

Definition PR_SET_PDEATHSIG := 1.
Definition SIGKILL := 9.
Definition PR_CAPBSET_DROP := 24.
Definition PR_SET_SECUREBITS := 28.
Definition PR_SET_NO_NEW_PRIVS := 38.
Definition PR_CAP_AMBIENT := 47.
Definition PR_CAP_AMBIENT_CLEAR_ALL := 4.
Definition RLIMIT_CORE := 4.
Definition RLIMIT_NOFILE := 7.
Definition CAP_VERSION_3 := 537396514.
Definition CLOSE_RANGE_CLOEXEC := 4.

Definition level_code (l : SeccompLevel) : Z :=
  match l with SecDisabled => 0 | SecStandard => 1 | SecStrict => 2 end.
Definition apply_compiled (filter : SeccompLevel) : prog (outcome JailError unit) :=
  let* r := sys (SeccompLoad (level_code filter)) in
  if ok r then pok tt else perr (SeccompErr (rtext r)).

(** [CString::new(s)] refuses an interior NUL. *)
Definition has_nul (s : string) : bool := str_contains (String (byte_of 0) EmptyString) s.
Section child.
Context `{Target} `{DebugFmt}.

Definition env_entry (kv : string * string) : string := kv.1 +:+ "=" +:+ kv.2.
Definition do_exec (cmd : string) (args : list string) (env : list (string * string)) : prog (outcome JailError unit) :=
  if has_nul cmd then perr (ExecErr (OtherErr "invalid command")) else
  match List.find has_nul args with
  | Some a => perr (ExecErr (OtherErr ("argument contains null byte: " +:+ str_debug a)))
  | None =>
      match List.find (λ kv, has_nul (env_entry kv)) env with
      | Some kv => perr (ExecErr (OtherErr ("env var contains null byte: " +:+ env_entry kv)))
      | None =>
          (* on success the process image is gone *)
          Call (Execve cmd (cmd :: args) (env_entry <$> env)) (λ r,
            if ok r then Halt else perr (ExecErr (Os (rerr r))))
      end
  end.

Definition set_fd_limit (max : Z) : prog unit := sys (Setrlimit RLIMIT_NOFILE max) ;;* Ret tt.
Definition set_core_limit (max : Z) : prog unit := sys (Setrlimit RLIMIT_CORE max) ;;* Ret tt.
Definition close_inherited_fds : prog unit := sys (CloseRange 3 4294967295 CLOSE_RANGE_CLOEXEC) ;;* Ret tt.

(** NOROOT, NO_SETUID_FIXUP and their locks. *)
Definition SECUREBITS := Z.lor (Z.lor (Z.lor (Z.shiftl 1 0) (Z.shiftl 1 1)) (Z.shiftl 1 2)) (Z.shiftl 1 3).
Definition all_caps : list Z := Z.of_nat <$> seq 0 64.
Definition drop_all_capabilities : prog unit :=
  sys (Prctl PR_CAP_AMBIENT PR_CAP_AMBIENT_CLEAR_ALL) ;;*
  sys (Prctl PR_SET_SECUREBITS SECUREBITS) ;;*
  for_all_do (λ cap, sys (Prctl PR_CAPBSET_DROP cap) ;;* Ret tt) all_caps ;;*
  sys (Capset CAP_VERSION_3 0 [0; 0; 0; 0; 0; 0]) ;;* Ret tt.

Definition PROC_FLAGS := Z.lor (Z.lor MS_NOSUID MS_NODEV) MS_NOEXEC.
Definition remount_proc : prog (outcome JailError unit) :=
  sys (Umount2 "/proc" MNT_DETACH) ;;*
  let* r := sys (MountFs "proc" "/proc" "proc" PROC_FLAGS "hidepid=invisible") in
  if rv r =? 0 then pok tt else perr (ExecErr (Os (rerr r))).

(** The libc macros on a wait status. *)
Definition WIFEXITED (s : Z) : bool := Z.land s 127 =? 0.
Definition WEXITSTATUS (s : Z) : Z := Z.land (Z.shiftr s 8) 255.
Definition WTERMSIG (s : Z) : Z := Z.land s 127.
Definition WIFSIGNALED (s : Z) : bool := (1 <=? WTERMSIG s) && (WTERMSIG s <=? 126).
Definition wait_exit_code (status : Z) : Z :=
  if WIFEXITED status then WEXITSTATUS status
  else if WIFSIGNALED status then 128 + WTERMSIG status else 1.
(** [waitpid] stores the status; it stays 0 when it fails. *)
Definition wait_status (r : ret) : Z := nth 0 (rbytes r) 0.

Definition enter_pid_namespace_and_exec (filter : option SeccompLevel) (cmd : string) (args : list string)
    (env : list (string * string)) : prog (outcome JailError unit) :=
  try_errno Namespace (Unshare CLONE_NEWPID) ;;!
  let* pid := sys Fork in
  if rv pid =? -1 then perr (ForkErr (rerr pid)) else
  if rv pid =? 0 then
    sys (Prctl PR_SET_PDEATHSIG SIGKILL) ;;*
    let* e := remount_proc in
    if negb (is_ok e) then sys (Eprintln "/proc remount failed (host PID leak)") ;;* exit 127 else
    drop_all_capabilities ;;*
    let* e := match filter with Some bpf => apply_compiled bpf | None => pok tt end in
    if negb (is_ok e) then sys (Eprintln "seccomp failed") ;;* exit 127 else
    let* e := do_exec cmd args env in
    if negb (is_ok e) then sys (Eprintln "exec failed") ;;* exit 127 else Ret Panic
  else
    let* w := sys (Waitpid (rv pid) 0) in
    exit (wait_exit_code (wait_status w)).

(** [overlay.file_name().and_then(|n| n.to_str())] *)
Definition overlay_name (overlay : string) : option string :=
  file_name overlay ≫= (λ n, if utf8_valid n then Some n else None).
Fixpoint flavor_bins (overlays : list string) : prog (list string) :=
  match overlays with
  | [] => Ret []
  | overlay :: rest =>
      match overlay_name overlay with
      | None => flavor_bins rest
      | Some name =>
          let* d := sys (IsDir (path_join overlay "bin")) in
          let* bins := flavor_bins rest in
          Ret (if yes d then ("/opt/flavors/" +:+ name +:+ "/bin") :: bins else bins)
      end
  end.
(** The first PATH entry gets the directories in front; a new entry otherwise. *)
Fixpoint prepend_path (joined : string) (env : list (string * string)) : list (string * string) :=
  match env with
  | [] => [("PATH"%string, joined)]
  | (k, v) :: rest =>
      if String.eqb k "PATH" then (k, if str_is_empty v then joined else joined +:+ ":" +:+ v) :: rest
      else (k, v) :: prepend_path joined rest
  end.
Definition prepend_flavor_bins_to_path (env : list (string * string)) (overlays : list string) : prog (list (string * string)) :=
  let* bins := flavor_bins overlays in
  Ret (match bins with [] => env | _ => prepend_path (str_join ":" bins) env end).

(** Step 0: the user namespace, sandwiched with the parent. *)
Definition setup_userns (cfg : JailConfig) (userns_sync_fd : option Z) : prog (outcome JailError unit) :=
  if user_namespace cfg then
    match userns_sync_fd with
    | None => perr (ExecErr (OtherErr "user_namespace=true requires a userns sync fd"))
    | Some fd =>
        enter_user_namespace_alone ;;!
        let* w := sys (WriteFd fd [1]) in
        if negb (rv w =? 1) then exit 127 else
        let* r := sys (ReadFd fd 1) in
        if negb (rv r =? 1) then exit 127 else pok tt
    end
  else pok tt.

(** Step 2: the network; the host's address when a proxy is used. *)
Definition setup_network (cfg : JailConfig) (sync_fd : option Z) : prog (outcome JailError (option bytes)) :=
  match network cfg with
  | NetNone => pok None
  | NetLoopback => setup_loopback ;;! pok None
  | NetAllowlist _ =>
      match sync_fd with
      | None => pok None
      | Some fd =>
          let* w := sys (WriteFd fd [1]) in
          if negb (rv w =? 1) then exit 127 else
          let* r := sys (ReadFd fd 4) in
          if negb (rv r =? 4) then exit 127 else
          sys (Close fd) ;;*
          let veth_id := from_le (take 4 (rbytes r ++ replicate 4 0)) in
          let '(host_ip, jail_ip) := veth_addrs veth_id in
          let jail_if := "aj-j" +:+ pretty veth_id in
          setup_loopback ;;!
          add_ipv4_addr jail_if jail_ip 30 ;;!
          set_link_up jail_if ;;!
          add_default_route host_ip ;;!
          pok (Some host_ip)
      end
  end.

Definition LANDLOCK_MISSING : string :=
  "config.landlock=true but kernel lacks LSM support (need Linux ≥5.13 with CONFIG_SECURITY_LANDLOCK). Set landlock=false to acknowledge the relaxed posture.".
Definition setup_landlock (cfg : JailConfig) : prog (outcome JailError unit) :=
  if landlock cfg then
    let* avail := is_available in
    if negb avail then perr (ExecErr (OtherErr LANDLOCK_MISSING))
    else apply_rules [(source cfg, ReadOnly); (output cfg, ReadWrite)]
  else pok tt.

(** Steps 9 and 10 without a pid namespace. *)
Definition seccomp_and_exec (filter : option SeccompLevel) (cmd : string) (args : list string)
    (env : list (string * string)) : prog (outcome JailError unit) :=
  drop_all_capabilities ;;*
  match filter with Some bpf => apply_compiled bpf | None => pok tt end ;;!
  do_exec cmd args env.

Definition setup_child (cfg : JailConfig) (gpu_resources : option NvidiaResources) (filter : option SeccompLevel)
    (cmd : string) (args : list string) (sync_fd userns_sync_fd : option Z) : prog (outcome JailError unit) :=
  setup_userns cfg userns_sync_fd ;;!
  enter_namespaces (MkNs false true false true (ipc_namespace cfg)) ;;!
  let! proxy_host_ip := setup_network cfg sync_fd in
  make_root_private ;;!
  let! new_root := make_jail_root in
  setup_root new_root (source cfg) (output cfg) (source_rw cfg) (readonly_overlays cfg) ;;!
  match gpu_resources with Some res => gpu_setup_mounts new_root res | None => pok tt end ;;!
  setup_landlock cfg ;;!
  pivot_into new_root ;;!
  try_io ExecErr (Chdir "/workspace") ;;!
  let env := cfg_env cfg in
  let env := match proxy_host_ip with Some host_ip => env ++ proxy_env_vars host_ip | None => env end in
  let env := match gpu_resources with Some _ => env ++ gpu_env_vars (gpu cfg) | None => env end in
  let* env := match readonly_overlays cfg with [] => Ret env | ovs => prepend_flavor_bins_to_path env ovs end in
  set_fd_limit 4096 ;;*
  set_core_limit 0 ;;*
  sys (Prctl PR_SET_NO_NEW_PRIVS 1) ;;*
  close_inherited_fds ;;*
  if pid_namespace cfg then
    enter_pid_namespace_and_exec filter cmd args env ;;! Ret Panic
  else seccomp_and_exec filter cmd args env.
End child.

(** ** The steps a configuration asks for *)
Definition is_exec (c : syscall) : bool := match c with Execve _ _ _ => true | _ => false end.
Section required.
Context `{Target} `{DebugFmt}.
Definition test_if (b : bool) (fs : list (event → bool)) : list (event → bool) := if b then fs else [].
Definition caps_dropped : list (event → bool) :=
  [called (Prctl PR_CAP_AMBIENT PR_CAP_AMBIENT_CLEAR_ALL); called (Prctl PR_SET_SECUREBITS SECUREBITS)] ++
  ((λ cap, called (Prctl PR_CAPBSET_DROP cap)) <$> all_caps) ++ [called (Capset CAP_VERSION_3 0 [0; 0; 0; 0; 0; 0])].
Definition filter_loaded (filter : option SeccompLevel) : list (event → bool) :=
  match filter with Some l => [succeeded (SeccompLoad (level_code l))] | None => [] end.
Definition pid_isolated : list (event → bool) :=
  [succeeded (Unshare CLONE_NEWPID); zeroed Fork; called (Prctl PR_SET_PDEATHSIG SIGKILL);
   zeroed (MountFs "proc" "/proc" "proc" PROC_FLAGS "hidepid=invisible")].
Definition root_switched : list (event → bool) :=
  [zeroed (PivotRoot "." "."); zeroed (Umount2 "." MNT_DETACH); succeeded (Chdir "/"); succeeded (Chdir "/workspace")].
Definition limits_set : list (event → bool) :=
  [called (Setrlimit RLIMIT_NOFILE 4096); called (Setrlimit RLIMIT_CORE 0);
   called (Prctl PR_SET_NO_NEW_PRIVS 1); called (CloseRange 3 4294967295 CLOSE_RANGE_CLOEXEC)].
Definition confinement (cfg : JailConfig) (filter : option SeccompLevel) : list (event → bool) :=
  test_if (user_namespace cfg) [succeeded (Unshare CLONE_NEWUSER)] ++
  [succeeded (Unshare (ns_flags (MkNs false true false true (ipc_namespace cfg))))] ++
  [succeeded (MountChange "/" (Z.lor MS_REC MS_PRIVATE))] ++
  test_if (landlock cfg) [succeeded LandlockRestrict] ++
  root_switched ++ limits_set ++ test_if (pid_namespace cfg) pid_isolated ++ caps_dropped ++ filter_loaded filter.

Lemma finishes_caps_loop {A} R fs caps (k : prog A) :
  finishes is_exec R (fs ++ ((λ cap, called (Prctl PR_CAPBSET_DROP cap)) <$> caps)) k →
  finishes is_exec R fs (for_all_do (λ cap, sys (Prctl PR_CAPBSET_DROP cap) ;;* Ret tt) caps ;;* k).
Proof.
  revert fs. induction caps as [|c caps IH]; intros fs Hk; [by rewrite app_nil_r in Hk|].
  cbn [for_all_do]. do 2 apply finishes_assoc. apply finishes_called; [done|]. intros r.
  apply IH. rewrite <- app_assoc. done.
Qed.
Lemma finishes_caps {A} R fs (k : prog A) :
  finishes is_exec R (fs ++ caps_dropped) k → finishes is_exec R fs (drop_all_capabilities ;;* k).
Proof.
  intros Hk. unfold drop_all_capabilities.
  apply finishes_assoc, finishes_called; [done|intros _]. apply finishes_assoc, finishes_called; [done|intros _].
  apply finishes_assoc, finishes_caps_loop. apply finishes_assoc, finishes_called; [done|intros _].
  cbn [pbind]. rewrite <- !app_assoc. exact Hk.
Qed.
Lemma adds_filter R filter :
  adds is_exec R (filter_loaded filter) (match filter with Some bpf => apply_compiled bpf | None => pok tt end).
Proof.
  destruct filter as [l|]; [|by apply adds_avoids]. apply (adds_call R _ []); [done|..]; intros r; rewrite succeeded_at; intros ->.
  - by apply adds_avoids.
  - apply fails_err.
Qed.
Lemma finishes_exec R cmd args env : finishes is_exec R R (do_exec cmd args env).
Proof.
  intros tr Hin Hg. unfold do_exec. destruct (has_nul cmd); [done|]. destruct (List.find _ _); [done|].
  destruct (List.find _ _); [done|]. intros r. simpl.
  assert (guarded is_exec R (tr ++ [(Execve cmd (cmd :: args) (env_entry <$> env), r)])) by (by apply guarded_snoc).
  by destruct (ok r).
Qed.
Lemma adds_remount_proc R : adds is_exec R [zeroed (MountFs "proc" "/proc" "proc" PROC_FLAGS "hidepid=invisible")] remount_proc.
Proof.
  apply adds_skip; [done|intros _]. apply (adds_call R _ []); [done|..]; intros r; rewrite zeroed_at; intros ->.
  - by apply adds_avoids.
  - apply fails_err.
Qed.
Lemma finishes_pidns R fs filter cmd args env :
  R = fs ++ pid_isolated ++ caps_dropped ++ filter_loaded filter →
  finishes is_exec R fs (enter_pid_namespace_and_exec filter cmd args env).
Proof.
  intros ->. set (R := fs ++ _). unfold enter_pid_namespace_and_exec.
  apply finishes_jbind with [succeeded (Unshare CLONE_NEWPID)]; [by apply adds_try_errno|intros _].
  apply (finishes_call _ _ (zeroed Fork)); [done|..]; intros pid; rewrite zeroed_at; [intros E|intros E].
  2: { rewrite E. by destruct (rv pid =? -1). }
  rewrite E. destruct (Z.eqb_spec (rv pid) (-1)); [apply Z.eqb_eq in E; lia|].
  apply finishes_called; [done|intros _].
  eapply finishes_bind; [apply adds_remount_proc| |done..]. intros []. cbn [is_ok negb].
  apply finishes_caps. eapply finishes_bind; [apply adds_filter| |done..]. intros []. cbn [is_ok negb].
  intros tr Hin Hg. rewrite wp_bind. eapply wp_mono; [|apply (finishes_exec R)]; [| |done].
  - intros [e|] t Ht; [|done]. destruct (negb (is_ok e)); [|done]. by apply (finishes_avoids R []); [|destruct t|].
  - revert Hin. unfold R. rewrite <- !app_assoc. done.
Qed.
Lemma finishes_plain R fs filter cmd args env :
  R = fs ++ caps_dropped ++ filter_loaded filter → finishes is_exec R fs (seccomp_and_exec filter cmd args env).
Proof.
  intros ->. set (R := fs ++ _). unfold seccomp_and_exec. apply finishes_caps.
  eapply finishes_jbind; [apply adds_filter|intros _]. unfold R. rewrite app_assoc. apply finishes_exec.
Qed.

Lemma quiet_exec : quiet is_exec.
Proof. by intros []. Qed.
Section avoid.
Context {bad : syscall → bool} (Hq : quiet bad).
Lemma avoids_bind_mount src dst a n : bad (IsDir src) = false → avoids bad (do_bind_mount src dst a n).
Proof. intros Hs. unfold do_bind_mount. avoids_tac. Qed.
Lemma avoids_overlays root seen ovs :
  (∀ o, o ∈ ovs → bad (IsDir o) = false) → avoids bad (mount_overlays root seen ovs).
Proof.
  revert seen. induction ovs as [|o os IH]; intros seen Hs; [done|]. cbn [mount_overlays].
  destruct (_ ≫= _); [|done]. destruct (bool_decide _); [done|].
  apply avoids_jbind; [apply avoids_bind_mount, Hs; set_solver|]. intros _. apply IH. set_solver.
Qed.
(** The host paths [setup_root] looks at. *)
Definition mount_sources (src out : string) (ovs : list string) : list string :=
  [src; out] ++ system_dirs ++ (path_join "/etc" <$> safe_etc_files) ++ dev_rw ++ dev_ro ++ ovs.
Lemma avoids_setup_root root src out rw ovs :
  (∀ s, s ∈ mount_sources src out ovs → bad (IsDir s) = false) → avoids bad (setup_root root src out rw ovs).
Proof.
  unfold mount_sources. intros Hs. setoid_rewrite elem_of_app in Hs. setoid_rewrite elem_of_app in Hs.
  setoid_rewrite elem_of_app in Hs. setoid_rewrite elem_of_app in Hs. setoid_rewrite elem_of_app in Hs.
  assert (bad (IsDir src) = false) by (apply Hs; left; by left).
  assert (bad (IsDir out) = false) by (apply Hs; left; by right; left).
  unfold setup_root, bind_self, mount_tmpfs, mount_tmpfs_noexec, mount_proc, bind_mount, bind_mount_dev.
  avoids_tac; try (apply avoids_bind_mount; first [done | apply Hs; auto 10 using list_elem_of_fmap_2]).
  apply avoids_overlays. intros x Hx. apply Hs. auto 10.
Qed.
Lemma avoids_with_nl_socket body : (∀ fd, avoids bad (body fd)) → avoids bad (with_nl_socket body).
Proof. intros Hb. unfold with_nl_socket, net, nl_socket. avoids_tac. apply Hb. Qed.
Lemma avoids_nl_exec fd msg : avoids bad (net (nl_exec fd msg)).
Proof. unfold net, nl_exec. avoids_tac. Qed.
Lemma avoids_ifindex i : avoids bad (net (ifindex i)).
Proof. unfold net, ifindex. avoids_tac. Qed.
Lemma avoids_network cfg fd : avoids bad (setup_network cfg fd).
Proof.
  unfold setup_network, setup_loopback, add_ipv4_addr, set_link_up, add_default_route. avoids_tac.
  all: apply avoids_with_nl_socket; intros s; avoids_tac; auto using avoids_nl_exec, avoids_ifindex.
Qed.
End avoid.
Lemma avoids_gpu root res : avoids is_exec (gpu_setup_mounts root res).
Proof.
  pose proof quiet_exec. unfold gpu_setup_mounts, mount_nvidia_libs_from, bind_mount, bind_mount_dev.
  avoids_tac; by apply avoids_bind_mount.
Qed.
Lemma avoids_bins ovs : avoids is_exec (flavor_bins ovs).
Proof. induction ovs as [|o os IH]; cbn [flavor_bins]; [done|]. avoids_tac; done. Qed.

Lemma adds_userns R cfg fd : adds is_exec R (test_if (user_namespace cfg) [succeeded (Unshare CLONE_NEWUSER)]) (setup_userns cfg fd).
Proof.
  unfold setup_userns, test_if. destruct (user_namespace cfg); [|by apply adds_avoids].
  destruct fd as [fd|]; [|apply adds_fails, fails_err].
  apply (adds_jbind R [_] []); [|intros _; apply adds_avoids; avoids_tac].
  apply (adds_jbind R [_] []); [by apply adds_try_errno|intros _; by apply adds_avoids].
Qed.
Lemma adds_one R (w : Z → JailError) c : is_exec c = false → adds is_exec R [succeeded c] (try_errno w c ;;! pok tt).
Proof. intros Hc. apply (adds_jbind R [_] []); [by apply adds_try_errno|intros _; by apply adds_avoids]. Qed.
Lemma adds_landlock R cfg : adds is_exec R (test_if (landlock cfg) [succeeded LandlockRestrict]) (setup_landlock cfg).
Proof.
  unfold setup_landlock, test_if. destruct (landlock cfg); [|by apply adds_avoids].
  apply adds_avoids_bind; [unfold is_available; avoids_tac|]. intros [|]; [|apply adds_fails, fails_err].
  unfold apply_rules. cbn [negb].
  apply (adds_jbind R [] [_]); [apply adds_avoids; avoids_tac|intros _].
  apply (adds_jbind R [] [_]); [apply adds_avoids; avoids_tac|intros _]. by apply adds_one.
Qed.
Lemma adds_pivot {bad} (Hq : quiet bad) R root :
  adds bad R root_switched (pivot_into root ;;! try_io ExecErr (Chdir "/workspace")).
Proof.
  unfold root_switched. apply (adds_jbind R [_; _; _] [_]); [|intros _; apply adds_try_io, (Hq (Chdir _))].
  unfold pivot_into. apply (adds_jbind R [] [_; _; _]); [apply adds_avoids, avoids_try_io, (Hq (Chdir _))|intros _].
  apply adds_call; [apply (Hq (PivotRoot _ _))|..]; intros r; rewrite zeroed_at; intros ->; [|apply fails_err].
  apply adds_call; [apply (Hq (Umount2 _ _))|..]; intros r'; rewrite zeroed_at; intros ->; [|apply fails_err].
  apply (adds_jbind R [_] []); [apply adds_try_io, (Hq (Chdir _))|intros _; by apply adds_avoids].
Qed.

Lemma setup_child_guarded cfg gpus filter cmd args fd ufd :
  finishes is_exec (confinement cfg filter) [] (setup_child cfg gpus filter cmd args fd ufd).
Proof.
  unfold setup_child. set (R := confinement cfg filter).
  eapply finishes_jbind; [apply adds_userns|intros _].
  eapply finishes_jbind; [by apply adds_one|intros _].
  eapply finishes_jbind; [apply adds_avoids, avoids_network, quiet_exec|intros host].
  eapply finishes_jbind; [by apply adds_one|intros _].
  eapply finishes_jbind; [apply adds_avoids; unfold make_jail_root; avoids_tac|intros root].
  eapply finishes_jbind; [apply adds_avoids, avoids_setup_root; [apply quiet_exec|done]|intros _].
  eapply finishes_jbind; [apply adds_avoids; destruct gpus; [apply avoids_gpu|done]|intros _].
  eapply finishes_jbind; [apply adds_landlock|intros _].
  eapply finishes_jassoc, finishes_jbind; [apply adds_pivot, quiet_exec|intros _].
  apply finishes_skip; [destruct (readonly_overlays cfg); [done|]; unfold prepend_flavor_bins_to_path; avoids_tac; apply avoids_bins|].
  intros env. unfold set_fd_limit, set_core_limit, close_inherited_fds.
  do 2 (apply finishes_assoc, finishes_called; [done|intros _; cbn [pbind]]).
  apply finishes_called; [done|intros _]. apply finishes_assoc, finishes_called; [done|intros _; cbn [pbind]].
  rewrite !app_nil_r, <- !app_assoc. cbn [app].
  destruct (pid_namespace cfg) eqn:Ep.
  - intros tr Hin Hg. unfold jbind. rewrite wp_bind.
    eapply wp_mono; [|eapply (finishes_pidns R _ filter cmd args env); [|exact Hin|exact Hg]].
    + intros [[]|] t Ht; done.
    + unfold R, confinement, limits_set. rewrite Ep. cbn [test_if]. rewrite <- !app_assoc. cbn [app]. by rewrite <- !app_assoc.
  - apply finishes_plain. unfold R, confinement, limits_set. rewrite Ep. cbn [test_if]. rewrite <- !app_assoc. cbn [app]. by rewrite <- !app_assoc.
Qed.

(** C5: The command never starts unconfined.  Take any configuration, any command
    and any kernel: whenever the child calls [execve], the calls before it
    include, in this order and with success where the code checks it: the user
    namespace (if configured), the mount, network (and IPC) namespaces, a private
    root mount, landlock (if configured), the switch to the new root and the
    detachment of the old one, the descriptor and core limits, no-new-privs,
    close-on-exec for inherited descriptors, the PID namespace with a fresh
    hidepid /proc (if configured), all 64 bounding capabilities, the ambient,
    permitted, effective and inheritable sets, and last the seccomp filter. *)
Theorem command_starts_confined (K : kernel) (cfg : JailConfig) (gpus : option NvidiaResources)
    (filter : option SeccompLevel) (cmd : string) (args : list string) (fd ufd : option Z)
    (i : nat) (path : string) (argv envp : list string) (r : ret) :
  (run K [] (setup_child cfg gpus filter cmd args fd ufd)).1 !! i = Some (Execve path argv envp, r) →
  in_order (confinement cfg filter) (take i (run K [] (setup_child cfg gpus filter cmd args fd ufd)).1) = true.
Proof.
  intros Hi. pose proof (setup_child_guarded cfg gpus filter cmd args fd ufd [] eq_refl (guarded_nil _)) as Hw.
  apply (wp_run _ _ _ K) in Hw. by eapply Hw.
Qed.
End required.

(** A kernel that lets the grandchild through. *)
Definition child_kernel : kernel := λ _ c,
  match c with
  | Getrandom n | ReadFd _ n => rint n
  | WriteFd _ msg => rint (Z.of_nat (length msg))
  | _ => rint 0
  end.
Definition sh_run : trace :=
  (run child_kernel [] (setup_child config_default None (Some SecStandard) "/bin/sh" ["-c"; "id"]%string None (Some 5))).1.
Lemma command_starts_confined_witness :
  in_order (confinement config_default (Some SecStandard)) (take (length sh_run - 1) sh_run) = true.
Proof.
  apply (command_starts_confined child_kernel config_default None (Some SecStandard) "/bin/sh" ["-c"; "id"]%string None (Some 5)
    (length sh_run - 1) "/bin/sh" ["/bin/sh"; "-c"; "id"]%string [] (rint 0)).
  vm_compute. reflexivity.
Defined.

(** ** Landlock before the root switch *)
Section landlock_order.
Context `{Target} `{DebugFmt}.
(** A kernel that, as landlock(7) says, refuses to change the file system
    topology once the process has restricted itself. *)
Definition topology_frozen (K : kernel) : Prop :=
  ∀ t r, (LandlockRestrict, r) ∈ t → ok r = true → rv (K t (PivotRoot "." ".")) ≠ 0.

(** Landlock locks the jail out of its own root.  The child restricts itself
    with landlock before it switches roots.  On every kernel that refuses
    [pivot_root] to a restricted process, a configuration with [landlock = true]
    (the default) never starts any command. *)
Theorem landlock_never_starts (K : kernel) (cfg : JailConfig) (gpus : option NvidiaResources)
    (filter : option SeccompLevel) (cmd : string) (args : list string) (fd ufd : option Z) :
  landlock cfg = true → topology_frozen K →
  ∀ path argv envp r, (Execve path argv envp, r) ∉ (run K [] (setup_child cfg gpus filter cmd args fd ufd)).1.
Proof.
  intros Hl Hf path argv envp r [i Hi]%list_elem_of_lookup.
  pose proof (setup_child_guarded cfg gpus filter cmd args fd ufd [] eq_refl (guarded_nil _)) as Hw.
  apply (wp_run _ _ _ K) in Hw. specialize (Hw i _ r Hi eq_refl).
  assert (∃ pre post, confinement cfg filter = pre ++ (succeeded LandlockRestrict :: zeroed (PivotRoot "." ".") :: post)) as (pre & post & Hc).
  { unfold confinement. rewrite Hl.
    exists (test_if (user_namespace cfg) [succeeded (Unshare CLONE_NEWUSER)] ++
            [succeeded (Unshare (ns_flags (MkNs false true false true (ipc_namespace cfg))))] ++
            [succeeded (MountChange "/" (Z.lor MS_REC MS_PRIVATE))]),
      (tail root_switched ++ limits_set ++ test_if (pid_namespace cfg) pid_isolated ++ caps_dropped ++ filter_loaded filter).
    by rewrite <- !app_assoc. }
  rewrite Hc in Hw. apply in_order_split in Hw as (t1 & t2 & Ht & _ & H2).
  apply (in_order_split [_] (_ :: _)) in H2 as (t3 & t4 & -> & H3 & H4).
  apply in_order_event in H3 as (j & [c rl] & Hj & [Ec%bool_decide_eq_true_1 Hok]%andb_true_iff).
  apply in_order_event in H4 as (k & [c' rp] & Hk & [Ec'%bool_decide_eq_true_1 Hz%Z.eqb_eq]%andb_true_iff).
  simpl in *. subst c c'. set (n := (length t1 + length t3 + k)%nat).
  assert (take i (run K [] (setup_child cfg gpus filter cmd args fd ufd)).1 !! n = Some (PivotRoot "." ".", rp)) as Hn.
  { rewrite Ht. unfold n. rewrite lookup_app_r by lia. rewrite lookup_app_r by lia.
    rewrite <- Hk. f_equal. lia. }
  apply lookup_take_Some in Hn as [Hn Hlt]. pose proof (run_follows K _ [] ltac:(done) n _ rp Hn) as Hr.
  apply (Hf (take n (run K [] (setup_child cfg gpus filter cmd args fd ufd)).1) rl); [|done|by rewrite <- Hr].
  apply list_elem_of_lookup. exists (length t1 + j)%nat. apply lookup_lt_Some in Hj as Hj'.
  apply lookup_take_Some. split; [|lia]. rewrite <- (lookup_take_lt _ i) by lia. rewrite Ht.
  rewrite lookup_app_r by lia. rewrite lookup_app_l by lia. rewrite <- Hj. f_equal. lia.
Qed.
End landlock_order.
Definition frozen_kernel : kernel := λ t c,
  match c with
  | PivotRoot _ _ => if existsb (succeeded LandlockRestrict) t then rfail 1 else rint 0
  | _ => child_kernel t c
  end.
Lemma landlock_never_starts_witness :
  (Execve "/bin/sh" ["/bin/sh"%string] [], rint 0) ∉
  (run frozen_kernel [] (setup_child config_default None (Some SecStandard) "/bin/sh" [] None (Some 5))).1.
Proof.
  apply (landlock_never_starts frozen_kernel config_default None (Some SecStandard) "/bin/sh" [] None (Some 5)); [reflexivity|].
  intros t r Hin Hok. assert (existsb (succeeded LandlockRestrict) t = true) as E.
  { apply existsb_exists. exists (LandlockRestrict, r). rewrite <- list_elem_of_In. split; [exact Hin|]. simpl. by rewrite succeeded_at. }
  unfold frozen_kernel. rewrite E. simpl. lia.
Defined.

(** ** Flavors and [PATH] *)
Section flavors.
Context `{Target} `{DebugFmt}.
Definition bin_dirs (ovs : list string) : list string := (λ o, path_join o "bin") <$> ovs.
Definition probe (ovs : list string) (c : syscall) : bool :=
  match c with IsDir p => bool_decide (p ∈ bin_dirs ovs) | _ => false end.
Lemma quiet_probe ovs : quiet (probe ovs).
Proof. by intros []. Qed.
Definition pivoted : list (event → bool) := [zeroed (PivotRoot "." ".")].

Lemma probes_after_pivot cfg filter cmd args fd ufd :
  (∀ s, s ∈ mount_sources (source cfg) (output cfg) (readonly_overlays cfg) → s ∉ bin_dirs (readonly_overlays cfg)) →
  finishes (probe (readonly_overlays cfg)) pivoted [] (setup_child cfg None filter cmd args fd ufd).
Proof.
  intros Hs. set (bad := probe (readonly_overlays cfg)). assert (quiet bad) as Hq by apply quiet_probe.
  unfold setup_child.
  eapply finishes_jbind; [apply adds_avoids; unfold setup_userns, enter_user_namespace_alone; avoids_tac|intros _].
  eapply finishes_jbind; [apply adds_avoids; unfold enter_namespaces; avoids_tac|intros _].
  eapply finishes_jbind; [by apply adds_avoids, avoids_network|intros host].
  eapply finishes_jbind; [apply adds_avoids; unfold make_root_private; avoids_tac|intros _].
  eapply finishes_jbind; [apply adds_avoids; unfold make_jail_root; avoids_tac|intros root].
  eapply finishes_jbind; [apply adds_avoids, avoids_setup_root; [done|]|intros _].
  { intros s Hin. simpl. by apply bool_decide_eq_false_2, Hs. }
  eapply finishes_jbind; [by apply adds_avoids|intros _].
  eapply finishes_jbind; [apply adds_avoids; unfold setup_landlock, apply_rules, is_available; avoids_tac|intros _].
  eapply finishes_jassoc, finishes_jbind; [by apply adds_pivot|intros _].
  rewrite !app_nil_l. apply (finishes_all pivoted).
Qed.

(** Every attempted start of the command has an environment with [P]. *)
Definition execs_with (P : list string → Prop) (t : trace) : Prop :=
  ∀ cmd args env r, (Execve cmd args env, r) ∈ t → P env.
Lemma execs_with_snoc P t c r :
  execs_with P t → (∀ cmd args env, c = Execve cmd args env → P env) → execs_with P (t ++ [(c, r)]).
Proof.
  intros Ht Hc cmd args env r'. rewrite elem_of_app, list_elem_of_singleton.
  intros [?|[= Hx _]]; [by eapply Ht|by eapply Hc].
Qed.
Lemma execs_avoids {A} P (p : prog A) tr :
  avoids is_exec p → execs_with P tr → wp p (λ _ t, execs_with P t) tr.
Proof.
  revert tr. induction p as [a| |c k IH]; intros tr Hn Ht; simpl in *; [done..|]. destruct Hn as [Hc Hk].
  intros r. apply IH; [done|]. apply execs_with_snoc; [done|]. intros cmd args env Hx. by rewrite Hx in Hc.
Qed.
Lemma execs_bind {A B} P (p : prog A) (k : A → prog B) tr :
  wp p (λ _ t, execs_with P t) tr → (∀ a t, execs_with P t → wp (k a) (λ _ t', execs_with P t') t) →
  wp (pbind p k) (λ _ t, execs_with P t) tr.
Proof. intros Hp Hk. rewrite wp_bind. eapply wp_mono; [|exact Hp]. intros [a|] t Ht; [by apply Hk|done]. Qed.
Lemma execs_do_exec cmd args env tr :
  let P e := e = env_entry <$> env in
  execs_with P tr → wp (do_exec cmd args env) (λ _ t, execs_with P t) tr.
Proof.
  intros P Ht. unfold do_exec. destruct (has_nul cmd); [done|]. destruct (List.find _ _); [done|].
  destruct (List.find _ _); [done|]. intros r. simpl.
  assert (execs_with P (tr ++ [(Execve cmd (cmd :: args) (env_entry <$> env), r)])).
  { apply execs_with_snoc; [done|]. by intros ??? [= _ _ <-]. }
  by destruct (ok r).
Qed.
Lemma avoids_caps : avoids is_exec drop_all_capabilities.
Proof. unfold drop_all_capabilities. avoids_tac. Qed.
Lemma avoids_filter filter : avoids is_exec (match filter with Some bpf => apply_compiled bpf | None => pok tt end).
Proof. unfold apply_compiled. avoids_tac. Qed.
Lemma execs_tail (pidns : bool) filter cmd args env tr :
  let P e := e = env_entry <$> env in
  execs_with P tr →
  wp (if pidns then enter_pid_namespace_and_exec filter cmd args env ;;! Ret Panic else seccomp_and_exec filter cmd args env)
    (λ _ t, execs_with P t) tr.
Proof.
  intros P Ht. destruct pidns.
  - apply execs_bind; [|intros [] t Hx; by apply execs_avoids].
    unfold enter_pid_namespace_and_exec. apply execs_bind; [by apply execs_avoids|intros [r|e|] t Hx; [|by apply execs_avoids..]].
    intros pid. set (t' := t ++ _). assert (execs_with P t') by (by apply execs_with_snoc). cbn [pbind].
    destruct (rv pid =? -1); [done|]. destruct (rv pid =? 0); [|by apply execs_avoids; avoids_tac].
    apply execs_bind; [by apply execs_avoids|intros _ t1 E1].
    apply execs_bind; [apply execs_avoids; [unfold remount_proc; avoids_tac|done]|intros e t2 E2].
    destruct (negb (is_ok e)); [by apply execs_avoids|].
    apply execs_bind; [apply execs_avoids; [apply avoids_caps|done]|intros _ t3 E3].
    apply execs_bind; [apply execs_avoids; [apply avoids_filter|done]|intros e' t4 E4].
    destruct (negb (is_ok e')); [by apply execs_avoids|].
    apply execs_bind; [by apply execs_do_exec|intros e'' t5 E5]. by destruct (negb (is_ok e'')); apply execs_avoids.
  - unfold seccomp_and_exec. apply execs_bind; [apply execs_avoids; [apply avoids_caps|done]|intros _ t1 E1].
    apply execs_bind; [apply execs_avoids; [apply avoids_filter|done]|intros [a|e|] t2 E2; [by apply execs_do_exec|by apply execs_avoids..]].
Qed.

(** Every probe for a flavor's [bin] was answered no. *)
Definition all_no (ovs : list string) (t : trace) : Prop :=
  ∀ c r, (c, r) ∈ t → probe ovs c = true → yes r = false.
Lemma all_no_app ovs t t' : all_no ovs (t ++ t') → all_no ovs t.
Proof. intros Ha c r Hin. apply Ha. apply elem_of_app. by left. Qed.
Lemma flavor_bins_none all ovs tr :
  ovs ⊆ all → wp (flavor_bins ovs) (λ o t, tr `prefix_of` t ∧ ∀ bins, o = Some bins → all_no all t → bins = []) tr.
Proof.
  revert tr. induction ovs as [|o ovs IH]; intros tr Hsub; cbn [flavor_bins]; [split; [done|]; by intros bins [= <-]|].
  destruct (overlay_name o) as [n|]; [|apply IH; set_solver]. intros r. cbn [pbind]. rewrite wp_bind.
  eapply wp_mono; [|apply IH; set_solver]. intros [bins|] t [Hp Ht]; simpl.
  - split; [by etransitivity; [|exact Hp]; apply prefix_app_r|]. intros bins' [= <-] Hno.
    rewrite (Ht _ eq_refl Hno). destruct Hp as [t' ->]. rewrite (Hno (IsDir (path_join o "bin")) r); [done| |].
    + rewrite !elem_of_app, list_elem_of_singleton. auto.
    + simpl. apply bool_decide_eq_true_2. apply list_elem_of_fmap. exists o. set_solver.
  - split; [by etransitivity; [|exact Hp]; apply prefix_app_r|done].
Qed.

(** The environment before flavors: the configuration's and the proxy's. *)
Definition base_env (cfg : JailConfig) (env : list string) : Prop :=
  ∃ host, env = env_entry <$> (match host with Some ip => cfg_env cfg ++ proxy_env_vars ip | None => cfg_env cfg end).
Definition no_exec_yet (t : trace) : Prop := execs_with (λ _, False) t.
Lemma wp_no_exec {A B} (p : prog (outcome JailError A)) (f : A → prog (outcome JailError B)) (Q : trace → Prop) tr :
  avoids is_exec p → (∀ t, no_exec_yet t → Q t) → no_exec_yet tr →
  (∀ a t, no_exec_yet t → wp (f a) (λ _, Q) t) → wp (jbind p f) (λ _, Q) tr.
Proof.
  intros Hp HQ Ht Hf. unfold jbind. rewrite wp_bind. eapply wp_mono; [|by apply (execs_avoids (λ _, False))].
  intros [[a|e|]|] t Hx; simpl; [by apply Hf|by apply HQ..].
Qed.
Lemma execs_weaken P t : no_exec_yet t → execs_with P t.
Proof. intros Ht c a e r Hin. by destruct (Ht c a e r Hin). Qed.
Lemma env_after_probes cfg env tr :
  no_exec_yet tr →
  wp (match readonly_overlays cfg with [] => Ret env | ovs => prepend_flavor_bins_to_path env ovs end)
    (λ o t, no_exec_yet t ∧ tr `prefix_of` t ∧ ∀ env', o = Some env' → all_no (readonly_overlays cfg) t → env' = env) tr.
Proof.
  intros Ht. destruct (readonly_overlays cfg) as [|o ovs] eqn:Eo.
  { split; [done|split; [done|]]. by intros env' [= <-]. }
  unfold prepend_flavor_bins_to_path. rewrite wp_bind.
  eapply wp_mono; [|apply wp_and; [by apply (execs_avoids (λ _, False)), Ht; apply avoids_bins|by apply (flavor_bins_none (o :: ovs))]].
  intros [bins|] t [Hx [Hp Hb]]; simpl.
  - split; [done|split; [done|]]. intros env' [= <-] Hno. by rewrite (Hb _ eq_refl Hno).
  - by split.
Qed.
Lemma execs_limits (pidns : bool) filter cmd args env tr :
  no_exec_yet tr →
  wp (set_fd_limit 4096 ;;* set_core_limit 0 ;;* sys (Prctl PR_SET_NO_NEW_PRIVS 1) ;;* close_inherited_fds ;;*
      if pidns then enter_pid_namespace_and_exec filter cmd args env ;;! Ret Panic else seccomp_and_exec filter cmd args env)
    (λ _ t, execs_with (λ e, e = env_entry <$> env) t) tr.
Proof.
  intros Ht. unfold set_fd_limit, set_core_limit, close_inherited_fds.
  apply execs_bind; [by apply execs_avoids; [|apply execs_weaken]|intros _ t1 E1].
  do 3 (apply execs_bind; [by apply execs_avoids|intros _ ? ?]). by apply execs_tail.
Qed.
Lemma exec_env_spec cfg filter cmd args fd ufd :
  wp (setup_child cfg None filter cmd args fd ufd)
    (λ _ t, all_no (readonly_overlays cfg) t → execs_with (base_env cfg) t) [].
Proof.
  set (Q t := all_no (readonly_overlays cfg) t → execs_with (base_env cfg) t).
  assert (∀ t, no_exec_yet t → Q t) as HQ by (intros t Ht _ c a e r Hin; by destruct (Ht c a e r Hin)).
  assert (no_exec_yet []) as Hnil by (intros c a e r; by rewrite elem_of_nil).
  unfold setup_child. pose proof quiet_exec as Hq.
  apply wp_no_exec; [unfold setup_userns, enter_user_namespace_alone; avoids_tac|done..|intros _ t1 E1].
  apply wp_no_exec; [unfold enter_namespaces; avoids_tac|done..|intros _ t2 E2].
  apply wp_no_exec; [by apply avoids_network|done..|intros host t3 E3].
  apply wp_no_exec; [unfold make_root_private; avoids_tac|done..|intros _ t4 E4].
  apply wp_no_exec; [unfold make_jail_root; avoids_tac|done..|intros root t5 E5].
  apply wp_no_exec; [by apply avoids_setup_root|done..|intros _ t6 E6].
  apply wp_no_exec; [done..|intros _ t7 E7].
  apply wp_no_exec; [unfold setup_landlock, apply_rules, is_available; avoids_tac|done..|intros _ t8 E8].
  apply wp_no_exec; [unfold pivot_into; avoids_tac|done..|intros _ t9 E9].
  apply wp_no_exec; [done..|intros _ t10 E10].
  rewrite wp_bind. set (base := match host with Some ip => cfg_env cfg ++ proxy_env_vars ip | None => cfg_env cfg end).
  eapply wp_mono; [|by apply (env_after_probes cfg base)].
  intros [env|] t [Et [Hp Henv]]; [|by apply HQ].
  eapply wp_mono; [|apply wp_and; [apply (execs_limits (pid_namespace cfg) filter cmd args env t Et)|apply wp_prefix]].
  intros _ t' [Hx [t'' ->]] Hno. rewrite (Henv _ eq_refl (all_no_app _ _ _ Hno)) in Hx.
  intros c a e r Hin. exists host. by apply (Hx c a e r).
Qed.

(** Flavors do not reach [PATH].  The child looks for a flavor's [bin] only
    after it has switched roots.  So on every kernel on which the old root is
    gone then (no host flavor directory is found after a successful
    [pivot_root]), and with overlays whose [bin] is not itself mounted, the
    command starts with the configured and proxy variables only: no flavor is
    ever added to its [PATH], contrary to the documentation. *)
Theorem flavor_path_never_set (K : kernel) (cfg : JailConfig) (filter : option SeccompLevel)
    (cmd : string) (args : list string) (fd ufd : option Z) :
  (∀ t o, in_order pivoted t = true → o ∈ readonly_overlays cfg → yes (K t (IsDir (path_join o "bin"))) = false) →
  (∀ s, s ∈ mount_sources (source cfg) (output cfg) (readonly_overlays cfg) → s ∉ bin_dirs (readonly_overlays cfg)) →
  execs_with (base_env cfg) (run K [] (setup_child cfg None filter cmd args fd ufd)).1.
Proof.
  intros Hhide Hs. apply (wp_run _ _ _ K (exec_env_spec cfg filter cmd args fd ufd)).
  intros c r [i Hi]%list_elem_of_lookup Hc.
  pose proof (wp_run _ _ _ K (probes_after_pivot cfg filter cmd args fd ufd Hs [] eq_refl (guarded_nil _))) as Hg.
  specialize (Hg i c r Hi Hc). rewrite (run_follows K _ [] ltac:(done) i c r Hi).
  destruct c; try done. simpl in Hc. apply bool_decide_eq_true_1 in Hc. apply list_elem_of_fmap in Hc as (o & -> & Ho).
  by apply Hhide.
Qed.
End flavors.

(** The default configuration with directories and one flavor. *)
Definition flavored : JailConfig := {|
  source := "/srv/src"; output := "/srv/out"; source_rw := false;
  network := NetNone; seccomp := SecStandard; landlock := true;
  memory_mb := 512; cpu_percent := 100; max_pids := 64; io_read_mbps := 0; io_write_mbps := 0;
  timeout_secs := 300; cfg_env := [("PATH", "/usr/bin:/bin")]%string;
  user_namespace := true; pid_namespace := true; ipc_namespace := true;
  workdir := "/workspace"; gpu := MkGpuConfig false []; readonly_overlays := ["/srv/flavors/nodejs"]%string
|}.
Lemma flavor_path_never_set_witness :
  execs_with (base_env flavored)
    (run child_kernel [] (setup_child flavored None (Some SecStandard) "/bin/sh" ["-c"; "node"]%string None (Some 5))).1.
Proof.
  apply (flavor_path_never_set child_kernel flavored (Some SecStandard) "/bin/sh" ["-c"; "node"]%string None (Some 5)).
  - intros t o _ _. reflexivity.
  - apply Forall_forall. apply (bool_decide_unpack _). vm_compute. exact I.
Defined.
