(* ===== verification/Cgroup.v ===== *)
(** * Resource limits

    Models [agentjail/src/cgroup.rs] and [Jail::create_cgroup] of [run.rs].
    Integers are [u64] with the wrap-around of a release build; [Elapsed] answers
    microseconds since the clock was started.  The text of a cached error is a
    parameter ([show_error]). *)

From S2P Require Import Prelude Text Sys Order Config Netlink Mount.
Local Open Scope Z_scope.

Definition CGROUP_ROOT : string := "/sys/fs/cgroup".
Definition FREEZE_DEADLINE_MS := 50.

(** ** Waiting for the freezer *)
Definition saw_frozen (r : ret) : bool := ok r && existsb (String.eqb "frozen 1") (str_lines (rtext r)).
(** One round of the loop is one unit of fuel; [None] when it runs out.  The text
    of the error is an argument: [snapshot.rs] has the same loop with its own. *)
Fixpoint frozen_loop (fuel : nat) (msg events_path : string) (deadline_us backoff_us : Z) : prog (option (outcome JailError unit)) :=
  match fuel with
  | O => Ret None
  | S f =>
      let* contents := sys (ReadFile events_path) in
      if saw_frozen contents then Ret (Some (Ok tt)) else
      let* now := sys Elapsed in
      if deadline_us <=? rv now then
        Ret (Some (Err (CgroupErr (TimedOutErr msg))))
      else
        sys (SleepUs backoff_us) ;;*
        frozen_loop f msg events_path deadline_us (Z.min (u64 (backoff_us * 2)) 1600)
  end.
Definition wait_for_frozen (fuel : nat) (path : string) (deadline_us : Z) : prog (option (outcome JailError unit)) :=
  frozen_loop fuel "cgroup did not reach frozen state within 50ms" (path_join path "cgroup.events") deadline_us 100.
(** Rounds that are always enough for 50 ms, see [freeze_terminates]. *)
Definition FREEZE_ROUNDS : nat := 36.

(** ** The cgroup *)
Record Cgroup := MkCgroup { cg_path : string }.
Definition cg_write (cg : Cgroup) (file text : string) : prog (outcome JailError unit) :=
  try_io CgroupErr (WriteFile (path_join (cg_path cg) file) text) ;;! pok tt.
Definition set_memory_limit (cg : Cgroup) (bytes : Z) := cg_write cg "memory.max" (pretty bytes).
Definition cpu_max_text (percent : Z) : string :=
  let period := 100000 in
  let quota := u64 (period * percent) / 100 in
  pretty quota +:+ " " +:+ pretty period.
Definition set_cpu_quota (cg : Cgroup) (percent : Z) := cg_write cg "cpu.max" (cpu_max_text percent).
Definition set_pids_max (cg : Cgroup) (max : Z) := cg_write cg "pids.max" (pretty max).
Definition add_pid (cg : Cgroup) (pid : Z) := cg_write cg "cgroup.procs" (pretty pid).
Definition freeze (cg : Cgroup) : prog (option (outcome JailError unit)) :=
  let* w := cg_write cg "cgroup.freeze" "1" in
  match w with
  | Ok _ => wait_for_frozen FREEZE_ROUNDS (cg_path cg) (FREEZE_DEADLINE_MS * 1000)
  | e => Ret (Some e)
  end.
Definition thaw (cg : Cgroup) := cg_write cg "cgroup.freeze" "0".

(** [libc::major], [libc::minor] *)
Definition dev_major (dev : Z) : Z := Z.lor (Z.land (Z.shiftr dev 32) 4294963200) (Z.land (Z.shiftr dev 8) 4095).
Definition dev_minor (dev : Z) : Z := Z.lor (Z.land (Z.shiftr dev 12) 4294967040) (Z.land dev 255).
Definition get_device_id (path : string) : prog (outcome JailError string) :=
  let! meta := try_io CgroupErr (MetaDev path) in
  pok (pretty (dev_major (rv meta)) +:+ ":" +:+ pretty (dev_minor (rv meta))).
Definition set_io_limit (cg : Cgroup) (device : string) (read_bps write_bps : Z) : prog (outcome JailError unit) :=
  let! dev_id := get_device_id device in
  cg_write cg "io.max" (dev_id +:+ " rbps=" +:+ pretty read_bps +:+ " wbps=" +:+ pretty write_bps).

(** ** Reading usage *)
Definition cg_read (cg : Cgroup) (file : string) : prog (option string) :=
  let* r := sys (ReadFile (path_join (cg_path cg) file)) in Ret (if ok r then Some (rtext r) else None).
Definition read_number (cg : Cgroup) (file : string) : prog (option Z) :=
  let* t := cg_read cg file in Ret (t ≫= λ s, parse_u64 (trim s)).
Definition memory_peak (cg : Cgroup) := read_number cg "memory.peak".
Definition memory_current (cg : Cgroup) := read_number cg "memory.current".
Definition pids_current (cg : Cgroup) := read_number cg "pids.current".

Fixpoint usage_line (lines : list string) : option Z :=
  match lines with
  | [] => None
  | l :: rest => match strip_prefix "usage_usec " l with Some v => parse_u64 (trim v) | None => usage_line rest end
  end.
Definition cpu_usage_usec (cg : Cgroup) : prog (option Z) :=
  let* t := cg_read cg "cpu.stat" in Ret (t ≫= λ s, usage_line (str_lines s)).

(** The first line with a readable count decides. *)
Fixpoint oom_line (lines : list string) : bool :=
  match lines with
  | [] => false
  | l :: rest =>
      match strip_prefix "oom_kill " l ≫= λ v, parse_u64 (trim v) with
      | Some count => 0 <? count
      | None => oom_line rest
      end
  end.
Definition oom_killed (cg : Cgroup) : prog bool :=
  let* t := cg_read cg "memory.events" in Ret (match t with Some s => oom_line (str_lines s) | None => false end).

Record IoStats := MkIoStats { read_bytes : Z; write_bytes : Z; read_ios : Z; write_ios : Z }.
Definition io_default : IoStats := MkIoStats 0 0 0 0.
Definition io_part (total : IoStats) (part : string) : IoStats :=
  let num v := default 0 (parse_u64 v) in
  let '(MkIoStats rb wb ri wi) := total in
  match strip_prefix "rbytes=" part with
  | Some v => MkIoStats (u64 (rb + num v)) wb ri wi
  | None =>
  match strip_prefix "wbytes=" part with
  | Some v => MkIoStats rb (u64 (wb + num v)) ri wi
  | None =>
  match strip_prefix "rios=" part with
  | Some v => MkIoStats rb wb (u64 (ri + num v)) wi
  | None =>
  match strip_prefix "wios=" part with
  | Some v => MkIoStats rb wb ri (u64 (wi + num v))
  | None => total
  end end end end.
Definition io_line (total : IoStats) (line : string) : IoStats :=
  foldl io_part total (drop 1 (split_whitespace line)).
Definition parse_io_stat (text : string) : IoStats := foldl io_line io_default (str_lines text).
Definition io_stats (cg : Cgroup) : prog (option IoStats) :=
  let* t := cg_read cg "io.stat" in Ret (parse_io_stat <$> t).

(** ** Removal *)
Fixpoint remove_loop (n : nat) (path : string) : prog bool :=
  match n with
  | O => Ret false
  | S n' =>
      let* r := sys (RemoveDir path) in
      if ok r then Ret true else sys (SleepUs 5000) ;;* remove_loop n' path
  end.
Definition pid_of_line (line : string) : option Z :=
  pid ← parse_i32 (trim line); if 0 <? pid then Some pid else None.
Definition cgroup_drop (cg : Cgroup) : prog unit :=
  let* procs := sys (ReadFile (path_join (cg_path cg) "cgroup.procs")) in
  (if ok procs then
     for_all_do (λ pid, sys (Kill pid 9) ;;* Ret tt) (omap pid_of_line (str_lines (rtext procs)))
   else Ret tt) ;;*
  let* removed := remove_loop 20 (cg_path cg) in
  if removed then Ret tt
  else sys (Eprintln ("warning: could not remove cgroup " +:+ cg_path cg +:+ ", processes may still be running")) ;;* Ret tt.

(** ** The base directory *)
Definition cgroup_base (our_path : string) : string :=
  if String.eqb our_path "/" || String.eqb our_path "/agentjail-init" then CGROUP_ROOT
  else path_join CGROUP_ROOT (trim_slashes our_path).
Fixpoint migrate_loop (n : nat) (base init_cg subtree_ctl enable_all : string) : prog unit :=
  match n with
  | O => Ret tt
  | S n' =>
      let* procs := sys (ReadFile (path_join base "cgroup.procs")) in
      (if ok procs then
         for_all_do (λ pid, sys (WriteFile (path_join init_cg "cgroup.procs") pid) ;;* Ret tt)
           (List.filter (λ l, negb (str_is_empty l)) (str_lines (rtext procs)))
       else Ret tt) ;;*
      let* w := sys (WriteFile subtree_ctl enable_all) in
      if ok w then Ret tt else sys (SleepUs 1000) ;;* migrate_loop n' base init_cg subtree_ctl enable_all
  end.
Definition init_cgroup_base : prog (outcome JailError string) :=
  let! info := try_io CgroupErr (ReadFile "/proc/self/cgroup") in
  let our_path := default "/"%string (head (omap (strip_prefix "0::") (str_lines (rtext info)))) in
  let base := cgroup_base our_path in
  let subtree_ctl := path_join base "cgroup.subtree_control" in
  let enable_all := "+memory +cpu +pids +io"%string in
  let* w := sys (WriteFile subtree_ctl enable_all) in
  (if ok w then Ret tt else
     let init_cg := path_join base "agentjail-init" in
     sys (CreateDir init_cg) ;;* migrate_loop 20 base init_cg subtree_ctl enable_all) ;;*
  pok base.

Section cgroup.
Context (show_error : JailError → string).
(** The [OnceLock]: its content (a path, or an error's text when negative), or 0
    when it is not initialised yet. *)
Definition ensure_cgroup_base : prog (outcome JailError string) :=
  let* c := sys OnceBaseGet in
  if 0 <? rv c then pok (rtext c)
  else if rv c <? 0 then perr (CgroupErr (OtherErr (rtext c)))
  else
    let* o := init_cgroup_base in
    match o with
    | Ok p => sys (OnceBaseSet (Some p)) ;;* pok p
    | Err e => sys (OnceBaseSet None) ;;* perr (CgroupErr (OtherErr (show_error e)))
    | Panic => Ret Panic
    end.
Definition cgroup_create (name : string) : prog (outcome JailError Cgroup) :=
  let! base := ensure_cgroup_base in
  let path := path_join base ("agentjail-" +:+ name) in
  let* e := sys (Exists path) in
  (if yes e then pok tt else try_io CgroupErr (CreateDir path) ;;! pok tt) ;;!
  pok (MkCgroup path).

(** ** [Jail::create_cgroup] *)
Definition has_limits (cfg : JailConfig) : bool :=
  (0 <? memory_mb cfg) || (0 <? cpu_percent cfg) || (0 <? max_pids cfg) || (0 <? io_read_mbps cfg) || (0 <? io_write_mbps cfg).
Definition when (b : bool) (p : prog (outcome JailError unit)) : prog (outcome JailError unit) := if b then p else pok tt.
(** The cgroup exists from its creation on; an error then drops it. *)
Definition or_drop {A} (cg : Cgroup) (p : prog (outcome JailError A)) : prog (outcome JailError A) :=
  let* o := p in
  match o with Ok a => pok a | e => cgroup_drop cg ;;* Ret e end.
Definition apply_limits (cfg : JailConfig) (cg : Cgroup) : prog (outcome JailError unit) :=
  when (0 <? memory_mb cfg) (set_memory_limit cg (u64 (u64 (memory_mb cfg * 1024) * 1024))) ;;!
  when (0 <? cpu_percent cfg) (set_cpu_quota cg (cpu_percent cfg)) ;;!
  when (0 <? max_pids cfg) (set_pids_max cg (max_pids cfg)) ;;!
  when ((0 <? io_read_mbps cfg) || (0 <? io_write_mbps cfg))
    (let read_bps := u64 (u64 (io_read_mbps cfg * 1024) * 1024) in
     let write_bps := u64 (u64 (io_write_mbps cfg * 1024) * 1024) in
     if utf8_valid (output cfg) then
       let* o := set_io_limit cg (output cfg) read_bps write_bps in
       if is_ok o then pok tt else sys (Eprintln "warning: I/O limits not applied") ;;* pok tt
     else sys (Eprintln "warning: I/O limits not applied: output path is not UTF-8") ;;* pok tt).
Definition create_cgroup (cfg : JailConfig) (pid : Z) : prog (outcome JailError (option Cgroup)) :=
  if negb (has_limits cfg) then pok None else
  let* me := sys Getpid in
  let name := pretty (rv me) +:+ "-" +:+ pretty pid in
  let! cg := cgroup_create name in
  or_drop cg (apply_limits cfg cg) ;;! pok (Some cg).
End cgroup.

(** ** Freezing ends *)
Definition slept_us (e : event) : Z := match e.1 with SleepUs us => us | _ => 0 end.
(** The time a trace has slept. *)
Fixpoint slept (t : trace) : Z := match t with [] => 0 | e :: t' => slept_us e + slept t' end.
Lemma slept_app t t' : slept (t ++ t') = slept t + slept t'.
Proof. induction t as [|e t IH]; [done|]. simpl. rewrite IH. lia. Qed.
(** A clock that runs while the program sleeps: [thread::sleep] waits at least as
    long as asked, [Instant] is monotonic. *)
Definition clock_runs (K : kernel) : Prop := ∀ t, slept t <= rv (K t Elapsed).
(** What [n] rounds of back-off sleep in total. *)
Fixpoint backoff_sum (n : nat) (b : Z) : Z :=
  match n with O => 0 | S n' => b + backoff_sum n' (Z.min (u64 (b * 2)) 1600) end.

Lemma frozen_loop_ends K fuel msg path deadline b tr :
  clock_runs K → deadline <= slept tr + backoff_sum fuel b →
  ∃ o, (run K tr (frozen_loop (S fuel) msg path deadline b)).2 = Some (Some o).
Proof.
  intros Hclock. revert b tr. induction fuel as [|fuel IH]; intros b tr Hd; cbn [frozen_loop sys pbind run].
  all: set (t1 := tr ++ _); destruct (saw_frozen _); [by eexists|].
  all: assert (slept t1 = slept tr) as Hs by (unfold t1; rewrite slept_app; cbn; lia).
  all: pose proof (Hclock t1); cbn [sys pbind run].
  all: destruct (Z.leb_spec deadline (rv (K t1 Elapsed))); [by eexists|].
  - simpl in Hd. lia.
  - apply IH. simpl in Hd. rewrite !slept_app. cbn. lia.
Qed.
Lemma frozen_loop_sound fuel msg path deadline b tr :
  wp (frozen_loop fuel msg path deadline b)
    (λ o t, match o with Some (Some (Ok _)) => ∃ r, (ReadFile path, r) ∈ t ∧ saw_frozen r = true | _ => True end) tr.
Proof.
  revert b tr. induction fuel as [|fuel IH]; intros b tr; [done|]. cbn [frozen_loop]. intros r. cbn [wp pbind].
  destruct (saw_frozen r) eqn:Er.
  { exists r. rewrite elem_of_app, list_elem_of_singleton. auto. }
  intros now. cbn [wp pbind]. destruct (deadline <=? rv now); [done|]. intros s. apply IH.
Qed.

(** C37: Freezing a jail ends.  On every kernel whose clock runs while it sleeps,
    [freeze] returns after at most 36 looks at [cgroup.events], although its loop
    has no counter: the back-off sleeps add up past the 50 ms deadline.  It
    returns [Ok] only after the kernel has reported [frozen 1] for this cgroup, so
    a snapshot is never taken of a running one. *)
Theorem freeze_terminates (K : kernel) (cg : Cgroup) :
  clock_runs K →
  ∃ o, (run K [] (freeze cg)).2 = Some (Some o) ∧
    (o = Ok tt → ∃ r, (ReadFile (path_join (cg_path cg) "cgroup.events"), r) ∈ (run K [] (freeze cg)).1 ∧ saw_frozen r = true).
Proof.
  intros Hclock.
  assert (wp (freeze cg) (λ o t, match o with Some (Some (Ok _)) => ∃ r, (ReadFile (path_join (cg_path cg) "cgroup.events"), r) ∈ t ∧ saw_frozen r = true | _ => True end) []) as Hw.
  { unfold freeze, cg_write, try_io, jbind. cbn [pbind]. intros r. cbn [wp pbind]. destruct (ok r); [|done]. apply frozen_loop_sound. }
  apply (wp_run _ _ _ K) in Hw.
  assert (∃ o, (run K [] (freeze cg)).2 = Some (Some o)) as [o Ho].
  { unfold freeze, cg_write, try_io, jbind. cbn [pbind run]. destruct (ok _); cbn [pbind run]; [|by eexists].
    apply frozen_loop_ends; [done|]. vm_compute. discriminate. }
  exists o. split; [done|]. intros ->. by rewrite Ho in Hw.
Qed.
Definition slow_kernel : kernel := λ t c, match c with Elapsed => rint (slept t) | _ => rint 0 end.
Lemma freeze_terminates_witness :
  ∃ o, (run slow_kernel [] (freeze (MkCgroup "/sys/fs/cgroup/agentjail-1-2"))).2 = Some (Some o) ∧
    (o = Ok tt → ∃ r, (ReadFile (path_join (cg_path (MkCgroup "/sys/fs/cgroup/agentjail-1-2")) "cgroup.events"), r)
       ∈ (run slow_kernel [] (freeze (MkCgroup "/sys/fs/cgroup/agentjail-1-2"))).1 ∧ saw_frozen r = true).
Proof. apply (freeze_terminates slow_kernel (MkCgroup "/sys/fs/cgroup/agentjail-1-2")). intros t. simpl. lia. Defined.

(** ** The limits that are written *)
Section limits.
Context (show_error : JailError → string).
Definition no_calls : syscall → bool := λ _, false.
Definition limit_test (cg : Cgroup) (b : bool) (file text : string) : list (event → bool) :=
  if b then [succeeded (WriteFile (path_join (cg_path cg) file) text)] else [].
(** The limits of a configuration, in exact arithmetic. *)
Definition limits_written (cfg : JailConfig) (cg : Cgroup) : list (event → bool) :=
  limit_test cg (0 <? memory_mb cfg) "memory.max" (pretty (memory_mb cfg * 2 ^ 20)) ++
  limit_test cg (0 <? cpu_percent cfg) "cpu.max" (pretty (1000 * cpu_percent cfg) +:+ " 100000") ++
  limit_test cg (0 <? max_pids cfg) "pids.max" (pretty (max_pids cfg)).
Lemma adds_cg_write R cg file text : adds no_calls R [succeeded (WriteFile (path_join (cg_path cg) file) text)] (cg_write cg file text).
Proof. apply (adds_jbind R [_] []); [by apply adds_try_io|intros _; by apply adds_avoids]. Qed.
Lemma avoids_none {A} (p : prog A) : avoids no_calls p.
Proof. induction p as [a| |c k IH]; simpl; auto. Qed.
Lemma adds_when R cg b file text : adds no_calls R (limit_test cg b file text) (when b (cg_write cg file text)).
Proof. destruct b; [apply adds_cg_write|by apply adds_avoids]. Qed.
Lemma u64_mb mb : 0 <= mb < 2 ^ 44 → u64 (u64 (mb * 1024) * 1024) = mb * 2 ^ 20.
Proof. intros Hm. unfold u64. rewrite (Z.mod_small (mb * 1024)) by lia. rewrite Z.mod_small by lia. lia. Qed.
Lemma cpu_text p : 0 <= p → p * 100000 < 2 ^ 64 → cpu_max_text p = pretty (1000 * p) +:+ " 100000".
Proof.
  intros H0 Hp. unfold cpu_max_text, u64. rewrite Z.mod_small by lia.
  replace (100000 * p / 100) with (1000 * p); [reflexivity|]. replace (100000 * p) with (1000 * p * 100) by lia.
  by rewrite Z.div_mul by lia.
Qed.

(** The limits asked for are the limits set.  When a cgroup has been created for
    a configuration whose memory fits 2^44 MiB and whose CPU share does not
    overflow, the kernel has accepted, in order, exactly the configured memory in
    bytes, 1000 microseconds of CPU per percent in every 100 ms, and the process
    count, each unless it is 0 (unlimited). *)
Theorem cgroup_limits_exact (K : kernel) (cfg : JailConfig) (cg : Cgroup) (tr : trace) :
  0 <= memory_mb cfg < 2 ^ 44 → 0 <= cpu_percent cfg → cpu_percent cfg * 100000 < 2 ^ 64 →
  (run K tr (apply_limits cfg cg)).2 = Some (Ok tt) →
  in_order (limits_written cfg cg) (run K tr (apply_limits cfg cg)).1 = true.
Proof.
  intros Hm Hc0 Hc Ho.
  assert (adds no_calls [] (limits_written cfg cg) (apply_limits cfg cg)) as Ha.
  { unfold limits_written, apply_limits, set_memory_limit, set_cpu_quota, set_pids_max.
    rewrite u64_mb, cpu_text by done. rewrite <- (app_nil_r (limit_test _ (0 <? max_pids cfg) _ _)).
    repeat (apply adds_jbind; [apply adds_when|intros _]). apply adds_avoids, avoids_none. }
  specialize (Ha [] tr). rewrite app_nil_l in Ha.
  destruct (wp_run _ _ _ K (Ha ltac:(by destruct tr) ltac:(intros i c r _ [=]))) as [_ Hg]. rewrite Ho in Hg. apply Hg.
Qed.
End limits.
Lemma cgroup_limits_exact_witness :
  in_order (limits_written config_default (MkCgroup "/c")) (run slow_kernel [] (apply_limits config_default (MkCgroup "/c"))).1 = true.
Proof. apply (cgroup_limits_exact slow_kernel config_default (MkCgroup "/c") []); [simpl; lia|simpl; lia|simpl; lia|reflexivity]. Defined.

(** A huge memory limit becomes none at all.  From 2^44 MiB on the product in
    bytes wraps around; at exactly 2^44 the limit written is 0, which stops the
    jail from using any memory. *)
Theorem memory_limit_wraps (cg : Cgroup) : 
  set_memory_limit cg (u64 (u64 (2 ^ 44 * 1024) * 1024)) = cg_write cg "memory.max" "0".
Proof. reflexivity. Qed.
