(* ===== verification/Run.v ===== *)
(** * Starting and reaping jails

    Models [agentjail/src/run.rs] ([Jail::new], [spawn], [run],
    [spawn_with_events], [live_fork]'s freeze protocol, [JailHandle::wait],
    [collect_stats], [cleanup_veth], [Drop], [ChildGuard]) and
    [run_internal.rs].  Parent and child are one program that [fork] answers
    twice; descriptors that go out of scope silently are not listed, the
    explicit [drop]s of the protocol are [Close] calls.  Tokio's timeout around
    the wait is one call ([AwaitExit]): the exit code, or negative when time ran
    out. *)

From S2P Require Import Prelude Text Sys Order Config Netlink Mount Isolation Child Cgroup.
From S2P Require Jails.
Local Open Scope Z_scope.

(** ** [run_internal.rs] *)
Definition kill_tree (pid : Z) : prog unit :=
  sys (Kill (- pid) SIGKILL) ;;* sys (Kill pid SIGKILL) ;;* Ret tt.

(** A wait status is the raw integer of wait(2). *)
Definition extract_exit_code (status : Z) : Z :=
  if WIFEXITED status then WEXITSTATUS status
  else if WIFSIGNALED status then 128 + WTERMSIG status else -1.
Definition WNOHANG := 1.
(** [waitpid(NOHANG)]: negative is an error, 0 not yet, else the status. *)
Fixpoint wait_via_poll (fuel : nat) (pid : Z) : prog (option Z) :=
  match fuel with
  | O => Ret None
  | S f =>
      let* w := sys (Waitpid pid WNOHANG) in
      if rv w <? 0 then Ret (Some (-1))
      else if rv w =? 0 then sys (SleepUs 50000) ;;* wait_via_poll f pid
      else Ret (Some (extract_exit_code (wait_status w)))
  end.

(** ** [Jail] *)
Record Jail := MkJail { jl_config : JailConfig; jl_gpu : option NvidiaResources; jl_filter : option SeccompLevel }.
Section run.
Context `{Target} `{DebugFmt} `{Seccompiler} (show_error : JailError → string).

Definition jail_new (cfg : JailConfig) : prog (outcome JailError Jail) :=
  let* s := sys (Exists (source cfg)) in
  if negb (yes s) then perr (PathNotFound (source cfg)) else
  let* o := sys (Exists (output cfg)) in
  if negb (yes o) then perr (PathNotFound (output cfg)) else
  let! gpus := (if gpu_enabled (gpu cfg) then let! r := discover (gpu cfg) in pok (Some r) else pok None) in
  match compile (seccomp cfg) with
  | Ok None => pok (MkJail cfg gpus None)
  | Ok (Some _) => pok (MkJail cfg gpus (Some (seccomp cfg)))
  | Err e => perr e
  | Panic => Ret Panic
  end.

Record JailHandle := MkHandle {
  h_pid : Z; h_reaped : bool; h_stdout : Z; h_stderr : Z; h_timeout : Z; (* microseconds *)
  h_cgroup : option Cgroup; h_veth : option string; h_jail_ip : option bytes; h_proxy : bool }.

(** The descriptors made before the fork: read and write ends of the three
    pipes, child and parent ends of the two socket pairs. *)
Record Fds := MkFds {
  out_r : Z; out_w : Z; err_r : Z; err_w : Z; bar_r : Z; bar_w : Z;
  sync_pair : option (Z * Z); userns_pair : option (Z * Z) }.
Definition two (r : ret) : Z * Z := (nth 0 (rbytes r) 0, nth 1 (rbytes r) 0).
Definition pipe_new : prog (outcome JailError (Z * Z)) :=
  let! r := try_errno PipeErr (PipeCall 524288) in pok (two r).
Definition sync_socketpair : prog (outcome JailError (Z * Z)) :=
  let! r := try_io NetworkErr SocketPair in pok (two r).
Definition is_allowlist (n : Network) : bool := match n with NetAllowlist _ => true | _ => false end.
Definition make_fds (cfg : JailConfig) : prog (outcome JailError Fds) :=
  let! o := pipe_new in
  let! e := pipe_new in
  let! b := pipe_new in
  let! s := (if is_allowlist (network cfg) then let! p := sync_socketpair in pok (Some p) else pok None) in
  let! u := (if user_namespace cfg then let! p := sync_socketpair in pok (Some p) else pok None) in
  pok (MkFds o.1 o.2 e.1 e.2 b.1 b.2 s u).

(** The child's side; it never returns to the caller of [spawn]. *)
Definition spawn_child {A} (j : Jail) (cmd : string) (args : list string) (fds : Fds) : prog A :=
  sys (Prctl PR_SET_PDEATHSIG SIGKILL) ;;*
  let* sid := sys Setsid in
  if rv sid =? -1 then exit 127 else
  sys (Dup2 (out_w fds) 1) ;;*
  sys (Dup2 (err_w fds) 2) ;;*
  sys (Close (out_r fds)) ;;* sys (Close (out_w fds)) ;;*
  sys (Close (err_r fds)) ;;* sys (Close (err_w fds)) ;;*
  sys (ReadFd (bar_r fds) 1) ;;*
  sys (Close (bar_r fds)) ;;* sys (Close (bar_w fds)) ;;*
  let* r := setup_child (jl_config j) (jl_gpu j) (jl_filter j) cmd args
              (fst <$> sync_pair fds) (fst <$> userns_pair fds) in
  sys (Eprintln "jail setup failed") ;;* exit 127.

(** [ChildGuard]: an error of the body kills and reaps the child. *)
Definition child_guard {A} (pid : Z) (body : prog (outcome JailError A)) : prog (outcome JailError A) :=
  let* o := body in
  match o with
  | Ok a => pok a
  | e => kill_tree pid ;;* sys (Waitpid pid 0) ;;* Ret e
  end.

(** The parent's half of the user-namespace handshake. *)
Definition userns_handshake (cfg : JailConfig) (pid : Z) (fds : Fds) : prog (outcome JailError unit) :=
  match user_namespace cfg, userns_pair fds with
  | true, Some (_, parent_fd) =>
      let* n := sys (ReadFd parent_fd 1) in
      if negb (rv n =? 1) then perr (UidMap (OtherErr "userns ready sync failed")) else
      let* m := write_uid_gid_map pid in
      (match m with
       | Err e =>
           let* uid := sys Getuid in
           if rv uid =? 0 then sys (Eprintln "warning: uid/gid map failed (running as root)") ;;* pok tt else perr e
       | _ => pok tt
       end) ;;!
      let* n := sys (WriteFd parent_fd [1]) in
      if negb (rv n =? 1) then perr (UidMap (OtherErr "userns ack sync failed")) else pok tt
  | _, _ => pok tt
  end.

(** Addresses and names of the veth pair, with the proxy running. *)
Definition setup_veth (cfg : JailConfig) (pid : Z) (fds : Fds) : prog (outcome JailError (option (string * bytes))) :=
  match sync_pair fds, network cfg with
  | Some (_, parent_fd), NetAllowlist domains =>
      let* n := sys (ReadFd parent_fd 1) in
      if negb (rv n =? 1) then perr (NetworkErr (OtherErr "child netns sync failed")) else
      let* i := sys FetchVethId in
      let id := u32 (rv i) in
      let '(host_ip, jail_ip) := veth_addrs id in
      let host_if := "aj-h" +:+ pretty id in
      let jail_if := "aj-j" +:+ pretty id in
      create_veth_pair host_if jail_if ;;!
      move_to_netns jail_if pid ;;!
      add_ipv4_addr host_if host_ip 30 ;;!
      set_link_up host_if ;;!
      sys (SpawnProxy domains host_ip) ;;*
      let* n := sys (WriteFd parent_fd (to_le 4 id)) in
      if negb (rv n =? 4) then perr (NetworkErr (OtherErr "veth ID sync failed")) else
      pok (Some (host_if, jail_ip))
  | _, _ => pok None
  end.

(** An error after the cgroup was assigned also drops the cgroup, before the
    guard runs. *)
Definition with_cgroup {A} (cg : option Cgroup) (p : prog (outcome JailError A)) : prog (outcome JailError A) :=
  match cg with Some c => or_drop c p | None => p end.

Definition spawn_parent (j : Jail) (pid : Z) (fds : Fds) : prog (outcome JailError JailHandle) :=
  let cfg := jl_config j in
  sys (Close (out_w fds)) ;;* sys (Close (err_w fds)) ;;* sys (Close (bar_r fds)) ;;*
  let! '(cgroup, veth) := child_guard pid (
    userns_handshake cfg pid fds ;;!
    let! cgroup := create_cgroup show_error cfg pid in
    let! veth := with_cgroup cgroup (
      match cgroup with Some cg => add_pid cg pid | None => pok tt end ;;!
      sys (WriteFd (bar_w fds) [1]) ;;* sys (Close (bar_w fds)) ;;*
      setup_veth cfg pid fds) in
    pok (cgroup, veth)) in
  with_cgroup cgroup (
    try_io Io (RegisterPipe (out_r fds)) ;;!
    try_io Io (RegisterPipe (err_r fds)) ;;!
    pok {| h_pid := pid; h_reaped := false; h_stdout := out_r fds; h_stderr := err_r fds;
           h_timeout := 1000000 * (if 0 <? timeout_secs cfg then timeout_secs cfg else 2 ^ 64 - 1);
           h_cgroup := cgroup; h_veth := fst <$> veth; h_jail_ip := snd <$> veth;
           h_proxy := match veth with Some _ => true | None => false end |}).

Definition spawn (j : Jail) (cmd : string) (args : list string) : prog (outcome JailError JailHandle) :=
  let! fds := make_fds (jl_config j) in
  let* f := sys Fork in
  if rv f =? -1 then perr (ForkErr (rerr f))
  else if rv f =? 0 then spawn_child j cmd args fds
  else spawn_parent j (u32 (rv f)) fds.

(** ** [JailHandle] *)
Definition collect_stats (h : JailHandle) : prog (option Jails.ResourceStats) :=
  match h_cgroup h with
  | None => Ret None
  | Some cg =>
      let* io := io_stats cg in
      let io := default io_default io in
      let* peak := memory_peak cg in
      let* cur := memory_current cg in
      let* cpu := cpu_usage_usec cg in
      let* oom := oom_killed cg in
      let* pids := pids_current cg in
      Ret (Some {| Jails.memory_peak_bytes := default 0 peak; Jails.memory_current_bytes := default 0 cur;
                   Jails.cpu_usage_usec := default 0 cpu; Jails.stats_oom_killed := oom;
                   Jails.io_read_bytes := read_bytes io; Jails.io_write_bytes := write_bytes io;
                   Jails.pids_current := default 0 pids |})
  end.

(** [Option::take] on the two fields. *)
Definition cleanup_veth (h : JailHandle) : prog JailHandle :=
  (if h_proxy h then sys ProxyStop ;;* Ret tt else Ret tt) ;;*
  match h_veth h with Some iface => delete_link iface ;;* Ret tt | None => Ret tt end ;;*
  Ret {| h_pid := h_pid h; h_reaped := h_reaped h; h_stdout := h_stdout h; h_stderr := h_stderr h;
         h_timeout := h_timeout h; h_cgroup := h_cgroup h; h_veth := None; h_jail_ip := h_jail_ip h; h_proxy := false |}.
Definition set_reaped (h : JailHandle) : JailHandle :=
  {| h_pid := h_pid h; h_reaped := true; h_stdout := h_stdout h; h_stderr := h_stderr h;
     h_timeout := h_timeout h; h_cgroup := h_cgroup h; h_veth := h_veth h; h_jail_ip := h_jail_ip h; h_proxy := h_proxy h |}.
(** The cgroup field is dropped after [Drop::drop]. *)
Definition drop_cgroup (h : JailHandle) : prog unit :=
  match h_cgroup h with Some cg => cgroup_drop cg | None => Ret tt end.
Fixpoint reap_spin (n : nat) (pid : Z) : prog bool :=
  match n with
  | O => Ret false
  | S n' =>
      let* w := sys (Waitpid pid WNOHANG) in
      if rv w =? 0 then sys (SleepUs 1000) ;;* reap_spin n' pid else Ret true
  end.
Definition handle_drop (h : JailHandle) : prog unit :=
  (if h_reaped h then cleanup_veth h
   else
     kill_tree (h_pid h) ;;*
     let* reaped := (if h_pid h =? 0 then Ret false else reap_spin 10 (h_pid h)) in
     (if reaped then Ret tt else sys (Waitpid (h_pid h) 0) ;;* Ret tt) ;;*
     cleanup_veth h) ;;*
  drop_cgroup h.

(** The exit code, or that time ran out. *)
Definition await (pid remaining : Z) : prog (option Z) :=
  let* r := sys (AwaitExit pid remaining) in
  Ret (if rv r <? 0 then None else Some (nth 0 (rbytes r) (-1))).
Definition NO_TIMEOUT := -1.
Definition wait_exit (h : JailHandle) : prog (Z * bool) :=
  let* start := sys Elapsed in
  let remaining := Z.max 0 (h_timeout h - rv start) in
  let* w := await (h_pid h) remaining in
  match w with
  | Some code => Ret (code, false)
  | None =>
      kill_tree (h_pid h) ;;*
      let* w := await (h_pid h) NO_TIMEOUT in
      Ret (default (-1) w, true)
  end.
Definition handle_wait (h : JailHandle) : prog Jails.Output :=
  let* '(exit_code, timed_out) := wait_exit h in
  let* stats := collect_stats h in
  let oom := match stats with Some s => Jails.stats_oom_killed s | None => false end in
  let* out := sys (DrainPipe (h_stdout h)) in
  let* err := sys (DrainPipe (h_stderr h)) in
  let h := set_reaped h in
  let* h := cleanup_veth h in
  let* dur := sys Elapsed in
  handle_drop h ;;*
  Ret {| Jails.out_stdout := rtext out; Jails.out_stderr := rtext err; Jails.out_exit_code := exit_code;
         Jails.out_duration := 1000 * rv dur; (* nanoseconds *) Jails.out_timed_out := timed_out; Jails.out_oom_killed := oom;
         Jails.out_stats := stats |}.
Definition jail_run (j : Jail) (cmd : string) (args : list string) : prog (outcome JailError Jails.Output) :=
  let! h := spawn j cmd args in
  let* o := handle_wait h in pok o.
Definition spawn_with_events (j : Jail) (cmd : string) (args : list string) : prog (outcome JailError JailHandle) :=
  let! h := spawn j cmd args in
  sys (EventSend ("started " +:+ pretty (h_pid h))) ;;* pok h.
Definition handle_freeze (h : JailHandle) : prog (option (outcome JailError unit)) :=
  match h_cgroup h with Some cg => freeze cg | None => Ret (Some (Ok tt)) end.
Definition handle_thaw (h : JailHandle) : prog (outcome JailError unit) :=
  match h_cgroup h with Some cg => thaw cg | None => pok tt end.
End run.

(** ** Parent and child together

    Two processes after the fork, taking turns.  A read from one of the pipes or
    socket pairs waits until bytes are queued, or until no process holds the
    other end open; every other call may be answered in any way. *)
Section two_processes.
Context `{Target} `{DebugFmt} `{Seccompiler} (show_error : JailError → string).
Context (j : Jail) (cmd : string) (args : list string) (fds : Fds) (pid : Z).

Inductive proc := ParentP | ChildP.
Record world := MkWorld {
  w_parent : prog (outcome JailError JailHandle);
  w_child : prog (outcome JailError JailHandle);
  w_queue : Z → bytes;
  w_open : proc → Z → bool;
  w_log : list (proc * syscall)
}.
(** Where the bytes written to a descriptor can be read. *)
Definition pair_sink (p : option (Z * Z)) (w : Z) : option Z :=
  '(a, b) ← p; if w =? a then Some b else if w =? b then Some a else None.
Definition sink (w : Z) : option Z :=
  if w =? bar_w fds then Some (bar_r fds)
  else match pair_sink (sync_pair fds) w with Some r => Some r | None => pair_sink (userns_pair fds) w end.
Definition is_channel (r : Z) : Prop := ∃ w, sink w = Some r.
Definition alive (w : world) (p : proc) : bool :=
  match p with
  | ParentP => match w_parent w with Halt => false | _ => true end
  | ChildP => match w_child w with Halt => false | _ => true end
  end.
(** Some process can still write to what [r] reads. *)
Definition has_writer (w : world) (r : Z) : Prop :=
  ∃ p f, sink f = Some r ∧ w_open w p f = true ∧ alive w p = true.

Definition after_write (q : Z → bytes) (c : syscall) (r : ret) : Z → bytes :=
  match c with
  | WriteFd f msg => match sink f with
                     | Some dst => λ x, if x =? dst then q x ++ take (Z.to_nat (rv r)) msg else q x
                     | None => q
                     end
  | _ => q
  end.
Definition after_close (o : proc → Z → bool) (p : proc) (c : syscall) : proc → Z → bool :=
  match c with
  | Close f => λ p' f', match p, p' with
                        | ParentP, ParentP | ChildP, ChildP => if f' =? f then false else o p' f'
                        | _, _ => o p' f'
                        end
  | _ => o
  end.
(** May the process that makes call [c] go on with answer [r]? *)
Definition answers (w : world) (c : syscall) (r : ret) : Prop :=
  match c with
  | ReadFd f n =>
      is_channel f →
      (w_queue w f ≠ [] ∧ rbytes r = take (Z.to_nat n) (w_queue w f) ∧ rv r = Z.of_nat (length (rbytes r)))
      ∨ (w_queue w f = [] ∧ ¬ has_writer w f ∧ rv r = 0)
  | _ => True
  end.
Definition after_read (q : Z → bytes) (c : syscall) (r : ret) : Z → bytes :=
  match c with ReadFd f n => λ x, if x =? f then drop (length (rbytes r)) (q x) else q x | _ => q end.
Definition advance (w : world) (p : proc) (c : syscall) (r : ret) (parent child : prog (outcome JailError JailHandle)) : world :=
  {| w_parent := parent; w_child := child;
     w_queue := after_read (after_write (w_queue w) c r) c r;
     w_open := after_close (w_open w) p c; w_log := w_log w ++ [(p, c)] |}.

Inductive wstep : world → world → Prop :=
| parent_step w c k r :
    w_parent w = Call c k → answers w c r → wstep w (advance w ParentP c r (k r) (w_child w))
| child_step w c k r :
    w_child w = Call c k → answers w c r → wstep w (advance w ChildP c r (w_parent w) (k r)).

Definition forked : world :=
  {| w_parent := spawn_parent show_error j pid fds; w_child := spawn_child j cmd args fds;
     w_queue := λ _, []; w_open := λ _ _, true; w_log := [] |}.

(** A program that can only wait for [fd] (or exit, if it may), keeping [keep]
    open and starting nothing. *)
Fixpoint awaits {A} (may_exit : bool) (fd keep : Z) (p : prog A) : Prop :=
  match p with
  | Ret _ => False
  | Halt => may_exit = true
  | Call c k =>
      match c with
      | ReadFd f _ => f = fd
      | WriteFd _ _ | Execve _ _ _ => False
      | Close f => f ≠ keep ∧ ∀ r, awaits may_exit fd keep (k r)
      | _ => ∀ r, awaits may_exit fd keep (k r)
      end
  end.
Definition no_exec_logged (w : world) : Prop := ∀ p path argv envp, (p, Execve path argv envp) ∉ w_log w.

Context (uc up : Z).
(** The state both processes stay in: each waits for the other. *)
Definition stuck_waiting (w : world) : Prop :=
  awaits false up uc (w_parent w) ∧ awaits true (bar_r fds) (bar_w fds) (w_child w) ∧
  w_queue w up = [] ∧ w_queue w (bar_r fds) = [] ∧
  w_open w ParentP uc = true ∧ w_open w ChildP (bar_w fds) = true ∧ no_exec_logged w.

(** A call that waits for nothing and changes no channel that matters. *)
Lemma awaits_step {A} m fd keep c k r (w : world) :
  sink keep = Some fd → (∃ p, w_open w p keep = true ∧ alive w p = true) → w_queue w fd = [] →
  awaits (A := A) m fd keep (Call c k) → answers w c r →
  awaits m fd keep (k r) ∧ (∀ q, after_read (after_write q c r) c r = q) ∧ c ≠ Close keep ∧
  ∀ path argv envp, c ≠ Execve path argv envp.
Proof.
  intros Hs (p & Ho & Hal) Hq Ha Hr. destruct c; simpl in *; try done.
  { subst. destruct (Hr (ex_intro _ keep Hs)) as [[? _]|(_ & Hn & _)]; [done|]. destruct Hn. by exists p, keep. }
  destruct Ha as [Hne Ha]. repeat split; [done..|congruence|done].
Qed.
Lemma no_exec_advance w p c r P C :
  no_exec_logged w → (∀ path argv envp, c ≠ Execve path argv envp) → no_exec_logged (advance w p c r P C).
Proof.
  intros Hn Hc p' path argv envp. simpl. rewrite elem_of_app, list_elem_of_singleton.
  intros [?|[= _ Hx]]; [by eapply Hn|by eapply Hc].
Qed.
Lemma stuck_waiting_step w w' :
  sink uc = Some up → sink (bar_w fds) = Some (bar_r fds) → stuck_waiting w → wstep w w' → stuck_waiting w'.
Proof.
  intros Hu Hb (Hp & Hc & Hqu & Hqb & Hou & Hob & Hlog) Hstep. destruct Hstep as [w c k r Hw Hr|w c k r Hw Hr].
  - rewrite Hw in Hp. destruct (awaits_step _ _ _ _ _ r w Hu ltac:(exists ParentP; simpl; by rewrite Hw) Hqu Hp Hr) as (Ha & Hq & Hcl & Hex).
    repeat split; simpl; rewrite ?Hq; try done; [| |by apply no_exec_advance].
    + destruct c; simpl; try done. destruct (Z.eqb_spec uc fd); congruence.
    + by destruct c.
  - rewrite Hw in Hc. destruct (awaits_step _ _ _ _ _ r w Hb ltac:(exists ChildP; simpl; by rewrite Hw) Hqb Hc Hr) as (Ha & Hq & Hcl & Hex).
    repeat split; simpl; rewrite ?Hq; try done; [| |by apply no_exec_advance].
    + by destruct c.
    + destruct c; simpl; try done. destruct (Z.eqb_spec (bar_w fds) fd); congruence.
Qed.
Definition fd_list : list Z :=
  [out_r fds; out_w fds; err_r fds; err_w fds; bar_r fds; bar_w fds; uc; up] ++
  match sync_pair fds with Some (a, b) => [a; b] | None => [] end.
Lemma fds_distinct :
  NoDup fd_list →
  (uc ≠ out_w fds ∧ uc ≠ err_w fds ∧ uc ≠ bar_r fds ∧ uc ≠ bar_w fds) ∧
  (bar_w fds ≠ out_r fds ∧ bar_w fds ≠ out_w fds ∧ bar_w fds ≠ err_r fds ∧ bar_w fds ≠ err_w fds) ∧
  pair_sink (sync_pair fds) uc = None.
Proof.
  unfold fd_list. intros (Hnd & Hdis & _)%NoDup_app.
  assert (uc ∈ [out_r fds; out_w fds; err_r fds; err_w fds; bar_r fds; bar_w fds; uc; up]) as Hin by (do 6 right; by left).
  rewrite !NoDup_cons, !not_elem_of_cons in Hnd. split; [intuition congruence|]. split; [intuition congruence|]. clear Hnd.
  destruct (sync_pair fds) as [[a b]|]; [|done]. simpl.
  specialize (Hdis uc Hin). rewrite !not_elem_of_cons in Hdis. destruct Hdis as (? & ? & _).
  destruct (Z.eqb_spec uc a); [done|]. by destruct (Z.eqb_spec uc b).
Qed.
Lemma stuck_waiting_forked :
  NoDup fd_list → user_namespace (jl_config j) = true → userns_pair fds = Some (uc, up) → stuck_waiting forked.
Proof.
  intros Hnd Hun Hup. destruct (fds_distinct Hnd) as ((? & ? & ? & _) & (? & ? & ? & ?) & _).
  refine (conj _ (conj _ (conj eq_refl (conj eq_refl (conj eq_refl (conj eq_refl _)))))).
  - unfold forked. simpl. split; [done|]. intros _. split; [done|]. intros _. split; [done|]. intros _.
    unfold child_guard, userns_handshake. rewrite Hun, Hup. simpl. done.
  - simpl. intros _ sid. destruct (rv sid =? -1); [done|]. simpl. repeat (intros _; try (split; [done|])). done.
  - intros p path argv envp. simpl. apply not_elem_of_nil.
Qed.

(** C8: Spawning with a user namespace never finishes.  The child waits on the
    barrier pipe before it enters its user namespace; the parent writes the
    barrier only after it has heard from the child's user namespace.  Whatever
    the kernel answers and however the two processes are scheduled, [spawn]
    never returns and the command never starts, for every configuration with
    [user_namespace = true] (the default, and what the control plane uses when it
    does not run as root). *)
Theorem userns_spawn_deadlocks (w : world) :
  NoDup fd_list → user_namespace (jl_config j) = true → userns_pair fds = Some (uc, up) →
  rtc wstep forked w →
  (∀ o, w_parent w ≠ Ret o) ∧ no_exec_logged w.
Proof.
  intros Hnd Hun Hup Hr.
  assert (sink (bar_w fds) = Some (bar_r fds)) as Hb by (unfold sink; by rewrite Z.eqb_refl).
  assert (sink uc = Some up) as Hu.
  { destruct (fds_distinct Hnd) as ((_ & _ & _ & ?) & _ & Hs). unfold sink. destruct (Z.eqb_spec uc (bar_w fds)); [done|].
    rewrite Hs, Hup. simpl. by rewrite Z.eqb_refl. }
  assert (stuck_waiting w) as (Hp & _ & _ & _ & _ & _ & Hl).
  { pose proof (stuck_waiting_forked Hnd Hun Hup) as H0'. induction Hr as [|x y z Hxy Hyz IH]; [done|].
    apply IH. by eapply stuck_waiting_step. }
  split; [|done]. intros o Ho. by rewrite Ho in Hp.
Qed.
End two_processes.

(** ** What the parent guarantees *)
Section parent.
Context `{Target} `{DebugFmt} `{Seccompiler} (show_error : JailError → string).
Context (j : Jail) (pid : Z) (fds : Fds).
Let cfg := jl_config j.

(** Releasing the child from the barrier. *)
Definition releases (c : syscall) : bool := match c with WriteFd f _ => f =? bar_w fds | _ => false end.
(** The child's pid was accepted by a cgroup. *)
Definition assigned (e : event) : bool :=
  match e with (WriteFile p txt, r) => ends_with "cgroup.procs" p && String.eqb txt (pretty pid) && ok r | _ => false end.
Lemma ends_with_join base f : starts_with "/" f = false → ends_with f (path_join base f) = true.
Proof.
  intros Hf. apply ends_with_true. unfold path_join. rewrite Hf.
  destruct (str_is_empty base); [by exists EmptyString|]. destruct (ends_with "/" base); [by exists base|].
  exists (base +:+ "/"). by rewrite str_app_assoc.
Qed.
Lemma quiet_releases c : (∀ m, c ≠ WriteFd (bar_w fds) m) → releases c = false.
Proof. destruct c; simpl; try done. intros Hc. destruct (Z.eqb_spec fd (bar_w fds)) as [->|]; [by edestruct Hc|done]. Qed.
Lemma avoids_cgroup_drop cg : avoids releases (cgroup_drop cg).
Proof.
  unfold cgroup_drop. avoids_tac. assert (∀ n path, avoids releases (remove_loop n path)) as Hr; [|apply Hr].
  intros n path. induction n as [|n IH]; cbn [remove_loop]; [done|]. avoids_tac. done.
Qed.
Lemma avoids_or_drop {A} cg (p : prog (outcome JailError A)) : avoids releases p → avoids releases (or_drop cg p).
Proof. intros Hp. unfold or_drop. avoids_tac; [done|apply avoids_cgroup_drop..]. Qed.
Lemma avoids_apply_limits cg : avoids releases (apply_limits cfg cg).
Proof.
  unfold apply_limits, when, set_memory_limit, set_cpu_quota, set_pids_max, set_io_limit, get_device_id, cg_write. avoids_tac.
Qed.
Lemma avoids_cgroup_create name : avoids releases (cgroup_create show_error name).
Proof.
  unfold cgroup_create, ensure_cgroup_base, init_cgroup_base. avoids_tac.
  assert (∀ n a b c d, avoids releases (migrate_loop n a b c d)) as Hm; [|apply Hm].
  clear. intros n a b c d. induction n as [|n IH]; cbn [migrate_loop]; [done|]. avoids_tac. done.
Qed.
Lemma avoids_handshake :
  match userns_pair fds with Some (_, p) => p ≠ bar_w fds | None => True end →
  avoids releases (userns_handshake cfg pid fds).
Proof.
  intros Hne. unfold userns_handshake, write_uid_gid_map. destruct (user_namespace cfg); [|done].
  destruct (userns_pair fds) as [[c p]|]; [|done]. avoids_tac. simpl. by destruct (Z.eqb_spec p (bar_w fds)).
Qed.

(** C7: Limits before freedom.  If the configuration sets any resource limit, then
    on every kernel the parent releases the child from the start barrier only
    after the kernel has accepted the child's pid into its cgroup: no jailed
    program runs unlimited, not even during setup.  (The handshake's socket is
    another descriptor than the barrier.) *)
Theorem limits_before_release (K : kernel) (i : nat) (msg : bytes) (r : ret) :
  has_limits cfg = true → match userns_pair fds with Some (_, p) => p ≠ bar_w fds | None => True end →
  (run K [] (spawn_parent show_error j pid fds)).1 !! i = Some (WriteFd (bar_w fds) msg, r) →
  existsb assigned (take i (run K [] (spawn_parent show_error j pid fds)).1) = true.
Proof.
  intros Hl Hne Hi.
  assert (finishes releases [assigned] [] (spawn_parent show_error j pid fds)) as Hf.
  { unfold spawn_parent. fold cfg. do 3 (apply finishes_skip; [avoids_tac|intros _]).
    apply finishes_then; [|intros [[cg veth]|e|]; [|done..]].
    2: { unfold with_cgroup. destruct cg; [apply avoids_or_drop|]; avoids_tac. }
    unfold child_guard. apply finishes_then; [|intros [a|e|]; unfold kill_tree; avoids_tac].
    apply finishes_jbind with []; [apply adds_avoids; by apply avoids_handshake|intros _].
    unfold create_cgroup. rewrite Hl. cbn [negb]. unfold jbind at 1. apply finishes_assoc, finishes_skip; [avoids_tac|intros me].
    apply finishes_assoc. apply finishes_skip; [apply avoids_cgroup_create|intros [cg|e|]; [|by apply finishes_avoids..]].
    apply finishes_assoc. apply finishes_skip; [apply avoids_or_drop, avoids_apply_limits|intros [[]|e|]; [|by apply finishes_avoids..]].
    cbn [pbind pok]. unfold jbind at 1. apply finishes_then; [|intros [a|e|]; done].
    cbn [with_cgroup]. unfold or_drop. apply finishes_then; [|intros [a|e|]; [done|avoids_tac; apply avoids_cgroup_drop..]].
    apply finishes_jbind with [assigned]; [|intros _; apply (finishes_all [assigned] [])].
    unfold add_pid, cg_write. apply (adds_jbind _ [assigned] []); [|intros _; by apply adds_avoids].
    apply adds_try_io_test; [done|]. intros r' Hr. simpl. rewrite Hr, String.eqb_refl, !andb_true_r.
    by apply ends_with_join. }
  pose proof (wp_run _ _ _ K (Hf [] eq_refl (guarded_nil _)) i _ r Hi) as Hg. simpl in Hg. specialize (Hg (Z.eqb_refl _)).
  apply in_order_event in Hg as (k & e & Hk & He). apply existsb_exists. exists e.
  split; [|done]. apply list_elem_of_In. by eapply list_elem_of_lookup_2.
Qed.

Definition reaped_child : list (event → bool) :=
  [called (Kill (- pid) SIGKILL); called (Kill pid SIGKILL); called (Waitpid pid 0)].
Lemma guard_reaps {A} (body : prog (outcome JailError A)) tr :
  wp (child_guard pid body) (λ o t, match o with Some (Ok _) | None => True | _ => in_order reaped_child t = true end) tr.
Proof.
  unfold child_guard. rewrite wp_bind. apply wp_complete. intros K.
  destruct (run K tr body) as [t [[a|e|]|]]; [done| | |done].
  all: simpl; intros r1 r2 r3; rewrite <- !app_assoc; apply in_order_drop; simpl; by rewrite !called_at.
Qed.
(** A pipe could not be registered with the runtime. *)
Definition pipe_rejected (t : trace) : Prop := ∃ fd r, (RegisterPipe fd, r) ∈ t ∧ ok r = false.

(** A failed spawn leaves no child behind.  When [spawn] fails after the fork,
    whatever failed and on every kernel, the child's process group and the child
    were sent SIGKILL and the child was waited for; except when registering a
    stdout or stderr pipe fails, which happens after the guard is disarmed. *)
Theorem spawn_error_reaps (K : kernel) (tr : trace) (e : JailError) :
  (run K tr (spawn_parent show_error j pid fds)).2 = Some (Err e) →
  in_order reaped_child (run K tr (spawn_parent show_error j pid fds)).1 = true ∨
  pipe_rejected (run K tr (spawn_parent show_error j pid fds)).1.
Proof.
  set (Q (o : option (outcome JailError JailHandle)) (t : trace) :=
    match o with Some (Err _) => in_order reaped_child t = true ∨ pipe_rejected t | _ => True end).
  assert (wp (spawn_parent show_error j pid fds) Q tr) as Hw.
  { unfold spawn_parent. intros r1 r2 r3. cbn [pbind]. unfold jbind at 1. rewrite wp_bind.
    eapply wp_mono; [|apply guard_reaps]. intros [[[cg veth]|e'|]|] t Ht; [|by left|done..].
    set (reg := try_io Io (RegisterPipe (out_r fds)) ;;! _).
    assert (∀ t, wp reg (λ o t', match o with Some (Err _) => pipe_rejected t' | _ => True end) t) as Hreg.
    { clear. intros t. unfold reg, try_io. intros r1. cbn [pbind jbind wp]. destruct (ok r1) eqn:E1.
      - intros r2. cbn [pbind jbind wp]. destruct (ok r2) eqn:E2; [done|]. exists (err_r fds), r2.
        rewrite !elem_of_app, !list_elem_of_singleton. auto.
      - exists (out_r fds), r1. rewrite !elem_of_app, !list_elem_of_singleton. auto. }
    destruct cg as [cg|]; [|eapply wp_mono; [|apply Hreg]; by intros [[]|] t' Ht'; simpl; auto].
    cbn [with_cgroup]. unfold or_drop. rewrite wp_bind. eapply wp_mono; [|apply Hreg].
    intros [[h|e'|]|] t' Ht'; [done| | |done].
    all: rewrite wp_bind; eapply wp_mono; [|apply (wp_prefix (cgroup_drop cg))]; intros [[]|] t'' [t3 ->]; try done.
    right. destruct Ht' as (fd & r & Hin & Hr). exists fd, r.
    split; [|done]. apply elem_of_app. by left. }
  intros Ho. apply (wp_run _ _ _ K) in Hw. unfold Q in Hw. by rewrite Ho in Hw.
Qed.
End parent.

(** ** After the exit *)
Section handle.
Context `{Target}.
(** A signal to a process group. *)
Definition group_kill (c : syscall) : bool := match c with Kill p _ => p <? 0 | _ => false end.
(** The wait for the child ran out of time. *)
Definition timed_out (pid : Z) (e : event) : bool :=
  match e with (AwaitExit p _, r) => (p =? pid) && (rv r <? 0) | _ => false end.
Lemma avoids_read_number cg f : avoids group_kill (read_number cg f).
Proof. unfold read_number, cg_read. avoids_tac. Qed.
Lemma avoids_stats h : avoids group_kill (collect_stats h).
Proof.
  unfold collect_stats, io_stats, memory_peak, memory_current, cpu_usage_usec, oom_killed, pids_current, cg_read.
  avoids_tac; apply avoids_read_number.
Qed.
Lemma avoids_delete_link i : avoids group_kill (delete_link i).
Proof. unfold delete_link, ifindex, with_nl_socket, net, nl_socket, nl_exec. avoids_tac. Qed.
Lemma avoids_cleanup h : avoids group_kill (cleanup_veth h).
Proof. unfold cleanup_veth. avoids_tac. apply avoids_delete_link. Qed.
Lemma avoids_kill_list l : (∀ p, p ∈ l → 0 < p) → avoids group_kill (for_all_do (λ pid, sys (Kill pid 9) ;;* Ret tt) l).
Proof.
  intros Hl. induction l as [|p l IH]; cbn [for_all_do]; [done|]. apply avoids_bind.
  - avoids_tac. simpl. apply Z.ltb_ge. specialize (Hl p ltac:(by left)). lia.
  - intros _. apply IH. intros q Hq. apply Hl. by right.
Qed.
Lemma pid_of_line_pos l p : pid_of_line l = Some p → 0 < p.
Proof. unfold pid_of_line. intros (q & _ & Hq)%bind_Some. destruct (Z.ltb_spec 0 q); [congruence|done]. Qed.
Lemma avoids_drop_cgroup h : avoids group_kill (drop_cgroup h).
Proof.
  unfold drop_cgroup, cgroup_drop. destruct (h_cgroup h) as [cg|]; [|done].
  apply avoids_bind; [avoids_tac|intros procs]. apply avoids_bind; [destruct (ok procs); [|done]|intros _; avoids_tac].
  - apply avoids_kill_list. intros p (l & _ & Hl)%list_elem_of_omap. by eapply pid_of_line_pos.
  - assert (∀ n path, avoids group_kill (remove_loop n path)) as Hr; [|apply Hr].
    intros n path. induction n as [|n IH]; cbn [remove_loop]; [done|]. avoids_tac. done.
Qed.

Lemma avoids_cleanup_bind {A} h (k : JailHandle → prog A) :
  (∀ h', h_reaped h' = h_reaped h → avoids group_kill (k h')) → avoids group_kill (pbind (cleanup_veth h) k).
Proof.
  intros Hk. unfold cleanup_veth. apply avoids_assoc, avoids_bind; [avoids_tac|intros _].
  apply avoids_assoc, avoids_bind; [avoids_tac; apply avoids_delete_link|intros _]. by apply Hk.
Qed.
Lemma avoids_after_wait h code out :
  avoids group_kill (
    let* stats := collect_stats h in
    let oom := match stats with Some s => Jails.stats_oom_killed s | None => false end in
    let* o := sys (DrainPipe (h_stdout h)) in
    let* err := sys (DrainPipe (h_stderr h)) in
    let h := set_reaped h in
    let* h := cleanup_veth h in
    let* dur := sys Elapsed in
    handle_drop h ;;* Ret (Jails.MkOutput (rtext o) (rtext err) code (1000 * rv dur) out oom stats)).
Proof.
  apply avoids_bind; [apply avoids_stats|intros stats]. do 2 (apply avoids_bind; [avoids_tac|intros ?]).
  cbv zeta.
  assert (∀ h', h_reaped h' = true → avoids group_kill (handle_drop h')) as Hd.
  { intros h' Hr. unfold handle_drop. rewrite Hr. apply avoids_bind; [apply avoids_cleanup|intros _; apply avoids_drop_cgroup]. }
  apply avoids_cleanup_bind. intros h' Hr. avoids_tac. by apply Hd.
Qed.

(** No signal to a process that is gone.  While a handle is waited for and then
    dropped, a process group is signalled only after the wait has run out of
    time: when the child exits by itself its process group id, which may by then
    belong to somebody else, is never signalled, neither by [wait] nor by the
    destructor of the handle or of its cgroup. *)
Theorem group_killed_only_on_timeout (K : kernel) (h : JailHandle) (i : nat) (p sig : Z) (r : ret) :
  (run K [] (handle_wait h)).1 !! i = Some (Kill p sig, r) → p < 0 →
  existsb (timed_out (h_pid h)) (take i (run K [] (handle_wait h)).1) = true.
Proof.
  intros Hi Hp.
  assert (finishes group_kill [timed_out (h_pid h)] [] (handle_wait h)) as Hf.
  { unfold handle_wait. apply finishes_then; [|intros [code out]; apply avoids_after_wait].
    unfold wait_exit. apply finishes_skip; [avoids_tac|intros start].
    unfold await. apply finishes_assoc.
    apply (finishes_call _ _ (timed_out (h_pid h))); [done|..]; intros w; simpl; rewrite Z.eqb_refl; simpl; intros E.
    - rewrite E. cbn [pbind]. apply (finishes_all [timed_out (h_pid h)] []).
    - by rewrite E. }
  pose proof (wp_run _ _ _ K (Hf [] eq_refl (guarded_nil _)) i _ r Hi) as Hg. simpl in Hg.
  specialize (Hg ltac:(by apply Z.ltb_lt)).
  apply in_order_event in Hg as (k & e & Hk & He). apply existsb_exists. exists e.
  split; [|done]. apply list_elem_of_In. by eapply list_elem_of_lookup_2.
Qed.
End handle.

(** ** Concrete runs *)
(** The default configuration without a user namespace and without landlock, the
    way the control plane runs as root. *)
Definition root_config : JailConfig := {|
  source := "/srv/src"; output := "/srv/out"; source_rw := false;
  network := NetNone; seccomp := SecStandard; landlock := false;
  memory_mb := 512; cpu_percent := 100; max_pids := 64; io_read_mbps := 0; io_write_mbps := 0;
  timeout_secs := 300; cfg_env := [];
  user_namespace := false; pid_namespace := true; ipc_namespace := true;
  workdir := "/workspace"; gpu := MkGpuConfig false []; readonly_overlays := []
|}.
Definition root_jail : Jail := MkJail root_config None (Some SecStandard).
Definition userns_jail : Jail := MkJail config_default None (Some SecStandard).
Definition some_fds : Fds := MkFds 3 4 5 6 7 8 None None.
Definition userns_fds : Fds := MkFds 3 4 5 6 7 8 None (Some (9, 10)).
Definition quiet_error (_ : JailError) : string := "".
Definition parent_kernel : kernel := λ _ c,
  match c with
  | Fork => rint 4242
  | WriteFd _ msg => rint (Z.of_nat (length msg))
  | AwaitExit _ _ => MkRet 0 0 [0] "" []
  | RegisterPipe _ => rint 0
  | _ => rint 0
  end.
(** The same, but the runtime refuses the pipes. *)
Definition refusing_kernel : kernel := λ t c, match c with RegisterPipe _ => rfail 1 | _ => parent_kernel t c end.

Definition userns_start : world :=
  forked quiet_error userns_jail "/bin/sh" ["-c"; "id"]%string userns_fds 4242.
Definition after_two_closes : world :=
  let w1 := advance userns_fds userns_start ParentP (Close 4) (rint 0)
              (match w_parent userns_start with Call _ k => k (rint 0) | p => p end) (w_child userns_start) in
  advance userns_fds w1 ChildP (Prctl PR_SET_PDEATHSIG SIGKILL) (rint 0) (w_parent w1)
    (match w_child w1 with Call _ k => k (rint 0) | p => p end).
Lemma userns_spawn_deadlocks_witness :
  (∀ o, w_parent after_two_closes ≠ Ret o) ∧ no_exec_logged after_two_closes.
Proof.
  apply (userns_spawn_deadlocks quiet_error userns_jail "/bin/sh" ["-c"; "id"]%string userns_fds 4242 9 10 after_two_closes).
  - apply (bool_decide_unpack _). vm_compute. exact I.
  - reflexivity.
  - reflexivity.
  - eapply rtc_l; [eapply parent_step with (r := rint 0); [reflexivity|exact I]|].
    eapply rtc_l; [eapply child_step with (r := rint 0); [reflexivity|exact I]|]. apply rtc_refl.
Defined.

Definition root_spawn : trace := (run parent_kernel [] (spawn_parent quiet_error root_jail 4242 some_fds)).1.
Lemma limits_before_release_witness : existsb (assigned 4242) (take 14 root_spawn) = true.
Proof.
  apply (limits_before_release quiet_error root_jail 4242 some_fds parent_kernel 14 [1] (rint 1)).
  - reflexivity.
  - exact I.
  - vm_compute. reflexivity.
Defined.

(** A kernel that accepts everything but the child's pid in the cgroup. *)
Definition full_cgroup_kernel : kernel := λ t c,
  match c with WriteFile p _ => if ends_with "cgroup.procs" p then rfail 11 else parent_kernel t c | _ => parent_kernel t c end.
Definition full_spawn : trace * option (outcome JailError JailHandle) :=
  run full_cgroup_kernel [] (spawn_parent quiet_error root_jail 4242 some_fds).
Lemma spawn_error_reaps_witness : in_order (reaped_child 4242) full_spawn.1 = true ∨ pipe_rejected full_spawn.1.
Proof.
  eapply (spawn_error_reaps quiet_error root_jail 4242 some_fds full_cgroup_kernel []). vm_compute. reflexivity.
Defined.

(** A jailed program that runs past its time limit. *)
Definition overdue_kernel : kernel := λ t c,
  match c with AwaitExit _ d => if d <? 0 then MkRet 0 0 [137] "" [] else rint (-1) | _ => parent_kernel t c end.
Definition some_handle : JailHandle :=
  {| h_pid := 4242; h_reaped := false; h_stdout := 3; h_stderr := 5; h_timeout := 300000000;
     h_cgroup := None; h_veth := None; h_jail_ip := None; h_proxy := false |}.
Lemma group_killed_only_on_timeout_witness :
  existsb (timed_out 4242) (take 2 (run overdue_kernel [] (handle_wait some_handle)).1) = true.
Proof.
  eapply (group_killed_only_on_timeout overdue_kernel some_handle 2 (-4242) 9).
  - vm_compute. reflexivity.
  - reflexivity.
Defined.
