(* ===== verification/Fs.v ===== *)
(** * A file system

    What the snapshot code relies on of the operating system: a tree of
    directories, regular files, symbolic links, named pipes and other nodes, in which
    several names may share one file (hard links).  [fsrun] executes a program against it.
    An oracle decides which calls fail, in which order directories list their
    entries and where reading one breaks off, and what the clock shows.  A call
    that fails leaves the tree as it is, except that a failed copy or append has
    written a part.  A call that opens a named pipe does not return ([waits]), and
    neither does the program.  Relative paths start at the root; permissions, quotas and
    other processes are represented by the oracle's failures only. *)

From S2P Require Import Prelude Text Sys.
Local Open Scope Z_scope.

(** ** Data *)
Abbreviation loc := (list string).
(** The content of a file; names refer to it by number. *)
Record node := MkNode { n_data : string; n_mode : Z; n_mtime : Z }.
(** [EFifo]: a named pipe; [EOther]: a socket or a device. *)
Inductive entry := EDir | EFile (ino : N) | ELink (target : string) | EFifo | EOther.
#[export] Instance entry_eq_dec : EqDecision entry.
Proof. solve_decision. Defined.
Record fs := MkFs { tree : gmap loc entry; nodes : gmap N node; next_ino : N; steps : nat }.

(** ** Paths *)
Fixpoint split_slash (s : string) : list string :=
  match s with
  | EmptyString => [EmptyString]
  | String c s' =>
      if Ascii.eqb c "/" then EmptyString :: split_slash s'
      else match split_slash s' with h :: t => String c h :: t | [] => [String c EmptyString] end
  end.
(** Empty and [.] components do not count. *)
Definition counts (c : string) : bool := negb (String.eqb c "") && negb (String.eqb c ".").
Definition comps (p : string) : loc := List.filter counts (split_slash p).

(** Path resolution: [..] goes up, a symbolic link is replaced by its target (the
    last one only if [follow]); at most as many links as [fuel]. *)
Fixpoint walk (fuel : nat) (t : gmap loc entry) (follow : bool) : loc → list string → option loc :=
  fix go (cur : loc) (cs : list string) :=
    match cs with
    | [] => Some cur
    | c :: rest =>
        if String.eqb c ".." then go (removelast cur) rest else
        let l := cur ++ [c] in
        match t !! l with
        | Some EDir => go l rest
        | Some (ELink target) =>
            if bool_decide (rest = []) && negb follow then Some l
            else match fuel with
                 | O => None
                 | S f => walk f t follow (if starts_with "/" target then [] else cur) (comps target ++ rest)
                 end
        | _ => if bool_decide (rest = []) then Some l else None
        end
    end.
Definition MAX_LINKS : nat := 40.
Definition resolve (t : gmap loc entry) (follow : bool) (p : string) : option loc := walk MAX_LINKS t follow [] (comps p).

(** The names in a directory. *)
Definition child_of (l k : loc) : option string :=
  match last k with Some n => if bool_decide (k = l ++ [n]) then Some n else None | None => None end.
Definition children (t : gmap loc entry) (l : loc) : list string := omap (child_of l) (map_to_list t).*1.
Definition under (l : loc) (k : loc) : Prop := l `prefix_of` k.
#[export] Instance under_dec l k : Decision (under l k).
Proof. unfold under. apply _. Defined.

(** ** The oracle *)
Class Oracle := {
  (** the answer to a call that is not about files; a negative one to a call that
      is makes it fail *)
  answer : nat → syscall → ret;
  (** the order of a directory, up to where reading it breaks off *)
  listing : nat → list string → list (option string);
  listing_law n l : ∃ l', l' ≡ₚ l ∧
    (listing n l = Some <$> l' ∨ ∃ k, listing n l = (Some <$> take k l') ++ [None])
}.
(** Nothing fails; directories are listed in some fixed order. *)
#[export] Instance calm : Oracle.
Proof.
  refine {| answer _ _ := rint 0; listing _ l := Some <$> l |}. intros _ l. exists l. auto.
Defined.

Section exec.
Context `{Oracle}.

Definition ENOENT := 2.
Definition EEXIST := 17.
Definition ENOTDIR := 20.
Definition EISDIR := 21.
Definition EINVAL := 22.
Definition ENOTEMPTY := 39.
Definition now (w : fs) : Z := rv (answer (steps w) Elapsed).
Definition set_tree (w : fs) (t : gmap loc entry) : fs := MkFs t (nodes w) (next_ino w) (steps w).
Definition set_node (w : fs) (i : N) (n : node) : fs := MkFs (tree w) (<[i := n]> (nodes w)) (next_ino w) (steps w).
Definition tick (w : fs) : fs := MkFs (tree w) (nodes w) (next_ino w) (S (steps w)).
(** What a path leads to, following links. *)
Definition at_path (w : fs) (p : string) : option entry := l ← resolve (tree w) true p; tree w !! l.
Definition file_at (w : fs) (p : string) : option (N * node) :=
  e ← at_path w p; match e with EFile i => n ← nodes w !! i; Some (i, n) | _ => None end.
(** A parent directory that exists. *)
Definition has_parent (t : gmap loc entry) (l : loc) : bool :=
  match l with [] => false | _ => bool_decide (t !! removelast l = Some EDir) end.

(** [open(O_CREAT|O_TRUNC)] and writing [data]; an existing file keeps its mode. *)
Definition put_file (w : fs) (p data : string) (mode : Z) : ret * fs :=
  match resolve (tree w) true p with
  | Some l =>
      match tree w !! l with
      | Some (EFile i) =>
          match nodes w !! i with
          | Some n => (rint 0, set_node w i (MkNode data (n_mode n) (now w)))
          | None => (rfail ENOENT, w)
          end
      | None =>
          if has_parent (tree w) l then
            (rint 0, MkFs (<[l := EFile (next_ino w)]> (tree w)) (<[next_ino w := MkNode data mode (now w)]> (nodes w))
                       (next_ino w + 1) (steps w))
          else (rfail ENOENT, w)
      | _ => (rfail EISDIR, w)
      end
  | None => (rfail ENOENT, w)
  end.
Definition chmod (w : fs) (p : string) (mode : Z) : ret * fs :=
  match at_path w p with
  | Some (EFile i) =>
      match nodes w !! i with
      | Some n => (rint 0, set_node w i (MkNode (n_data n) mode (n_mtime n)))
      | None => (rfail ENOENT, w)
      end
  | Some _ => (rint 0, w)
  | None => (rfail ENOENT, w)
  end.
(** [fs::copy]: the contents, then the mode.  Copying a file onto itself empties
    it; what is opened and is not a regular file is refused ([InvalidInput]); a named
    pipe is not opened at all ([waits]). *)
Definition copy (w : fs) (src dst : string) (len : option nat) : ret * fs :=
  match file_at w src with
  | Some (i, n) =>
      let data := match len with Some k => str_take k (n_data n) | None => n_data n end in
      let data := match file_at w dst with Some (j, _) => if bool_decide (i = j) then ""%string else data | None => data end in
      let '(r, w') := put_file w dst data (n_mode n) in
      if ok r then chmod w' dst (n_mode n) else (r, w')
  | None => (rfail EINVAL, w)
  end.
Definition append (w : fs) (p text : string) : ret * fs :=
  match file_at w p with
  | Some (i, n) => (rint 0, set_node w i (MkNode (n_data n +:+ text) (n_mode n) (now w)))
  | None => (rfail ENOENT, w)
  end.
(** [create_dir_all], one component after the other. *)
Fixpoint mkdirs (w : fs) (done todo : list string) : ret * fs :=
  match todo with
  | [] => (rint 0, w)
  | c :: rest =>
      match walk MAX_LINKS (tree w) true [] (done ++ [c]) with
      | Some l =>
          match tree w !! l with
          | Some EDir => mkdirs w (done ++ [c]) rest
          | None => if has_parent (tree w) l then mkdirs (set_tree w (<[l := EDir]> (tree w))) (done ++ [c]) rest
                    else (rfail ENOENT, w)
          | _ => (rfail EEXIST, w)
          end
      | None => (rfail ENOENT, w)
      end
  end.
Definition link (w : fs) (src dst : string) : ret * fs :=
  match resolve (tree w) false src, resolve (tree w) false dst with
  | Some s, Some d =>
      match tree w !! s, tree w !! d with
      | Some EDir, _ => (rfail 1, w)
      | Some e, None => if has_parent (tree w) d then (rint 0, set_tree w (<[d := e]> (tree w))) else (rfail ENOENT, w)
      | Some _, Some _ => (rfail EEXIST, w)
      | None, _ => (rfail ENOENT, w)
      end
  | _, _ => (rfail ENOENT, w)
  end.
(** [rename] of a file. *)
Definition rename (w : fs) (src dst : string) : ret * fs :=
  match resolve (tree w) false src, resolve (tree w) false dst with
  | Some s, Some d =>
      match tree w !! s, tree w !! d with
      | Some (EFile i), Some EDir => (rfail EISDIR, w)
      | Some (EFile i), _ =>
          if has_parent (tree w) d then (rint 0, set_tree w (<[d := EFile i]> (delete s (tree w)))) else (rfail ENOENT, w)
      | _, _ => (rfail EINVAL, w)
      end
  | _, _ => (rfail ENOENT, w)
  end.
Definition file_kind (e : entry) : Z := match e with EDir => 0 | ELink _ => 1 | EFile _ => 2 | EFifo | EOther => 3 end.
Definition remove_below (l : loc) (t : gmap loc entry) : gmap loc entry := filter (λ kv, ¬ under l kv.1) t.

Definition CHUNK : nat := Z.to_nat 65536.
Definition fs_exec (c : syscall) (w : fs) : ret * fs :=
  let a := answer (steps w) c in
  let part := Z.to_nat (nth 0 (rbytes a) 0) in
  let t := tree w in
  match c with
  | Exists p => (rint (if at_path w p is Some _ then 1 else 0), w)
  | IsDir p => (rint (if decide (at_path w p = Some EDir) then 1 else 0), w)
  | CreateDirAll p => if ok a then mkdirs w [] (comps p) else (a, w)
  | ReadDir p =>
      if negb (ok a) then (a, w) else
      match l ← resolve t true p; e ← t !! l; if decide (e = EDir) then Some l else None with
      | Some l => (MkRet 0 0 [] "" (listing (steps w) (children t l)), w)
      | None => (rfail ENOTDIR, w)
      end
  | FileType p =>
      if negb (ok a) then (a, w) else
      match l ← resolve t false p; t !! l with
      | Some e => (rint (file_kind e), w)
      | None => (rfail ENOENT, w)
      end
  | Metadata p =>
      if negb (ok a) then (a, w) else
      match file_at w p with
      | Some (_, n) => (MkRet (Z.of_nat (str_len (n_data n))) 0 [n_mode n; n_mtime n / 1000000000; n_mtime n mod 1000000000] "" [], w)
      | None => if at_path w p is Some _ then (MkRet 4096 0 [493; 0; 0] "" [], w) else (rfail ENOENT, w)
      end
  | LMetadata p =>
      if negb (ok a) then (a, w) else
      match l ← resolve t false p; t !! l with
      | Some (EFile i) =>
          match nodes w !! i with
          | Some n => (MkRet (Z.of_nat (str_len (n_data n))) 0 [n_mode n; n_mtime n / 1000000000; n_mtime n mod 1000000000] "" [], w)
          | None => (rfail ENOENT, w)
          end
      | Some e => (MkRet (match e with ELink s => Z.of_nat (str_len s) | EDir => 4096 | _ => 0 end) 0 [493; 0; 0] "" [], w)
      | None => (rfail ENOENT, w)
      end
  | OpenFile p => if negb (ok a) then (a, w) else (if at_path w p is Some _ then rint 0 else rfail ENOENT, w)
  | SetPermissions p m => if ok a then chmod w p m else (a, w)
  | CreateFile p => if ok a then put_file w p "" 420 else (a, w)
  | WriteFile p text => if ok a then put_file w p text 420 else (a, (put_file w p (str_take part text) 420).2)
  | AppendFile p text => if ok a then append w p text else (a, (append w p (str_take part text)).2)
  | ReadFile p =>
      if negb (ok a) then (a, w) else
      match file_at w p with Some (_, n) => (MkRet 0 0 [] (n_data n) [], w) | None => (rfail ENOENT, w) end
  | ReadChunk p off =>
      if negb (ok a) then (a, w) else
      match file_at w p with
      | Some (_, n) => let d := str_take CHUNK (str_drop (Z.to_nat off) (n_data n)) in
                       (MkRet (Z.of_nat (str_len d)) 0 [] d [], w)
      | None => (rfail ENOENT, w)
      end
  | CopyFile s d => if ok a then copy w s d None else (a, (copy w s d (Some part)).2)
  | FiClone s d =>
      if negb (ok a) then (a, w) else
      match file_at w s, file_at w d with
      | Some (_, n), Some (j, m) => (rint 0, set_node w j (MkNode (n_data n) (n_mode m) (now w)))
      | _, _ => (rfail EINVAL, w)
      end
  | HardLink s d => if ok a then link w s d else (a, w)
  | Rename s d => if ok a then rename w s d else (a, w)
  | RemoveFile p =>
      if negb (ok a) then (a, w) else
      match l ← resolve t false p; e ← t !! l; Some (l, e) with
      | Some (_, EDir) => (rfail EISDIR, w)
      | Some (l, _) => (rint 0, set_tree w (delete l t))
      | None => (rfail ENOENT, w)
      end
  | RemoveDirAll p =>
      if negb (ok a) then (a, w) else
      match l ← resolve t false p; e ← t !! l; Some (l, e) with
      | Some (l, _) => (rint 0, set_tree w (remove_below l t))
      | None => (rfail ENOENT, w)
      end
  | RemoveDir p =>
      if negb (ok a) then (a, w) else
      match l ← resolve t false p; e ← t !! l; Some (l, e) with
      | Some (l, EDir) => if decide (children t l = []) then (rint 0, set_tree w (delete l t)) else (rfail ENOTEMPTY, w)
      | Some _ => (rfail ENOTDIR, w)
      | None => (rfail ENOENT, w)
      end
  | _ => (a, w)
  end.
(** The paths a call opens.  Opening a named pipe waits for its other end, which
    nobody opens: unless the call fails before, it does not return. *)
Definition opens (c : syscall) : list string :=
  match c with
  | OpenFile p | ReadFile p | CreateFile p | WriteFile p _ | AppendFile p _ => [p]
  | CopyFile s d | FiClone s d => [s; d]
  | _ => []
  end.
Definition waits (c : syscall) (w : fs) : bool :=
  match opens c with
  | [] => false
  | ps => ok (answer (steps w) c) && existsb (λ p, bool_decide (at_path w p = Some EFifo)) ps
  end.
Fixpoint fsrun {A} (w : fs) (p : prog A) : option A * fs :=
  match p with
  | Ret a => (Some a, w)
  | Halt => (None, w)
  | Call c k => if waits c w then (None, w) else let '(r, w') := fs_exec c w in fsrun (tick w') (k r)
  end.
End exec.

(** ** Laws *)
Lemma fsrun_bind `{Oracle} {A B} (w : fs) (p : prog A) (f : A → prog B) :
  fsrun w (pbind p f) = match fsrun w p with (Some a, w') => fsrun w' (f a) | (None, w') => (None, w') end.
Proof. revert w. induction p as [a| |c k IH]; intros w; simpl; [done..|]. destruct (waits c w); [done|]. destruct (fs_exec c w). apply IH. Qed.
Lemma fsrun_jbind_ok `{Oracle} {A B} (w w' : fs) (m : prog (outcome JailError A)) (f : A → prog (outcome JailError B)) b :
  fsrun w (jbind m f) = (Some (Ok b), w') →
  ∃ a w1, fsrun w m = (Some (Ok a), w1) ∧ fsrun w1 (f a) = (Some (Ok b), w').
Proof.
  unfold jbind. rewrite fsrun_bind. destruct (fsrun w m) as [[[a|e|]|] w1]; simpl; try done. intros Hf. by exists a, w1.
Qed.
Lemma fsrun_try_io_ok `{Oracle} wrap c w r w' :
  fsrun w (try_io wrap c) = (Some (Ok r), w') → ∃ w1, fs_exec c w = (r, w1) ∧ ok r = true ∧ w' = tick w1.
Proof.
  simpl. destruct (waits c w); [done|]. destruct (fs_exec c w) as [r' w1]. simpl. destruct (ok r') eqn:E; [|done]. intros [= -> <-]. by exists w1.
Qed.

(** A program that does not run out of fuel. *)
Definition returns `{Oracle} {A} (w : fs) (p : prog A) : Prop := (fsrun w p).1 ≠ None.
Lemma returns_jbind `{Oracle} {A B} w (m : prog (outcome JailError A)) (f : A → prog (outcome JailError B)) :
  returns w m → (∀ a w1, fsrun w m = (Some (Ok a), w1) → returns w1 (f a)) → returns w (jbind m f).
Proof.
  unfold returns, jbind. rewrite fsrun_bind. destruct (fsrun w m) as [[[a|e|]|] w1]; simpl; try done. intros _ Hf. by apply Hf.
Qed.
Lemma returns_try_io `{Oracle} wrap c w : waits c w = false → returns w (try_io wrap c).
Proof. unfold returns. simpl. intros ->. by destruct (fs_exec c w). Qed.

(** Regular files and paths where nothing is do not make a call wait. *)
Lemma waits_false `{Oracle} c w : (∀ p, p ∈ opens c → at_path w p ≠ Some EFifo) → waits c w = false.
Proof.
  intros Hp. unfold waits. destruct (opens c) as [|p ps]; [done|]. apply andb_false_iff. right. apply not_true_is_false.
  intros (q & Hq & Hf%bool_decide_eq_true)%existsb_exists. apply (Hp q); [by apply list_elem_of_In|done].
Qed.

(** Names a directory can hold. *)
Definition plain (n : string) : Prop := split_slash n = [n] ∧ n ≠ ""%string ∧ n ≠ "."%string ∧ n ≠ ".."%string.
#[export] Instance plain_dec n : Decision (plain n).
Proof. unfold plain. apply _. Defined.
(** The tree is a tree, with a node for every file. *)
Record wf (w : fs) : Prop := {
  wf_root : tree w !! [] = Some EDir;
  wf_parent l n e : tree w !! (l ++ [n]) = Some e → tree w !! l = Some EDir;
  wf_plain l n e : tree w !! (l ++ [n]) = Some e → plain n;
  wf_file l i : tree w !! l = Some (EFile i) → is_Some (nodes w !! i) ∧ (i < next_ino w)%N
}.
(** [p] spells [l], without detours. *)
Definition names (p : string) (l : loc) : Prop := comps p = l ∧ Forall plain l.

Lemma no_slash_split s : ¬ str_elem "/"%char s → split_slash s = [s].
Proof.
  induction s as [|c s IH]; [done|]. intros Hn. cbn [split_slash]. simpl in Hn.
  destruct (Ascii.eqb_spec c "/") as [->|_]; [by destruct Hn; left|]. rewrite IH; [done|]. intros ?. apply Hn. by right.
Qed.
Lemma split_slash_ne s : split_slash s ≠ [].
Proof. destruct s as [|c s]; [done|]. simpl. destruct (Ascii.eqb c "/"); [done|]. by destruct (split_slash s). Qed.
Lemma split_slash_app a b : split_slash (a +:+ "/" +:+ b) = split_slash a ++ split_slash b.
Proof.
  induction a as [|c a IH]; [done|].
  change (String c a +:+ "/" +:+ b) with (String c (a +:+ "/" +:+ b)). cbn [split_slash]. rewrite IH.
  destruct (Ascii.eqb c "/"); [done|]. pose proof (split_slash_ne a). by destruct (split_slash a).
Qed.
Lemma counts_plain n : plain n → counts n = true.
Proof.
  intros (_ & H1 & H2 & _). unfold counts. destruct (String.eqb_spec n ""); [done|]. by destruct (String.eqb_spec n ".").
Qed.
Lemma comps_plain n : plain n → comps n = [n].
Proof. intros Hn. unfold comps. destruct (Hn) as [-> _]. simpl. by rewrite counts_plain. Qed.
Lemma filter_counts_app a b : List.filter counts (a ++ b) = List.filter counts a ++ List.filter counts b.
Proof. apply List.filter_app. Qed.
Lemma not_absolute s : split_slash s = [s] → starts_with "/" s = false.
Proof.
  destruct s as [|c s]; [done|]. cbn [split_slash]. destruct (Ascii.eqb_spec c "/") as [->|Hne]; [intros [=]|]. intros _.
  cbn [starts_with]. by destruct (Ascii.eqb_spec "/" c) as [<-|].
Qed.
Lemma comps_join p n : plain n → comps (path_join p n) = comps p ++ [n].
Proof.
  intros Hn. unfold path_join. rewrite not_absolute by apply Hn.
  destruct p as [|c p]; [simpl; by rewrite comps_plain|]. cbn [str_is_empty].
  destruct (ends_with "/" (String c p)) eqn:E.
  - apply ends_with_true in E as [r E]. rewrite E, str_app_assoc. unfold comps.
    rewrite split_slash_app, filter_counts_app. change (r +:+ "/") with (r +:+ "/" +:+ "").
    rewrite split_slash_app, filter_counts_app. simpl. rewrite app_nil_r. f_equal. apply (comps_plain n Hn).
  - unfold comps. rewrite split_slash_app, filter_counts_app. f_equal. apply (comps_plain n Hn).
Qed.
Lemma names_join p l n : names p l → plain n → names (path_join p n) (l ++ [n]).
Proof. intros [Hc Hl] Hn. split; [rewrite comps_join by done; by rewrite Hc|]. apply Forall_app; auto. Qed.

Lemma names_last p d n : names p (d ++ [n]) → plain n.
Proof. intros [_ Hp]. apply Forall_app in Hp as [_ Hp]. by rewrite Forall_singleton in Hp. Qed.

(** ** Resolution of plain paths *)
Lemma wf_prefix w a b e : wf w → tree w !! (a ++ b) = Some e → b ≠ [] → tree w !! a = Some EDir.
Proof.
  intros Hw. revert e. induction b as [|n b IH] using rev_ind; intros e He Hb; [done|].
  rewrite app_assoc in He. apply (wf_parent _ Hw) in He. destruct b as [|m b]; [by rewrite app_nil_r in He|]. by eapply IH.
Qed.
Lemma wf_dir_prefix w a b : wf w → tree w !! (a ++ b) = Some EDir → tree w !! a = Some EDir.
Proof. intros Hw He. destruct b as [|n b]; [by rewrite app_nil_r in He|]. by eapply (wf_prefix w a (n :: b)). Qed.
(** Nothing is below what is not a directory. *)
Lemma wf_below w a b : wf w → tree w !! a ≠ Some EDir → b ≠ [] → tree w !! (a ++ b) = None.
Proof. intros Hw Ha Hb. destruct (tree w !! (a ++ b)) eqn:E; [|done]. by eapply wf_prefix in E. Qed.

Lemma walk_unfold fuel t follow cur cs :
  walk fuel t follow cur cs =
  match cs with
  | [] => Some cur
  | c :: rest =>
      if String.eqb c ".." then walk fuel t follow (removelast cur) rest else
      let l := cur ++ [c] in
      match t !! l with
      | Some EDir => walk fuel t follow l rest
      | Some (ELink target) =>
          if bool_decide (rest = []) && negb follow then Some l
          else match fuel with
               | O => None
               | S f => walk f t follow (if starts_with "/" target then [] else cur) (comps target ++ rest)
               end
      | _ => if bool_decide (rest = []) then Some l else None
      end
  end.
Proof. destruct fuel, cs; reflexivity. Qed.
Lemma walk_dirs fuel w follow cur l rest :
  wf w → tree w !! (cur ++ l) = Some EDir → Forall plain l →
  walk fuel (tree w) follow cur (l ++ rest) = walk fuel (tree w) follow (cur ++ l) rest.
Proof.
  intros Hw. revert cur. induction l as [|c l IH]; intros cur Hd Hp; [by rewrite app_nil_r|].
  inversion Hp as [|? ? Hc Hl]; subst. change ((c :: l) ++ rest) with (c :: (l ++ rest)). rewrite walk_unfold.
  destruct (String.eqb_spec c "..") as [->|_]; [by destruct Hc as (_ & _ & _ & ?)|]. cbv zeta.
  replace (cur ++ c :: l) with ((cur ++ [c]) ++ l) in * by (by rewrite <- app_assoc).
  rewrite (wf_dir_prefix w (cur ++ [c]) l) by done. by apply IH.
Qed.
(** Where an entry is, or would be made. *)
Definition placed (w : fs) (l : loc) : Prop := l = [] ∨ ∃ d n, l = d ++ [n] ∧ tree w !! d = Some EDir.
Lemma placed_entry w l e : wf w → tree w !! l = Some e → placed w l.
Proof.
  intros Hw He. destruct l as [|n l _] using rev_ind; [by left|]. right. exists l, n. split; [done|]. by eapply wf_parent.
Qed.
Lemma placed_join w l n : tree w !! l = Some EDir → placed w (l ++ [n]).
Proof. intros Hd. right. by exists l, n. Qed.
Definition is_link (e : option entry) : bool := match e with Some (ELink _) => true | _ => false end.
Lemma resolve_names w follow p l :
  wf w → names p l → placed w l → (follow = true → is_link (tree w !! l) = false) → resolve (tree w) follow p = Some l.
Proof.
  intros Hw [Hc Hp] Hl Hf. unfold resolve. rewrite Hc. destruct Hl as [->|(d & n & -> & Hd)]; [done|].
  apply Forall_app in Hp as [Hpd Hpn]. rewrite (walk_dirs _ w _ [] d [n]) by done. rewrite walk_unfold.
  rewrite Forall_singleton in Hpn. destruct (String.eqb_spec n "..") as [->|_]; [by destruct Hpn as (_ & _ & _ & ?)|].
  change ([] ++ d) with d. cbv zeta. destruct (tree w !! (d ++ [n])) as [[| | | |]|] eqn:E; try (by rewrite walk_unfold || done).
  destruct follow; [by specialize (Hf eq_refl)|done].
Qed.
Lemma at_path_names w p l :
  wf w → names p l → placed w l → is_link (tree w !! l) = false → at_path w p = tree w !! l.
Proof. intros Hw Hn Hp Hl. unfold at_path. by rewrite (resolve_names w true p l). Qed.

(** ** What a tree shows *)
Inductive item := IDir | IFile (data : string) (mode : Z).
Definition view (w : fs) (l : loc) : option item :=
  match tree w !! l with
  | Some EDir => Some IDir
  | Some (EFile i) => n ← nodes w !! i; Some (IFile (n_data n) (n_mode n))
  | _ => None
  end.
(** Everything outside [l], and every file there was, is as it was. *)
Record same_outside (l : loc) (w w' : fs) : Prop := {
  so_tree k : ¬ under l k → tree w' !! k = tree w !! k;
  so_nodes i : (i < next_ino w)%N → nodes w' !! i = nodes w !! i;
  so_next : (next_ino w <= next_ino w')%N
}.
Lemma same_refl l w : same_outside l w w.
Proof. split; auto. Qed.
Lemma same_tick l w w' : same_outside l w w' → same_outside l w (tick w').
Proof. intros [Ht Hn Hx]. by split. Qed.
Lemma same_untick l w w' : same_outside l (tick w) w' → same_outside l w w'.
Proof. intros [Ht Hn Hx]. by split. Qed.
Lemma same_trans l w1 w2 w3 : same_outside l w1 w2 → same_outside l w2 w3 → same_outside l w1 w3.
Proof.
  intros [Ht Hn Hx] [Ht' Hn' Hx']. split.
  - intros k Hk. by rewrite Ht', Ht.
  - intros i Hi. rewrite Hn' by lia. by apply Hn.
  - lia.
Qed.
Lemma same_weaken l l' w w' : under l l' → same_outside l' w w' → same_outside l w w'.
Proof. intros Hl [Ht Hn Hx]. split; [|done..]. intros k Hk. apply Ht. intros Hk'. apply Hk. by transitivity l'. Qed.
Lemma same_view l w w' k : wf w → same_outside l w w' → ¬ under l k → view w' k = view w k.
Proof.
  intros Hw [Ht Hn _] Hk. unfold view. rewrite Ht by done. destruct (tree w !! k) as [[|i| | |]|] eqn:E; [done| |done..].
  apply (wf_file _ Hw) in E as [_ Hi]. by rewrite Hn.
Qed.
Lemma wf_tick w : wf w → wf (tick w).
Proof. intros [H1 H2 H3 H4]. by split. Qed.

(** Disjoint subtrees. *)
Definition apart (a b : loc) : Prop := ¬ under a b ∧ ¬ under b a.
Lemma apart_sym a b : apart a b → apart b a.
Proof. intros []. by split. Qed.
Lemma apart_below a b k : apart a b → under a k → ¬ under b k.
Proof.
  intros [Hab Hba] Ha Hb. destruct (prefix_weak_total a b k Ha Hb); [by apply Hab|by apply Hba].
Qed.
Lemma apart_join a b n m : apart a b → apart (a ++ [n]) (b ++ [m]).
Proof.
  intros Hab. split; intros Hu.
  - apply (apart_below a b (b ++ [m]) Hab); [|by apply prefix_app_r].
    etransitivity; [|exact Hu]. by apply prefix_app_r.
  - apply (apart_below a b (a ++ [n]) Hab); [by apply prefix_app_r|].
    etransitivity; [|exact Hu]. by apply prefix_app_r.
Qed.

(** ** Single calls on plain paths *)
Section calls.
Context `{Oracle}.
Lemma exec_exists w p l :
  wf w → names p l → placed w l → is_link (tree w !! l) = false →
  fs_exec (Exists p) w = (rint (if tree w !! l is Some _ then 1 else 0), w).
Proof. intros. simpl. by rewrite (at_path_names w p l). Qed.
Lemma exec_readdir w p l r w' :
  wf w → names p l → tree w !! l = Some EDir → fs_exec (ReadDir p) w = (r, w') → ok r = true →
  w' = w ∧ rlist r = listing (steps w) (children (tree w) l).
Proof.
  intros Hw Hn Hd. simpl. destruct (ok (answer _ _)) eqn:Ea; simpl; [|intros [= <- <-]; by rewrite Ea].
  rewrite (resolve_names w true p l); [|done|done|by eapply placed_entry|by rewrite Hd]. simpl. rewrite Hd. simpl.
  by intros [= <- <-].
Qed.
Lemma exec_filetype w p l e r w' :
  wf w → names p l → tree w !! l = Some e → fs_exec (FileType p) w = (r, w') → ok r = true →
  w' = w ∧ r = rint (file_kind e).
Proof.
  intros Hw Hn He. simpl. destruct (ok (answer _ _)) eqn:Ea; simpl; [|intros [= <- <-]; by rewrite Ea].
  rewrite (resolve_names w false p l); [|done|done|by eapply placed_entry|done]. simpl. rewrite He.
  by intros [= <- <-].
Qed.
Lemma has_parent_placed w l : placed w l → l ≠ [] → has_parent (tree w) l = true.
Proof.
  intros [->|(d & n & -> & Hd)]; [done|]. intros _. unfold has_parent.
  destruct (d ++ [n]) eqn:E; [by destruct d|]. rewrite <- E. rewrite removelast_last. by apply bool_decide_eq_true.
Qed.
(** [create_dir_all] of a path whose parent exists. *)
Lemma mkdirs_existing w done todo :
  wf w → tree w !! (done ++ todo) = Some EDir → Forall plain (done ++ todo) → mkdirs w done todo = (rint 0, w).
Proof.
  intros Hw. revert done. induction todo as [|c todo IH]; intros done Hd Hp; [by simpl|]. cbn [mkdirs].
  replace (done ++ c :: todo) with ((done ++ [c]) ++ todo) in * by (by rewrite <- app_assoc).
  assert (tree w !! (done ++ [c]) = Some EDir) as Hc by (by eapply wf_dir_prefix).
  rewrite <- (app_nil_r (done ++ [c])). rewrite (walk_dirs MAX_LINKS w true [] (done ++ [c]) []); [|done|done|by apply Forall_app in Hp as [? _]].
  rewrite walk_unfold. cbn [app]. rewrite Hc. rewrite app_nil_r. by apply IH.
Qed.
Lemma mkdirs_last w d n :
  wf w → tree w !! d = Some EDir → tree w !! (d ++ [n]) = None → Forall plain (d ++ [n]) →
  mkdirs w [] (d ++ [n]) = (rint 0, set_tree w (<[d ++ [n] := EDir]> (tree w))).
Proof.
  intros Hw Hd Hn Hp. assert (∀ done todo, done ++ todo = d → mkdirs w done (todo ++ [n]) = (rint 0, set_tree w (<[d ++ [n] := EDir]> (tree w)))) as Hg; [|by apply (Hg [] d)].
  intros done todo. revert done. induction todo as [|c todo IH]; intros done <-.
  - rewrite app_nil_r in *. cbn [app mkdirs]. apply Forall_app in Hp as [Hpd Hpn].
    rewrite (walk_dirs MAX_LINKS w true [] done [n]) by done. rewrite walk_unfold. rewrite Forall_singleton in Hpn.
    destruct (String.eqb_spec n "..") as [->|_]; [by destruct Hpn as (_ & _ & _ & ?)|]. cbn [app]. rewrite Hn. simpl. rewrite Hn.
    rewrite has_parent_placed; [done|by apply placed_join|by destruct done].
  - cbn [app mkdirs]. replace (done ++ c :: todo) with ((done ++ [c]) ++ todo) in * by (by rewrite <- app_assoc).
    assert (tree w !! (done ++ [c]) = Some EDir) as Hc by (by eapply wf_dir_prefix).
    rewrite <- (app_nil_r (done ++ [c])). rewrite (walk_dirs MAX_LINKS w true [] (done ++ [c]) []); [|done|done|].
    { rewrite walk_unfold. cbn [app]. rewrite Hc. rewrite app_nil_r. by apply IH. }
    apply Forall_app in Hp as [Hp _]. by apply Forall_app in Hp as [? _].
Qed.
(** A new name in a directory. *)
Lemma wf_insert w d n e :
  wf w → tree w !! d = Some EDir → tree w !! (d ++ [n]) = None → plain n →
  (∀ i, e = EFile i → is_Some (nodes w !! i) ∧ (i < next_ino w)%N) →
  wf (set_tree w (<[d ++ [n] := e]> (tree w))).
Proof.
  intros Hw Hd Hn Hp Hf. split; simpl.
  - rewrite lookup_insert_ne by (by destruct d). apply Hw.
  - intros l m e'. destruct (decide (l ++ [m] = d ++ [n])) as [[-> ->]%app_inj_tail|Hne].
    + intros _. rewrite lookup_insert_ne; [done|]. intros E. apply (f_equal length) in E. rewrite length_app in E. simpl in E. lia.
    + rewrite lookup_insert_ne by done. intros He. apply (wf_parent _ Hw) in He. rewrite lookup_insert_ne; [done|]. intros <-. congruence.
  - intros l m e'. destruct (decide (l ++ [m] = d ++ [n])) as [[-> ->]%app_inj_tail|Hne]; [done|].
    rewrite lookup_insert_ne by done. by apply wf_plain.
  - intros l i. destruct (decide (l = d ++ [n])) as [->|].
    + rewrite lookup_insert_eq. intros [= ->]. by apply Hf.
    + rewrite lookup_insert_ne by done. by apply wf_file.
Qed.
Lemma wf_insert_dir w d n :
  wf w → tree w !! d = Some EDir → tree w !! (d ++ [n]) = None → plain n →
  wf (set_tree w (<[d ++ [n] := EDir]> (tree w))).
Proof. intros. by apply wf_insert. Qed.
End calls.

(** ** New files *)
Definition add_file (w : fs) (l : loc) (n : node) : fs :=
  MkFs (<[l := EFile (next_ino w)]> (tree w)) (<[next_ino w := n]> (nodes w)) (next_ino w + 1) (steps w).
Lemma wf_add_node w n : wf w → wf (MkFs (tree w) (<[next_ino w := n]> (nodes w)) (next_ino w + 1) (steps w)).
Proof.
  intros [H1 H2 H3 H4]. split; simpl; [done..|]. intros l i [Hi Hlt]%H4. rewrite lookup_insert_ne by lia. split; [done|lia].
Qed.
Lemma wf_add_file w d nm n :
  wf w → tree w !! d = Some EDir → tree w !! (d ++ [nm]) = None → plain nm → wf (add_file w (d ++ [nm]) n).
Proof.
  intros Hw Hd Hn Hp. refine (wf_insert (MkFs (tree w) (<[next_ino w := n]> (nodes w)) (next_ino w + 1) (steps w)) d nm (EFile (next_ino w)) _ Hd Hn Hp _).
  - by apply wf_add_node.
  - intros i [= <-]. cbn [nodes next_ino]. rewrite lookup_insert_eq. split; [done|lia].
Qed.
Lemma same_add_file w l n : same_outside l w (add_file w l n).
Proof.
  split; simpl.
  - intros k Hk. apply lookup_insert_ne. intros <-. by apply Hk.
  - intros i Hi. apply lookup_insert_ne. lia.
  - lia.
Qed.
Lemma view_add_file w l n : view (add_file w l n) l = Some (IFile (n_data n) (n_mode n)).
Proof. unfold view. simpl. rewrite lookup_insert_eq. simpl. by rewrite lookup_insert_eq. Qed.

Section newfiles.
Context `{Oracle}.
Lemma put_file_new w p d nm data mode :
  wf w → names p (d ++ [nm]) → tree w !! d = Some EDir → tree w !! (d ++ [nm]) = None →
  put_file w p data mode = (rint 0, add_file w (d ++ [nm]) (MkNode data mode (now w))).
Proof.
  intros Hw Hn Hd Hx. unfold put_file.
  rewrite (resolve_names w true p (d ++ [nm])); [|done|done|by apply placed_join|by rewrite Hx].
  rewrite Hx. rewrite has_parent_placed; [done|by apply placed_join|by destruct d].
Qed.
Lemma file_at_names w p l i n :
  wf w → names p l → tree w !! l = Some (EFile i) → nodes w !! i = Some n → file_at w p = Some (i, n).
Proof.
  intros Hw Hn He Hi. unfold file_at. rewrite (at_path_names w p l); [|done|done|by eapply placed_entry|by rewrite He].
  rewrite He. simpl. by rewrite Hi.
Qed.
Lemma file_at_absent w p l : wf w → names p l → placed w l → tree w !! l = None → file_at w p = None.
Proof. intros Hw Hn Hp He. unfold file_at. rewrite (at_path_names w p l); [|done|done|done|by rewrite He]. by rewrite He. Qed.
Lemma file_at_inv w p l e i n :
  wf w → names p l → tree w !! l = Some e → is_link (Some e) = false → file_at w p = Some (i, n) →
  e = EFile i ∧ nodes w !! i = Some n.
Proof.
  intros Hw Hn He Hl. unfold file_at. rewrite (at_path_names w p l); [|done|done|by eapply placed_entry|by rewrite He].
  rewrite He. simpl. destruct e as [|j| | |]; simpl; try done. destruct (nodes w !! j) eqn:E; simpl; [|done]. by intros [= <- <-].
Qed.
(** Copying a file to a new name makes a new file with its contents and mode. *)
Lemma exec_copy w s d ls dd nm e r w' :
  wf w → names s ls → tree w !! ls = Some e → is_link (Some e) = false →
  names d (dd ++ [nm]) → tree w !! dd = Some EDir → tree w !! (dd ++ [nm]) = None →
  fs_exec (CopyFile s d) w = (r, w') → ok r = true →
  ∃ i n n', e = EFile i ∧ nodes w !! i = Some n ∧ n_data n' = n_data n ∧ n_mode n' = n_mode n ∧ w' = add_file w (dd ++ [nm]) n'.
Proof.
  intros Hw Hs He Hl Hd Hdd Hx. simpl. destruct (ok (answer _ _)) eqn:Ea; [|intros [= <- _]; by rewrite Ea].
  unfold copy. destruct (file_at w s) as [[i n]|] eqn:Ef; [|by intros [= <- _]].
  apply (file_at_inv w s ls e) in Ef as [-> Hi]; [|done..].
  rewrite (file_at_absent w d (dd ++ [nm])); [|done|done|by apply placed_join|done].
  rewrite (put_file_new w d dd nm) by done. cbn [ok rint rv]. cbn.
  set (W := add_file _ _ _).
  assert (plain nm) as Hnm by (by eapply names_last).
  assert (wf W) as HW by (by apply wf_add_file).
  unfold chmod. rewrite (at_path_names W d (dd ++ [nm])); [|done|done|right; exists dd, nm; split; [done|]|].
  - unfold W at 1. simpl. rewrite lookup_insert_eq. simpl. rewrite lookup_insert_eq. intros [= <- <-] _.
    exists i, n, (MkNode (n_data n) (n_mode n) (now w)). repeat split; try done.
    unfold add_file, set_node. simpl. by rewrite insert_insert_eq.
  - unfold W. simpl. rewrite lookup_insert_ne; [done|]. intros E. apply (f_equal length) in E. rewrite length_app in E. simpl in E. lia.
  - unfold W. simpl. by rewrite lookup_insert_eq.
Qed.
End newfiles.

(** ** Listings *)
Lemma elem_of_children t l n : n ∈ children t l ↔ is_Some (t !! (l ++ [n])).
Proof.
  unfold children. rewrite list_elem_of_omap. split.
  - intros (k & Hk & Hc). unfold child_of in Hc. destruct (last k) as [m|]; [|done].
    destruct (bool_decide_reflect (k = l ++ [m])) as [->|]; [|done]. injection Hc as ->.
    apply list_elem_of_fmap in Hk as ([k e] & -> & Hk). apply elem_of_map_to_list in Hk. by exists e.
  - intros [e He]. exists (l ++ [n]). split.
    + apply list_elem_of_fmap. exists (l ++ [n], e). split; [done|]. by apply elem_of_map_to_list.
    + unfold child_of. rewrite last_snoc. by rewrite bool_decide_eq_true_2.
Qed.
Lemma NoDup_children t l : NoDup (children t l).
Proof.
  unfold children. pose proof (NoDup_fst_map_to_list t) as Hn. induction Hn as [|k ks Hk Hn IH]; [constructor|].
  simpl. destruct (child_of l k) as [n|] eqn:E; [|done]. constructor; [|done].
  assert (∀ k n, child_of l k = Some n → k = l ++ [n]) as Hc.
  { clear. intros k n. unfold child_of. destruct (last k) as [m|]; [|done].
    destruct (bool_decide_reflect (k = l ++ [m])); [|done]. by intros [= <-]. }
  apply Hc in E as ->. intros (k' & Hk' & E')%list_elem_of_omap. apply Hc in E' as ->. done.
Qed.
(** A listing without a break is the whole directory. *)
Lemma listing_complete `{Oracle} n l : None ∉ listing n l → ∃ l', l' ≡ₚ l ∧ listing n l = Some <$> l'.
Proof.
  intros Hn. destruct (listing_law n l) as (l' & Hl & [->|[k E]]); [by exists l'|].
  destruct Hn. rewrite E. apply elem_of_app. right. by left.
Qed.
Lemma under_cons l n rel : under (l ++ [n]) (l ++ n :: rel).
Proof. exists rel. by rewrite <- app_assoc. Qed.
Lemma under_cons_ne l n m rel : n ≠ m → ¬ under (l ++ [n]) (l ++ m :: rel).
Proof.
  intros Hne [k Hk]. rewrite <- app_assoc in Hk. apply (inj (l ++.)) in Hk. simpl in Hk. congruence.
Qed.

(** ** Removal *)
Lemma remove_below_lookup l t k : remove_below l t !! k = if decide (under l k) then None else t !! k.
Proof.
  unfold remove_below. destruct (decide (under l k)) as [Hu|Hu].
  - apply map_lookup_filter_None. right. simpl. intros e _ Hn. by apply Hn.
  - destruct (t !! k) as [e|] eqn:E.
    + apply map_lookup_filter_Some. by split.
    + apply map_lookup_filter_None. by left.
Qed.
Lemma wf_remove w l : wf w → l ≠ [] → wf (set_tree w (remove_below l (tree w))).
Proof.
  intros Hw Hl. split; simpl.
  - rewrite remove_below_lookup, decide_False; [apply Hw|]. by intros ?%prefix_nil_inv.
  - intros k n e. rewrite !remove_below_lookup. destruct (decide (under l (k ++ [n]))) as [|Hu]; [done|]. intros He.
    rewrite decide_False; [by eapply wf_parent|]. intros Hk. apply Hu. etransitivity; [exact Hk|]. by apply prefix_app_r.
  - intros k n e. rewrite remove_below_lookup. destruct (decide _); [done|]. by apply wf_plain.
  - intros k i. rewrite remove_below_lookup. destruct (decide _); [done|]. by apply wf_file.
Qed.
Lemma same_remove w l : same_outside l w (set_tree w (remove_below l (tree w))).
Proof. split; simpl; [|done|lia]. intros k Hk. by rewrite remove_below_lookup, decide_False. Qed.
(** Deleting what has nothing below it. *)
Lemma delete_leaf w l : wf w → tree w !! l ≠ Some EDir → delete l (tree w) = remove_below l (tree w).
Proof.
  intros Hw Hl. apply map_eq. intros k. rewrite remove_below_lookup. destruct (decide (under l k)) as [[b ->]|Hu].
  - destruct b as [|n b]; [by rewrite app_nil_r, lookup_delete_eq|].
    rewrite lookup_delete_ne; [by apply wf_below|]. intros E. rewrite <- (app_nil_r l) in E at 1. by apply (inj (l ++.)) in E.
  - rewrite lookup_delete_ne; [done|]. intros ->. by apply Hu.
Qed.
Section removing.
Context `{Oracle}.
Lemma exec_remove_file w p l e r w' :
  wf w → names p l → tree w !! l = Some e → e ≠ EDir → fs_exec (RemoveFile p) w = (r, w') → ok r = true →
  w' = set_tree w (remove_below l (tree w)).
Proof.
  intros Hw Hn He Hne. simpl. destruct (ok (answer _ _)) eqn:Ea; simpl; [|intros [= <- <-]; by rewrite Ea].
  rewrite (resolve_names w false p l); [|done|done|by eapply placed_entry|done]. simpl. rewrite He. simpl.
  destruct e; [done|..]; intros [= <- <-] _; rewrite delete_leaf by (done || by rewrite He); done.
Qed.
Lemma exec_remove_dir_all w p l e r w' :
  wf w → names p l → tree w !! l = Some e → fs_exec (RemoveDirAll p) w = (r, w') → ok r = true →
  w' = set_tree w (remove_below l (tree w)).
Proof.
  intros Hw Hn He. simpl. destruct (ok (answer _ _)) eqn:Ea; simpl; [|intros [= <- <-]; by rewrite Ea].
  rewrite (resolve_names w false p l); [|done|done|by eapply placed_entry|done]. simpl. rewrite He. simpl. by intros [= <- <-].
Qed.
End removing.

(** ** Making a directory *)
(** A directory with nothing in it, or a place for one. *)
Definition vacant (w : fs) (l : loc) : Prop :=
  (tree w !! l = None ∨ tree w !! l = Some EDir) ∧ ∀ rel, rel ≠ [] → tree w !! (l ++ rel) = None.
Definition emptied (w : fs) (l : loc) : Prop := tree w !! l = Some EDir ∧ ∀ rel, rel ≠ [] → tree w !! (l ++ rel) = None.
Lemma emptied_vacant w l : emptied w l → vacant w l.
Proof. intros [Hl Hr]. split; [by right|done]. Qed.
Lemma exec_mkdir `{Oracle} w q d nm r w' :
  wf w → names q (d ++ [nm]) → tree w !! d = Some EDir → vacant w (d ++ [nm]) →
  fs_exec (CreateDirAll q) w = (r, w') → ok r = true →
  wf w' ∧ same_outside (d ++ [nm]) w w' ∧ emptied w' (d ++ [nm]).
Proof.
  intros Hw Hq Hd [Hx Hempty]. simpl. destruct (ok (answer _ _)) eqn:Ea; [|intros [= <- _]; by rewrite Ea].
  pose proof Hq as [Hc Hp]. rewrite Hc. destruct Hx as [Hx|Hx].
  - rewrite mkdirs_last by done. intros [= <- <-] _. split; [apply wf_insert_dir; [done..|by eapply (names_last q d)]|].
    split; [split; simpl; [|done|lia]; intros k Hk; rewrite lookup_insert_ne; [done|]; intros <-; by apply Hk|].
    split; simpl; [by rewrite lookup_insert_eq|]. intros rel Hrel. rewrite lookup_insert_ne; [by apply Hempty|].
    intros Eq. rewrite <- (app_nil_r (d ++ [nm])) in Eq at 1. by apply (inj ((d ++ [nm]) ++.)) in Eq.
  - rewrite mkdirs_existing by done. intros [= <- <-] _. split; [done|]. split; [apply same_refl|done].
Qed.

(** ** Programs that end *)
(** A program ends, in a state with [Q]. *)
Definition does `{Oracle} {A} (w : fs) (p : prog A) (Q : A → fs → Prop) : Prop := ∃ a w', fsrun w p = (Some a, w') ∧ Q a w'.
Lemma does_ret `{Oracle} {A} w (a : A) (Q : A → fs → Prop) : Q a w → does w (Ret a) Q.
Proof. by exists a, w. Qed.
Lemma does_call `{Oracle} {A} w c (k : ret → prog A) Q :
  waits c w = false → (∀ r w', fs_exec c w = (r, w') → does (tick w') (k r) Q) → does w (Call c k) Q.
Proof.
  intros Hn Hc. destruct (fs_exec c w) as [r w1] eqn:E. destruct (Hc r w1 eq_refl) as (b & w2 & H1 & H2). exists b, w2. cbn [fsrun].
  by rewrite Hn, E.
Qed.
Lemma does_bind `{Oracle} {A B} w (m : prog A) (f : A → prog B) Q R :
  does w m Q → (∀ a w', Q a w' → does w' (f a) R) → does w (pbind m f) R.
Proof. intros (a & w1 & H1 & H2) Hf. destruct (Hf a w1 H2) as (b & w2 & K1 & K2). exists b, w2. by rewrite fsrun_bind, H1. Qed.

(** An oracle under which no call on files fails and every directory is read to its
    end. *)
Definition reliable (O : Oracle) : Prop := (∀ n c, ok (answer n c) = true) ∧ ∀ n l, None ∉ listing n l.

(** ** Concrete file systems *)
Definition wf_check (w : fs) : bool :=
  bool_decide (tree w !! [] = Some EDir) &&
  forallb (λ ke : loc * entry,
    match last ke.1 with
    | None => true
    | Some n => bool_decide (tree w !! removelast ke.1 = Some EDir) && bool_decide (plain n)
    end &&
    match ke.2 with EFile i => bool_decide (is_Some (nodes w !! i)) && (i <? next_ino w)%N | _ => true end)
    (map_to_list (tree w)).
Lemma wf_check_ok w : wf_check w = true → wf w.
Proof.
  unfold wf_check. intros [Hr%bool_decide_eq_true Hf]%andb_true_iff. rewrite forallb_forall in Hf.
  assert (∀ k e, tree w !! k = Some e → match last k with Some n => tree w !! removelast k = Some EDir ∧ plain n | None => True end ∧
    match e with EFile i => is_Some (nodes w !! i) ∧ (i < next_ino w)%N | _ => True end) as Hk.
  { intros k e Hk. apply elem_of_map_to_list, list_elem_of_In, Hf, andb_true_iff in Hk as [H1 H2]. simpl in *. split.
    - destruct (last k); [|done]. apply andb_true_iff in H1 as [H1 H3]. by apply bool_decide_eq_true in H1, H3.
    - destruct e; try done. apply andb_true_iff in H2 as [H2 H3]. apply bool_decide_eq_true in H2. by apply N.ltb_lt in H3. }
  split; [done|..].
  - intros l n e [He _]%Hk. rewrite last_snoc, removelast_last in He. apply He.
  - intros l n e [He _]%Hk. rewrite last_snoc in He. apply He.
  - intros l i [_ He]%Hk. done.
Qed.
Definition build (t : list (loc * entry)) (n : list (N * node)) : fs :=
  MkFs (list_to_map t) (list_to_map n) (N.of_nat (length n)) 0.
