(* ===== verification/SnapshotStore.v ===== *)
(** * Snapshots and forks of a jail's files

    Models [agentjail/src/snapshot.rs] (full and content-addressed snapshots, the
    object pool and its collector), [fork.rs] and [Jail::live_fork] of [run.rs].
    A path is its text; a directory tree is walked by recursion whose depth is
    bounded by [fuel] (out of fuel, the program stops without a result).  BLAKE3
    and [serde_json] are classes with the laws their documentation gives. *)

From S2P Require Import Prelude Text Sys Order Config Netlink Mount Isolation Child Cgroup Run.
From S2P Require Fs.
Local Open Scope Z_scope.

(** A loop over a list that threads a value. *)
Fixpoint fold_each {S A} (body : S → A → prog (outcome JailError S)) (s : S) (l : list A) : prog (outcome JailError S) :=
  match l with [] => pok s | x :: l' => let! s' := body s x in fold_each body s' l' end.
(** A program that does not return. *)
Definition out_of_fuel {A} : prog A := Halt.

(** ** Freezing *)
Definition freeze_cgroup (cgroup_path : string) : prog (option (outcome JailError unit)) :=
  let* w := (try_io CgroupErr (WriteFile (path_join cgroup_path "cgroup.freeze") "1") ;;! pok tt) in
  match w with
  | Ok _ => frozen_loop FREEZE_ROUNDS "cgroup did not freeze within 50ms" (path_join cgroup_path "cgroup.events") (50 * 1000) 100
  | e => Ret (Some e)
  end.
Definition thaw_cgroup (cgroup_path : string) : prog (outcome JailError unit) :=
  try_io CgroupErr (WriteFile (path_join cgroup_path "cgroup.freeze") "0") ;;! pok tt.

(** ** Directory trees *)
Definition is_dir_type (r : ret) : bool := rv r =? 0.
Definition is_symlink_type (r : ret) : bool := rv r =? 1.
Definition is_file_type (r : ret) : bool := rv r =? 2.

(** One entry of a directory: [go] copies a subdirectory. *)
Definition copy_entry {S} (go copy_file : S → string → string → prog (outcome JailError S)) (src dst : string) (r : ret)
    (s : S) (entry : option string) : prog (outcome JailError S) :=
  match entry with
  | None => perr (SnapshotErr (Os (rerr r)))
  | Some name =>
      let src_path := path_join src name in
      let dst_path := path_join dst name in
      let! ft := try_io SnapshotErr (FileType src_path) in
      if is_symlink_type ft then pok s
      else if is_dir_type ft then go s src_path dst_path
      else copy_file s src_path dst_path
  end.
Fixpoint copy_dir_with {S} (fuel : nat) (copy_file : S → string → string → prog (outcome JailError S))
    (s : S) (src dst : string) : prog (outcome JailError S) :=
  match fuel with
  | O => out_of_fuel
  | Datatypes.S f =>
      let* e := sys (Exists dst) in
      (if yes e then pok tt else try_io SnapshotErr (CreateDirAll dst) ;;! pok tt) ;;!
      let! r := try_io SnapshotErr (ReadDir src) in
      fold_each (copy_entry (copy_dir_with f copy_file) copy_file src dst r) s (rlist r)
  end.
Definition copy_plain (_ : unit) (s d : string) : prog (outcome JailError unit) :=
  try_io SnapshotErr (CopyFile s d) ;;! pok tt.
Definition copy_dir_recursive (fuel : nat) (src dst : string) : prog (outcome JailError unit) :=
  copy_dir_with fuel copy_plain tt src dst.

Definition clear_entry (dir : string) (r : ret) (entry : option string) : prog (outcome JailError unit) :=
  match entry with
  | None => perr (SnapshotErr (Os (rerr r)))
  | Some name =>
      let path := path_join dir name in
      let! ft := try_io SnapshotErr (FileType path) in
      if is_symlink_type ft then try_io SnapshotErr (RemoveFile path) ;;! pok tt
      else if is_dir_type ft then try_io SnapshotErr (RemoveDirAll path) ;;! pok tt
      else try_io SnapshotErr (RemoveFile path) ;;! pok tt
  end.
Definition clear_dir (dir : string) : prog (outcome JailError unit) :=
  let! r := try_io SnapshotErr (ReadDir dir) in
  for_each (clear_entry dir r) (rlist r).

Fixpoint dir_size (fuel : nat) (path : string) : prog (outcome JailError Z) :=
  match fuel with
  | O => out_of_fuel
  | S f =>
      let! r := try_io Io (ReadDir path) in
      fold_each (λ size entry,
        match entry with
        | None => perr (Io (Os (rerr r)))
        | Some name =>
            let p := path_join path name in
            let! ft := try_io Io (FileType p) in
            if is_symlink_type ft then pok size
            else if is_dir_type ft then let! n := dir_size f p in pok (u64 (size + n))
            else let! m := try_io Io (LMetadata p) in pok (u64 (size + rv m))
        end) 0 (rlist r)
  end.

(** ** Full snapshots *)
Record Snapshot := MkSnapshot { sn_path : string; sn_source : string }.
Definition create (fuel : nat) (output_dir snapshot_dir : string) : prog (outcome JailError Snapshot) :=
  let* e := sys (Exists output_dir) in
  if negb (yes e) then perr (PathNotFound output_dir) else
  try_io SnapshotErr (CreateDirAll snapshot_dir) ;;!
  copy_dir_recursive fuel output_dir snapshot_dir ;;!
  pok (MkSnapshot snapshot_dir output_dir).
Definition restore_to (fuel : nat) (s : Snapshot) (target : string) : prog (outcome JailError unit) :=
  let* e := sys (Exists (sn_path s)) in
  if negb (yes e) then perr (PathNotFound (sn_path s)) else
  let* t := sys (Exists target) in
  (if yes t then clear_dir target else try_io SnapshotErr (CreateDirAll target) ;;! pok tt) ;;!
  copy_dir_recursive fuel (sn_path s) target.
Definition restore (fuel : nat) (s : Snapshot) : prog (outcome JailError unit) := restore_to fuel s (sn_source s).
Definition load (snapshot_dir original_source : string) : prog (outcome JailError Snapshot) :=
  let* e := sys (Exists snapshot_dir) in
  if negb (yes e) then perr (PathNotFound snapshot_dir) else pok (MkSnapshot snapshot_dir original_source).
Definition snapshot_delete (s : Snapshot) : prog (outcome JailError unit) :=
  let* e := sys (Exists (sn_path s)) in
  if yes e then try_io SnapshotErr (RemoveDirAll (sn_path s)) ;;! pok tt else pok tt.
Definition snapshot_size_bytes (fuel : nat) (s : Snapshot) : prog Z :=
  let* o := dir_size fuel (sn_path s) in Ret (match o with Ok n => n | _ => 0 end).

Definition snapshot_frozen (fuel : nat) (cgroup_path : option string) (output_dir snapshot_dir : string)
    : prog (outcome JailError Snapshot) :=
  let* frozen :=
    match cgroup_path with
    | Some p =>
        let* o := freeze_cgroup p in
        match o with
        | None => out_of_fuel
        | Some (Ok _) => Ret (Some p)
        | Some _ => sys (Eprintln "warning: freeze failed, snapshotting hot filesystem") ;;* Ret None
        end
    | None => Ret None
    end in
  let* out := create fuel output_dir snapshot_dir in
  match frozen with
  | Some p =>
      let* t := thaw_cgroup p in
      (if is_ok t then Ret tt else sys (Eprintln "ERROR: thaw failed, processes remain frozen!") ;;* Ret tt)
  | None => Ret tt
  end ;;*
  Ret out.

(** ** Content-addressed snapshots *)
Record ManifestEntry := MkEntry { me_path : string; me_mode : Z; me_hash : string; me_size : Z; me_mtime : option Z }.
Record Manifest := MkManifest { mf_version : Z; mf_entries : list ManifestEntry }.
Definition MANIFEST_VERSION := 2.
Definition MANIFEST_NAME : string := "manifest.json".
Definition manifest_size_bytes (m : Manifest) : Z := foldl (λ n e, u64 (n + me_size e)) 0 (mf_entries m).
Definition referenced_blobs (m : Manifest) : list string := me_hash <$> mf_entries m.

(** [serde_json] on manifests: what is written can be read back. *)
Class Json := {
  to_vec_pretty : Manifest → outcome string string;
  from_slice : string → outcome string Manifest;
  json_roundtrip m text : to_vec_pretty m = Ok text → from_slice text = Ok m
}.
(** BLAKE3 digests have 32 bytes. *)
Class Blake3 := {
  blake3 : string → list ascii;
  blake3_len s : length (blake3 s) = 32%nat
}.

Definition json_err {A} (o : outcome string A) : outcome JailError A :=
  omap_err (λ e, SnapshotErr (OtherErr e)) o.

(** [Path::components] of a relative path: all normal.  A leading [.] counts, an
    inner one does not. *)
Definition has_leading_dot (p : string) : bool :=
  match Fs.split_slash p with c :: _ => String.eqb c "." | [] => false end.
Definition validate_relative_path (p : string) : outcome JailError unit :=
  if str_is_empty p then Err (SnapshotErr (OtherErr "manifest entry has empty path"))
  else if starts_with "/" p then Err (SnapshotErr (OtherErr ("manifest entry path is absolute: " +:+ p)))
  else if has_leading_dot p || existsb (String.eqb "..") (Fs.comps p) then
    Err (SnapshotErr (OtherErr ("manifest entry path contains non-normal component: " +:+ p)))
  else Ok tt.

(** [&sha[..2]] panics inside a character. *)
Definition blob_path (pool sha : string) : outcome JailError string :=
  if (2 <=? str_len sha)%nat then
    match slice_to 2 sha with
    | Some prefix => Ok (path_join (path_join pool prefix) sha)
    | None => Panic
    end
  else Ok (path_join (path_join pool sha) sha).

Definition PriorLookup : Type := gmap string (Z * Z * string).
(** Collecting into a [HashMap]: of two entries with one path the later wins. *)
Definition build_prior_lookup (prior : Manifest) : PriorLookup :=
  foldl (λ m e, match me_mtime e with Some ns => <[me_path e := (me_size e, ns, me_hash e)]> m | None => m end)
    ∅ (mf_entries prior).

Definition u128 (z : Z) : Z := z mod 2 ^ 128.
Definition stat_size_mtime (p : string) : prog (option (Z * Z)) :=
  let* m := sys (Metadata p) in
  Ret (if ok m then
         let seconds := u128 (nth 1 (rbytes m) 0) in
         let nsec := u128 (nth 2 (rbytes m) 0) in
         Some (rv m, u128 (Z.min (seconds * 1000000000) (2 ^ 128 - 1) + nsec))
       else None).
Definition get_unix_mode (p : string) : prog Z :=
  let* m := sys (Metadata p) in Ret (if ok m then nth 0 (rbytes m) 0 else 420).
(** 0o6000 *)
Definition SUID_SGID := 3072.
Definition set_unix_mode (p : string) (mode : Z) : prog unit :=
  sys (SetPermissions p (Z.land mode (Z.lnot SUID_SGID))) ;;* Ret tt.

Definition uniq : prog string :=
  let* c := sys FetchUniq in
  let* pid := sys Getpid in
  Ret (pretty (rv pid) +:+ "-" +:+ pretty (rv c)).

(** The read loop: what the hasher was fed so far.  Every round of it but the last
    reads at least a byte. *)
Fixpoint stream (fuel : nat) (src tmp fed : string) : prog (outcome JailError string) :=
  match fuel with
  | O => out_of_fuel
  | S f =>
      let! r := try_io SnapshotErr (ReadChunk src (Z.of_nat (str_len fed))) in
      if rv r =? 0 then pok fed else
      try_io SnapshotErr (AppendFile tmp (rtext r)) ;;! stream f src tmp (fed +:+ rtext r)
  end.

(** [hex::encode] *)
Definition digest `{Blake3} (data : string) : string := hex_lower (blake3 data).

Section incremental.
Context `{Json} `{Blake3}.
(** The temporary file becomes the blob of its contents [fed], or goes if the
    pool has that blob. *)
Definition publish (pool tmp fed : string) : prog (outcome JailError (string * Z)) :=
  let size := u64 (Z.of_nat (str_len fed)) in
  let hash := digest fed in
  match blob_path pool hash with
  | Ok final_path =>
      match path_parent final_path with
      | Some parent => try_io SnapshotErr (CreateDirAll parent) ;;! pok tt
      | None => pok tt
      end ;;!
      let* e := sys (Exists final_path) in
      if yes e then sys (RemoveFile tmp) ;;* pok (hash, size)
      else
        let* r := sys (Rename tmp final_path) in
        if ok r then pok (hash, size)
        else sys (RemoveFile tmp) ;;* perr (SnapshotErr (Os (rerr r)))
  | Err e => perr e
  | Panic => Ret Panic
  end.
Definition hash_into_pool (fuel : nat) (src pool : string) : prog (outcome JailError (string * Z)) :=
  try_io SnapshotErr (OpenFile src) ;;!
  let* u := uniq in
  let tmp := path_join pool (".tmp-" +:+ u) in
  try_io SnapshotErr (CreateFile tmp) ;;!
  let! fed := stream fuel src tmp "" in
  publish pool tmp fed.

(** The path of [src] below [root], with [/] between the components. *)
Definition strip_comps (a b : list string) : list string :=
  if bool_decide (a `prefix_of` b) then drop (length a) b else b.
Definition rel_str (root src : string) : string :=
  str_join "/" (from_utf8_lossy <$> strip_comps (Fs.comps root) (Fs.comps src)).

(** The prior entry can be used: same size and time, and its blob is there. *)
Definition try_prior (prior : PriorLookup) (rel src pool : string) : prog (outcome JailError (option (Z * Z * string))) :=
  match prior !! rel with
  | None => pok None
  | Some (prior_size, prior_mtime, prior_hash) =>
      let* st := stat_size_mtime src in
      match st with
      | Some (size, mtime_ns) =>
          if (size =? prior_size) && (mtime_ns =? prior_mtime) then
            match blob_path pool prior_hash with
            | Ok blob => let* e := sys (Exists blob) in pok (if yes e then Some (size, mtime_ns, prior_hash) else None)
            | Err e => perr e
            | Panic => Ret Panic
            end
          else pok None
      | None => pok None
      end
  end.
Definition hash_file (fuel : nat) (prior : PriorLookup) (root src pool : string) (out : list ManifestEntry)
    : prog (outcome JailError (list ManifestEntry)) :=
  let rel := rel_str root src in
  let* mode := get_unix_mode src in
  let! hit := try_prior prior rel src pool in
  match hit with
  | Some (size, mtime_ns, hash) => pok (out ++ [MkEntry rel mode hash size (Some mtime_ns)])
  | None =>
      let! '(hash, size) := hash_into_pool fuel src pool in
      let* st := stat_size_mtime src in
      pok (out ++ [MkEntry rel mode hash size (snd <$> st)])
  end.
Fixpoint walk_and_hash (fuel : nat) (root current pool : string) (prior : PriorLookup) (out : list ManifestEntry)
    : prog (outcome JailError (list ManifestEntry)) :=
  match fuel with
  | O => out_of_fuel
  | S f =>
      let! r := try_io SnapshotErr (ReadDir current) in
      fold_each (λ out entry,
        match entry with
        | None => perr (SnapshotErr (Os (rerr r)))
        | Some name =>
            let src := path_join current name in
            let! ft := try_io SnapshotErr (FileType src) in
            if is_symlink_type ft then pok out
            else if is_dir_type ft then walk_and_hash f root src pool prior out
            else if negb (is_file_type ft) then pok out
            else hash_file fuel prior root src pool out
        end) out (rlist r)
  end.

Definition entry_le (a b : ManifestEntry) : bool := path_le (me_path a) (me_path b).
Definition create_incremental_with_hint (fuel : nat) (output_dir snapshot_dir objects_pool : string) (prior : option Manifest)
    : prog (outcome JailError Snapshot) :=
  let* e := sys (Exists output_dir) in
  if negb (yes e) then perr (PathNotFound output_dir) else
  try_io SnapshotErr (CreateDirAll snapshot_dir) ;;!
  try_io SnapshotErr (CreateDirAll objects_pool) ;;!
  let prior_map := match prior with Some m => build_prior_lookup m | None => ∅ end in
  let! entries := walk_and_hash fuel output_dir output_dir objects_pool prior_map [] in
  let manifest := MkManifest MANIFEST_VERSION (sort_by entry_le entries) in
  let! manifest_bytes := Ret (json_err (to_vec_pretty manifest)) in
  try_io SnapshotErr (WriteFile (path_join snapshot_dir MANIFEST_NAME) manifest_bytes) ;;!
  pok (MkSnapshot snapshot_dir output_dir).
Definition create_incremental (fuel : nat) (output_dir snapshot_dir objects_pool : string) :=
  create_incremental_with_hint fuel output_dir snapshot_dir objects_pool None.

Definition load_manifest (snapshot_dir : string) : prog (outcome JailError Manifest) :=
  let! b := try_io SnapshotErr (ReadFile (path_join snapshot_dir MANIFEST_NAME)) in
  Ret (json_err (from_slice (rtext b))).

Definition restore_entry (objects_pool target_dir : string) (entry : ManifestEntry) : prog (outcome JailError unit) :=
  let! _ := Ret (validate_relative_path (me_path entry)) in
  let! blob := Ret (blob_path objects_pool (me_hash entry)) in
  let* e := sys (Exists blob) in
  if negb (yes e) then perr (SnapshotErr (OtherErr ("blob " +:+ me_hash entry +:+ " missing from pool"))) else
  let dst := path_join target_dir (me_path entry) in
  match path_parent dst with
  | Some parent => try_io SnapshotErr (CreateDirAll parent) ;;! pok tt
  | None => pok tt
  end ;;!
  let* l := sys (HardLink blob dst) in
  (if ok l then pok tt else try_io SnapshotErr (CopyFile blob dst) ;;! pok tt) ;;!
  let* _ := set_unix_mode dst (me_mode entry) in
  pok tt.
Definition restore_incremental (snapshot_dir objects_pool target_dir : string) : prog (outcome JailError unit) :=
  let! manifest := load_manifest snapshot_dir in
  let* t := sys (Exists target_dir) in
  (if yes t then clear_dir target_dir else try_io SnapshotErr (CreateDirAll target_dir) ;;! pok tt) ;;!
  for_each (restore_entry objects_pool target_dir) (mf_entries manifest).
End incremental.

(** ** The pool's collector *)
Definition remove_blob (path : string) (counts : Z * Z) : prog (outcome JailError (Z * Z)) :=
  let* m := sys (LMetadata path) in
  let sz := if ok m then rv m else 0 in
  sys (RemoveFile path) ;;* pok (counts.1 + 1, u64 (counts.2 + sz)).
Definition gc_blob (referenced : gset string) (shard_path : string) (r : ret) (counts : Z * Z) (entry : option string)
    : prog (outcome JailError (Z * Z)) :=
  match entry with
  | None => perr (SnapshotErr (Os (rerr r)))
  | Some raw =>
      let name := from_utf8_lossy raw in
      let path := path_join shard_path raw in
      if starts_with ".tmp-" name then remove_blob path counts
      else if decide (name ∈ referenced) then pok counts
      else remove_blob path counts
  end.
Definition gc_shard (referenced : gset string) (objects_pool : string) (r : ret) (counts : Z * Z) (entry : option string)
    : prog (outcome JailError (Z * Z)) :=
  match entry with
  | None => perr (SnapshotErr (Os (rerr r)))
  | Some name =>
      let shard_path := path_join objects_pool name in
      let* d := sys (IsDir shard_path) in
      if negb (yes d) then pok counts else
      let! b := try_io SnapshotErr (ReadDir shard_path) in
      let! counts := fold_each (gc_blob referenced shard_path b) counts (rlist b) in
      sys (RemoveDir shard_path) ;;* pok counts
  end.
Definition gc_objects_pool (objects_pool : string) (referenced : gset string) : prog (outcome JailError (Z * Z)) :=
  let* e := sys (Exists objects_pool) in
  if negb (yes e) then pok (0, 0) else
  let! r := try_io SnapshotErr (ReadDir objects_pool) in
  fold_each (gc_shard referenced objects_pool r) (0, 0) (rlist r).

(** ** [fork.rs] *)
Inductive CloneMethod := Reflink | CloneCopy | Mixed.
Record ForkInfo := MkForkInfo {
  clone_duration : Z; clone_method : CloneMethod; files_cloned : Z; files_cow : Z; bytes_cloned : Z; was_frozen : bool }.
Definition perms_of (src dst : string) : prog unit :=
  let* m := sys (Metadata src) in
  if ok m then sys (SetPermissions dst (nth 0 (rbytes m) 0)) ;;* Ret tt else Ret tt.
Definition try_ficlone (src dst : string) : prog bool :=
  let* s := sys (OpenFile src) in
  if negb (ok s) then Ret false else
  let* d := sys (CreateFile dst) in
  if negb (ok d) then Ret false else
  let* r := sys (FiClone src dst) in
  if rv r =? 0 then perms_of src dst ;;* Ret true
  else sys (RemoveFile dst) ;;* Ret false.
(** Files, reflinked files and bytes so far. *)
Definition clone_file (c : Z * Z * Z) (src dst : string) : prog (outcome JailError (Z * Z * Z)) :=
  let '(total_files, cow_files, total_bytes) := c in
  let* m := sys (Metadata src) in
  let size := if ok m then rv m else 0 in
  let total_files := u64 (total_files + 1) in
  let total_bytes := u64 (total_bytes + size) in
  let* cow := try_ficlone src dst in
  if cow then pok (total_files, u64 (cow_files + 1), total_bytes)
  else
    try_io Io (CopyFile src dst) ;;!
    let* _ := perms_of src dst in
    pok (total_files, cow_files, total_bytes).
Definition method_of (cow total : Z) : CloneMethod :=
  if total =? 0 then CloneCopy else if cow =? total then Reflink else if cow =? 0 then CloneCopy else Mixed.
Definition cow_clone (fuel : nat) (src dst : string) : prog (outcome JailError ForkInfo) :=
  let* e := sys (Exists src) in
  if negb (yes e) then perr (PathNotFound src) else
  try_io Io (CreateDirAll dst) ;;!
  let! '(total_files, cow_files, total_bytes) := copy_dir_with fuel clone_file (0, 0, 0) src dst in
  let* t := sys Elapsed in
  pok (MkForkInfo (rv t) (method_of cow_files total_files) total_files cow_files total_bytes false).

(** ** [Jail::live_fork] *)
Definition with_output (cfg : JailConfig) (out : string) : JailConfig :=
  {| source := source cfg; output := out; source_rw := source_rw cfg; network := network cfg; seccomp := seccomp cfg;
     landlock := landlock cfg; memory_mb := memory_mb cfg; cpu_percent := cpu_percent cfg; max_pids := max_pids cfg;
     io_read_mbps := io_read_mbps cfg; io_write_mbps := io_write_mbps cfg; timeout_secs := timeout_secs cfg;
     cfg_env := cfg_env cfg; user_namespace := user_namespace cfg; pid_namespace := pid_namespace cfg;
     ipc_namespace := ipc_namespace cfg; workdir := workdir cfg; gpu := gpu cfg; readonly_overlays := readonly_overlays cfg |}.
Definition live_fork (fuel : nat) (j : Jail) (running : option JailHandle) (fork_output : string)
    : prog (outcome JailError (Jail * ForkInfo)) :=
  let* frozen :=
    match running with
    | Some h => let* o := handle_freeze h in
                match o with Some r => Ret (is_ok r) | None => out_of_fuel end
    | None => Ret false
    end in
  let* clone_result := cow_clone fuel (output (jl_config j)) fork_output in
  match frozen, running with
  | true, Some h => let* _ := handle_thaw h in Ret tt
  | _, _ => Ret tt
  end ;;*
  let! i := Ret clone_result in
  pok (MkJail (with_output (jl_config j) fork_output) (jl_gpu j) (jl_filter j),
       MkForkInfo (clone_duration i) (clone_method i) (files_cloned i) (files_cow i) (bytes_cloned i) frozen).

(** ** Freeze and thaw

    What was asked of, and heard from, a cgroup's freezer. *)
Inductive freeze_event := Requested (text : string) | Reported.
Definition freeze_obs (cg : string) (e : event) : option freeze_event :=
  match e with
  | (WriteFile p text, _) => if String.eqb p (path_join cg "cgroup.freeze") then Some (Requested text) else None
  | (ReadFile p, r) => if String.eqb p (path_join cg "cgroup.events") && saw_frozen r then Some Reported else None
  | _ => None
  end.
Definition freeze_log (cg : string) (t : trace) : list freeze_event := omap (freeze_obs cg) t.
Definition reads_or_writes (c : syscall) : bool := match c with WriteFile _ _ | ReadFile _ => true | _ => false end.

Lemma freeze_log_app cg t t' : freeze_log cg (t ++ t') = freeze_log cg t ++ freeze_log cg t'.
Proof. unfold freeze_log. apply omap_app. Qed.
Lemma quiet_log {A} cg (p : prog A) tr :
  avoids reads_or_writes p → wp p (λ _ t, freeze_log cg t = freeze_log cg tr) tr.
Proof.
  revert tr. induction p as [a| |c k IH]; intros tr; simpl; [done..|]. intros [Hc Hk] r.
  eapply wp_mono; [|by apply IH]. intros o t ->. rewrite freeze_log_app.
  assert (freeze_log cg [(c, r)] = []) as -> by (by destruct c). by rewrite app_nil_r.
Qed.
Lemma avoids_fold_each {S A} bad (body : S → A → prog (outcome JailError S)) l s :
  (∀ s x, avoids bad (body s x)) → avoids bad (fold_each body s l).
Proof. intros Hb. revert s. induction l as [|x l IH]; intros s; [exact I|]. simpl. apply avoids_jbind; auto. Qed.
Lemma avoids_copy_dir {S} (copy_file : S → string → string → prog (outcome JailError S)) fuel s p q :
  (∀ s p q, avoids reads_or_writes (copy_file s p q)) →
  avoids reads_or_writes (copy_dir_with fuel copy_file s p q).
Proof.
  intros Hc. revert s p q. induction fuel as [|fuel IH]; intros s p q; [exact I|]. cbn [copy_dir_with].
  avoids_tac. apply avoids_fold_each. intros s' [n|]; [|exact I]. cbn [copy_entry]. avoids_tac; [apply IH|apply Hc].
Qed.
Lemma avoids_create fuel out snap : avoids reads_or_writes (create fuel out snap).
Proof.
  unfold create, copy_dir_recursive. avoids_tac. apply avoids_copy_dir. intros s' p' q'. unfold copy_plain. avoids_tac.
Qed.
Lemma avoids_cow_clone fuel src dst : avoids reads_or_writes (cow_clone fuel src dst).
Proof.
  unfold cow_clone. avoids_tac. apply avoids_copy_dir. intros [[n1 n2] n3] p1 q1.
  unfold clone_file, try_ficlone, perms_of. avoids_tac.
Qed.
(** The polling loop reports at most once, and [Ok] exactly then. *)
Lemma frozen_loop_log cg fuel msg deadline b tr :
  wp (frozen_loop fuel msg (path_join cg "cgroup.events") deadline b)
    (λ o t, freeze_log cg t = freeze_log cg tr ++ match o with Some (Some (Ok _)) => [Reported] | _ => [] end) tr.
Proof.
  revert b tr. induction fuel as [|fuel IH]; intros b tr; [simpl; by rewrite app_nil_r|]. cbn [frozen_loop]. intros r. cbn [wp pbind].
  assert (freeze_log cg (tr ++ [(ReadFile (path_join cg "cgroup.events"), r)]) =
    freeze_log cg tr ++ if saw_frozen r then [Reported] else []) as Hl.
  { rewrite freeze_log_app. simpl. rewrite String.eqb_refl. by destruct (saw_frozen r). }
  destruct (saw_frozen r); [exact Hl|]. rewrite app_nil_r in Hl. intros now. cbn [wp pbind].
  destruct (deadline <=? rv now); [simpl; rewrite freeze_log_app, Hl; by rewrite !app_nil_r|].
  intros s. eapply wp_mono; [|apply IH]. intros o t ->. rewrite freeze_log_app, freeze_log_app, Hl. by rewrite !app_nil_r.
Qed.
(** Freeze, do something that leaves the freezer alone, thaw if the freeze was
    confirmed: the pattern of [live_fork] and [snapshot_frozen]. *)
Definition freeze_pattern (confirmed : bool) : list freeze_event :=
  if confirmed then [Requested "1"; Reported; Requested "0"] else [Requested "1"].
Lemma freeze_cgroup_log cg tr :
  freeze_log cg tr = [] →
  wp (freeze_cgroup cg) (λ o t, freeze_log cg t = Requested "1" :: match o with Some (Some (Ok _)) => [Reported] | _ => [] end) tr.
Proof.
  intros Htr. unfold freeze_cgroup, try_io, jbind. cbn [pbind]. intros r. cbn [wp pbind].
  assert (freeze_log cg (tr ++ [(WriteFile (path_join cg "cgroup.freeze") "1", r)]) = [Requested "1"]) as Hl.
  { rewrite freeze_log_app, Htr. simpl. by rewrite String.eqb_refl. }
  destruct (ok r); [|exact Hl]. eapply wp_mono; [|apply frozen_loop_log]. intros o t ->. by rewrite Hl.
Qed.
Lemma handle_freeze_log h cg tr :
  h_cgroup h = Some cg → freeze_log (cg_path cg) tr = [] →
  wp (handle_freeze h) (λ o t, freeze_log (cg_path cg) t = Requested "1" :: match o with Some (Some (Ok _)) => [Reported] | _ => [] end) tr.
Proof.
  intros Hc Htr. unfold handle_freeze. rewrite Hc. unfold freeze, cg_write, try_io, jbind. cbn [pbind]. intros r. cbn [wp pbind].
  assert (freeze_log (cg_path cg) (tr ++ [(WriteFile (path_join (cg_path cg) "cgroup.freeze") "1", r)]) = [Requested "1"]) as Hl.
  { rewrite freeze_log_app, Htr. simpl. by rewrite String.eqb_refl. }
  destruct (ok r); [|exact Hl]. eapply wp_mono; [|apply frozen_loop_log]. intros o t ->. by rewrite Hl.
Qed.

(** A fork thaws exactly the jails it saw frozen.  On every kernel, when
    [live_fork] of a jail with a cgroup returns, with whatever outcome of the
    cloning, its dialogue with the freezer was one of two: it asked for the
    freeze, heard that the jail was frozen, and asked to thaw it at the end; or
    it asked for the freeze, heard no confirmation within the deadline, and never
    took the request back: that jail stays, or becomes, frozen for good.  The
    returned [was_frozen] says which. *)
Theorem fork_freeze_dialogue (K : kernel) (fuel : nat) (j : Jail) (h : JailHandle) (cg : Cgroup) (out : string)
    (o : outcome JailError (Jail * ForkInfo)) :
  h_cgroup h = Some cg → (run K [] (live_fork fuel j (Some h) out)).2 = Some o →
  ∃ confirmed, freeze_log (cg_path cg) (run K [] (live_fork fuel j (Some h) out)).1 = freeze_pattern confirmed ∧
    ∀ j' i, o = Ok (j', i) → was_frozen i = confirmed.
Proof.
  intros Hc Ho.
  assert (wp (live_fork fuel j (Some h) out) (λ o t, ∀ r, o = Some r → ∃ confirmed,
    freeze_log (cg_path cg) t = freeze_pattern confirmed ∧ ∀ j' i, r = Ok (j', i) → was_frozen i = confirmed) []) as Hw.
  { unfold live_fork. rewrite wp_bind, wp_bind. eapply wp_mono; [|by apply (handle_freeze_log h cg)].
    intros [[r|]|] t Ht; cbn [wp pbind]; [|by intros r..].
    rewrite wp_bind. eapply wp_mono; [|apply quiet_log, avoids_cow_clone]. intros [res|] t2 Hq; cbn [wp pbind]; [|by intros ?].
    rewrite Ht in Hq. destruct (is_ok r) eqn:Er.
    - assert (freeze_log (cg_path cg) t2 = [Requested "1"; Reported]) as Hl by (rewrite Hq; by destruct r).
      unfold handle_thaw. rewrite Hc. unfold thaw, cg_write, try_io, jbind. cbn [pbind]. intros r2. cbn [wp pbind].
      assert (freeze_log (cg_path cg) (t2 ++ [(WriteFile (path_join (cg_path cg) "cgroup.freeze") "0", r2)]) = freeze_pattern true) as Hl2.
      { rewrite freeze_log_app, Hl. simpl. by rewrite String.eqb_refl. }
      destruct (ok r2), res as [i|e|]; cbn [wp pbind]; intros x [= <-]; exists true; (split; [exact Hl2|]); by intros ? ? [= _ <-].
    - assert (freeze_log (cg_path cg) t2 = freeze_pattern false) as Hl by (rewrite Hq; by destruct r).
      destruct res as [i|e|]; cbn [wp pbind jbind]; intros x [= <-]; exists false; (split; [exact Hl|]); by intros ? ? [= _ <-]. }
  apply (wp_run _ _ _ K) in Hw. by apply Hw.
Qed.

(** A jail whose tasks do not stop within the deadline. *)
Definition busy_kernel : kernel := λ t c, match c with Elapsed => rint (slept t) | Exists _ => rint 1 | _ => rint 0 end.
Definition busy_handle : JailHandle :=
  {| h_pid := 4242; h_reaped := false; h_stdout := 3; h_stderr := 5; h_timeout := 300000000;
     h_cgroup := Some (MkCgroup "/sys/fs/cgroup/agentjail-1-4242"); h_veth := None; h_jail_ip := None; h_proxy := false |}.
Lemma fork_freeze_dialogue_witness :
  ∃ o confirmed, (run busy_kernel [] (live_fork 3 root_jail (Some busy_handle) "/srv/fork")).2 = Some o ∧
    freeze_log "/sys/fs/cgroup/agentjail-1-4242" (run busy_kernel [] (live_fork 3 root_jail (Some busy_handle) "/srv/fork")).1 = freeze_pattern confirmed.
Proof.
  destruct (run busy_kernel [] (live_fork 3 root_jail (Some busy_handle) "/srv/fork")).2 as [o|] eqn:E; [|exfalso; revert E; vm_compute; discriminate].
  destruct (fork_freeze_dialogue busy_kernel 3 root_jail busy_handle (MkCgroup "/sys/fs/cgroup/agentjail-1-4242") "/srv/fork" o eq_refl E) as (confirmed & Hl & _).
  exists o, confirmed. auto.
Defined.

(** ** Copying a tree *)
Section copying.
Import Fs.
Context `{Oracle}.

Lemma fold_each_no_break {S} (body : S → option string → prog (outcome JailError S)) s l s' w w' :
  (∀ s w, ∃ e w1, fsrun w (body s None) = (Some (Err e), w1)) →
  fsrun w (fold_each body s l) = (Some (Ok s'), w') → None ∉ l.
Proof.
  intros Hb. revert s w. induction l as [|x l IH]; intros s w; [by intros _ ?%elem_of_nil|]. cbn [fold_each].
  intros (s1 & w1 & H1 & H2)%fsrun_jbind_ok. destruct x as [x|].
  - intros [[=]|Hin]%elem_of_cons. by eapply IH.
  - destruct (Hb s w) as (e & w2 & Hb'). by rewrite Hb' in H1.
Qed.

(** What of a file a copy has to keep. *)
Context (keep : item → item).
Definition look (w : fs) (l : loc) : option item := keep <$> view w l.
Lemma same_look l w w' k : wf w → same_outside l w w' → ¬ under l k → look w' k = look w k.
Proof. intros. unfold look. f_equal. by eapply same_view. Qed.
(** A way to copy one file. *)
Definition faithful {S} (copy_file : S → string → string → prog (outcome JailError S)) : Prop :=
  ∀ s src dst ls dd nm e w s' w',
    wf w → names src ls → tree w !! ls = Some e → e ≠ EDir → is_link (Some e) = false →
    names dst (dd ++ [nm]) → tree w !! dd = Some EDir → tree w !! (dd ++ [nm]) = None →
    fsrun w (copy_file s src dst) = (Some (Ok s'), w') →
    wf w' ∧ same_outside (dd ++ [nm]) w w' ∧ look w' (dd ++ [nm]) = look w ls ∧ tree w' !! (dd ++ [nm]) ≠ Some EDir.
(** [ld] has become a copy of [ls]. *)
Definition copied (w : fs) (ls ld : loc) (w' : fs) : Prop :=
  wf w' ∧ same_outside ld w w' ∧ ∀ rel, look w' (ld ++ rel) = look w (ls ++ rel).
Context {S : Type} (copy_file : S → string → string → prog (outcome JailError S)) (Hcopy : faithful copy_file).
(** After the entries [done] of the directory. *)
Record loop_inv (w0 : fs) (ls ld : loc) (done : list string) (w : fs) : Prop := {
  li_wf : wf w; li_same : same_outside ld w0 w; li_dir : tree w !! ld = Some EDir;
  li_done n rel : n ∈ done → look w (ld ++ n :: rel) = look w0 (ls ++ n :: rel);
  li_todo n rel : n ∉ done → tree w !! (ld ++ n :: rel) = None
}.
(** One more entry. *)
Lemma loop_inv_step w0 ls ld done n w w' :
  wf w0 → apart ls ld → loop_inv w0 ls ld done w → n ∉ done →
  wf w' → same_outside (ld ++ [n]) w w' → (∀ rel, look w' (ld ++ n :: rel) = look w0 (ls ++ n :: rel)) →
  loop_inv w0 ls ld (done ++ [n]) w'.
Proof.
  intros Hw0 Hap [Hw Hs Hd Hdone Htodo] Hn Hw' Hs' Hv.
  assert (∀ m rel, m ≠ n → ¬ under (ld ++ [n]) (ld ++ m :: rel)) as Hne by (intros; by apply under_cons_ne).
  split; [done| | | |].
  - eapply same_trans; [done|]. eapply same_weaken; [|done]. by apply prefix_app_r.
  - rewrite (so_tree _ _ _ Hs'); [done|]. intros Hu%prefix_length. rewrite length_app in Hu. simpl in Hu. lia.
  - intros m rel [Hm|Hm]%elem_of_app; [|apply list_elem_of_singleton in Hm as ->; done].
    rewrite (same_look (ld ++ [n]) w w'); [by apply Hdone|done|done|]. apply Hne. by intros ->.
  - intros m rel Hm. rewrite elem_of_app, list_elem_of_singleton in Hm. rewrite (so_tree _ _ _ Hs'); [apply Htodo; tauto|].
    apply Hne. tauto.
Qed.
Lemma apart_child ls ld n : apart ls ld → ¬ under ld (ls ++ [n]).
Proof.
  intros Hap. apply (apart_below ls ld); [done|]. by apply prefix_app_r.
Qed.
(** The destination directory is there, or is made. *)
Lemma ensure_dir_ok {E} (k : prog (outcome JailError E)) w q d nm b w' :
  wf w → names q (d ++ [nm]) → tree w !! d = Some EDir → vacant w (d ++ [nm]) →
  fsrun w (let* e := sys (Exists q) in
           (if yes e then pok tt else try_io SnapshotErr (CreateDirAll q) ;;! pok tt) ;;! k) = (Some (Ok b), w') →
  ∃ w1, fsrun w1 k = (Some (Ok b), w') ∧ wf w1 ∧ same_outside (d ++ [nm]) w w1 ∧ emptied w1 (d ++ [nm]).
Proof.
  intros Hw Hq Hd Hv. destruct (Hv) as [Hx Hempty]. cbn [pbind sys fsrun waits opens].
  rewrite (exec_exists w q (d ++ [nm])); [|done|done|by apply placed_join|by destruct Hx as [->| ->]].
  destruct Hx as [Hx|Hx]; rewrite Hx; simpl yes; cbn [yes].
  - intros (u & w1 & H1 & Hk)%fsrun_jbind_ok.
    apply fsrun_jbind_ok in H1 as (r & w2 & (w3 & Hm & Hok & ->)%fsrun_try_io_ok & [= <- <-]).
    apply exec_mkdir with (d := d) (nm := nm) in Hm as (Hw3 & Hs3 & He3); [|by apply wf_tick|done..].
    eexists. split; [exact Hk|]. split; [by apply wf_tick|]. split; [by apply same_tick, same_untick|done].
  - intros (u & w1 & [= <- <-] & Hk)%fsrun_jbind_ok. eexists. split; [exact Hk|].
    split; [by apply wf_tick|]. split; [apply same_tick, same_refl|done].
Qed.
(** The types the code asks for, by kind of entry. *)
Lemma kind_symlink e : is_symlink_type (rint (file_kind e)) = is_link (Some e).
Proof. by destruct e. Qed.
Lemma kind_dir e : is_dir_type (rint (file_kind e)) = bool_decide (e = EDir).
Proof. by destruct e. Qed.

Lemma look_below w a b : wf w → tree w !! a ≠ Some EDir → b ≠ [] → look w (a ++ b) = None.
Proof. intros Hw Ha Hb. unfold look, view. by rewrite wf_below. Qed.
Lemma loop_inv_tick w0 ls ld done w : loop_inv w0 ls ld done w → loop_inv w0 ls ld done (tick w).
Proof. intros []. split; [by apply wf_tick|by apply same_tick|done..]. Qed.

(** A program that copies whole directories. *)
Definition copies_dirs (go : S → string → string → prog (outcome JailError S)) : Prop :=
  ∀ w p ls q d nm s s' w',
    wf w → names p ls → tree w !! ls = Some EDir → names q (d ++ [nm]) → tree w !! d = Some EDir →
    apart ls (d ++ [nm]) → vacant w (d ++ [nm]) →
    fsrun w (go s p q) = (Some (Ok s'), w') → copied w ls (d ++ [nm]) w'.
Lemma copy_entry_ok go w0 p ls q ld r done n w s s' w' :
  copies_dirs go → wf w0 → apart ls ld → names p ls → names q ld → loop_inv w0 ls ld done w → n ∉ done →
  is_Some (tree w0 !! (ls ++ [n])) →
  fsrun w (copy_entry go copy_file p q r s (Some n)) = (Some (Ok s'), w') → loop_inv w0 ls ld (done ++ [n]) w'.
Proof using Hcopy.
  intros Hgo Hw0 Hap Hp Hq Hinv Hnd [e He] Hb. pose proof (loop_inv_tick _ _ _ _ _ Hinv) as Hinvt.
  destruct (Hinv) as [Hw Hs Hd Hdn Htd].
  assert (tree w !! (ls ++ [n]) = Some e) as Hew by (rewrite (so_tree _ _ _ Hs); [done|by apply apart_child]).
  assert (plain n) as Hn by (by eapply wf_plain).
  pose proof (names_join _ _ _ Hp Hn) as Hpn. pose proof (names_join _ _ _ Hq Hn) as Hqn.
  cbn [copy_entry] in Hb. apply fsrun_jbind_ok in Hb as (ft & w4 & (w5 & Hft & Hok & ->)%fsrun_try_io_ok & Hb).
  destruct (exec_filetype w (path_join p n) (ls ++ [n]) e ft w5) as [-> ->]; [done..|].
  rewrite kind_symlink, kind_dir in Hb. destruct (is_link (Some e)) eqn:El.
  { injection Hb as <- <-. eapply loop_inv_step; [done|done|exact Hinvt|done|by apply wf_tick|apply same_refl|].
    intros rel. unfold look at 1, view. simpl. rewrite Htd by done. rewrite cons_middle, app_assoc. destruct rel as [|m rel].
    - rewrite app_nil_r. unfold look, view. rewrite He. by destruct e.
    - rewrite look_below; [done|done| |done]. rewrite He. by destruct e. }
  destruct (bool_decide_reflect (e = EDir)) as [->|Hne].
  - apply (Hgo (tick w) _ (ls ++ [n]) _ ld n) in Hb as (Hw3 & Hs3 & Hv3); try done.
    + eapply loop_inv_step; [done|done|exact Hinvt|done..|]. intros rel.
      rewrite (cons_middle n ld), (app_assoc ld), Hv3. change (look (tick w)) with (look w).
      rewrite <- app_assoc. apply (same_look ld); [done..|]. apply (apart_below ls ld); [done|]. by apply prefix_app_r.
    + by apply wf_tick.
    + by apply apart_join.
    + split; [left; by apply Htd|]. intros rel _. rewrite <- app_assoc. by apply Htd.
  - eapply Hcopy in Hb as (Hw3 & Hs3 & Hv3 & Hnd3); [|by apply wf_tick|exact Hpn|exact Hew|done..|exact Hqn|exact Hd|by apply Htd].
    eapply loop_inv_step; [done|done|exact Hinvt|done..|]. intros rel. rewrite !(cons_middle n), !app_assoc. destruct rel as [|m rel].
    + rewrite !app_nil_r, Hv3. change (look (tick w)) with (look w). apply (same_look ld); [done..|]. by apply apart_child.
    + rewrite (look_below w'), (look_below w0); [done|done|by rewrite He; intros [= ->]|done..].
Qed.
Lemma copy_loop_ok go w0 p ls q ld r all s' :
  copies_dirs go → wf w0 → apart ls ld → names p ls → names q ld → NoDup all →
  (∀ n, n ∈ all → is_Some (tree w0 !! (ls ++ [n]))) →
  ∀ todo done w s w', done ++ todo = all → loop_inv w0 ls ld done w →
    fsrun w (fold_each (copy_entry go copy_file p q r) s (Some <$> todo)) = (Some (Ok s'), w') → loop_inv w0 ls ld all w'.
Proof using Hcopy.
  intros Hgo Hw0 Hap Hp Hq Hnd Hin. induction todo as [|n todo IH]; intros done w s w' Hall Hinv Hr.
  { injection Hr as <- <-. rewrite app_nil_r in Hall. by subst. }
  cbn [fmap list_fmap fold_each] in Hr. apply fsrun_jbind_ok in Hr as (s2 & w3 & Hb & Hr).
  apply (IH (done ++ [n]) w3 s2 w'); [by rewrite <- app_assoc| |done].
  eapply copy_entry_ok; [done..| | |exact Hb].
  - rewrite <- Hall in Hnd. apply NoDup_app in Hnd as (_ & Hnd & _). intros Hd'. apply (Hnd n Hd'). by left.
  - apply Hin. rewrite <- Hall. apply elem_of_app. right. by left.
Qed.
Lemma copy_dir_ok fuel : copies_dirs (copy_dir_with fuel copy_file).
Proof using Hcopy.
  induction fuel as [|fuel IH]; intros w p ls q d nm s s' w' Hw Hp Hls Hq Hd Hap Hx Hr; [done|].
  cbn [copy_dir_with] in Hr. eapply ensure_dir_ok in Hr as (w1 & Hr & Hw1 & Hs1 & Hd1 & He1); [|done..].
  clear Hx. set (ld := d ++ [nm]) in *.
  assert (∀ rel, look w1 (ls ++ rel) = look w (ls ++ rel)) as Hv1.
  { intros rel. apply (same_look ld); [done..|]. apply (apart_below ls ld); [done|]. by apply prefix_app_r. }
  assert (tree w1 !! ls = Some EDir) as Hls1 by (rewrite (so_tree _ _ _ Hs1); [done|apply Hap]).
  apply fsrun_jbind_ok in Hr as (r & w2 & (w3 & Hrd & Hok & ->)%fsrun_try_io_ok & Hr).
  destruct (exec_readdir w1 p ls r w3) as [-> Hl]; [done..|].
  assert (None ∉ rlist r) as Hnone by (eapply fold_each_no_break; [|exact Hr]; intros s0 w0; simpl; eauto).
  rewrite Hl in Hnone, Hr. apply listing_complete in Hnone as (l' & Hperm & Hl'). rewrite Hl' in Hr.
  assert (∀ n, n ∈ l' ↔ is_Some (tree w1 !! (ls ++ [n]))) as Hin by (intros n; rewrite Hperm; apply elem_of_children).
  eapply (copy_loop_ok _ w1 p ls q ld r l' s') in Hr as [Hw' Hs' Hd' Hdn Htd];
    [|done|done|done|done|done|rewrite Hperm; apply NoDup_children|apply Hin|by apply app_nil_l|].
  2: { split; [by apply wf_tick|apply same_tick, same_refl|done|by intros n rel ?%not_elem_of_nil|]. intros n rel _. by apply He1. }
  split; [done|]. split; [by eapply same_trans|]. intros [|n rel].
  { rewrite !app_nil_r. unfold look, view. by rewrite Hd', Hls. }
  rewrite <- Hv1. destruct (decide (n ∈ l')) as [Hn|Hn]; [by apply Hdn|].
  unfold look at 1, view. rewrite Htd by done. rewrite cons_middle, app_assoc.
  assert (tree w1 !! (ls ++ [n]) = None) as Hno by (apply eq_None_not_Some; by rewrite <- Hin).
  destruct rel; [|rewrite look_below; [done|done|by rewrite Hno|done]]. rewrite app_nil_r. unfold look, view. by rewrite Hno.
Qed.

(** ** Copying ends *)
Context (Hret : ∀ s p ls e q d nm w, wf w → names p ls → tree w !! ls = Some e → e ≠ EFifo → is_link (Some e) = false →
  names q (d ++ [nm]) → tree w !! d = Some EDir → tree w !! (d ++ [nm]) = None → returns w (copy_file s p q)).
(** Nobody left a named pipe below [l]. *)
Definition no_fifo (w : fs) (l : loc) : Prop := ∀ k, tree w !! (l ++ k) ≠ Some EFifo.
(** The tree below [l] is less than [n] levels deep. *)
Definition shallow (w : fs) (l : loc) (n : nat) : Prop := ∀ k e, tree w !! (l ++ k) = Some e → (length k < n)%nat.
Lemma copy_loop_returns fuel w0 p ls q ld r all :
  wf w0 → apart ls ld → names p ls → names q ld → NoDup all →
  (∀ n, n ∈ all → is_Some (tree w0 !! (ls ++ [n]))) → no_fifo w0 ls →
  (∀ n w s, n ∈ all → wf w → tree w !! (ls ++ [n]) = Some EDir → tree w !! ld = Some EDir → vacant w (ld ++ [n]) →
     (∀ k, tree w !! (ls ++ k) = tree w0 !! (ls ++ k)) →
     returns w (copy_dir_with fuel copy_file s (path_join p n) (path_join q n))) →
  ∀ todo past w s, (∃ rest, past ++ todo ++ rest = all) → loop_inv w0 ls ld past w →
    returns w (fold_each (copy_entry (copy_dir_with fuel copy_file) copy_file p q r) s (Some <$> todo)).
Proof using Hcopy Hret.
  intros Hw0 Hap Hp Hq Hnd Hin Hnf Hgo. induction todo as [|n todo IH]; intros past w s [rest Hall] Hinv; [done|].
  assert (n ∈ all) as Hn by (rewrite <- Hall; apply elem_of_app; right; by left).
  assert (n ∉ past) as Hnd'. { rewrite <- Hall in Hnd. apply NoDup_app in Hnd as (_ & Hnd & _). intros Hd'. apply (Hnd n Hd'). by left. }
  cbn [fmap list_fmap fold_each]. apply returns_jbind.
  - cbn [copy_entry]. apply returns_jbind; [by apply returns_try_io|]. intros ft w1 (w5 & Hft & Hok & ->)%fsrun_try_io_ok.
    destruct (Hin n Hn) as [e He]. destruct (Hinv) as [Hw Hs Hd Hdn Htd].
    assert (tree w !! (ls ++ [n]) = Some e) as Hew by (rewrite (so_tree _ _ _ Hs); [done|by apply apart_child]).
    assert (names (path_join p n) (ls ++ [n])) as Hpn by (apply names_join; [done|by eapply wf_plain]).
    destruct (exec_filetype w (path_join p n) (ls ++ [n]) e ft w5) as [-> ->]; [done..|].
    rewrite kind_symlink, kind_dir. destruct (is_link (Some e)) eqn:El; [done|].
    destruct (bool_decide_reflect (e = EDir)) as [->|].
    2: { eapply (Hret _ _ (ls ++ [n]) e _ ld n); [by apply wf_tick|done|done|intros ->; by apply (Hnf [n])|done| |done|by apply Htd].
         apply names_join; [done|by eapply wf_plain]. }
    apply Hgo; [done|by apply wf_tick|done|done| |].
    + split; [left; by apply Htd|]. intros rel _. simpl. rewrite <- app_assoc. by apply Htd.
    + intros k. simpl. apply (so_tree _ _ _ Hs). apply (apart_below ls ld); [done|]. by apply prefix_app_r.
  - intros s2 w3 Hb. apply (IH (past ++ [n])); [exists rest; by rewrite <- app_assoc|].
    eapply copy_entry_ok; [apply copy_dir_ok|done..|by apply Hin|exact Hb].
Qed.
Lemma fold_break_returns {T} (body : T → option string → prog (outcome JailError T)) s l k w :
  (∀ s w, ∃ e w1, fsrun w (body s None) = (Some (Err e), w1)) →
  returns w (fold_each body s (Some <$> l)) → returns w (fold_each body s ((Some <$> l) ++ None :: k)).
Proof.
  intros Hb. revert s w. induction l as [|x l IH]; intros s w.
  - intros _. simpl. unfold jbind, returns. rewrite fsrun_bind. destruct (Hb s w) as (e & w1 & ->). done.
  - cbn [fmap list_fmap app fold_each]. unfold jbind, returns. rewrite !fsrun_bind.
    destruct (fsrun w (body s (Some x))) as [[[a|e|]|] w1]; simpl; try done. apply IH.
Qed.
Lemma copy_dir_returns fuel : ∀ w p ls q d nm s,
  wf w → names p ls → tree w !! ls = Some EDir → names q (d ++ [nm]) → tree w !! d = Some EDir →
  apart ls (d ++ [nm]) → vacant w (d ++ [nm]) → no_fifo w ls → shallow w ls fuel →
  returns w (copy_dir_with fuel copy_file s p q).
Proof using Hcopy Hret.
  induction fuel as [|fuel IH]; intros w p ls q d nm s Hw Hp Hls Hq Hd Hap Hv Hnf Hsh.
  { specialize (Hsh [] EDir). rewrite app_nil_r in Hsh. specialize (Hsh Hls). simpl in Hsh. lia. }
  cbn [copy_dir_with]. cbn [pbind sys]. unfold returns. cbn [fsrun waits opens]. destruct (Hv) as [Hx Hempty].
  rewrite (exec_exists w q (d ++ [nm])); [|done|done|by apply placed_join|by destruct Hx as [->| ->]].
  set (ld := d ++ [nm]) in *.
  apply returns_jbind.
  { destruct (yes _); [done|]. apply returns_jbind; [by apply returns_try_io|done]. }
  intros [] w1 Hens.
  assert (wf w1 ∧ same_outside ld w w1 ∧ emptied w1 ld) as (Hw1 & Hs1 & Hd1 & He1).
  { destruct Hx as [Hx|Hx]; rewrite Hx in Hens; simpl yes in Hens; cbn [yes] in Hens.
    - apply fsrun_jbind_ok in Hens as (r & w2 & (w3 & Hm & Hok & ->)%fsrun_try_io_ok & [= <-]).
      apply exec_mkdir with (d := d) (nm := nm) in Hm as (Hw3 & Hs3 & He3); [|by apply wf_tick|done..].
      split; [by apply wf_tick|]. split; [by apply same_tick, same_untick|done].
    - injection Hens as <-. split; [by apply wf_tick|]. split; [apply same_tick, same_refl|done]. }
  assert (∀ k, tree w1 !! (ls ++ k) = tree w !! (ls ++ k)) as Hsrc.
  { intros k. apply (so_tree _ _ _ Hs1). apply (apart_below ls ld); [done|]. by apply prefix_app_r. }
  assert (tree w1 !! ls = Some EDir) as Hls1 by (specialize (Hsrc []); by rewrite !app_nil_r in Hsrc; rewrite Hsrc).
  apply returns_jbind; [by apply returns_try_io|]. intros r w2 (w3 & Hrd & Hok & ->)%fsrun_try_io_ok.
  destruct (exec_readdir w1 p ls r w3) as [-> Hl]; [done..|]. rewrite Hl.
  destruct (listing_law (steps w1) (children (tree w1) ls)) as (l' & Hperm & Hcase).
  assert (∀ todo, (∃ rest, todo ++ rest = l') →
    returns (tick w1) (fold_each (copy_entry (copy_dir_with fuel copy_file) copy_file p q r) s (Some <$> todo))) as Hloop.
  { intros todo Htodo. apply (copy_loop_returns fuel w1 p ls q ld r l') with (past := []); try done.
    - rewrite Hperm. apply NoDup_children.
    - intros n. rewrite Hperm. apply elem_of_children.
    - intros k. rewrite Hsrc. apply Hnf.
    - intros n w2 s2 Hn Hw2 He2 Hld2 Hv2 Hsame. apply (IH w2 _ (ls ++ [n]) _ ld n); try done.
      + apply names_join; [done|]. by eapply wf_plain.
      + apply names_join; [done|]. by eapply wf_plain.
      + by apply apart_join.
      + intros k. rewrite <- app_assoc, Hsame, Hsrc. apply Hnf.
      + intros k e Hk. rewrite <- app_assoc in Hk. rewrite Hsame, Hsrc in Hk. apply Hsh in Hk. simpl in Hk. lia.
    - split; [by apply wf_tick|apply same_tick, same_refl|done|by intros n rel ?%not_elem_of_nil|]. intros n rel _. by apply He1. }
  destruct Hcase as [->|[k ->]]; [apply Hloop; exists []; by rewrite app_nil_r|].
  apply fold_break_returns; [intros s0 w0; simpl; eauto|]. apply Hloop. exists (drop k l'). apply take_drop.
Qed.
End copying.

(** ** Full snapshots give back what they captured *)
Section full.
Import Fs.
Context `{Oracle}.
Lemma copy_plain_faithful : faithful id copy_plain.
Proof.
  intros [] src dst ls dd nm e w [] w' Hw Hs He Hed Hl Hd Hdd Hx Hr. unfold copy_plain in Hr.
  apply fsrun_jbind_ok in Hr as (r & w1 & (w2 & Hc & Hok & ->)%fsrun_try_io_ok & [= <-]).
  destruct (exec_copy w src dst ls dd nm e r w2) as (i & n & n' & -> & Hi & Hdata & Hmode & ->); try done.
  split; [apply wf_tick, wf_add_file; [done..|by eapply names_last]|].
  split; [apply same_tick, same_add_file|].
  split; [|simpl; by rewrite lookup_insert_eq].
  unfold look. change (view (tick ?w) ?l) with (view w l). rewrite view_add_file, Hdata, Hmode. unfold view. by rewrite He, Hi.
Qed.


Record clear_inv (w0 : fs) (l : loc) (done : list string) (w : fs) : Prop := {
  ci_wf : wf w; ci_same : same_outside l w0 w; ci_dir : tree w !! l = Some EDir;
  ci_done n rel : n ∈ done → tree w !! (l ++ n :: rel) = None;
  ci_todo n rel : n ∉ done → tree w !! (l ++ n :: rel) = tree w0 !! (l ++ n :: rel)
}.
Lemma clear_inv_step w0 l done n w :
  clear_inv w0 l done w → clear_inv w0 l (done ++ [n]) (tick (set_tree w (remove_below (l ++ [n]) (tree w)))).
Proof.
  intros [Hw Hs Hd Hdn Htd]. split.
  - apply wf_tick, wf_remove; [done|by destruct l].
  - apply same_tick. eapply same_trans; [done|]. eapply same_weaken; [|apply same_remove]. by apply prefix_app_r.
  - simpl. rewrite remove_below_lookup, decide_False; [done|]. intros Hu%prefix_length. rewrite length_app in Hu. simpl in Hu. lia.
  - intros m rel [Hm|Hm]%elem_of_app; simpl; rewrite remove_below_lookup.
    + destruct (decide _); [done|]. by apply Hdn.
    + apply list_elem_of_singleton in Hm as ->. rewrite decide_True; [done|]. apply under_cons.
  - intros m rel Hm. rewrite elem_of_app, list_elem_of_singleton in Hm. simpl. rewrite remove_below_lookup, decide_False; [apply Htd; tauto|].
    apply under_cons_ne. intros ->. tauto.
Qed.
Lemma for_each_no_break (body : option string → prog (outcome JailError unit)) l u w w' :
  (∀ w, ∃ e w1, fsrun w (body None) = (Some (Err e), w1)) →
  fsrun w (for_each body l) = (Some (Ok u), w') → None ∉ l.
Proof.
  intros Hb. revert w. induction l as [|x l IH]; intros w; [intros _; apply not_elem_of_nil|]. cbn [for_each].
  intros (s1 & w1 & H1 & H2)%fsrun_jbind_ok. destruct x as [x|].
  - intros [[=]|Hin]%elem_of_cons. by eapply IH.
  - destruct (Hb w) as (e & w2 & Hb'). by rewrite Hb' in H1.
Qed.
Lemma clear_entry_ok w0 p l r done n w u w' :
  names p l → clear_inv w0 l done w → n ∉ done → is_Some (tree w0 !! (l ++ [n])) →
  fsrun w (clear_entry p r (Some n)) = (Some (Ok u), w') → clear_inv w0 l (done ++ [n]) w'.
Proof.
  intros Hp Hinv Hn [e He] Hr. destruct (Hinv) as [Hw Hs Hd Hdn Htd].
  rewrite <- (Htd n []) in He by done.
  assert (names (path_join p n) (l ++ [n])) as Hpn by (apply names_join; [done|by eapply wf_plain]).
  cbn [clear_entry] in Hr. apply fsrun_jbind_ok in Hr as (ft & w4 & (w5 & Hft & Hok & ->)%fsrun_try_io_ok & Hr).
  destruct (exec_filetype w (path_join p n) (l ++ [n]) e ft w5) as [-> ->]; [done..|]. clear Hft Hok.
  rewrite kind_symlink, kind_dir in Hr.
  assert (clear_inv w0 l done (tick w)) as Hinvt by (split; [by apply wf_tick|by apply same_tick|done..]).
  assert (∃ c, (c = RemoveFile (path_join p n) ∧ e ≠ EDir ∨ c = RemoveDirAll (path_join p n)) ∧
    fsrun (tick w) (try_io SnapshotErr c ;;! pok tt) = (Some (Ok u), w')) as (c & Hc & Hr').
  { destruct (is_link (Some e)) eqn:El; [exists (RemoveFile (path_join p n)); split; [left; by destruct e|done]|].
    destruct (bool_decide_reflect (e = EDir)); [exists (RemoveDirAll (path_join p n)); auto|].
    exists (RemoveFile (path_join p n)). auto. }
  apply fsrun_jbind_ok in Hr' as (r' & w6 & (w7 & Hrm & Hok & ->)%fsrun_try_io_ok & [= <- <-]).
  assert (w7 = set_tree (tick w) (remove_below (l ++ [n]) (tree w))) as ->; [|by apply (clear_inv_step w0 l done n (tick w))].
  destruct Hc as [[-> Hne]| ->]; [eapply exec_remove_file in Hrm|eapply exec_remove_dir_all in Hrm]; eauto using wf_tick.
Qed.
Lemma clear_dir_ok w p l u w' :
  wf w → names p l → tree w !! l = Some EDir → fsrun w (clear_dir p) = (Some (Ok u), w') →
  wf w' ∧ same_outside l w w' ∧ emptied w' l.
Proof.
  intros Hw Hp Hl Hr. unfold clear_dir in Hr.
  apply fsrun_jbind_ok in Hr as (r & w2 & (w3 & Hrd & Hok & ->)%fsrun_try_io_ok & Hr).
  destruct (exec_readdir w p l r w3) as [-> Hls]; [done..|].
  assert (None ∉ rlist r) as Hnone by (eapply for_each_no_break; [|exact Hr]; intros w0; simpl; eauto).
  rewrite Hls in Hnone, Hr. apply listing_complete in Hnone as (l' & Hperm & Hl'). rewrite Hl' in Hr.
  assert (∀ n, n ∈ l' ↔ is_Some (tree w !! (l ++ [n]))) as Hin by (intros n; rewrite Hperm; apply elem_of_children).
  assert (NoDup l') as Hnd by (rewrite Hperm; apply NoDup_children).
  assert (∀ todo done w1 w', done ++ todo = l' → clear_inv w l done w1 →
    fsrun w1 (for_each (clear_entry p r) (Some <$> todo)) = (Some (Ok u), w') → clear_inv w l l' w') as Hloop.
  { clear Hr w'. induction todo as [|n todo IH]; intros done w1 w' Hall Hinv Hr.
    { injection Hr as <- <-. rewrite app_nil_r in Hall. by subst. }
    cbn [fmap list_fmap for_each] in Hr. apply fsrun_jbind_ok in Hr as (s2 & w4 & Hb & Hr).
    apply (IH (done ++ [n]) w4 w'); [by rewrite <- app_assoc| |done]. eapply clear_entry_ok; [done..| | |exact Hb].
    - rewrite <- Hall in Hnd. apply NoDup_app in Hnd as (_ & Hnd & _). intros Hd'. apply (Hnd n Hd'). by left.
    - apply Hin. rewrite <- Hall. apply elem_of_app. right. by left. }
  apply (Hloop l' []) in Hr as [Hw' Hs Hd Hdn Htd]; [|done|].
  2: { split; [by apply wf_tick|apply same_tick, same_refl|done|by intros n rel ?%not_elem_of_nil|done]. }
  split; [done|]. split; [done|]. split; [done|]. intros [|n rel] Hrel; [done|].
  destruct (decide (n ∈ l')) as [Hn|Hn]; [by apply Hdn|]. rewrite Htd by done. rewrite cons_middle, app_assoc.
  assert (tree w !! (l ++ [n]) = None) as Hno by (apply eq_None_not_Some; by rewrite <- Hin).
  destruct rel; [by rewrite app_nil_r|]. apply wf_below; [done|by rewrite Hno|done].
Qed.

Lemma exists_dir_yes w p l : wf w → names p l → tree w !! l = Some EDir →
  ∀ {A} (k : ret → prog A), fsrun w (let* e := sys (Exists p) in k e) = fsrun (tick w) (k (rint 1)).
Proof.
  intros Hw Hp Hl A k. cbn [pbind sys fsrun waits opens]. rewrite (exec_exists w p l); [|done|done|by eapply placed_entry|by rewrite Hl]. by rewrite Hl.
Qed.
Lemma copied_view w ls ld w' : copied id w ls ld w' → ∀ rel, view w' (ld ++ rel) = view w (ls ++ rel).
Proof. intros (_ & _ & Hv) rel. specialize (Hv rel). unfold look in Hv. by rewrite !option_fmap_id in Hv. Qed.
(** [Snapshot::create] makes a copy of the output directory and touches nothing else. *)
Lemma create_ok fuel w out snap lo d nm s w' :
  wf w → names out lo → tree w !! lo = Some EDir → names snap (d ++ [nm]) → tree w !! d = Some EDir →
  apart lo (d ++ [nm]) → vacant w (d ++ [nm]) →
  fsrun w (create fuel out snap) = (Some (Ok s), w') →
  s = MkSnapshot snap out ∧ copied id w lo (d ++ [nm]) w'.
Proof.
  intros Hw Ho Hlo Hs Hd Hap Hv. unfold create. rewrite (exists_dir_yes w out lo) by done. change (yes (rint 1)) with true. cbn [negb].
  intros (r & w2 & (w3 & Hm & Hok & ->)%fsrun_try_io_ok & Hr)%fsrun_jbind_ok.
  apply exec_mkdir with (d := d) (nm := nm) in Hm as (Hw3 & Hs3 & He3); [|by apply wf_tick|done..].
  apply same_untick in Hs3. apply fsrun_jbind_ok in Hr as (u & w4 & Hc & [= <- <-]). split; [done|].
  apply (copy_dir_ok id copy_plain copy_plain_faithful fuel (tick w3) out lo snap d nm) in Hc as (Hw4 & Hs4 & Hv4);
    [|by apply wf_tick|done| |done| |done|by apply emptied_vacant].
  - split; [done|]. split; [eapply same_trans; [|exact Hs4]; by apply same_tick|]. intros rel. rewrite Hv4.
    change (look id (tick w3)) with (look id w3). apply (same_look id (d ++ [nm])); [done|done|].
    apply (apart_below lo); [done|]. by apply prefix_app_r.
  - simpl. rewrite (so_tree _ _ _ Hs3); [done|apply Hap].
  - simpl. rewrite (so_tree _ _ _ Hs3); [done|]. intros Hu%prefix_length. rewrite length_app in Hu. simpl in Hu. lia.
Qed.
(** [restore_to] replaces the target by a copy of the snapshot. *)
Lemma restore_to_ok fuel w s target ls d nm u w' :
  wf w → names (sn_path s) ls → tree w !! ls = Some EDir → names target (d ++ [nm]) → tree w !! d = Some EDir →
  apart ls (d ++ [nm]) → tree w !! (d ++ [nm]) = None ∨ tree w !! (d ++ [nm]) = Some EDir →
  fsrun w (restore_to fuel s target) = (Some (Ok u), w') → copied id w ls (d ++ [nm]) w'.
Proof.
  intros Hw Hs Hls Ht Hd Hap Hx. unfold restore_to. rewrite (exists_dir_yes w (sn_path s) ls) by done. change (yes (rint 1)) with true. cbn [negb].
  intros Hr.
  assert (∃ w3, wf w3 ∧ same_outside (d ++ [nm]) w w3 ∧ emptied w3 (d ++ [nm]) ∧
    fsrun w3 (copy_dir_recursive fuel (sn_path s) target) = (Some (Ok u), w')) as (w3 & Hw3 & Hs3 & He3 & Hc).
  { revert Hr. cbn [pbind sys fsrun waits opens].
    rewrite (exec_exists (tick w) target (d ++ [nm])); [|by apply wf_tick|done|by apply placed_join|simpl; by destruct Hx as [-> | ->]].
    destruct Hx as [Hx|Hx]; simpl tree; rewrite Hx; cbn [yes rint rv Z.ltb Z.compare]; intros (u' & w2 & H1 & H2)%fsrun_jbind_ok.
    - apply fsrun_jbind_ok in H1 as (r & w3 & (w4 & Hm & Hok & ->)%fsrun_try_io_ok & [= <- <-]).
      apply exec_mkdir with (d := d) (nm := nm) in Hm as (Hw3 & Hs3 & He3); [|by do 2 apply wf_tick|done|done| |done].
      { exists (tick w4). split; [by apply wf_tick|]. split; [by apply same_tick; do 2 apply same_untick|]. done. }
      split; [by left|]. intros rel Hrel. apply wf_below; [by do 2 apply wf_tick|by simpl; rewrite Hx|done].
    - apply (clear_dir_ok _ target (d ++ [nm])) in H1 as (Hw2 & Hs2 & He2); [|by do 2 apply wf_tick|done..].
      exists w2. split; [done|]. split; [by do 2 apply same_untick|done]. }
  apply (copy_dir_ok id copy_plain copy_plain_faithful fuel w3 _ ls target d nm) in Hc as (Hw4 & Hs4 & Hv4);
    [|done|done| |done| |done|by apply emptied_vacant].
  - split; [done|]. split; [by eapply same_trans|]. intros rel. rewrite Hv4. apply (same_look id (d ++ [nm])); [done|done|].
    apply (apart_below ls); [done|]. by apply prefix_app_r.
  - rewrite (so_tree _ _ _ Hs3); [done|apply Hap].
  - rewrite (so_tree _ _ _ Hs3); [done|]. intros Hu%prefix_length. rewrite length_app in Hu. simpl in Hu. lia.
Qed.

Lemma copy_plain_returns s p ls e q d nm w : wf w → names p ls → tree w !! ls = Some e → e ≠ EFifo → is_link (Some e) = false →
  names q (d ++ [nm]) → tree w !! d = Some EDir → tree w !! (d ++ [nm]) = None → returns w (copy_plain s p q).
Proof.
  intros Hw Hp He Hf Hl Hq Hd Hx. unfold copy_plain. apply returns_jbind; [|done]. apply returns_try_io, waits_false. cbn [opens].
  intros x [->|[->|[]%not_elem_of_nil]%elem_of_cons]%elem_of_cons.
  - rewrite (at_path_names w p ls); [by rewrite He; intros [= ->]|done|done|by eapply placed_entry|by rewrite He].
  - rewrite (at_path_names w q (d ++ [nm])); [by rewrite Hx|done|done|by apply placed_join|by rewrite Hx].
Qed.

(** C38: Taking a snapshot ends.  [create] walks the tree by recursion without a
    bound.  Whatever calls fail and in whatever order directories are listed, it
    returns (with a snapshot or an error) within as many levels of recursion as the
    output directory is deep, on four conditions: the output directory exists, the
    snapshot directory and the output directory do not contain each other, the
    snapshot directory is new or empty in a directory that exists, and the output
    directory holds no named pipe.  The last one is needed
    ([create_waits_on_fifo]): [fs::copy] opens what it copies. *)
Theorem create_returns (fuel : nat) (w : fs) (out snap : string) (lo d : loc) (nm : string) :
  wf w → names out lo → tree w !! lo = Some EDir → names snap (d ++ [nm]) → tree w !! d = Some EDir →
  apart lo (d ++ [nm]) → vacant w (d ++ [nm]) → no_fifo w lo → shallow w lo fuel →
  ∃ o, (fsrun w (create fuel out snap)).1 = Some o.
Proof.
  intros Hw Ho Hlo Hs Hd Hap Hv Hnf Hsh.
  assert (returns w (create fuel out snap)) as Hr; [|unfold returns in Hr; destruct (fsrun w (create fuel out snap)).1; by eauto].
  unfold create, returns. rewrite (exists_dir_yes w out lo) by done. change (yes (rint 1)) with true. cbn [negb].
  apply returns_jbind; [by apply returns_try_io|]. intros r w1 (w3 & Hm & Hok & ->)%fsrun_try_io_ok.
  apply exec_mkdir with (d := d) (nm := nm) in Hm as (Hw3 & Hs3 & He3); [|by apply wf_tick|done..]. apply same_untick in Hs3.
  assert (∀ k, tree w3 !! (lo ++ k) = tree w !! (lo ++ k)) as Hsrc.
  { intros k. apply (so_tree _ _ _ Hs3). apply (apart_below lo (d ++ [nm])); [done|]. by apply prefix_app_r. }
  apply returns_jbind; [|done].
  apply (copy_dir_returns id copy_plain copy_plain_faithful copy_plain_returns fuel (tick w3) out lo snap d nm); try done.
  - by apply wf_tick.
  - specialize (Hsrc []). simpl. rewrite !app_nil_r in Hsrc. by rewrite Hsrc.
  - simpl. rewrite (so_tree _ _ _ Hs3); [done|]. intros Hu%prefix_length. rewrite length_app in Hu. simpl in Hu. lia.
  - by apply emptied_vacant.
  - intros k. simpl. rewrite Hsrc. apply Hnf.
  - intros k e. simpl. rewrite Hsrc. apply Hsh.
Qed.

(** C9: A full snapshot gives back what it captured.  Whatever calls fail and in
    whatever order directories are listed: if [create] succeeds, and later, when
    anything may have changed except the snapshot itself, [restore_to] succeeds,
    then the target holds exactly the directories and regular files the output
    directory held at the capture, with their contents and modes (symbolic links
    and special files are left out), and nothing outside the target has changed. *)
Theorem snapshot_roundtrip (fuel fuel' : nat) (w w1 w2 w3 : fs) (out snap target : string) (lo d dt : loc) (nm nt : string)
    (s : Snapshot) (u : unit) :
  wf w → names out lo → tree w !! lo = Some EDir →
  names snap (d ++ [nm]) → tree w !! d = Some EDir → vacant w (d ++ [nm]) → apart lo (d ++ [nm]) →
  fsrun w (create fuel out snap) = (Some (Ok s), w1) →
  wf w2 → (∀ rel, view w2 ((d ++ [nm]) ++ rel) = view w1 ((d ++ [nm]) ++ rel)) →
  names target (dt ++ [nt]) → tree w2 !! dt = Some EDir → tree w2 !! (dt ++ [nt]) = None ∨ tree w2 !! (dt ++ [nt]) = Some EDir → apart (d ++ [nm]) (dt ++ [nt]) →
  fsrun w2 (restore_to fuel' s target) = (Some (Ok u), w3) →
  (∀ rel, view w3 ((dt ++ [nt]) ++ rel) = view w (lo ++ rel)) ∧ same_outside (dt ++ [nt]) w2 w3.
Proof.
  intros Hw Ho Hlo Hs Hd Hv Hap Hc Hw2 Hkeep Ht Hdt Hlink Hap' Hr.
  apply (create_ok fuel w out snap lo d nm) in Hc as [-> Hc]; [|done..]. pose proof (copied_view _ _ _ _ Hc) as Hv1.
  assert (tree w2 !! (d ++ [nm]) = Some EDir) as Hd2.
  { specialize (Hkeep []). specialize (Hv1 []). rewrite !app_nil_r in *. rewrite Hv1 in Hkeep. unfold view in Hkeep. rewrite Hlo in Hkeep.
    destruct (tree w2 !! (d ++ [nm])) as [[|i| | |]|]; try done. by destruct (nodes w2 !! i). }
  apply (restore_to_ok fuel' w2 _ target (d ++ [nm]) dt nt) in Hr; [|done..].
  split; [|apply Hr]. intros rel. rewrite (copied_view _ _ _ _ Hr). by rewrite Hkeep, Hv1.
Qed.
End full.

(** A small host: an output directory with files, a subdirectory and a link. *)
Module Example.
Import Fs.
Local Open Scope string_scope.
Definition host : fs := build
  [([], EDir); (["w"], EDir); (["w"; "a"], EFile 0); (["w"; "d"], EDir); (["w"; "d"; "b"], EFile 1);
   (["w"; "l"], ELink "/etc/shadow"); (["snaps"], EDir); (["t"], EDir); (["t"; "old"], EFile 2)]
  [(0%N, MkNode "hello" 493 1); (1%N, MkNode "world" 420 1); (2%N, MkNode "x" 420 1)].
Definition captured : option (outcome JailError Snapshot) * fs := fsrun host (create 5 "/w" "/snaps/s1").
Definition snap1 : Snapshot := MkSnapshot "/snaps/s1" "/w".
Definition restored : option (outcome JailError unit) * fs := fsrun captured.2 (restore_to 5 snap1 "/t").
End Example.
Import Fs Example.
Lemma host_wf : Fs.wf host.
Proof. apply Fs.wf_check_ok. vm_compute. reflexivity. Qed.
Lemma create_returns_witness : ∃ o, (Fs.fsrun host (create 5 "/w" "/snaps/s1")).1 = Some o.
Proof.
  apply (create_returns 5 host "/w" "/snaps/s1" ["w"%string] ["snaps"%string] "s1").
  - apply host_wf.
  - apply (bool_decide_unpack _). vm_compute. exact I.
  - reflexivity.
  - apply (bool_decide_unpack _). vm_compute. exact I.
  - reflexivity.
  - apply (bool_decide_unpack _). vm_compute. exact I.
  - split; [left; reflexivity|]. intros rel Hrel. apply Fs.wf_below; [apply host_wf|discriminate|done].
  - intros k. assert (map_Forall (λ (_ : Fs.loc) (e : Fs.entry), e ≠ EFifo) (Fs.tree host)) as Hall.
    { apply (bool_decide_unpack _). vm_compute. exact I. }
    intros Hk%Hall. done.
  - intros k e Hk. revert Hk.
    assert (map_Forall (λ (l : Fs.loc) (_ : Fs.entry), (length l < 5)%nat) (Fs.tree host)) as Hall.
    { apply (bool_decide_unpack _). vm_compute. exact I. }
    intros Hk%Hall. simpl in Hk. lia.
Defined.
(** The absence of named pipes is needed: where no call fails, capturing an output
    directory with one waits in [fs::copy] for its other end and never returns. *)
Definition piped_host : Fs.fs := Fs.build
  [([], EDir); (["w"%string], EDir); (["w"; "p"]%string, EFifo); (["snaps"%string], EDir)] [].
Lemma create_waits_on_fifo (fuel : nat) : (Fs.fsrun piped_host (create (S fuel) "/w" "/snaps/s1")).1 = None.
Proof. vm_compute. reflexivity. Qed.
Lemma snapshot_roundtrip_witness :
  (∀ rel, view restored.2 (["t"%string] ++ rel) = view host (["w"%string] ++ rel)) ∧ same_outside ["t"%string] captured.2 restored.2.
Proof.
  apply (snapshot_roundtrip 5 5 host captured.2 captured.2 restored.2 "/w" "/snaps/s1" "/t" ["w"%string] ["snaps"%string] [] "s1" "t" snap1 tt).
  - apply host_wf.
  - apply (bool_decide_unpack _). vm_compute. exact I.
  - reflexivity.
  - apply (bool_decide_unpack _). vm_compute. exact I.
  - reflexivity.
  - split; [left; reflexivity|]. intros rel Hrel. apply wf_below; [apply host_wf|discriminate|done].
  - apply (bool_decide_unpack _). vm_compute. exact I.
  - vm_compute. reflexivity.
  - apply wf_check_ok. vm_compute. reflexivity.
  - reflexivity.
  - apply (bool_decide_unpack _). vm_compute. exact I.
  - vm_compute. reflexivity.
  - right. vm_compute. reflexivity.
  - apply (bool_decide_unpack _). vm_compute. exact I.
  - vm_compute. reflexivity.
Defined.
