(* ===== verification/Pool.v ===== *)
(** * The object pool

    Theorems about the content-addressed half of [agentjail/src/snapshot.rs], over
    the programs of [SnapshotStore] and the file system of [Fs]. *)

From S2P Require Import Prelude Text Sys Order Config Netlink Mount Isolation Child Cgroup Run SnapshotStore Fs.
Local Open Scope Z_scope.

(** ** [Path::parent] drops the last component *)
Lemma comps_slash r : comps (r +:+ "/") = comps r.
Proof.
  unfold comps. change (r +:+ "/") with (r +:+ "/" +:+ ""). rewrite split_slash_app, filter_counts_app. simpl. by rewrite app_nil_r.
Qed.
Lemma comps_slash_dot r : comps (r +:+ "/.") = comps r.
Proof.
  unfold comps. change (r +:+ "/.") with (r +:+ "/" +:+ "."). rewrite split_slash_app, filter_counts_app. simpl. by rewrite app_nil_r.
Qed.
Lemma comps_trim s : comps (trim_path s) = comps s.
Proof.
  unfold trim_path. generalize (str_len s) as fuel. intros fuel. revert s. induction fuel as [|fuel IH]; intros s; [done|].
  cbn [trim_path_fuel]. destruct (strip_suffix "/" s) as [r|] eqn:E1.
  { apply strip_suffix_Some in E1 as ->. by rewrite IH, comps_slash. }
  destruct (strip_suffix "/." s) as [r|] eqn:E2; [|done]. apply strip_suffix_Some in E2 as ->. by rewrite IH, comps_slash_dot.
Qed.
Lemma strip_suffix_shorter p s r : strip_suffix p s = Some r → str_len s = (str_len r + str_len p)%nat.
Proof. intros ->%strip_suffix_Some. apply str_len_app. Qed.
(** Trimmed paths end in neither. *)
Lemma trim_path_fuel_done fuel s :
  (str_len s <= fuel)%nat → strip_suffix "/" (trim_path_fuel fuel s) = None ∧ strip_suffix "/." (trim_path_fuel fuel s) = None.
Proof.
  revert s. induction fuel as [|fuel IH]; intros s Hs.
  { destruct s; [|simpl in Hs; lia]. done. }
  cbn [trim_path_fuel]. destruct (strip_suffix "/" s) as [r|] eqn:E1.
  { apply strip_suffix_shorter in E1. apply IH. change (str_len "/") with 1%nat in E1. lia. }
  destruct (strip_suffix "/." s) as [r|] eqn:E2; [|done].
  apply strip_suffix_shorter in E2. apply IH. change (str_len "/.") with 2%nat in E2. lia.
Qed.
Lemma comps_parent p q : path_parent p = Some q → comps q = removelast (comps p).
Proof.
  unfold path_parent. rewrite <- (comps_trim p).
  destruct (trim_path_fuel_done (str_len p) p ltac:(lia)) as [H1 H2]. change (trim_path_fuel (str_len p) p) with (trim_path p) in *.
  set (t := trim_path p) in *. destruct (str_is_empty t) eqn:Et; [done|].
  destruct (rsplit_once "/" t) as [[a b]|] eqn:Er.
  - apply rsplit_once_Some in Er as [E Hb]. intros [= <-].
    assert (comps t = comps a ++ [b]) as ->.
    { rewrite E. change (String "/" b) with ("/" +:+ b). unfold comps. rewrite split_slash_app, filter_counts_app. f_equal.
      rewrite no_slash_split by done. simpl. unfold counts.
      destruct (String.eqb_spec b "") as [->|_]; [exfalso|].
      { apply (f_equal (strip_suffix "/")) in E. rewrite H1 in E. symmetry in E. by rewrite (proj2 (strip_suffix_Some "/" _ a) eq_refl) in E. }
      destruct (String.eqb_spec b ".") as [->|_]; [exfalso|done].
      apply (f_equal (strip_suffix "/.")) in E. rewrite H2 in E. symmetry in E. by rewrite (proj2 (strip_suffix_Some "/." _ a) eq_refl) in E. }
    rewrite removelast_last. destruct (str_is_empty (trim_path a)) eqn:Ea; [|apply comps_trim].
    rewrite <- (comps_trim a). by destruct (trim_path a).
  - apply rsplit_once_None in Er. intros [= <-]. unfold comps at 2. rewrite no_slash_split by done. simpl. by destruct (counts t).
Qed.
Lemma path_parent_some p : comps p ≠ [] → ∃ q, path_parent p = Some q.
Proof.
  intros Hc. rewrite <- comps_trim in Hc. unfold path_parent. destruct (trim_path p) as [|c t]; [done|]. cbn [str_is_empty].
  destruct (rsplit_once _ _) as [[a b]|]; eauto.
Qed.

(** Writing in place to a name of a file. *)
Lemma put_file_existing `{Oracle} w p l i n data mode :
  wf w → names p l → tree w !! l = Some (EFile i) → nodes w !! i = Some n →
  put_file w p data mode = (rint 0, set_node w i (MkNode data (n_mode n) (now w))).
Proof.
  intros Hw Hp Hl Hi. unfold put_file. rewrite (resolve_names w true p l); [|done|done|by eapply placed_entry|by rewrite Hl].
  by rewrite Hl, Hi.
Qed.

(** ** A restored file is the pool's file *)
Section aliasing.
Context `{Json} `{Blake3}.
#[local] Existing Instance calm.

Lemma validate_plain n : plain n → validate_relative_path n = Ok tt.
Proof.
  intros Hn. destruct (Hn) as (Hs & H1 & H2 & H3). unfold validate_relative_path.
  destruct n as [|c n]; [done|]. cbn [str_is_empty]. rewrite not_absolute by done.
  unfold has_leading_dot. rewrite Hs, comps_plain by done. cbn [existsb].
  destruct (String.eqb_spec (String c n) "."); [done|]. by destruct (String.eqb_spec ".." (String c n)); [congruence|].
Qed.
(** What comes before the link: nothing changes. *)
Definition before_link (pool target : string) (e : ManifestEntry) (w : fs) (b : string) : Prop :=
  ∃ w1 : fs, tree w1 = tree w ∧ nodes w1 = nodes w ∧ next_ino w1 = next_ino w ∧
    fsrun w (restore_entry pool target e) =
    fsrun w1 (let* l := sys (HardLink b (path_join target (me_path e))) in
              (if ok l then pok tt else try_io SnapshotErr (CopyFile b (path_join target (me_path e))) ;;! pok tt) ;;!
              let* _ := set_unix_mode (path_join target (me_path e)) (me_mode e) in pok tt).
Lemma wf_same w w1 : tree w1 = tree w → nodes w1 = nodes w → next_ino w1 = next_ino w → wf w → wf w1.
Proof. intros Ht Hn Hx [H1 H2 H3 H4]. split; rewrite ?Ht, ?Hn, ?Hx; auto. Qed.
Lemma restore_entry_start w pool target e b lb i lt :
  wf w → blob_path pool (me_hash e) = Ok b → names b lb → tree w !! lb = Some (EFile i) →
  names target lt → tree w !! lt = Some EDir → plain (me_path e) → before_link pool target e w b.
Proof.
  intros Hw Hb Hnb Hlb Ht Hlt Hn. unfold before_link, restore_entry. rewrite validate_plain, Hb by done.
  cbn [jbind pbind]. set (K := (let* l := sys (HardLink _ _) in _)).
  exists (tick (tick w)). do 3 (split; [done|]). cbn [pbind sys fsrun waits opens]. rewrite (exec_exists w b lb); [|done|done|by eapply placed_entry|by rewrite Hlb]. rewrite Hlb.
  change (yes (rint 1)) with true. cbn [negb].
  destruct (path_parent_some (path_join target (me_path e))) as [q Hq]; [rewrite comps_join by done; by destruct (comps target)|].
  rewrite Hq. assert (names q lt) as [Hc Hp].
  { split; [|by destruct Ht]. rewrite (comps_parent _ _ Hq), comps_join, removelast_last by done. by destruct Ht. }
  unfold try_io, jbind. cbn [pbind fsrun fs_exec waits opens]. change (ok (answer _ _)) with true. cbn [ok].
  rewrite Hc. rewrite mkdirs_existing; [|by apply wf_tick|done..]. done.
Qed.

Definition with_mode (n : node) (mode : Z) : node := MkNode (n_data n) mode (n_mtime n).
Definition safe_mode (mode : Z) : Z := Z.land mode (Z.lnot SUID_SGID).
Lemma wf_set_node w i n : wf w → is_Some (nodes w !! i) → wf (set_node w i n).
Proof.
  intros [V1 V2 V3 V4] Hi. split; [done..|]. simpl. intros l k [Hk Hlk]%V4. split; [|done].
  destruct (decide (k = i)) as [->|]; [by rewrite lookup_insert_eq|by rewrite lookup_insert_ne].
Qed.
(** When nothing fails, restoring an entry to a new name links the blob there. *)
Lemma restore_entry_links w pool target e b lb i n lt :
  wf w → blob_path pool (me_hash e) = Ok b → names b lb → tree w !! lb = Some (EFile i) → nodes w !! i = Some n →
  names target lt → tree w !! lt = Some EDir → plain (me_path e) → tree w !! (lt ++ [me_path e]) = None →
  ∃ w', fsrun w (restore_entry pool target e) = (Some (Ok tt), w') ∧ wf w' ∧ next_ino w' = next_ino w ∧
    tree w' = <[lt ++ [me_path e] := EFile i]> (tree w) ∧ nodes w' = <[i := with_mode n (safe_mode (me_mode e))]> (nodes w).
Proof.
  intros Hw Hb Hnb Hlb Hni Ht Hlt Hn Hx.
  destruct (restore_entry_start w pool target e b lb i lt) as (w1 & E1 & E2 & E3 & ->); [done..|].
  pose proof (wf_same w w1 E1 E2 E3 Hw) as Hw1. rewrite <- E1, <- E2, <- E3 in *.
  set (dst := path_join target (me_path e)). assert (names dst (lt ++ [me_path e])) as Hd by (by apply names_join).
  cbn [pbind sys fsrun fs_exec waits opens]. change (ok (answer _ _)) with true. cbn [ok]. unfold link.
  rewrite (resolve_names w1 false b lb), (resolve_names w1 false dst (lt ++ [me_path e]));
    [|done|done|by apply placed_join|done|done|done|by eapply placed_entry|done].
  rewrite Hlb, Hx, has_parent_placed; [|by apply placed_join|by destruct lt]. cbn [ok rint rv Z.leb]. cbn.
  set (W := tick (set_tree w1 (<[lt ++ [me_path e] := EFile i]> (tree w1)))).
  assert (wf W) as HW. { apply wf_tick, wf_insert; [done..|]. intros k [= <-]. by eapply wf_file. }
  assert (tree W !! (lt ++ [me_path e]) = Some (EFile i)) as HWd by (simpl; by rewrite lookup_insert_eq).
  unfold chmod. rewrite (at_path_names W dst (lt ++ [me_path e])), HWd; [|done|done|by eapply placed_entry|by rewrite HWd].
  change (nodes W) with (nodes w1). rewrite Hni. eexists. split; [reflexivity|].
  split; [|done]. apply wf_tick, wf_set_node; [done|simpl; by rewrite Hni].
Qed.
Lemma chmod_names w p l i n mode :
  wf w → names p l → tree w !! l = Some (EFile i) → nodes w !! i = Some n →
  chmod w p mode = (rint 0, set_node w i (with_mode n mode)).
Proof.
  intros Hw Hp Hl Hi. unfold chmod. rewrite (at_path_names w p l), Hl; [|done|done|by eapply placed_entry|by rewrite Hl].
  by rewrite Hi.
Qed.

(** A restored file is not a copy.  When nothing fails, restoring a manifest
    entry makes the file in the workspace a second name of the blob: whatever the
    jail then writes into its file in place, the blob holds, and with it every
    other snapshot and workspace that has this content, of any tenant.  (The
    blob's place is the pool for a hash that [create_incremental] wrote; for a
    forged entry whose hash is an absolute path it is any file of the host.) *)
Theorem restored_file_aliases_blob (w : fs) (pool target b : string) (e : ManifestEntry) (lb lt : loc) (i : N) (data : string) :
  wf w → blob_path pool (me_hash e) = Ok b → names b lb → tree w !! lb = Some (EFile i) →
  names target lt → tree w !! lt = Some EDir → plain (me_path e) → tree w !! (lt ++ [me_path e]) = None →
  ∃ w', fsrun w (restore_entry pool target e) = (Some (Ok tt), w') ∧
    view (put_file w' (path_join target (me_path e)) data 420).2 lb = Some (IFile data (safe_mode (me_mode e))).
Proof.
  intros Hw Hb Hnb Hlb Ht Hlt Hn Hx. destruct (wf_file _ Hw _ _ Hlb) as [[n Hni] _].
  destruct (restore_entry_links w pool target e b lb i n lt) as (w' & Hr & Hw' & _ & Et & En); [done..|].
  exists w'. split; [done|].
  rewrite (put_file_existing w' _ (lt ++ [me_path e]) i (with_mode n (safe_mode (me_mode e)))); [|done|by apply names_join|by rewrite Et, lookup_insert_eq|by rewrite En, lookup_insert_eq].
  unfold view. simpl. rewrite Et, lookup_insert_ne by congruence. rewrite Hlb. simpl. by rewrite lookup_insert_eq.
Qed.

(** Two entries for one path overwrite a blob.  When nothing fails, restoring
    two manifest entries with the same path (nothing rejects them) links the
    first blob and then, because the name is taken, copies the second blob's
    contents into it: the first blob now has the contents of the second.  With a
    forged hash this replaces the contents of any file of the host. *)
Theorem duplicate_entry_overwrites_blob (w : fs) (pool target b1 b2 : string) (e1 e2 : ManifestEntry)
    (lb1 lb2 lt : loc) (i1 i2 : N) (n2 : node) :
  wf w → names target lt → tree w !! lt = Some EDir → plain (me_path e1) → me_path e2 = me_path e1 →
  tree w !! (lt ++ [me_path e1]) = None →
  blob_path pool (me_hash e1) = Ok b1 → names b1 lb1 → tree w !! lb1 = Some (EFile i1) →
  blob_path pool (me_hash e2) = Ok b2 → names b2 lb2 → tree w !! lb2 = Some (EFile i2) → nodes w !! i2 = Some n2 → i1 ≠ i2 →
  ∃ w', fsrun w (for_each (restore_entry pool target) [e1; e2]) = (Some (Ok tt), w') ∧
    view w' lb1 = Some (IFile (n_data n2) (safe_mode (me_mode e2))).
Proof.
  intros Hw Ht Hlt Hn Hp Hx Hb1 Hnb1 Hl1 Hb2 Hnb2 Hl2 Hn2 Hne. destruct (wf_file _ Hw _ _ Hl1) as [[n1 Hn1] _].
  destruct (restore_entry_links w pool target e1 b1 lb1 i1 n1 lt) as (w1 & Hr & Hw1 & _ & Et & En); [done..|].
  set (dst := path_join target (me_path e1)). set (ld := lt ++ [me_path e1]) in *.
  assert (names dst ld) as Hd by (by apply names_join).
  assert (tree w1 !! ld = Some (EFile i1)) as Hld by (by rewrite Et, lookup_insert_eq).
  assert (nodes w1 !! i1 = Some (with_mode n1 (safe_mode (me_mode e1)))) as Hni1 by (by rewrite En, lookup_insert_eq).
  assert (tree w1 !! lb2 = Some (EFile i2)) as Hl2' by (rewrite Et, lookup_insert_ne; congruence).
  assert (nodes w1 !! i2 = Some n2) as Hn2' by (by rewrite En, lookup_insert_ne).
  cbn [for_each]. unfold jbind at 1. rewrite fsrun_bind, Hr. cbn [for_each]. unfold jbind at 1. rewrite fsrun_bind.
  destruct (restore_entry_start w1 pool target e2 b2 lb2 i2 lt) as (w2 & E1 & E2 & E3 & ->); [done..| |by rewrite Hp|].
  { rewrite Et, lookup_insert_ne; [done|]. intros E. apply (f_equal length) in E. unfold ld in E. rewrite length_app in E. simpl in E. lia. }
  rewrite Hp. fold dst. pose proof (wf_same w1 w2 E1 E2 E3 Hw1) as Hw2. rewrite <- E1, <- E2 in *.
  cbn [pbind sys fsrun fs_exec waits opens]. change (ok (answer _ _)) with true. cbn [ok]. unfold link.
  rewrite (resolve_names w2 false b2 lb2), (resolve_names w2 false dst ld); [|done|done|by eapply (placed_entry w2)|done|done|done|by eapply placed_entry|done].
  rewrite Hl2', Hld. cbn [ok rfail rv Z.leb]. cbn -[copy waits].
  rewrite waits_false.
  2: { cbn [opens]. intros x [->|[->|[]%not_elem_of_nil]%elem_of_cons]%elem_of_cons.
       - rewrite (at_path_names (tick w2) b2 lb2); [by simpl; rewrite Hl2'|by apply wf_tick|done|by eapply (placed_entry w2)|by simpl; rewrite Hl2'].
       - rewrite (at_path_names (tick w2) dst ld); [by simpl; rewrite Hld|by apply wf_tick|done|by eapply (placed_entry w2)|by simpl; rewrite Hld]. }
  cbn -[copy].
  unfold copy. rewrite (file_at_names (tick w2) b2 lb2 i2 n2), (file_at_names (tick w2) dst ld i1 (with_mode n1 (safe_mode (me_mode e1))))
    by (done || by apply wf_tick).
  rewrite bool_decide_eq_false_2 by done.
  rewrite (put_file_existing (tick w2) dst ld i1 (with_mode n1 (safe_mode (me_mode e1)))); [|by apply wf_tick|done..].
  cbn [ok rint rv Z.leb]. cbn -[chmod].
  assert (wf (set_node (tick w2) i1 (MkNode (n_data n2) (n_mode (with_mode n1 (safe_mode (me_mode e1)))) (now (tick w2))))) as HW.
  { apply wf_set_node; [by apply wf_tick|]. simpl. by rewrite Hni1. }
  erewrite chmod_names; [|exact HW|exact Hd|exact Hld|simpl; apply lookup_insert_eq]. cbn -[chmod].
  erewrite chmod_names; [|apply wf_tick, wf_set_node; [exact HW|simpl; by rewrite lookup_insert_eq]|exact Hd|exact Hld|simpl; apply lookup_insert_eq].
  cbn. eexists. split; [reflexivity|].
  unfold view. simpl. rewrite Et, lookup_insert_ne by congruence. rewrite Hl1. simpl. by rewrite lookup_insert_eq.
Qed.
End aliasing.

(** A host with a pool of one blob and a file that is nobody's business. *)
Module Example.
Local Open Scope string_scope.
Definition host : fs := build
  [([], EDir); (["pool"], EDir); (["pool"; "ab"], EDir); (["pool"; "ab"; "abc1"], EFile 0); (["t"], EDir);
   (["etc"], EDir); (["etc"; "passwd"], EFile 1)]
  [(0%N, MkNode "evil" 420 1); (1%N, MkNode "root" 420 1)].
Definition blob_entry : ManifestEntry := MkEntry "f" 420 "abc1" 4 None.
Definition forged_entry : ManifestEntry := MkEntry "f" 420 "/etc/passwd" 4 None.
End Example.
Lemma pool_host_wf : wf Example.host.
Proof. apply wf_check_ok. vm_compute. reflexivity. Qed.
Lemma restored_file_aliases_blob_witness :
  ∃ w', fsrun Example.host (restore_entry "/pool" "/t" Example.blob_entry) = (Some (Ok tt), w') ∧
    view (put_file w' "/t/f" "tampered" 420).2 ["pool"; "ab"; "abc1"]%string = Some (IFile "tampered" (safe_mode 420)).
Proof.
  apply (restored_file_aliases_blob Example.host "/pool" "/t" "/pool/ab/abc1" Example.blob_entry ["pool"; "ab"; "abc1"]%string ["t"%string] 0 "tampered").
  - apply pool_host_wf.
  - reflexivity.
  - apply (bool_decide_unpack _). vm_compute. exact I.
  - reflexivity.
  - apply (bool_decide_unpack _). vm_compute. exact I.
  - reflexivity.
  - apply (bool_decide_unpack _). vm_compute. exact I.
  - reflexivity.
Defined.
Lemma duplicate_entry_overwrites_blob_witness :
  ∃ w', fsrun Example.host (for_each (restore_entry "/pool" "/t") [Example.forged_entry; Example.blob_entry]) = (Some (Ok tt), w') ∧
    view w' ["etc"; "passwd"]%string = Some (IFile "evil" (safe_mode 420)).
Proof.
  apply (duplicate_entry_overwrites_blob Example.host "/pool" "/t" "/etc/passwd" "/pool/ab/abc1" Example.forged_entry Example.blob_entry
    ["etc"; "passwd"]%string ["pool"; "ab"; "abc1"]%string ["t"%string] 1 0 (MkNode "evil" 420 1)).
  - apply pool_host_wf.
  - apply (bool_decide_unpack _). vm_compute. exact I.
  - reflexivity.
  - apply (bool_decide_unpack _). vm_compute. exact I.
  - reflexivity.
  - reflexivity.
  - reflexivity.
  - apply (bool_decide_unpack _). vm_compute. exact I.
  - reflexivity.
  - reflexivity.
  - apply (bool_decide_unpack _). vm_compute. exact I.
  - reflexivity.
  - reflexivity.
  - done.
Defined.

(** ** Names made of digits *)
Lemma str_elem_hex c bs : str_elem c (hex_lower bs) → ∃ n, c = hex_digit n ∧ 0 <= n < 16.
Proof.
  induction bs as [|b bs IH]; [done|]. cbn [hex_lower]. rewrite str_elem_app. intros [Hc|Hc]; [|by apply IH].
  unfold hex02 in Hc. simpl in Hc. assert (0 <= byte_val b < 256) by apply byte_val_range.
  destruct Hc as [<-|[<-|[]]]; eexists; (split; [reflexivity|]).
  - split; [apply Z.div_pos; lia|apply Z.div_lt_upper_bound; lia].
  - apply Z.mod_pos_bound. lia.
Qed.
Lemma pretty_N_go_elem c x s : str_elem c (pretty_N_go x s) → str_elem c s ∨ ∃ d, c = pretty_N_char d.
Proof.
  revert s. induction (N.lt_wf_0 x) as [x _ IH]. intros s. destruct (decide (x = 0%N)) as [->|Hx].
  { rewrite pretty_N_go_0. by left. }
  rewrite pretty_N_go_step by lia. intros [Hs|Hd]%IH; [|by right|apply N.div_lt; lia].
  simpl in Hs. destruct Hs as [<-|Hs]; [right; eauto|by left].
Qed.
Lemma pretty_no_slash (z : Z) : ¬ str_elem "/"%char (pretty z).
Proof.
  assert (∀ p, ¬ str_elem "/"%char (pretty_N_go p "")) as Hgo.
  { intros p [[]|[d Hd]]%pretty_N_go_elem. revert Hd. unfold pretty_N_char. repeat case_match; discriminate. }
  assert (∀ p, ¬ str_elem "/"%char (pretty (N.pos p))) as Hp.
  { intros p. unfold pretty, pretty_N. case_decide; [done|]. apply Hgo. }
  destruct z as [|p|p].
  - intros [Hc|[]]. discriminate.
  - apply Hp.
  - change (pretty (Z.neg p)) with (String "-" (pretty (N.pos p))). simpl. intros [Hc|Hc]; [discriminate|]. by apply (Hp p).
Qed.
Lemma tmp_plain (a b : Z) : plain (".tmp-" +:+ (pretty a +:+ "-" +:+ pretty b)).
Proof.
  split; [|done]. apply no_slash_split. rewrite !str_elem_app. pose proof (pretty_no_slash a). pose proof (pretty_no_slash b).
  intros [Hc|[?|[Hc|?]]]; [|done| |done]; revert Hc; simpl; intuition discriminate.
Qed.

(** ** The pool's invariant *)
Section pool.
Context `{Oracle} `{Blake3} (pool : string) (lp : loc) (Hpool : names pool lp).

Lemma hex_digit_range n : 0 <= n < 16 → is_cont (hex_digit n) = false ∧ hex_digit n ≠ "."%char ∧ hex_digit n ≠ "/"%char.
Proof.
  intros Hr. assert (n = 0 ∨ n = 1 ∨ n = 2 ∨ n = 3 ∨ n = 4 ∨ n = 5 ∨ n = 6 ∨ n = 7 ∨ n = 8 ∨ n = 9 ∨ n = 10 ∨ n = 11 ∨ n = 12 ∨ n = 13 ∨ n = 14 ∨ n = 15) as Hc by lia.
  repeat destruct Hc as [->|Hc]; [by repeat split..|]. subst. by repeat split.
Qed.
Lemma digest_no_slash d : ¬ str_elem "/"%char (digest d).
Proof. intros (n & Hn & Hr)%str_elem_hex. by apply hex_digit_range in Hr as (_ & _ & []). Qed.
Lemma digest_len d : str_len (digest d) = 64%nat.
Proof. unfold digest. rewrite hex_lower_len, blake3_len. done. Qed.
Lemma digest_cases d : ∃ b s, digest d = String (hex_digit (byte_val b / 16)) (String (hex_digit (byte_val b mod 16)) s) ∧ str_len s = 62%nat ∧
  ∃ b' s', s = String (hex_digit (byte_val b' / 16)) s'.
Proof.
  unfold digest. pose proof (blake3_len d) as Hl. destruct (blake3 d) as [|b [|b' l]]; [done..|]. simpl in Hl.
  exists b, (hex_lower (b' :: l)). split; [done|]. split; [rewrite hex_lower_len; simpl; lia|]. exists b'. eexists. reflexivity.
Qed.
Definition shard (h : string) : string := str_take 2 h.
Definition blob_loc (h : string) : loc := lp ++ [shard h; h].
(** Blobs of digests lie where the code looks for them. *)
Lemma digest_blob_path d :
  ∃ b, blob_path pool (digest d) = Ok b ∧ names b (blob_loc (digest d)) ∧ plain (shard (digest d)) ∧ plain (digest d).
Proof.
  destruct (digest_cases d) as (b & s & Hd & Hs & b' & s' & Hs').
  assert (0 <= byte_val b / 16 < 16 ∧ 0 <= byte_val b mod 16 < 16 ∧ 0 <= byte_val b' / 16 < 16) as (R1 & R2 & R3).
  { pose proof (byte_val_range b). pose proof (byte_val_range b'). Z.div_mod_to_equations. lia. }
  apply hex_digit_range in R1 as (C1 & D1 & S1), R2 as (C2 & D2 & S2), R3 as (C3 & D3 & S3).
  assert (plain (digest d)) as Hp. { split; [apply no_slash_split, digest_no_slash|]. rewrite Hd. repeat split; try done. intros [= E]. done. }
  assert (plain (shard (digest d))) as Hps.
  { split; [|unfold shard; rewrite Hd; repeat split; try done; intros [= E]; done].
    apply no_slash_split. unfold shard. rewrite Hd. simpl. intuition congruence. }
  exists (path_join (path_join pool (shard (digest d))) (digest d)). split; [|split; [|done]].
  - unfold blob_path. rewrite digest_len. cbn [Nat.leb]. unfold slice_to. rewrite digest_len. cbn [Nat.ltb Nat.leb].
    rewrite Hd at 1. cbn [str_nth]. rewrite Hs'. cbn [str_nth]. by rewrite C3.
  - unfold blob_loc. change (lp ++ [shard (digest d); digest d]) with (lp ++ [shard (digest d)] ++ [digest d]). rewrite app_assoc.
    apply names_join; [by apply names_join|done].
Qed.

(** Every blob is named by the digest of its contents; files directly in the pool
    (temporary ones) have no other name. *)
Record pool_ok (w : fs) : Prop := {
  po_wf : wf w; po_dir : tree w !! lp = Some EDir;
  po_blob x y e : tree w !! (lp ++ [x; y]) = Some e → ∃ i n, e = EFile i ∧ nodes w !! i = Some n ∧ y = digest (n_data n);
  po_top x e : tree w !! (lp ++ [x]) = Some e → e = EDir ∨ (∃ i, e = EFile i) ∧ str_len x ≠ 2%nat;
  po_own x i k : tree w !! (lp ++ [x]) = Some (EFile i) → tree w !! k = Some (EFile i) → k = lp ++ [x]
}.
(** Nothing is lost: what is outside the pool and the blobs in it stay. *)
Record grows (w w' : fs) : Prop := {
  gr_tree k : ¬ under lp k → tree w' !! k = tree w !! k;
  gr_blob x y e : tree w !! (lp ++ [x; y]) = Some e → tree w' !! (lp ++ [x; y]) = Some e;
  gr_nodes k i : (∀ x, k ≠ lp ++ [x]) → tree w !! k = Some (EFile i) → nodes w' !! i = nodes w !! i
}.
Lemma pool_tick w : pool_ok w → pool_ok (tick w).
Proof. intros []. split; try done. by apply wf_tick. Qed.
Lemma grows_refl w : grows w w.
Proof. by split. Qed.
Lemma grows_tick w w' : grows w w' → grows w (tick w').
Proof. intros []. by split. Qed.
Lemma grows_untick w w' : grows (tick w) w' → grows w w'.
Proof. intros []. by split. Qed.
Lemma grows_trans w1 w2 w3 : pool_ok w1 → grows w1 w2 → grows w2 w3 → grows w1 w3.
Proof.
  intros Hp [T1 B1 N1] [T2 B2 N2]. split; [intros k Hk; by rewrite T2, T1|eauto|].
  intros k i Hk Hi. rewrite (N2 k i); [by eapply N1|done|]. destruct (decide (under lp k)) as [[r ->]|Hu]; [|by rewrite T1].
  destruct r as [|x [|y [|z r]]].
  - rewrite app_nil_r in Hi. rewrite (po_dir _ Hp) in Hi. done.
  - by destruct (Hk x).
  - by apply B1.
  - assert (tree w1 !! (lp ++ [x; y]) = Some EDir) as Hd.
    { eapply (wf_prefix w1 (lp ++ [x; y]) (z :: r)); [apply Hp| |done]. by rewrite <- app_assoc. }
    apply (po_blob _ Hp) in Hd as (? & ? & [=] & _).
Qed.
(** A change to a temporary file only. *)
Lemma pool_set_tmp w t i n :
  pool_ok w → tree w !! (lp ++ [t]) = Some (EFile i) → pool_ok (set_node w i n) ∧ grows w (set_node w i n).
Proof.
  intros Hp Ht. pose proof (wf_file _ (po_wf _ Hp) _ _ Ht) as [Hi _].
  assert (∀ k j, (∀ x, k ≠ lp ++ [x]) → tree w !! k = Some (EFile j) → <[i := n]> (nodes w) !! j = nodes w !! j) as Hn.
  { intros k j Hk Hj. apply lookup_insert_ne. intros <-. apply (Hk t). by eapply po_own. }
  split; split; simpl; try apply Hp; try done.
  - apply wf_set_node; [apply Hp|done].
  - intros x y e He. destruct (po_blob _ Hp _ _ _ He) as (j & m & -> & Hj & Hy). exists j, m. split; [done|]. split; [|done].
    rewrite (Hn (lp ++ [x; y])); [done| |done]. intros z E. apply (inj (lp ++.)) in E. done.
Qed.
(** A new temporary file. *)
Lemma pool_add_tmp w t n :
  pool_ok w → tree w !! (lp ++ [t]) = None → plain t → str_len t ≠ 2%nat → pool_ok (add_file w (lp ++ [t]) n) ∧ grows w (add_file w (lp ++ [t]) n).
Proof.
  intros Hp Hx Ht Hlen. destruct (Hp) as [Hw Hd Hb Htop Hown].
  assert (∀ k j, tree w !! k = Some (EFile j) → j ≠ next_ino w) as Hfresh by (intros k j [_ Hj]%(wf_file _ Hw); lia).
  split; split; simpl.
  - by apply wf_add_file.
  - rewrite lookup_insert_ne; [done|]. intros E. apply (f_equal length) in E. rewrite length_app in E. simpl in E. lia.
  - intros x y e. rewrite lookup_insert_ne; [|intros E; by apply (inj (lp ++.)) in E].
    intros He. destruct (Hb _ _ _ He) as (i & m & -> & Hi & Hy). exists i, m. split; [done|]. split; [|done].
    rewrite lookup_insert_ne; [done|]. intros <-. by apply Hfresh in He.
  - intros x e. destruct (decide (x = t)) as [->|Hne]; [rewrite lookup_insert_eq; intros [= <-]; eauto|].
    rewrite lookup_insert_ne; [apply Htop|]. intros E. apply (inj (lp ++.)) in E. congruence.
  - intros x i k. destruct (decide (x = t)) as [->|Hne].
    + rewrite lookup_insert_eq. intros [= <-]. destruct (decide (k = lp ++ [t])) as [->|Hk]; [done|].
      rewrite lookup_insert_ne by done. intros Hi. by apply Hfresh in Hi.
    + rewrite lookup_insert_ne; [|intros E; apply (inj (lp ++.)) in E; congruence]. intros Hi.
      destruct (decide (k = lp ++ [t])) as [->|Hk]; [|rewrite lookup_insert_ne by done; by apply Hown].
      rewrite lookup_insert_eq. intros [= <-]. by apply Hfresh in Hi.
  - intros k Hk. apply lookup_insert_ne. intros <-. apply Hk. by apply prefix_app_r.
  - intros x y e He. rewrite lookup_insert_ne; [done|]. intros E. by apply (inj (lp ++.)) in E.
  - intros k i _ Hi. apply lookup_insert_ne. intros <-. by apply Hfresh in Hi.
Qed.

(** ** Hashing a file into the pool *)
Context (src : string) (ls : loc) (i0 : N) (n0 : node) (Hsrc : names src ls) (Hapart : ¬ under lp ls).
Definition src_ok (w : fs) : Prop := tree w !! ls = Some (EFile i0) ∧ nodes w !! i0 = Some n0.
Lemma src_grows w w' : src_ok w → grows w w' → src_ok w'.
Proof.
  intros [Ht Hn] [T B N]. split; [by rewrite T|]. rewrite (N ls i0); [done| |done]. intros x ->. apply Hapart. by apply prefix_app_r.
Qed.
(** The temporary file [t] exists and holds [d]. *)
Definition tmp_holds (w : fs) (t d : string) : Prop :=
  ∃ i n, tree w !! (lp ++ [t]) = Some (EFile i) ∧ nodes w !! i = Some n ∧ n_data n = d.
(** What a program may do to the pool, and what it ends with. *)
Definition safely {A} (w : fs) (p : prog A) (Q : A → fs → Prop) : Prop :=
  ∃ a w', fsrun w p = (Some a, w') ∧ pool_ok w' ∧ grows w w' ∧ Q a w'.
Lemma safely_ret {A} w (a : A) (Q : A → fs → Prop) : pool_ok w → Q a w → safely w (Ret a) Q.
Proof. intros Hp Hq. exists a, w. split_and!; [done|done|apply grows_refl|done]. Qed.
Lemma safely_bind {A B} w (m : prog A) (f : A → prog B) Q R :
  pool_ok w → safely w m Q → (∀ a w', pool_ok w' → grows w w' → Q a w' → safely w' (f a) R) → safely w (pbind m f) R.
Proof.
  intros Hp (a & w1 & H1 & H2 & H3 & H4) Hf. destruct (Hf a w1 H2 H3 H4) as (b & w2 & K1 & K2 & K3 & K4).
  exists b, w2. rewrite fsrun_bind, H1. split_and!; [done|done|by eapply grows_trans|done].
Qed.
Lemma safely_call {A} w c (k : ret → prog A) Q :
  waits c w = false → pool_ok w → (∀ r w', fs_exec c w = (r, w') → pool_ok w' ∧ grows w w' ∧ (pool_ok (tick w') → grows w (tick w') → safely (tick w') (k r) Q)) →
  safely w (Call c k) Q.
Proof.
  intros Hn Hp Hc. destruct (fs_exec c w) as [r w1] eqn:E. destruct (Hc r w1 eq_refl) as (H1 & H2 & H3).
  destruct (H3 (pool_tick _ H1) (grows_tick _ _ H2)) as (b & w2 & H4 & H5 & H6 & H7). exists b, w2. cbn [fsrun]. rewrite Hn, E.
  split_and!; [done|done| |done]. eapply grows_trans; [done| |exact H6]. by apply grows_tick.
Qed.
(** A call that only looks. *)
Lemma safely_look {A} w c (k : ret → prog A) Q :
  waits c w = false → pool_ok w → (∀ r w', fs_exec c w = (r, w') → w' = w) → (∀ r, fs_exec c w = (r, w) → safely (tick w) (k r) Q) → safely w (Call c k) Q.
Proof.
  intros Hn Hp Hc Hk. apply safely_call; [done..|]. intros r w' E. pose proof (Hc r w' E) as ->. split; [done|]. split; [apply grows_refl|]. by intros _ _; apply Hk.
Qed.
Lemma tmp_create w tmp t r w' :
  pool_ok w → names tmp (lp ++ [t]) → str_len t ≠ 2%nat → fs_exec (CreateFile tmp) w = (r, w') →
  pool_ok w' ∧ grows w w' ∧ (ok r = true → tmp_holds w' t "").
Proof.
  intros Hp Hn Hlen. cbn [fs_exec]. destruct (ok (answer _ _)) eqn:Ea; [|intros [= <- <-]; split_and!; [done|apply grows_refl|by rewrite Ea]].
  destruct (tree w !! (lp ++ [t])) as [e|] eqn:He.
  - destruct (po_top _ Hp _ _ He) as [->|[[i ->] _]].
    + unfold put_file. rewrite (resolve_names w true tmp (lp ++ [t])), He; [|apply Hp|done|eapply placed_entry; [apply Hp|done]|by rewrite He].
      intros [= <- <-]. split_and!; [done|apply grows_refl|done].
    + destruct (wf_file _ (po_wf _ Hp) _ _ He) as [[n Hi] _].
      rewrite (put_file_existing w tmp (lp ++ [t]) i n); [|apply Hp|done..]. intros [= <- <-].
      destruct (pool_set_tmp w t i (MkNode "" (n_mode n) (now w)) Hp He) as [H1 H2]. split; [done|]. split; [done|].
      intros _. exists i. eexists. split; [done|]. split; [apply lookup_insert_eq|done].
  - rewrite (put_file_new w tmp lp t); [|apply Hp|done|apply Hp|done]. intros [= <- <-].
    destruct (pool_add_tmp w t (MkNode "" 420 (now w)) Hp He) as [H1 H2]; [by eapply names_last|done|]. split; [done|]. split; [done|].
    intros _. exists (next_ino w). eexists. split; [apply lookup_insert_eq|]. split; [apply lookup_insert_eq|done].
Qed.
Lemma tmp_append w tmp t d x r w' :
  pool_ok w → names tmp (lp ++ [t]) → tmp_holds w t d → fs_exec (AppendFile tmp x) w = (r, w') →
  pool_ok w' ∧ grows w w' ∧ (ok r = true → tmp_holds w' t (d +:+ x)).
Proof.
  intros Hp Hn (i & n & Ht & Hi & Hd).
  assert (∀ y, append w tmp y = (rint 0, set_node w i (MkNode (n_data n +:+ y) (n_mode n) (now w)))) as Ha.
  { intros y. unfold append. by rewrite (file_at_names w tmp (lp ++ [t]) i n); [|apply Hp|..]. }
  cbn [fs_exec]. rewrite !Ha.
  destruct (ok (answer _ _)) eqn:Ea; intros [= <- <-];
    match goal with |- pool_ok (set_node _ _ ?m) ∧ _ => destruct (pool_set_tmp w t i m Hp Ht) as [H1 H2] end;
    (split; [done|]; split; [done|]); [|by rewrite Ea].
  intros _. exists i. eexists. split; [done|]. split; [apply lookup_insert_eq|]. simpl. by rewrite Hd.
Qed.
(** The files the hashing opens are regular ones or new. *)
Lemma tmp_no_fifo w tmp t : pool_ok w → names tmp (lp ++ [t]) → at_path w tmp ≠ Some EFifo.
Proof.
  intros Hp Hn. destruct (tree w !! (lp ++ [t])) as [e|] eqn:He.
  - rewrite (at_path_names w tmp (lp ++ [t])); [|apply Hp|done|eapply placed_entry; [apply Hp|done]|].
    + rewrite He. by destruct (po_top _ Hp _ _ He) as [->|[[i ->] _]].
    + rewrite He. by destruct (po_top _ Hp _ _ He) as [->|[[i ->] _]].
  - rewrite (at_path_names w tmp (lp ++ [t])); [by rewrite He|apply Hp|done|apply placed_join; apply Hp|by rewrite He].
Qed.
Lemma tmp_no_wait w tmp t c : pool_ok w → names tmp (lp ++ [t]) → opens c = [tmp] → waits c w = false.
Proof. intros Hp Hn Ho. apply waits_false. rewrite Ho. intros p ->%list_elem_of_singleton. by eapply tmp_no_fifo. Qed.
Lemma src_no_wait w c : wf w → src_ok w → opens c = [src] → waits c w = false.
Proof.
  intros Hw [Ht _] Ho. apply waits_false. rewrite Ho. intros p ->%list_elem_of_singleton.
  rewrite (at_path_names w src ls); [by rewrite Ht|done|done|by eapply placed_entry|by rewrite Ht].
Qed.
Lemma CHUNK_pos : (0 < CHUNK)%nat.
Proof. unfold CHUNK. lia. Qed.
Lemma str_take_nil k s : (0 < k)%nat → str_len (str_take k s) = 0%nat → s = ""%string.
Proof. destruct k; [lia|]. by destruct s. Qed.
Lemma read_chunk_exec w fed rest r w' :
  wf w → src_ok w → n_data n0 = fed +:+ rest → fs_exec (ReadChunk src (Z.of_nat (str_len fed))) w = (r, w') →
  w' = w ∧ (ok r = true → rtext r = str_take CHUNK rest ∧ rv r = Z.of_nat (str_len (str_take CHUNK rest))).
Proof.
  intros Hw [Ht Hi] Hd. cbn [fs_exec]. destruct (ok (answer _ _)) eqn:Ea; cbn [negb]; [|intros [= <- <-]; by rewrite Ea].
  rewrite (file_at_names w src ls i0 n0) by done. rewrite Nat2Z.id, Hd, str_drop_app. generalize (str_take CHUNK rest) as x. by intros x [= <- <-].
Qed.
Lemma stream_ok fuel tmp t : ∀ fed rest w,
  pool_ok w → src_ok w → names tmp (lp ++ [t]) → tmp_holds w t fed → n_data n0 = fed +:+ rest → (str_len rest < fuel)%nat →
  safely w (stream fuel src tmp fed) (λ o w', o ≠ Panic ∧ ∀ x, o = Ok x → x = n_data n0 ∧ tmp_holds w' t x).
Proof.
  induction fuel as [|fuel IH]; intros fed rest w Hp Hs Hn Hh Hd Hf; [lia|].
  cbn [stream]. unfold try_io, jbind. cbn [pbind]. apply safely_look; [done|done|..].
  { intros r w' Hr. by eapply read_chunk_exec in Hr as [-> _]; [|apply Hp|..]. }
  intros r Hr. apply (read_chunk_exec w fed rest) in Hr as [_ Hr]; [|apply Hp|done|done].
  destruct (ok r) eqn:Er; cbn [pbind]; [|by apply safely_ret; [apply pool_tick|]]. destruct (Hr eq_refl) as [Ex Ev].
  destruct (Z.eqb_spec (rv r) 0) as [E0|E0].
  { apply safely_ret; [by apply pool_tick|]. split; [done|]. intros x [= <-]. rewrite Ev in E0. split; [|done].
    assert (rest = ""%string) as ->.
    { apply (str_take_nil CHUNK); [apply CHUNK_pos|]. apply Nat2Z.inj. exact E0. }
    by rewrite Hd, str_app_nil_r. }
  apply safely_call; [eapply tmp_no_wait; [by apply pool_tick|done|done]|by apply pool_tick|]. intros r2 w2 Hr2.
  apply (tmp_append (tick w) tmp t fed) in Hr2 as (H1 & H2 & H3); [|by apply pool_tick|done|done].
  split; [done|]. split; [done|]. intros H4 H5. destruct (ok r2); cbn [pbind]; [|by apply safely_ret].
  rewrite Ex. apply (IH _ (str_drop CHUNK rest)); [done|exact (src_grows (tick w) _ Hs H5)|done|rewrite <- Ex; by apply H3|..].
  - rewrite str_app_assoc, str_take_drop. done.
  - rewrite <- (str_take_drop CHUNK rest), str_len_app in Hf. rewrite Ev in E0. lia.
Qed.

(** The last steps: a directory for the blob, and the blob itself or nothing. *)
Lemma pool_mkdir w x :
  pool_ok w → tree w !! (lp ++ [x]) = None → plain x →
  pool_ok (set_tree w (<[lp ++ [x] := EDir]> (tree w))) ∧ grows w (set_tree w (<[lp ++ [x] := EDir]> (tree w))).
Proof.
  intros Hp Hx Ht. destruct (Hp) as [Hw Hd Hb Htop Hown]. split; split; simpl.
  - by apply wf_insert_dir.
  - rewrite lookup_insert_ne; [done|]. intros E. apply (f_equal length) in E. rewrite length_app in E. simpl in E. lia.
  - intros y z e. rewrite lookup_insert_ne; [apply Hb|intros E; by apply (inj (lp ++.)) in E].
  - intros y e. destruct (decide (y = x)) as [->|Hne]; [rewrite lookup_insert_eq; intros [= <-]; by left|].
    rewrite lookup_insert_ne; [apply Htop|]. intros E. apply (inj (lp ++.)) in E. congruence.
  - intros y i k Hy Hk. apply lookup_insert_Some in Hy as [[_ [=]]|[_ Hy]], Hk as [[_ [=]]|[_ Hk]]. by eapply Hown.
  - intros k Hk. apply lookup_insert_ne. intros <-. apply Hk. by apply prefix_app_r.
  - intros y z e He. rewrite lookup_insert_ne; [done|]. intros E. by apply (inj (lp ++.)) in E.
  - done.
Qed.
Lemma pool_remove_tmp w t i :
  pool_ok w → tree w !! (lp ++ [t]) = Some (EFile i) →
  pool_ok (set_tree w (delete (lp ++ [t]) (tree w))) ∧ grows w (set_tree w (delete (lp ++ [t]) (tree w))).
Proof.
  intros Hp Ht. destruct (Hp) as [Hw Hd Hb Htop Hown].
  split; split; simpl.
  - rewrite delete_leaf; [|done|by rewrite Ht]. apply wf_remove; [done|by destruct lp].
  - rewrite lookup_delete_ne; [done|]. intros E. apply (f_equal length) in E. rewrite length_app in E. simpl in E. lia.
  - intros y z e [_ He]%lookup_delete_Some. by eapply Hb.
  - intros y e [_ He]%lookup_delete_Some. by eapply Htop.
  - intros y j k [_ He]%lookup_delete_Some [_ Hk]%lookup_delete_Some. by eapply Hown.
  - intros k Hk. apply lookup_delete_ne. intros <-. apply Hk. by apply prefix_app_r.
  - intros y z e He. rewrite lookup_delete_ne; [done|]. intros E. by apply (inj (lp ++.)) in E.
  - done.
Qed.
Lemma pool_publish w t i n :
  pool_ok w → tree w !! (lp ++ [t]) = Some (EFile i) → nodes w !! i = Some n →
  let l := blob_loc (digest (n_data n)) in
  plain (digest (n_data n)) → tree w !! (lp ++ [shard (digest (n_data n))]) = Some EDir → tree w !! l = None →
  pool_ok (set_tree w (<[l := EFile i]> (delete (lp ++ [t]) (tree w)))) ∧
  grows w (set_tree w (<[l := EFile i]> (delete (lp ++ [t]) (tree w)))).
Proof.
  intros Hp Ht Hn l Hplain Hsh Hl. pose proof (pool_remove_tmp w t i Hp Ht) as [Hp' [T B N]].
  set (w1 := set_tree w (delete (lp ++ [t]) (tree w))) in *. destruct (Hp') as [Hw Hd Hb Htop Hown].
  assert (∀ x, lp ++ [x] ≠ l) as Hnl by (intros x E; by apply (inj (lp ++.)) in E).
  assert (lp ++ [t] ≠ lp ++ [shard (digest (n_data n))]) as Hts by (intros E; rewrite E, Hsh in Ht; done).
  assert (tree w1 !! l = None) as Hl1 by (apply lookup_delete_None; by right).
  assert (l = (lp ++ [shard (digest (n_data n))]) ++ [digest (n_data n)]) as El by (by rewrite <- app_assoc).
  split; split; simpl.
  - rewrite El. refine (wf_insert w1 _ _ (EFile i) Hw _ _ Hplain _); [by simpl; rewrite lookup_delete_ne|by rewrite <- El|].
    intros j [= <-]. by eapply (wf_file w (po_wf _ Hp)).
  - rewrite lookup_insert_ne; [done|]. intros E. apply (f_equal length) in E. unfold l, blob_loc in E. rewrite length_app in E. simpl in E. lia.
  - intros y z e He. apply lookup_insert_Some in He as [[E <-]|[_ He]]; [|by apply Hb in He].
    apply (inj (lp ++.)) in E. injection E as <- <-. eauto.
  - intros y e He. rewrite lookup_insert_ne in He by (symmetry; apply Hnl). by apply Htop in He.
  - intros y j k Hy Hk. rewrite lookup_insert_ne in Hy by (symmetry; apply Hnl).
    apply lookup_insert_Some in Hk as [[<- [= <-]]|[_ Hk]]; [|by eapply Hown].
    apply lookup_delete_Some in Hy as [Hne Hy]. destruct Hne. symmetry. by eapply (po_own _ Hp).
  - intros k Hk. rewrite lookup_insert_ne; [by apply T|]. intros <-. apply Hk. by apply prefix_app_r.
  - intros y z e He. rewrite lookup_insert_ne; [by apply B|]. intros E. rewrite <- E in He. congruence.
  - done.
Qed.

Lemma shard_exec w q x t d r w' :
  pool_ok w → names q (lp ++ [x]) → str_len x = 2%nat → tmp_holds w t d → fs_exec (CreateDirAll q) w = (r, w') →
  pool_ok w' ∧ grows w w' ∧ tmp_holds w' t d ∧ (ok r = true → tree w' !! (lp ++ [x]) = Some EDir).
Proof.
  intros Hp Hq Hx Ht. cbn [fs_exec]. destruct (ok (answer _ _)) eqn:Ea.
  2: { intros [= <- <-]. split_and!; [done|apply grows_refl|done|by rewrite Ea]. }
  pose proof Hq as [-> Hpl]. destruct (tree w !! (lp ++ [x])) as [e|] eqn:He.
  - destruct (po_top _ Hp _ _ He) as [->|[_ Hne]]; [|done]. rewrite mkdirs_existing by (done || apply Hp).
    intros [= <- <-]. split_and!; [done|apply grows_refl|done..].
  - rewrite mkdirs_last by (done || apply Hp). intros [= <- <-].
    destruct (pool_mkdir w x Hp He) as [H1 H2]; [by eapply names_last|]. split_and!; [done|done| |intros _; simpl; apply lookup_insert_eq].
    destruct Ht as (i & n & Ht & Hi & Hd). exists i, n. split; [|done]. simpl. rewrite lookup_insert_ne; [done|]. intros E. rewrite E in He. congruence.
Qed.
Lemma remove_tmp_exec w tmp t d r w' :
  pool_ok w → names tmp (lp ++ [t]) → tmp_holds w t d → fs_exec (RemoveFile tmp) w = (r, w') → pool_ok w' ∧ grows w w'.
Proof.
  intros Hp Hn (i & n & Ht & _). cbn [fs_exec]. destruct (ok (answer _ _)); cbn [negb]; [|intros [= <- <-]; by split; [|apply grows_refl]].
  rewrite (resolve_names w false tmp (lp ++ [t])); [|apply Hp|done|by eapply placed_entry; [apply Hp|]|done]. simpl. rewrite Ht. simpl.
  intros [= <- <-]. by eapply pool_remove_tmp.
Qed.
(** The blob with name [h] is there. *)
Definition stored (w : fs) (h : string) : Prop :=
  ∃ i n, tree w !! blob_loc h = Some (EFile i) ∧ nodes w !! i = Some n ∧ digest (n_data n) = h.
Lemma stored_entry w h e : pool_ok w → tree w !! blob_loc h = Some e → stored w h.
Proof. intros Hp He. destruct (po_blob _ Hp _ _ _ He) as (i & n & -> & Hi & Hh). by exists i, n. Qed.
Lemma stored_grows w w' h : pool_ok w' → grows w w' → stored w h → stored w' h.
Proof. intros Hp [_ B _] (i & n & He & _). eapply stored_entry; [done|]. by apply B. Qed.
Lemma publish_exec w tmp t d b r w' :
  pool_ok w → names tmp (lp ++ [t]) → tmp_holds w t d → names b (blob_loc (digest d)) →
  tree w !! (lp ++ [shard (digest d)]) = Some EDir → tree w !! blob_loc (digest d) = None →
  fs_exec (Rename tmp b) w = (r, w') →
  pool_ok w' ∧ grows w w' ∧ (ok r = true → stored w' (digest d)) ∧ (ok r = false → tmp_holds w' t d).
Proof.
  intros Hp Hn Ht Hb Hsh Hl. cbn [fs_exec]. destruct (ok (answer _ _)) eqn:Ea.
  2: { intros [= <- <-]. split_and!; [done|apply grows_refl|by rewrite Ea|done]. }
  destruct Ht as (i & n & Ht & Hi & <-).
  assert (blob_loc (digest (n_data n)) = (lp ++ [shard (digest (n_data n))]) ++ [digest (n_data n)]) as El by (unfold blob_loc; by rewrite <- app_assoc).
  assert (placed w (blob_loc (digest (n_data n)))) as Hpl by (rewrite El; by apply placed_join).
  unfold rename. rewrite (resolve_names w false tmp (lp ++ [t])); [|apply Hp|done|by eapply placed_entry; [apply Hp|]|done].
  rewrite (resolve_names w false b (blob_loc (digest (n_data n)))) by (done || apply Hp).
  rewrite Ht, Hl, has_parent_placed; [|done|rewrite El; by destruct lp].
  intros [= <- <-]. destruct (pool_publish w t i n) as [H1 H2]; [done..|rewrite El in Hb; by eapply names_last|done|done|].
  split_and!; [done|done| |done]. intros _. eapply stored_entry; [done|]. apply lookup_insert_eq.
Qed.

Lemma digest_parent d : ∃ b q, blob_path pool (digest d) = Ok b ∧ names b (blob_loc (digest d)) ∧
  path_parent b = Some q ∧ names q (lp ++ [shard (digest d)]) ∧ str_len (shard (digest d)) = 2%nat.
Proof.
  destruct (digest_blob_path d) as (b & Hb & Hn & Hs & Hd). destruct (path_parent_some b) as [q Hq]; [destruct Hn as [-> _]; unfold blob_loc; by destruct lp|].
  exists b, q. split_and!; [done..| |].
  - split; [|apply Forall_app; split; [apply Hpool|by constructor]]. rewrite (comps_parent _ _ Hq). destruct Hn as [-> _].
    unfold blob_loc. change [shard (digest d); digest d] with ([shard (digest d)] ++ [digest d]). by rewrite app_assoc, removelast_last.
  - unfold shard. destruct (digest_cases d) as (? & ? & -> & _). done.
Qed.
Lemma publish_safely w tmp t d :
  pool_ok w → names tmp (lp ++ [t]) → tmp_holds w t d →
  safely w (publish pool tmp d) (λ o w', o ≠ Panic ∧
    ∀ h size, o = Ok (h, size) → h = digest d ∧ size = u64 (Z.of_nat (str_len d)) ∧ stored w' h).
Proof.
  intros Hp Hn Ht. unfold publish, try_io, jbind. destruct (digest_parent d) as (b & q & -> & Hb & -> & Hq & Hlen). cbn [pbind sys].
  apply safely_call; [done|done|]. intros r w1 Hr. eapply shard_exec in Hr as (H1 & H2 & H3 & H4); [|done..].
  split; [done|]. split; [done|]. intros H5 _. destruct (ok r); cbn [pbind pok]; [|by apply safely_ret]. specialize (H4 eq_refl).
  assert (placed (tick w1) (blob_loc (digest d))) as Hpl.
  { unfold blob_loc. change [shard (digest d); digest d] with ([shard (digest d)] ++ [digest d]). rewrite app_assoc. by apply placed_join. }
  assert (∀ w2 h size, pool_ok w2 → grows (tick (tick w1)) w2 → is_Some (tree (tick w1) !! blob_loc (digest d)) →
    Ok (E:=JailError) (digest d, u64 (Z.of_nat (str_len d))) = Ok (h, size) → h = digest d ∧ size = u64 (Z.of_nat (str_len d)) ∧ stored w2 h) as Hold.
  { intros w2 h size K1 K2 [e He] [= <- <-]. split_and!; [done..|]. eapply stored_grows; [done|apply grows_untick; exact K2|]. by eapply stored_entry. }
  apply safely_look; [done|done|by intros ? ? [= <- <-]|]. intros re Hre.
  rewrite (exec_exists (tick w1) b (blob_loc (digest d))) in Hre; [|apply H5|done|done|].
  2: { destruct (tree (tick w1) !! _) as [e|] eqn:He; [|done]. by apply (po_blob _ H5) in He as (i & n & -> & _). }
  injection Hre as <-. change (tree (tick w1)) with (tree w1) in *. destruct (tree w1 !! blob_loc (digest d)) as [e|] eqn:He.
  - change (yes (rint 1)) with true. cbv iota. apply safely_call; [done|by apply pool_tick|]. intros r2 w2 Hr2.
    eapply remove_tmp_exec in Hr2 as [K1 K2]; [|by apply pool_tick|done|done]. split; [done|]. split; [done|]. intros K3 K4.
    apply safely_ret; [done|]. split; [done|]. intros h size. intros Ho. apply Hold; [done..|by eexists|done].
  - change (yes (rint 0)) with false. cbv iota. apply safely_call; [done|by apply pool_tick|]. intros r2 w2 Hr2.
    eapply publish_exec in Hr2 as (K1 & K2 & K3 & K4); [|by apply pool_tick|done..]. split; [done|]. split; [done|]. intros K5 K6.
    destruct (ok r2).
    + apply safely_ret; [done|]. split; [done|]. intros h size [= <- <-]. split_and!; [done..|]. by apply K3.
    + apply safely_call; [done|done|]. intros r3 w3 Hr3. eapply remove_tmp_exec in Hr3 as [L1 L2]; [|done|done|by apply K4].
      split; [done|]. split; [done|]. intros L3 _. by apply safely_ret.
Qed.
Lemma hash_into_pool_safely fuel w :
  pool_ok w → src_ok w → (str_len (n_data n0) < fuel)%nat →
  safely w (hash_into_pool fuel src pool) (λ o w', o ≠ Panic ∧
    ∀ h size, o = Ok (h, size) → h = digest (n_data n0) ∧ size = u64 (Z.of_nat (str_len (n_data n0))) ∧ stored w' h).
Proof.
  intros Hp Hs Hf. unfold hash_into_pool, try_io, uniq. unfold jbind at 1. cbn [pbind sys].
  apply safely_look; [apply src_no_wait; [apply Hp|done|done]|done|by cbn [fs_exec]; intros r w'; case_match; intros [= <- <-]|]. intros r _.
  destruct (ok r); cbn [pbind]; [|by apply safely_ret; [apply pool_tick|]].
  apply safely_look; [done|by apply pool_tick|by intros ? ? [= <- <-]|]. intros rc _.
  apply safely_look; [done|by repeat apply pool_tick|by intros ? ? [= <- <-]|]. intros rp _.
  set (t := (".tmp-" +:+ _)%string). set (tmp := path_join pool t).
  assert (names tmp (lp ++ [t])) as Hn by (apply names_join; [done|apply tmp_plain]).
  unfold jbind at 1. cbn [pbind]. apply safely_call; [eapply tmp_no_wait; [by repeat apply pool_tick|done|done]|by repeat apply pool_tick|]. intros r2 w2 Hr2.
  eapply tmp_create in Hr2 as (H1 & H2 & H3); [|by repeat apply pool_tick|done|unfold t; simpl; lia]. split; [done|]. split; [done|].
  intros H4 H5. destruct (ok r2); cbn [pbind]; [|by apply safely_ret]. unfold jbind.
  eapply safely_bind; [done|apply (stream_ok fuel tmp t "" (n_data n0)); [done|exact (src_grows (tick (tick (tick w))) _ Hs H5)|done|by apply H3|done|done]|].
  intros o w3 K1 _ [K2 K3]. destruct o as [fed|e|]; [|by apply safely_ret|done].
  destruct (K3 fed eq_refl) as [-> Ht]. by apply (publish_safely w3 tmp t).
Qed.
End pool.

(** C10: The pool stays honest.  Whatever call fails and however the others
    interleave with the clock, hashing a file into a pool in which every blob is
    named by the digest of its contents returns, does not panic, and leaves such
    a pool behind: no blob is removed, renamed or changed, nothing outside the
    pool is touched, and half-written temporary files never get a blob's name.
    On success the result is the digest and the length of the file's contents,
    and the pool has a blob of that name. *)
Theorem hash_into_pool_keeps_pool `{Oracle} `{Blake3} (w : fs) (pool src : string) (lp ls : loc) (i : N) (n : node) (fuel : nat) :
  names pool lp → names src ls → ¬ under lp ls → pool_ok lp w →
  tree w !! ls = Some (EFile i) → nodes w !! i = Some n → (str_len (n_data n) < fuel)%nat →
  ∃ o w', fsrun w (hash_into_pool fuel src pool) = (Some o, w') ∧ o ≠ Panic ∧ pool_ok lp w' ∧ grows lp w w' ∧
    ∀ h size, o = Ok (h, size) → h = digest (n_data n) ∧ size = u64 (Z.of_nat (str_len (n_data n))) ∧ stored lp w' h.
Proof.
  intros Hpool Hsrc Hap Hp Ht Hn Hf.
  destruct (hash_into_pool_safely pool lp Hpool src ls i n Hsrc Hap fuel w) as (o & w' & H1 & H2 & H3 & H4 & H5); [done|by split|done|].
  by exists o, w'.
Qed.
(** An empty directory is such a pool. *)
Lemma pool_ok_empty `{Blake3} w lp : wf w → emptied w lp → pool_ok lp w.
Proof.
  intros Hw [Hd He]. split; [done|done|..].
  - intros x y e. by rewrite He.
  - intros x e. by rewrite He.
  - intros x i k. by rewrite He.
Qed.
Lemma emptied_check w lp :
  bool_decide (tree w !! lp = Some EDir) && bool_decide (map_Forall (λ k _, ¬ under lp k ∨ k = lp) (tree w)) = true → emptied w lp.
Proof.
  intros [H1%bool_decide_eq_true H2%bool_decide_eq_true]%andb_true_iff. split; [done|]. intros rel Hr.
  destruct (tree w !! (lp ++ rel)) eqn:E; [|done]. destruct (H2 _ _ E) as [Hu|Eq].
  - destruct Hu. by apply prefix_app_r.
  - rewrite <- (app_nil_r lp) in Eq at 2. by apply (inj (lp ++.)) in Eq.
Qed.
Module HashExample.
Local Open Scope string_scope.
Definition host : fs := build
  [([], EDir); (["pool"], EDir); (["out"], EDir); (["out"; "f"], EFile 0)] [(0%N, MkNode "data" 420 1)].
(** Not a good hash, but one of the right length. *)
Definition pad (d : string) : list Ascii.ascii := take 32 (String.list_ascii_of_string d ++ replicate 32 Ascii.zero).
Lemma pad_len d : length (pad d) = 32%nat.
Proof. unfold pad. rewrite length_take, length_app, length_replicate. lia. Qed.
End HashExample.
Lemma hash_into_pool_keeps_pool_witness :
  let _ := Build_Blake3 HashExample.pad HashExample.pad_len in
  ∃ o w', fsrun HashExample.host (hash_into_pool 5 "/out/f" "/pool") = (Some o, w') ∧ o ≠ Panic ∧
    pool_ok ["pool"%string] w' ∧ grows ["pool"%string] HashExample.host w' ∧
    ∀ h size, o = Ok (h, size) → h = digest "data" ∧ size = 4 ∧ stored ["pool"%string] w' h.
Proof.
  intros HB. apply (hash_into_pool_keeps_pool HashExample.host "/pool" "/out/f" ["pool"%string] ["out"; "f"]%string 0 (MkNode "data" 420 1) 5).
  - apply (bool_decide_unpack _). vm_compute. exact I.
  - apply (bool_decide_unpack _). vm_compute. exact I.
  - apply (bool_decide_unpack _). vm_compute. exact I.
  - apply pool_ok_empty; [apply wf_check_ok|apply emptied_check]; vm_compute; reflexivity.
  - reflexivity.
  - reflexivity.
  - simpl. lia.
Defined.
