(* ===== verification/PoolGc.v ===== *)
(** * The pool's collector

    What [gc_objects_pool] of [agentjail/src/snapshot.rs] removes, over the programs
    of [SnapshotStore], the file system of [Fs] and the pool invariant of [Pool]. *)

From S2P Require Import Prelude Text Sys Order Config Netlink Mount Isolation Child Cgroup Run SnapshotStore Fs Pool.
Local Open Scope Z_scope.

Section gc.
Context `{O : Oracle} `{Blake3} (pool : string) (lp : loc) (Hpool : names pool lp) (referenced : gset string).

(** What may happen to the tree: unreferenced blobs and shards go. *)
Definition dropped (w : fs) (k : loc) : Prop :=
  (∃ x y, k = lp ++ [x; y] ∧ y ∉ referenced) ∨ (∃ x, k = lp ++ [x] ∧ tree w !! k = Some EDir).
Record shrinks (w w' : fs) : Prop := {
  sh_wf : wf w'; sh_nodes : nodes w' = nodes w; sh_ino : next_ino w' = next_ino w;
  sh_tree k : tree w' !! k = tree w !! k ∨ (tree w' !! k = None ∧ dropped w k)
}.
Lemma shrinks_refl w : wf w → shrinks w w.
Proof. intros Hw. split; auto. Qed.
Lemma shrinks_tick w w' : shrinks w w' → shrinks w (tick w').
Proof. intros [H1 H2 H3 H4]. split; [by apply wf_tick|done..]. Qed.
Lemma shrinks_untick w w' : shrinks (tick w) w' → shrinks w w'.
Proof. by intros []. Qed.
Lemma shrinks_trans w1 w2 w3 : shrinks w1 w2 → shrinks w2 w3 → shrinks w1 w3.
Proof.
  intros [W1 N1 I1 T1] [W2 N2 I2 T2]. split; [done|congruence..|]. intros k. destruct (T2 k) as [->|[-> Hd]]; [apply T1|].
  right. split; [done|]. destruct Hd as [Hd|(x & Hk & Hx)]; [by left|]. right. exists x. split; [done|].
  destruct (T1 k) as [E|[E _]]; congruence.
Qed.
Lemma shrinks_some w w' k e : shrinks w w' → tree w' !! k = Some e → tree w !! k = Some e.
Proof. intros Hs He. destruct (sh_tree _ _ Hs k) as [<-|[E _]]; [done|congruence]. Qed.
Lemma shrinks_pool w w' : pool_ok lp w → shrinks w w' → pool_ok lp w'.
Proof.
  intros [W D B T X] Hs. split; [apply Hs|..].
  - destruct (sh_tree _ _ Hs lp) as [->|[_ [(x & y & E & _)|(x & E & _)]]]; [done|..];
      apply (f_equal length) in E; rewrite length_app in E; simpl in E; lia.
  - intros x y e He%(shrinks_some _ _ _ _ Hs). rewrite (sh_nodes _ _ Hs). by eapply B.
  - intros x e He%(shrinks_some _ _ _ _ Hs). by eapply T.
  - intros x i k Hx%(shrinks_some _ _ _ _ Hs) Hk%(shrinks_some _ _ _ _ Hs). by eapply X.
Qed.

(** Nothing is left at [k], or a referenced blob. *)
Definition settled (w : fs) (x y : string) : Prop := tree w !! (lp ++ [x; y]) = None ∨ y ∈ referenced.
Lemma settled_shrinks w w' x y : settled w x y → shrinks w w' → settled w' x y.
Proof. intros [Hn|Hr] Hs; [left|by right]. destruct (sh_tree _ _ Hs (lp ++ [x; y])) as [->|[? _]]; done. Qed.
Definition good {A} (o : outcome JailError A) : Prop := o ≠ Panic ∧ (reliable O → ∃ a, o = Ok a).

Lemma shrinks_step w1 w2 w3 : shrinks w1 w2 → shrinks (tick w2) w3 → shrinks w1 w3.
Proof. intros H1 H2. eapply shrinks_trans; [exact H1|]. by apply shrinks_untick. Qed.

(** Digests are read back as they are, and are no temporary names. *)
Lemma hex_digit_ascii n : 0 <= n < 16 → in_range 0 127 (hex_digit n) = true.
Proof.
  intros Hr. assert (n = 0 ∨ n = 1 ∨ n = 2 ∨ n = 3 ∨ n = 4 ∨ n = 5 ∨ n = 6 ∨ n = 7 ∨ n = 8 ∨ n = 9 ∨ n = 10 ∨ n = 11 ∨ n = 12 ∨ n = 13 ∨ n = 14 ∨ n = 15) as Hc by lia.
  repeat destruct Hc as [->|Hc]; [done..|]. by subst.
Qed.
Lemma digest_lossy d : from_utf8_lossy (digest d) = digest d.
Proof.
  apply lossy_ascii, str_forallb_intro. intros c (n & -> & Hr)%str_elem_hex. by apply hex_digit_ascii.
Qed.
Lemma starts_with_head a p b s : b ≠ a → starts_with (String a p) (String b s) = false.
Proof. intros Hne. cbn [starts_with]. by destruct (Ascii.eqb_spec a b) as [->|]. Qed.
Lemma digest_not_tmp d : starts_with ".tmp-" (digest d) = false.
Proof.
  destruct (digest_cases d) as (b & s & -> & _). assert (0 <= byte_val b / 16 < 16) as Hr.
  { pose proof (byte_val_range b). Z.div_mod_to_equations. lia. }
  apply hex_digit_range in Hr as (_ & Hd & _). by apply starts_with_head.
Qed.

(** ** One blob *)
Lemma names_blob q x y : names q (lp ++ [x]) → plain y → names (path_join q y) (lp ++ [x; y]).
Proof. intros Hq Hy. change [x; y] with ([x] ++ [y]). rewrite app_assoc. by apply names_join. Qed.
(** Removing what is at [lp ++ [x; y]], if it may go. *)
Lemma remove_exec w q x y r w' :
  pool_ok lp w → names q (lp ++ [x; y]) → tree w !! (lp ++ [x]) = Some EDir →
  (is_Some (tree w !! (lp ++ [x; y])) → y ∉ referenced) → fs_exec (RemoveFile q) w = (r, w') → shrinks w w' ∧ tree w' !! (lp ++ [x]) = Some EDir ∧ (reliable O → settled w' x y).
Proof.
  intros Hp Hq Hx Hy. pose proof (po_wf _ _ Hp) as Hw. destruct (tree w !! (lp ++ [x; y])) as [e|] eqn:He.
  - destruct (po_blob _ _ Hp _ _ _ He) as (i & n & -> & _). intros Hr. destruct (ok r) eqn:Er.
    + eapply exec_remove_file in Hr as ->; [|done..]. rewrite <- delete_leaf by (done || by rewrite He).
      split; [|split; [|intros _; left; apply lookup_delete_eq]]; [split; [|done..|]|].
      * rewrite delete_leaf by (done || by rewrite He). apply wf_remove; [done|by destruct lp].
      * intros k. simpl. destruct (decide (k = lp ++ [x; y])) as [->|]; [|left; by apply lookup_delete_ne].
        right. split; [apply lookup_delete_eq|]. left. exists x, y. split; [done|]. by apply Hy; eexists.
      * simpl. rewrite lookup_delete_ne; [done|]. intros E. by apply (inj (lp ++.)) in E.
    + revert Hr. cbn [fs_exec]. destruct (ok (answer _ _)) eqn:Ea; cbn [negb].
      * rewrite (resolve_names w false q (lp ++ [x; y])); [|done|done|by eapply placed_entry|done]. simpl. rewrite He. simpl. by intros [= <- <-].
      * intros [= <- <-]. split; [by apply shrinks_refl|]. split; [done|]. intros [Hok _]. by rewrite Hok in Ea.
  - cbn [fs_exec]. destruct (negb _); [intros [= <- <-]; split_and!; [by apply shrinks_refl|done|by left]|].
    rewrite (resolve_names w false q (lp ++ [x; y])); [|done|done| |done].
    + simpl. rewrite He. simpl. intros [= <- <-]. split_and!; [by apply shrinks_refl|done|by left].
    + change [x; y] with ([x] ++ [y]). rewrite app_assoc. by apply placed_join.
Qed.
Lemma lmetadata_looks w p r w' : fs_exec (LMetadata p) w = (r, w') → w' = w.
Proof. cbn [fs_exec]. repeat case_match; by intros [= <- <-]. Qed.
Lemma gc_blob_does w q x r counts entry :
  pool_ok lp w → names q (lp ++ [x]) → tree w !! (lp ++ [x]) = Some EDir → (∀ y, entry = Some y → plain y) →
  does w (gc_blob referenced q r counts entry) (λ o w', shrinks w w' ∧ tree w' !! (lp ++ [x]) = Some EDir ∧ o ≠ Panic ∧
    (reliable O → ∀ y, entry = Some y → (∃ c, o = Ok c) ∧ settled w' x y)).
Proof.
  intros Hp Hq Hx Hpl. pose proof (po_wf _ _ Hp) as Hw. unfold gc_blob.
  destruct entry as [y|]; [|by apply does_ret; split_and!; [apply shrinks_refl|..]].
  assert ((is_Some (tree w !! (lp ++ [x; y])) → y ∉ referenced) → does w (remove_blob (path_join q y) counts) (λ o w', shrinks w w' ∧ tree w' !! (lp ++ [x]) = Some EDir ∧ o ≠ Panic ∧
    (reliable O → ∀ y', Some y = Some y' → (∃ c, o = Ok c) ∧ settled w' x y'))) as Hrm.
  { intros Hy. unfold remove_blob. cbn [pbind sys]. apply does_call; [done|]. intros r1 w1 ->%lmetadata_looks. apply does_call; [done|]. intros r2 w2 Hr2.
    apply does_ret. eapply (remove_exec (tick w) _ x y) in Hr2 as (H1 & H3 & H2); [|by apply pool_tick|apply names_blob; [done|by apply Hpl]|done..].
    split; [by apply shrinks_tick, shrinks_untick|]. split; [done|]. split; [done|]. intros Hrel y' [= <-]. split; [by eexists|]. by apply H2. }
  destruct (tree w !! (lp ++ [x; y])) as [e|] eqn:He.
  - destruct (po_blob _ _ Hp _ _ _ He) as (i & n & _ & _ & Hy). rewrite Hy, digest_lossy, digest_not_tmp, <- Hy.
    destruct (decide (y ∈ referenced)) as [Hin|Hin]; [|by apply Hrm].
    apply does_ret. split; [by apply shrinks_refl|]. split; [done|]. split; [done|]. intros _ y' [= <-]. split; [by eexists|by right].
  - assert (does w (pok (E:=JailError) counts) (λ o w', shrinks w w' ∧ tree w' !! (lp ++ [x]) = Some EDir ∧ o ≠ Panic ∧
      (reliable O → ∀ y', Some y = Some y' → (∃ c, o = Ok c) ∧ settled w' x y'))) as Hsk.
    { apply does_ret. split; [by apply shrinks_refl|]. split; [done|]. split; [done|]. intros _ y' [= <-]. split; [by eexists|by left]. }
    assert (¬ is_Some (None (A:=entry))) as Hno by (by intros [? ?]).
    destruct (starts_with _ _); [by apply Hrm|]. destruct (decide _); [done|by apply Hrm].
Qed.
Lemma gc_blobs_does q x r l : ∀ counts w,
  pool_ok lp w → names q (lp ++ [x]) → tree w !! (lp ++ [x]) = Some EDir → (∀ y, Some y ∈ l → plain y) →
  does w (fold_each (gc_blob referenced q r) counts l) (λ o w', shrinks w w' ∧ tree w' !! (lp ++ [x]) = Some EDir ∧ o ≠ Panic ∧
    (reliable O → None ∉ l → (∃ c, o = Ok c) ∧ ∀ y, Some y ∈ l → settled w' x y)).
Proof.
  induction l as [|entry l IH]; intros counts w Hp Hq Hx Hpl; cbn [fold_each].
  { apply does_ret. split_and!; [by apply shrinks_refl, Hp|done|done|]. intros _ _. split; [by eexists|]. by intros y ?%elem_of_nil. }
  unfold jbind. eapply does_bind; [apply (gc_blob_does w q x); [done..|]|].
  { intros y ->. apply Hpl. by left. }
  intros o w1 (H1 & H2 & H3 & H4). destruct o as [c|e|]; [|apply does_ret|done].
  - destruct (IH c w1) as (o & w2 & K1 & K2 & K3 & K4 & K5); [by eapply shrinks_pool|done|done|intros y Hy; apply Hpl; by right|].
    exists o, w2. split; [done|]. split_and!; [by eapply shrinks_trans|done|done|]. intros Hrel Hn. apply not_elem_of_cons in Hn as [Hn1 Hn2].
    destruct (K5 Hrel Hn2) as [K6 K7]. split; [done|]. intros y [E|Hy]%elem_of_cons; [|by apply K7].
    eapply settled_shrinks; [|exact K2]. by apply (H4 Hrel).
  - split_and!; [done..|]. intros Hrel Hn. destruct entry as [y|]; [|destruct Hn; by left].
    destruct (H4 Hrel y eq_refl) as [[c [=]] _].
Qed.

(** ** One shard *)
Lemma delete_empty w l : wf w → children (tree w) l = [] → delete l (tree w) = remove_below l (tree w).
Proof.
  intros Hw Hc. apply map_eq. intros k. rewrite remove_below_lookup. destruct (decide (under l k)) as [[b ->]|Hu].
  - destruct b as [|n b]; [by rewrite app_nil_r, lookup_delete_eq|].
    rewrite lookup_delete_ne; [|intros E; rewrite <- (app_nil_r l) in E at 1; by apply (inj (l ++.)) in E].
    destruct (tree w !! (l ++ n :: b)) as [e|] eqn:He; [|done]. exfalso.
    assert (n ∈ children (tree w) l) as Hn; [|rewrite Hc in Hn; by apply elem_of_nil in Hn].
    apply elem_of_children. change (n :: b) with ([n] ++ b) in He. rewrite app_assoc in He. destruct b as [|m b].
    + rewrite app_nil_r in He. by eexists.
    + eexists. by eapply (wf_prefix w (l ++ [n]) (m :: b)).
  - rewrite lookup_delete_ne; [done|]. intros ->. by apply Hu.
Qed.
Lemma remove_shard_exec w q x r w' :
  pool_ok lp w → names q (lp ++ [x]) → tree w !! (lp ++ [x]) = Some EDir → fs_exec (RemoveDir q) w = (r, w') → shrinks w w'.
Proof.
  intros Hp Hq Hx. pose proof (po_wf _ _ Hp) as Hw. cbn [fs_exec]. destruct (negb _); [intros [= <- <-]; by apply shrinks_refl|].
  rewrite (resolve_names w false q (lp ++ [x])); [|done|done|by eapply placed_entry|done]. simpl. rewrite Hx. simpl.
  destruct (decide _) as [Hc|]; intros [= <- <-]; [|by apply shrinks_refl]. split; [|done..|].
  - rewrite delete_empty by done. apply wf_remove; [done|by destruct lp].
  - intros k. simpl. destruct (decide (k = lp ++ [x])) as [->|]; [|left; by apply lookup_delete_ne].
    right. split; [apply lookup_delete_eq|]. right. by exists x.
Qed.
Lemma isdir_exec w q x :
  pool_ok lp w → names q (lp ++ [x]) → fs_exec (IsDir q) w = (rint (if decide (tree w !! (lp ++ [x]) = Some EDir) then 1 else 0), w).
Proof.
  intros Hp Hq. cbn [fs_exec]. rewrite (at_path_names w q (lp ++ [x])); [done|apply Hp|done|apply placed_join, Hp|].
  destruct (tree w !! (lp ++ [x])) as [e|] eqn:He; [|done]. by destruct (po_top _ _ Hp _ _ He) as [->|[[i ->] _]].
Qed.
(** Reading a directory of the pool. *)
Lemma readdir_does {A} w q l (k : ret → prog (outcome JailError A)) Q :
  wf w → names q l → tree w !! l = Some EDir →
  (∀ e, ¬ reliable O → Q (Err e) (tick w)) →
  (∀ r, (∀ y, Some y ∈ rlist r → y ∈ children (tree w) l) →
     (reliable O → (None ∉ rlist r) ∧ ∀ y, y ∈ children (tree w) l → Some y ∈ rlist r) → does (tick w) (k r) Q) →
  does w (jbind (try_io SnapshotErr (ReadDir q)) k) Q.
Proof.
  intros Hw Hq Hd Herr Hk. unfold try_io, jbind. cbn [pbind]. apply does_call; [done|]. intros r w' Hr.
  assert (w' = w) as -> by (revert Hr; cbn [fs_exec]; repeat case_match; by intros [= <- <-]).
  destruct (ok r) eqn:Er; cbn [pbind].
  - apply (exec_readdir w _ l) in Hr as [_ Hl]; [|done..]. apply Hk; rewrite Hl;
      destruct (listing_law (steps w) (children (tree w) l)) as (l' & Hperm & Hcases).
    + intros y. destruct Hcases as [->|[n ->]].
      * intros (? & [= <-] & Hy)%list_elem_of_fmap. by rewrite <- Hperm.
      * intros [(? & [= <-] & (i & Hi & _)%elem_of_take)%list_elem_of_fmap|[=]%list_elem_of_singleton]%elem_of_app.
        rewrite <- Hperm. by eapply list_elem_of_lookup_2.
    + intros [_ Hrel]. split; [apply Hrel|]. intros y Hy. destruct (listing_complete _ _ (Hrel (steps w) (children (tree w) l))) as (l2 & Hp2 & ->).
      apply list_elem_of_fmap. exists y. split; [done|]. by rewrite Hp2.
  - apply does_ret, Herr. intros [Hrel _]. revert Hr. cbn [fs_exec]. rewrite Hrel. cbn [negb].
    rewrite (resolve_names w true _ l); [|done|done|by eapply placed_entry|by rewrite Hd]. simpl. rewrite Hd. simpl. intros [= <-]. done.
Qed.
Lemma gc_shard_does w r counts entry :
  pool_ok lp w → (∀ x, entry = Some x → plain x) →
  does w (gc_shard referenced pool r counts entry) (λ o w', shrinks w w' ∧ o ≠ Panic ∧
    (reliable O → ∀ x, entry = Some x → (∃ c, o = Ok c) ∧ ∀ y, settled w' x y)).
Proof.
  intros Hp Hpl. pose proof (po_wf _ _ Hp) as Hw. unfold gc_shard.
  destruct entry as [x|]; [|by apply does_ret; split_and!; [apply shrinks_refl|..]]. cbn [pbind sys].
  assert (names (path_join pool x) (lp ++ [x])) as Hq by (apply names_join; [done|by apply Hpl]).
  assert (∀ y, tree w !! (lp ++ [x; y]) = tree w !! ((lp ++ [x]) ++ [y])) as Happ by (intros y; by rewrite <- app_assoc).
  apply does_call; [done|]. rewrite (isdir_exec w _ x) by done. intros r1 w1 [= <- <-]. destruct (decide _) as [Hx|Hx].
  2: { apply does_ret. split_and!; [by apply shrinks_tick, shrinks_refl|done|]. intros _ x' [= <-]. split; [by eexists|]. intros y. left.
       simpl. rewrite Happ. by apply wf_below. }
  change (yes (rint 1)) with true. cbn [negb].
  apply (readdir_does (tick w) _ (lp ++ [x])); [by apply wf_tick|done|done|..].
  { intros e Hrel. split_and!; [by do 2 apply shrinks_tick; apply shrinks_refl|done|done]. }
  intros r2 Hin Hall. unfold jbind. eapply does_bind.
  { apply (gc_blobs_does _ x); [by do 2 apply pool_tick|done|done|].
    intros y [e He]%Hin%elem_of_children. by eapply (wf_plain w Hw (lp ++ [x])). }
  intros o w2 (H1%shrinks_untick%shrinks_untick & H2 & H3 & H4). destruct o as [c|e|]; [|apply does_ret|done].
  - cbn [pbind sys]. apply does_call; [done|]. intros r3 w3 Hr3. apply does_ret.
    eapply remove_shard_exec in Hr3; [|by eapply shrinks_pool|done|done].
    split_and!; [eapply shrinks_tick, shrinks_trans; [exact H1|done]|done|]. intros Hrel x' [= <-]. split; [by eexists|]. intros y.
    eapply settled_shrinks; [|by apply shrinks_tick]. destruct (Hall Hrel) as [Hn Hc]. destruct (H4 Hrel Hn) as [_ Hset].
    destruct (tree w !! (lp ++ [x; y])) as [e|] eqn:He.
    + apply Hset, Hc, elem_of_children. simpl. rewrite <- Happ. by eexists.
    + left. destruct (sh_tree _ _ H1 (lp ++ [x; y])) as [->|[-> _]]; done.
  - split_and!; [done..|]. intros Hrel x' [= <-]. destruct (Hall Hrel) as [Hn _]. by destruct (H4 Hrel Hn) as [[c [=]] _].
Qed.
Lemma gc_shards_does r l : ∀ counts w,
  pool_ok lp w → (∀ x, Some x ∈ l → plain x) →
  does w (fold_each (gc_shard referenced pool r) counts l) (λ o w', shrinks w w' ∧ o ≠ Panic ∧
    (reliable O → None ∉ l → (∃ c, o = Ok c) ∧ ∀ x, Some x ∈ l → ∀ y, settled w' x y)).
Proof.
  induction l as [|entry l IH]; intros counts w Hp Hpl; cbn [fold_each].
  { apply does_ret. split_and!; [by apply shrinks_refl, Hp|done|]. intros _ _. split; [by eexists|]. by intros y ?%elem_of_nil. }
  unfold jbind. eapply does_bind; [apply (gc_shard_does w); [done|]|].
  { intros x ->. apply Hpl. by left. }
  intros o w1 (H1 & H3 & H4). destruct o as [c|e|]; [|apply does_ret|done].
  - destruct (IH c w1) as (o & w2 & K1 & K2 & K4 & K5); [by eapply shrinks_pool|intros x Hx; apply Hpl; by right|].
    exists o, w2. split; [done|]. split_and!; [by eapply shrinks_trans|done|]. intros Hrel Hn. apply not_elem_of_cons in Hn as [Hn1 Hn2].
    destruct (K5 Hrel Hn2) as [K6 K7]. split; [done|]. intros x [E|Hx]%elem_of_cons y; [|by apply K7].
    eapply settled_shrinks; [|exact K2]. by apply (H4 Hrel).
  - split_and!; [done..|]. intros Hrel Hn. destruct entry as [x|]; [|destruct Hn; by left].
    destruct (H4 Hrel x eq_refl) as [[c [=]] _].
Qed.
End gc.

(** C11: Collecting the pool drops exactly what nothing refers to.  Whatever call
    fails, the collector ends without a panic, what remains is a pool in which
    every blob is named by the digest of its contents, no file's contents change,
    and the only names that disappear are blobs that are not in [referenced] and
    shard directories: in particular every referenced blob, everything outside
    the pool and every file directly in the pool (which is where an interrupted
    [hash_into_pool] leaves its temporary file) stay.  If no call fails it
    succeeds and only referenced blobs remain. *)
Theorem gc_objects_pool_exact `{O : Oracle} `{Blake3} (w : fs) (pool : string) (lp : loc) (referenced : gset string) :
  names pool lp → pool_ok lp w →
  ∃ o w', fsrun w (gc_objects_pool pool referenced) = (Some o, w') ∧ o ≠ Panic ∧ pool_ok lp w' ∧ nodes w' = nodes w ∧
    (∀ k, tree w' !! k ≠ tree w !! k → tree w' !! k = None ∧
       ((∃ x y, k = lp ++ [x; y] ∧ y ∉ referenced) ∨ ∃ x, k = lp ++ [x] ∧ tree w !! k = Some EDir)) ∧
    (reliable O → (∃ c, o = Ok c) ∧ ∀ x y, settled lp referenced w' x y).
Proof.
  intros Hpool Hp. pose proof (po_wf _ _ Hp) as Hw.
  assert (does w (gc_objects_pool pool referenced) (λ o w', shrinks lp referenced w w' ∧ o ≠ Panic ∧
    (reliable O → (∃ c, o = Ok c) ∧ ∀ x y, settled lp referenced w' x y))) as (o & w' & H1 & H2 & H3 & H4).
  { unfold gc_objects_pool. cbn [pbind sys]. apply does_call; [done|].
    rewrite (exec_exists w pool lp); [|done|done|eapply placed_entry; [done|apply Hp]|by rewrite (po_dir _ _ Hp)].
    rewrite (po_dir _ _ Hp). intros r w1 [= <- <-]. change (yes (rint 1)) with true. cbn [negb].
    apply (readdir_does (tick w) _ lp); [by apply wf_tick|done|apply Hp|..].
    { intros e Hrel. split_and!; [by do 2 apply shrinks_tick; apply shrinks_refl|done|done]. }
    intros r2 Hin Hall.
    edestruct (gc_shards_does pool lp Hpool referenced r2 (rlist r2)) as (o & w2 & K1 & K2 & K3 & K4); [by do 2 apply pool_tick| |].
    { intros x [e He]%Hin%elem_of_children. by eapply (wf_plain w Hw lp). }
    exists o, w2. split; [done|]. apply shrinks_untick, shrinks_untick in K2. split_and!; [done..|]. intros Hrel. destruct (Hall Hrel) as [Hn Hc].
    destruct (K4 Hrel Hn) as [K5 K6]. split; [done|]. intros x y. destruct (tree w2 !! (lp ++ [x; y])) as [e|] eqn:He; [|by left].
    apply K6, Hc, elem_of_children. apply (shrinks_some _ _ _ _ _ _ K2) in He. simpl. eexists.
    apply (wf_prefix w (lp ++ [x]) [y] e); [done|by rewrite <- app_assoc|done]. }
  exists o, w'. split_and!; [done|done|by eapply shrinks_pool|apply H2| |].
  - intros k Hk. by destruct (sh_tree _ _ _ _ H2 k) as [?|?].
  - exact H4.
Qed.

(** A pool with one blob, to which nothing refers. *)
Module GcExample.
#[export] Instance pad_hash : Blake3 := Build_Blake3 HashExample.pad HashExample.pad_len.
Definition host : fs := (fsrun HashExample.host (hash_into_pool 5 "/out/f" "/pool")).2.
End GcExample.
Import GcExample.
Lemma calm_reliable : reliable calm.
Proof. split; [done|]. intros n l. by intros (? & [=] & _)%list_elem_of_fmap. Qed.
Lemma gc_host_ok : pool_ok ["pool"%string] GcExample.host.
Proof.
  destruct (hash_into_pool_safely "/pool" ["pool"%string] ltac:(by apply (bool_decide_unpack _); vm_compute) "/out/f" ["out"; "f"]%string 0 (MkNode "data" 420 1)
    ltac:(by apply (bool_decide_unpack _); vm_compute) ltac:(by apply (bool_decide_unpack _); vm_compute) 5 HashExample.host) as (o & w' & H1 & H2 & _).
  - apply pool_ok_empty; [apply wf_check_ok|apply emptied_check]; vm_compute; reflexivity.
  - by split.
  - simpl. lia.
  - unfold GcExample.host. by rewrite H1.
Qed.
Lemma gc_objects_pool_exact_witness :
  (∃ e, tree GcExample.host !! ["pool"; "64"; digest "data"]%string = Some e) ∧
  ∃ o w', fsrun GcExample.host (gc_objects_pool "/pool" ∅) = (Some o, w') ∧ o ≠ Panic ∧ pool_ok ["pool"%string] w' ∧ nodes w' = nodes GcExample.host ∧
    (∀ k, tree w' !! k ≠ tree GcExample.host !! k → tree w' !! k = None ∧
       ((∃ x y, k = ["pool"%string] ++ [x; y] ∧ y ∉ (∅ : gset string)) ∨ ∃ x, k = ["pool"%string] ++ [x] ∧ tree GcExample.host !! k = Some EDir)) ∧
    (reliable calm → (∃ c, o = Ok c) ∧ ∀ x y, settled ["pool"%string] ∅ w' x y).
Proof.
  split; [eexists; vm_compute; reflexivity|].
  apply (gc_objects_pool_exact GcExample.host "/pool" ["pool"%string] ∅).
  - apply (bool_decide_unpack _). vm_compute. exact I.
  - apply gc_host_ok.
Defined.
