(* ===== verification/Flavors.v ===== *)
(** * Flavors

    Models [agentjail-ctl/src/flavors.rs]: the registry that lists the runtime
    directories below a root and resolves the names a workspace asks for. *)

From S2P Require Import Prelude Text Tenant Sys Isolation Fs.
From S2P Require SnapshotStore.
Local Open Scope Z_scope.

(** ** The code *)
Record Flavor := MkFlavor { fl_name : string; fl_path : string }.

Definition is_safe_flavor_name (n : string) : bool :=
  if str_is_empty n || (32 <? str_len n)%nat then false else
  match n with
  | EmptyString => false
  | String first chars => if negb (tenant_first first) then false else str_forallb tenant_char chars
  end.

(** One directory entry: the flavor, or [continue]. *)
Definition flavor_entry (root : string) (entry : option string) : prog (option Flavor) :=
  match entry with
  | None => Ret None
  | Some raw =>
      let* kind := sys (FileType (path_join root raw)) in
      if negb (ok kind) then Ret None
      else if negb (SnapshotStore.is_dir_type kind) && negb (SnapshotStore.is_symlink_type kind) then Ret None
      else if negb (utf8_valid raw) then Ret None
      else if negb (is_safe_flavor_name raw) then Ret None
      else Ret (Some (MkFlavor raw (path_join root raw)))
  end.
Fixpoint flavor_loop (root : string) (entries : list (option string)) (out : list Flavor) : prog (list Flavor) :=
  match entries with
  | [] => Ret out
  | e :: rest =>
      let* f := flavor_entry root e in
      flavor_loop root rest (match f with Some f => out ++ [f] | None => out end)
  end.
Definition flavor_le (a b : Flavor) : bool := path_le (fl_name a) (fl_name b).
Definition flavors_list (root : string) : prog (list Flavor) :=
  let* r := sys (ReadDir root) in
  if negb (ok r) then Ret [] else
  let* out := flavor_loop root (rlist r) [] in
  Ret (sort_by flavor_le out).

(** [Err] carries the first unknown name. *)
Fixpoint resolve_loop (all : list Flavor) (names : list string) (out : list Flavor) : outcome string (list Flavor) :=
  match names with
  | [] => Ok out
  | n :: rest =>
      match List.find (λ f, String.eqb (fl_name f) n) all with
      | Some f => resolve_loop all rest (out ++ [f])
      | None => Err n
      end
  end.
Definition flavors_resolve (root : string) (names : list string) : prog (outcome string (list Flavor)) :=
  let* all := flavors_list root in
  Ret (resolve_loop all names []).

(** ** Safe names are names *)
Lemma tenant_char_plain a : tenant_char a = true → a ≠ "/"%char ∧ a ≠ "."%char ∧ in_range 0 127 a = true.
Proof.
  intros Ha. destruct a as [[] [] [] [] [] [] [] []]; revert Ha; vm_compute; try discriminate; intros _; done.
Qed.
Lemma tenant_first_char a : tenant_first a = true → tenant_char a = true.
Proof. unfold tenant_first, tenant_char. by intros ->%orb_true_iff || intros ->. Qed.
Lemma safe_name_chars n : is_safe_flavor_name n = true → n ≠ ""%string ∧ str_forallb tenant_char n = true.
Proof.
  unfold is_safe_flavor_name. destruct (str_is_empty n || _); [done|]. destruct n as [|a n]; [done|].
  destruct (tenant_first a) eqn:Ha; [|done]. intros Hn. split; [done|]. cbn [str_forallb]. by rewrite (tenant_first_char _ Ha).
Qed.
Lemma utf8_valid_ascii s : is_ascii s = true → utf8_valid s = true.
Proof.
  unfold utf8_valid, is_ascii. induction s as [|a s IH]; [done|]. cbn [str_forallb].
  intros [Ha Hs]%andb_true_iff. unfold in_range in Ha. apply andb_true_iff in Ha as [_ Ha%Z.leb_le].
  change (utf8_valid_fuel (S (str_len s)) (String a s) = true). cbn [utf8_valid_fuel].
  unfold utf8_step. destruct (Z.ltb_spec (byte_val a) 128); [|lia]. by apply IH.
Qed.
Lemma str_forallb_imp f g s : (∀ a, f a = true → g a = true) → str_forallb f s = true → str_forallb g s = true.
Proof. intros Hfg. induction s as [|a s IH]; [done|]. simpl. intros [? ?]%andb_true_iff. rewrite Hfg by done. by apply IH. Qed.
Lemma safe_name_utf8 n : is_safe_flavor_name n = true → utf8_valid n = true.
Proof. intros [_ Hn]%safe_name_chars. apply utf8_valid_ascii. revert Hn. apply str_forallb_imp. by intros a (_ & _ & ?)%tenant_char_plain. Qed.

(** ** The registry against a file system *)
Section registry.
Context `{O : Oracle} (root : string) (lr : loc) (Hroot : names root lr) (w0 : fs) (Hw0 : wf w0) (Hdir : tree w0 !! lr = Some EDir).

Definition flavor_of (n : string) : Flavor := MkFlavor n (path_join root n).
(** A flavor [n] is installed. *)
Definition installed (n : string) : Prop :=
  is_safe_flavor_name n = true ∧ (tree w0 !! (lr ++ [n]) = Some EDir ∨ ∃ t, tree w0 !! (lr ++ [n]) = Some (ELink t)).
Definition unchanged (w : fs) : Prop := tree w = tree w0 ∧ nodes w = nodes w0 ∧ next_ino w = next_ino w0.
Lemma unchanged_wf w : unchanged w → wf w.
Proof. intros (Ht & Hn & Hi). destruct Hw0 as [H1 H2 H3 H4]. split; rewrite ?Ht, ?Hn, ?Hi; auto. Qed.
Lemma filetype_looks w p r w' : fs_exec (FileType p) w = (r, w') → w' = w.
Proof. cbn [fs_exec]. repeat case_match; by intros [= <- <-]. Qed.
Lemma readdir_looks w p r w' : fs_exec (ReadDir p) w = (r, w') → w' = w.
Proof. cbn [fs_exec]. repeat case_match; by intros [= <- <-]. Qed.
Lemma kind_linkdir e : SnapshotStore.is_dir_type (rint (file_kind e)) || SnapshotStore.is_symlink_type (rint (file_kind e)) = true ↔
  e = EDir ∨ ∃ t, e = ELink t.
Proof.
  split; [|by intros [->|[t ->]]]. destruct e; [by left|done|intros _; right; by eexists|done|done].
Qed.
Lemma flavor_entry_does w n :
  unchanged w → is_Some (tree w0 !! (lr ++ [n])) →
  does w (flavor_entry root (Some n)) (λ o w', unchanged w' ∧ (∀ f, o = Some f → f = flavor_of n ∧ installed n) ∧
    (reliable O → installed n → o = Some (flavor_of n))).
Proof.
  intros Hu [e He]. pose proof (unchanged_wf w Hu) as Hw. assert (plain n) as Hn by exact (wf_plain w0 Hw0 lr n e He).
  assert (names (path_join root n) (lr ++ [n])) as Hq by (by apply names_join).
  unfold flavor_entry. cbn [pbind sys]. apply does_call; [done|]. intros r w' Hr. pose proof (filetype_looks _ _ _ _ Hr) as ->.
  rewrite <- (proj1 Hu) in He.
  destruct (ok r) eqn:Er.
  2: { apply does_ret. split_and!; [done|done|]. intros [Hrel _] _. revert Hr. cbn [fs_exec]. rewrite Hrel. cbn [negb].
       rewrite (resolve_names w false _ (lr ++ [n])); [|done|done|by eapply placed_entry|done]. simpl. rewrite He. intros [= <-]. by destruct e. }
  eapply exec_filetype in Hr as [_ ->]; [|done..]. cbn [negb]. rewrite <- negb_orb.
  destruct (_ || _) eqn:Ek; cbn [negb].
  2: { apply does_ret. split_and!; [done|done|]. intros _ [_ Hi]. rewrite <- (proj1 Hu), He in Hi.
       rewrite (proj2 (kind_linkdir e)) in Ek; [done|]. destruct Hi as [[= ->]|[t [= ->]]]; eauto. }
  apply kind_linkdir in Ek.
  assert (is_safe_flavor_name n = true → installed n) as Hins.
  { intros Hs. split; [done|]. rewrite <- (proj1 Hu), He. destruct Ek as [->|[t ->]]; [by left|by right; eexists]. }
  destruct (is_safe_flavor_name n) eqn:Es.
  - rewrite (safe_name_utf8 n Es). apply does_ret. split_and!; [done| |done]. intros f [= <-]. split; [done|by apply Hins].
  - assert (does (tick w) (Ret (None (A:=Flavor))) (λ o w', unchanged w' ∧ (∀ f, o = Some f → f = flavor_of n ∧ installed n) ∧
      (reliable O → installed n → o = Some (flavor_of n)))) as Hno.
    { apply does_ret. split_and!; [done|done|]. intros _ [Hs _]. congruence. }
    by destruct (utf8_valid n).
Qed.
Lemma flavor_loop_does entries : ∀ out w,
  unchanged w → (∀ n, Some n ∈ entries → is_Some (tree w0 !! (lr ++ [n]))) →
  does w (flavor_loop root entries out) (λ fs w', unchanged w' ∧ ∃ new, fs = out ++ new ∧
    (∀ f, f ∈ new → ∃ n, f = flavor_of n ∧ installed n) ∧ (reliable O → ∀ n, Some n ∈ entries → installed n → flavor_of n ∈ new)).
Proof.
  induction entries as [|e entries IH]; intros out w Hu Hin; cbn [flavor_loop].
  { apply does_ret. split; [done|]. exists []. rewrite app_nil_r. split_and!; [done|by intros f ?%elem_of_nil|by intros _ n ?%elem_of_nil]. }
  assert (∀ n, Some n ∈ entries → is_Some (tree w0 !! (lr ++ [n]))) as Hin' by (intros n Hn; apply Hin; by right).
  destruct e as [n|].
  - eapply does_bind; [apply flavor_entry_does; [done|apply Hin; by left]|]. intros o w1 (Hu1 & Ho & Hr).
    destruct (IH (match o with Some f => out ++ [f] | None => out end) w1 Hu1 Hin') as (fs & w2 & E & Hu2 & new & -> & H1 & H2).
    exists (match o with Some f => out ++ [f] | None => out end ++ new), w2. split; [done|]. split; [done|]. destruct o as [f|].
    + exists (f :: new). rewrite <- app_assoc. split; [done|]. split.
      * intros g [->|Hg]%elem_of_cons; [|by apply H1]. exists n. by apply Ho.
      * intros Hrel m [[= ->]|Hm]%elem_of_cons Hi; [|right; by apply H2]. specialize (Hr Hrel Hi) as [= ->]. by left.
    + exists new. split_and!; [done|done|]. intros Hrel m [[= ->]|Hm]%elem_of_cons Hi; [by specialize (Hr Hrel Hi)|by apply H2].
  - cbn [flavor_entry pbind]. destruct (IH out w Hu Hin') as (fs & w2 & E & Hu2 & new & -> & H1 & H2).
    exists (out ++ new), w2. split; [done|]. split; [done|]. exists new. split_and!; [done|done|].
    intros Hrel m [[=]|Hm]%elem_of_cons Hi. by apply H2.
Qed.
(** Directory entries exist; if nothing fails, every entry is listed. *)
Lemma listed_exists w r w' :
  unchanged w → fs_exec (ReadDir root) w = (r, w') → ok r = true →
  (∀ n, Some n ∈ rlist r → is_Some (tree w0 !! (lr ++ [n]))) ∧ (reliable O → ∀ n, is_Some (tree w0 !! (lr ++ [n])) → Some n ∈ rlist r).
Proof.
  intros Hu Hr Hok. pose proof (unchanged_wf w Hu) as Hw.
  apply (exec_readdir w root lr) in Hr as [_ ->]; [|done|done|by rewrite (proj1 Hu)|done]. split.
  - intros n Hn. rewrite <- (proj1 Hu). apply elem_of_children. revert Hn.
    destruct (listing_law (steps w) (children (tree w) lr)) as (l' & Hperm & [->|[k ->]]).
    + intros (? & [= <-] & Hy)%list_elem_of_fmap. by rewrite <- Hperm.
    + intros [(? & [= <-] & (i & Hi & _)%elem_of_take)%list_elem_of_fmap|[=]%list_elem_of_singleton]%elem_of_app.
      rewrite <- Hperm. by eapply list_elem_of_lookup_2.
  - intros [_ Hrel] n Hn. rewrite <- (proj1 Hu) in Hn. destruct (listing_complete _ _ (Hrel (steps w) (children (tree w) lr))) as (l2 & Hp2 & ->).
    apply list_elem_of_fmap. exists n. split; [done|]. rewrite Hp2. by apply elem_of_children.
Qed.
Lemma flavors_list_does w :
  unchanged w →
  does w (flavors_list root) (λ fs w', unchanged w' ∧ (∀ f, f ∈ fs → ∃ n, f = flavor_of n ∧ installed n) ∧
    (reliable O → ∀ n, installed n → flavor_of n ∈ fs)).
Proof.
  intros Hu. pose proof (unchanged_wf w Hu) as Hw. unfold flavors_list. cbn [pbind sys]. apply does_call; [done|]. intros r w' Hr.
  pose proof (readdir_looks _ _ _ _ Hr) as ->. destruct (ok r) eqn:Er; cbn [negb].
  - destruct (listed_exists w r w Hu Hr Er) as [Hin Hall].
    eapply does_bind; [apply (flavor_loop_does (rlist r) [] (tick w)); [done|exact Hin]|].
    intros fs w1 (Hu1 & new & -> & H1 & H2). apply does_ret. cbn [app]. split_and!; [done| |].
    + intros f Hf. apply H1. by rewrite elem_of_sort_by in Hf.
    + intros Hrel n Hi. rewrite elem_of_sort_by. apply H2; [done| |done]. apply Hall; [done|]. destruct Hi as [_ [->|[t ->]]]; by eexists.
  - apply does_ret. split_and!; [done|by intros f ?%elem_of_nil|]. intros [Hrel _]. exfalso. revert Hr. cbn [fs_exec]. rewrite Hrel. cbn [negb].
    rewrite (resolve_names w true root lr); [|done|done|eapply placed_entry; [done|by rewrite (proj1 Hu)]|by rewrite (proj1 Hu), Hdir].
    rewrite (proj1 Hu). simpl. rewrite Hdir. simpl. intros [= <-]. done.
Qed.
Lemma resolve_loop_spec all ns : ∀ out,
  (∀ f, f ∈ all → ∃ n, f = flavor_of n ∧ installed n) →
  match resolve_loop all ns out with
  | Ok fs => fs = out ++ (flavor_of <$> ns) ∧ Forall installed ns
  | Err n => ∃ pre post, ns = pre ++ n :: post ∧ Forall installed pre ∧ flavor_of n ∉ all
  | Panic => False
  end.
Proof.
  induction ns as [|n ns IH]; intros out Hall; cbn [resolve_loop]; [by rewrite app_nil_r|].
  destruct (List.find _ all) as [f|] eqn:Ef.
  - apply List.find_some in Ef as [Hf Hn%String.eqb_eq]. apply list_elem_of_In in Hf. destruct (Hall f Hf) as (m & -> & Hi). simpl in Hn. subst m.
    specialize (IH (out ++ [flavor_of n]) Hall). destruct (resolve_loop _ _ _) as [fs|m|].
    + destruct IH as [-> HF]. rewrite <- app_assoc. split; [done|]. by constructor.
    + destruct IH as (pre & post & -> & HF & Hm). exists (n :: pre), post. split; [done|]. split; [by constructor|done].
    + done.
  - exists [], ns. split; [done|]. split; [constructor|]. intros Hf. eapply List.find_none in Ef; [|by apply list_elem_of_In].
    simpl in Ef. by rewrite String.eqb_refl in Ef.
Qed.
End registry.

(** Flavors resolve to what is installed.  Resolving reads the registry's root
    and changes nothing.  If it succeeds, every requested name is a safe slug and
    names a directory or link directly below the root, whose path is returned, in
    the order of the request.  If it fails, it names the first requested flavor
    that it did not find; when no call fails that flavor is not installed. *)
Theorem flavors_resolve_exact `{O : Oracle} (root : string) (lr : loc) (w : fs) (ns : list string) :
  names root lr → wf w → tree w !! lr = Some EDir →
  ∃ o w', fsrun w (flavors_resolve root ns) = (Some o, w') ∧ unchanged w w' ∧
    match o with
    | Ok fs => fs = flavor_of root <$> ns ∧ Forall (installed lr w) ns
    | Err n => ∃ pre post, ns = pre ++ n :: post ∧ Forall (installed lr w) pre ∧ (reliable O → ¬ installed lr w n)
    | Panic => False
    end.
Proof.
  intros Hroot Hw Hd.
  assert (does w (flavors_resolve root ns) (λ o w', unchanged w w' ∧
    match o with
    | Ok fs => fs = flavor_of root <$> ns ∧ Forall (installed lr w) ns
    | Err n => ∃ pre post, ns = pre ++ n :: post ∧ Forall (installed lr w) pre ∧ (reliable O → ¬ installed lr w n)
    | Panic => False
    end)) as (o & w' & H1 & H2); [|by exists o, w'].
  eapply does_bind; [by apply (flavors_list_does root lr Hroot w Hw Hd)|].
  intros all w1 (Hu & Hall & Hrel). apply does_ret. split; [done|].
  pose proof (resolve_loop_spec root lr w all ns [] Hall) as Hs. destruct (resolve_loop _ _ _) as [fs|n|]; [done| |done].
  destruct Hs as (pre & post & -> & HF & Hn). exists pre, post. split_and!; [done..|]. intros Hr Hi. by apply Hn, Hrel.
Qed.
(** A host with two flavors and a file. *)
Module FlavorExample.
Local Open Scope string_scope.
Definition host : fs := build
  [([], EDir); (["fl"], EDir); (["fl"; "nodejs"], EDir); (["fl"; "python-3"], ELink "/opt/py"); (["fl"; "BAD"], EDir);
   (["fl"; "readme"], EFile 0)] [(0%N, MkNode "" 420 1)].
End FlavorExample.
Lemma flavors_resolve_exact_witness :
  (∃ w', fsrun FlavorExample.host (flavors_resolve "/fl" ["python-3"; "nodejs"]) = (Some (Ok [flavor_of "/fl" "python-3"; flavor_of "/fl" "nodejs"]), w')) ∧
  ∃ o w', fsrun FlavorExample.host (flavors_resolve "/fl" ["nodejs"; "BAD"]) = (Some o, w') ∧ unchanged FlavorExample.host w' ∧
    match o with
    | Ok fs => fs = flavor_of "/fl" <$> ["nodejs"; "BAD"]%string ∧ Forall (installed ["fl"%string] FlavorExample.host) ["nodejs"; "BAD"]%string
    | Err n => ∃ pre post, ["nodejs"; "BAD"]%string = pre ++ n :: post ∧ Forall (installed ["fl"%string] FlavorExample.host) pre ∧
        (reliable calm → ¬ installed ["fl"%string] FlavorExample.host n)
    | Panic => False
    end.
Proof.
  split; [eexists; vm_compute; reflexivity|].
  apply (flavors_resolve_exact "/fl" ["fl"%string] FlavorExample.host ["nodejs"; "BAD"]%string).
  - apply (bool_decide_unpack _). vm_compute. exact I.
  - apply wf_check_ok. vm_compute. reflexivity.
  - reflexivity.
Defined.
