(* ===== verification/Git.v ===== *)
(** * Cloning repositories

    Models [agentjail-ctl/src/routes/exec_git.rs] (cloning on the host, and the
    validators) and [routes/clone_jail.rs] (cloning inside a jail of its own).
    Running git is a call; the jailed clone uses the engine's programs. *)

From S2P Require Import Prelude Text Tenant Ctl Sys Order Config Netlink Mount Isolation Child Cgroup Run Fs.
From S2P Require Jails Workspaces.
Import Workspaces(GitRepoEntry, ge_repo, ge_ref, ge_dir, GitSpec, gs_repo, gs_ref, gs_repos).
Local Open Scope Z_scope.

(** ** Characters *)
(** [char::is_control] for some character: C0, DEL, or C1 (U+0080 to U+009F). *)
Fixpoint has_control (s : string) : bool :=
  match s with
  | EmptyString => false
  | String a s' =>
      in_range 0 31 a || (byte_val a =? 127) || ((byte_val a =? 194) && next_in 128 159 s') || has_control s'
  end.
(** [s.split(c).next().unwrap_or(..)] *)
Definition before_char (c : Ascii.ascii) (s : string) : string :=
  match split_once c s with Some (a, _) => a | None => s end.
(** [s.rsplit(c).next().unwrap_or(..)] *)
Definition after_last (c : Ascii.ascii) (s : string) : string :=
  match rsplit_once c s with Some (_, b) => b | None => s end.
(** [s.trim_end_matches(p)], [p] not empty *)
Fixpoint trim_end_matches_fuel (fuel : nat) (p s : string) : string :=
  match fuel with
  | O => s
  | S f => match strip_suffix p s with Some r => trim_end_matches_fuel f p r | None => s end
  end.
Definition trim_end_matches (p s : string) : string := trim_end_matches_fuel (str_len s) p s.
Fixpoint has_char (c : Ascii.ascii) (s : string) : bool :=
  match s with EmptyString => false | String a s' => Ascii.eqb a c || has_char c s' end.

(** ** Validators *)
Section git.
Context `{DebugFmt}.
Definition default_repo_subdir (url : string) : string := trim (trim_end_matches ".git" (after_last "/" url)).
Definition validate_subdir (name : string) : outcome CtlError unit :=
  if str_is_empty name || String.eqb name "." || String.eqb name ".." then
    Err (BadRequest ("git.repos.dir invalid: " +:+ str_debug name))
  else if has_char "/" name || has_char "\" name || starts_with "." name then
    Err (BadRequest ("git.repos.dir must not contain slashes or leading `.`: " +:+ str_debug name))
  else Ok tt.
Definition validate_repo_url (repo : string) : outcome CtlError unit :=
  if negb (starts_with "https://" repo) || (512 <? str_len repo)%nat then
    Err (BadRequest "git.repo must be https:// (max 512 bytes)")
  else
    let host := before_char "/" (str_drop 8 repo) in
    if has_char "@" host then Err (BadRequest "git.repo must not embed credentials (user:token@host)")
    else Ok tt.
Definition validate_git_ref (r : string) : outcome CtlError unit :=
  if str_is_empty r || (200 <? str_len r)%nat || has_control r then Err (BadRequest "git.ref invalid")
  else if starts_with "-" r then Err (BadRequest "git.ref must not start with `-`")
  else Ok tt.

(** ** Cloning on the host *)
Context (show_io : Z → string).
Definition ctl_io (c : syscall) : prog (outcome CtlError ret) :=
  Call c (λ r, Ret (if ok r then Ok r else Err (IoErr (show_io (rerr r))))).
(** The last three lines, latest first. *)
Definition stderr_tail (err : string) : string :=
  str_join " · " (take 3 (reverse (str_lines (from_utf8_lossy err)))).
Definition host_pins : list string :=
  ["-c"; "protocol.allow=never"; "-c"; "protocol.https.allow=always"; "-c"; "protocol.ext.allow=never";
   "-c"; "protocol.file.allow=never"; "-c"; "core.sshCommand=false"; "-c"; "core.fsmonitor=false";
   "-c"; "core.hooksPath=/dev/null"; "-c"; "transfer.fsckObjects=true"; "-c"; "fetch.fsckObjects=true";
   "-c"; "receive.fsckObjects=true"; "clone"; "--depth=1"; "--single-branch"; "--no-tags"]%string.
Definition clone_args (pins : list string) (git_ref : option string) (repo target : string) : list string :=
  pins ++ match git_ref with Some r => ["--branch"%string; r] | None => [] end ++ ["--"%string; repo; target].
Definition git_env : list (string * string) :=
  [("PATH", "/usr/local/bin:/usr/bin:/bin"); ("HOME", "/tmp"); ("GIT_TERMINAL_PROMPT", "0")]%string.
(** Moving one entry of the clone up. *)
Definition flatten_entry (target dst : string) (r : ret) (entry : option string) : prog (outcome CtlError unit) :=
  match entry with
  | None => perr (IoErr (show_io (rerr r)))
  | Some n => let! _ := ctl_io (Rename (path_join target n) (path_join dst n)) in pok tt
  end.
Definition validate_ref_opt (git_ref : option string) : outcome CtlError unit :=
  match git_ref with Some r => validate_git_ref r | None => Ok tt end.
(** Of the command: -2 is the timeout, another negative value the [io::Error]. *)
Definition clone_one (repo : string) (git_ref : option string) (dst : string) : prog (outcome CtlError unit) :=
  let! _ := Ret (validate_repo_url repo) in
  let! _ := Ret (validate_ref_opt git_ref) in
  let target := path_join dst "__repo" in
  let! _ := ctl_io (CreateDirAll target) in
  let* out := sys (CommandEnv "git" (clone_args host_pins git_ref repo target) git_env 60) in
  if rv out =? -2 then perr (BadRequest "git clone timed out (60s)") else
  if negb (ok out) then perr (IoErr (show_io (rerr out))) else
  if negb (rv out =? 0) then perr (BadRequest ("git clone failed: " +:+ stderr_tail (rtext out))) else
  let! r := ctl_io (ReadDir target) in
  for_each (flatten_entry target dst r) (rlist r) ;;!
  sys (RemoveDirAll target) ;;* pok tt.
(** Both entry points differ only in how one repository is cloned. *)
Definition clone_spec (clone : string → option string → string → prog (outcome CtlError unit)) (spec : GitSpec) (dst : string)
    : prog (outcome CtlError unit) :=
  match gs_repo spec, gs_repos spec with
  | Some _, _ :: _ => perr (BadRequest "git: set either `repo` or `repos`, not both")
  | None, [] => perr (BadRequest "git: provide `repo` or `repos`")
  | Some repo, [] => clone repo (gs_ref spec) dst
  | None, repos =>
      for_each (λ entry,
        let subdir := default (default_repo_subdir (ge_repo entry)) (ge_dir entry) in
        let! _ := Ret (validate_subdir subdir) in
        let sub := path_join dst subdir in
        let! _ := ctl_io (CreateDirAll sub) in
        clone (ge_repo entry) (ge_ref entry) sub) repos
  end.
Definition git_clone (spec : GitSpec) (dst : string) : prog (outcome CtlError unit) := clone_spec clone_one spec dst.

(** ** Cloning in a jail *)
Definition repo_host (url : string) : outcome CtlError string :=
  match strip_prefix "https://" url with
  | None => Err (BadRequest "git.repo must be https://")
  | Some after =>
      let host := before_char "/" after in
      if str_is_empty host then Err (BadRequest "git.repo missing host")
      else Ok (before_char ":" host)
  end.
(** [Path::with_extension] of a name without a dot. *)
Definition clone_jail_config (dst host : string) : prog (outcome CtlError JailConfig) :=
  let* tmp := sys TempDir in
  let* pid := sys Getpid in
  let* stamp := sys NowUtc in
  let scratch := path_join (rtext tmp) ("agentjail-clone-" +:+ pretty (rv pid) +:+ "." +:+ pretty (Z.max 0 (rv stamp))) in
  let! _ := ctl_io (CreateDirAll scratch) in
  let* uid := sys Getuid in
  pok {| source := dst; output := scratch; source_rw := true; network := NetAllowlist [host]; seccomp := SecStandard;
         landlock := false; memory_mb := 512; cpu_percent := 100; max_pids := 64;
         io_read_mbps := io_read_mbps config_default; io_write_mbps := io_write_mbps config_default;
         timeout_secs := 60; cfg_env := git_env; user_namespace := negb (rv uid =? 0); pid_namespace := true;
         ipc_namespace := true; workdir := workdir config_default; gpu := gpu config_default;
         readonly_overlays := readonly_overlays config_default |}.
Definition jail_pins : list string :=
  ["-c"; "protocol.allow=never"; "-c"; "protocol.https.allow=always"; "-c"; "protocol.ext.allow=never";
   "-c"; "protocol.file.allow=never"; "-c"; "core.sshCommand=false"; "-c"; "core.fsmonitor=false";
   "-c"; "core.hooksPath=/dev/null"; "-c"; "transfer.fsckObjects=true";
   "clone"; "--depth=1"; "--single-branch"; "--no-tags"]%string.
Context `{Target} `{Seccompiler} (show_error : JailError → string).
Definition ctl_jail {A} (p : prog (outcome JailError A)) : prog (outcome CtlError A) :=
  let* o := p in Ret (omap_err (λ e, JailErr (show_error e)) o).
Definition clone_one_in_jail (repo : string) (git_ref : option string) (dst : string) : prog (outcome CtlError unit) :=
  let! _ := Ret (validate_repo_url repo) in
  let! _ := Ret (validate_ref_opt git_ref) in
  let! host := Ret (repo_host repo) in
  let! config := clone_jail_config dst host in
  let! jail := ctl_jail (jail_new config) in
  let! handle := ctl_jail (spawn show_error jail "/usr/bin/git" (clone_args jail_pins git_ref repo "/workspace")) in
  let* out := handle_wait handle in
  if Jails.out_timed_out out then perr (BadRequest "git clone timed out (60s)") else
  if negb (Jails.out_exit_code out =? 0) then
    perr (BadRequest ("git clone failed: " +:+ stderr_tail (Jails.out_stderr out)))
  else pok tt.
Definition git_clone_in_jail (spec : GitSpec) (dst : string) : prog (outcome CtlError unit) :=
  clone_spec clone_one_in_jail spec dst.
End git.

(** ** What the validators let through *)
(** The authority part of a URL: what is between [https://] and the next slash. *)
Definition url_splits (repo host rest : string) : Prop :=
  repo = ("https://" +:+ host +:+ rest)%string ∧ ¬ str_elem "/"%char host ∧ (rest = ""%string ∨ starts_with "/" rest = true).
(** A URL that git may be given. *)
Definition clean_url (repo : string) : Prop :=
  (str_len repo ≤ 512)%nat ∧ ∃ host rest, url_splits repo host rest ∧ ¬ str_elem "@"%char host.
(** A ref that git may be given. *)
Definition clean_ref (r : string) : Prop :=
  r ≠ ""%string ∧ (str_len r ≤ 200)%nat ∧ starts_with "-" r = false ∧ has_control r = false.

Lemma has_char_elem c s : has_char c s = true ↔ str_elem c s.
Proof.
  induction s as [|a s IH]; simpl; [done|]. rewrite orb_true_iff, IH. split; intros [Ha|Hs]; auto; left.
  - by apply Ascii.eqb_eq in Ha.
  - subst. apply Ascii.eqb_refl.
Qed.
Lemma before_char_splits c s : ∃ rest, s = (before_char c s +:+ rest)%string ∧ ¬ str_elem c (before_char c s) ∧
  (rest = ""%string ∨ starts_with (String c EmptyString) rest = true).
Proof.
  unfold before_char. destruct (split_once c s) as [[a b]|] eqn:E.
  - apply split_once_Some in E as [-> Hn]. exists (String c b). split_and!; [done|done|]. right. simpl. by rewrite Ascii.eqb_refl.
  - apply split_once_None in E. exists ""%string. split_and!; [by rewrite str_app_nil_r|done|by left].
Qed.
Section validators.
Context `{DebugFmt}.
Lemma validate_repo_url_ok repo : validate_repo_url repo = Ok tt → clean_url repo.
Proof.
  unfold validate_repo_url. destruct (starts_with "https://" repo) eqn:Es; [|done]. cbn [negb orb].
  destruct (Nat.ltb_spec 512 (str_len repo)); [done|]. destruct (has_char "@" _) eqn:Ea; [done|]. intros _. split; [lia|].
  apply starts_with_true in Es as [r ->]. change 8%nat with (str_len "https://") in Ea. rewrite str_drop_app in Ea.
  destruct (before_char_splits "/" r) as (rest & Hr & Hn & Hs). exists (before_char "/" r), rest. split.
  - split_and!; [by rewrite <- Hr|done|done].
  - intros Hin%has_char_elem. congruence.
Qed.
Lemma validate_git_ref_ok r : validate_git_ref r = Ok tt → clean_ref r.
Proof.
  unfold validate_git_ref. destruct (str_is_empty r) eqn:E0; [done|]. cbn [orb]. destruct (Nat.ltb_spec 200 (str_len r)); [done|]. cbn [orb].
  destruct (has_control r) eqn:Ec; [done|]. destruct (starts_with "-" r) eqn:Ed; [done|]. intros _. split_and!; [by intros ->|lia|done|done].
Qed.
Lemma validate_subdir_ok n : validate_subdir n = Ok tt → plain n ∧ starts_with "." n = false.
Proof.
  unfold validate_subdir. destruct (str_is_empty n) eqn:E0; [done|]. destruct (String.eqb_spec n "."); [done|]. destruct (String.eqb_spec n ".."); [done|].
  cbn [orb]. destruct (has_char "/" n) eqn:Es; [done|]. cbn [orb]. destruct (has_char "\" n); [done|]. cbn [orb].
  destruct (starts_with "." n); [done|]. intros _. split; [|done]. split; [|split; [by intros ->|done]].
  apply no_slash_split. intros Hin%has_char_elem. congruence.
Qed.
End validators.

(** ** What runs on the host *)
Section host.
Context `{DebugFmt} (show_io : Z → string).
(** The repositories a request names, with their refs and the directories below
    [dst] they may be cloned to. *)
Definition asked (spec : GitSpec) (repo : string) (git_ref : option string) : Prop :=
  (gs_repo spec = Some repo ∧ gs_ref spec = git_ref) ∨ ∃ e, e ∈ gs_repos spec ∧ ge_repo e = repo ∧ ge_ref e = git_ref.
Definition inside (dst dir : string) : Prop := dir = dst ∨ ∃ n, dir = path_join dst n ∧ plain n ∧ starts_with "." n = false.
(** The calls a clone may make. *)
Definition clone_call (spec : GitSpec) (dst : string) (c : syscall) : Prop :=
  match c with
  | CommandEnv cmd args env secs =>
      cmd = "git"%string ∧ env = git_env ∧ secs = 60 ∧
      ∃ repo git_ref dir, asked spec repo git_ref ∧ clean_url repo ∧ (∀ r, git_ref = Some r → clean_ref r) ∧ inside dst dir ∧
        args = host_pins ++ match git_ref with Some r => ["--branch"%string; r] | None => [] end ++
               ["--"%string; repo; path_join dir "__repo"]
  | CreateDirAll p => ∃ dir, inside dst dir ∧ (p = dir ∨ p = path_join dir "__repo")
  | ReadDir p | RemoveDirAll p => ∃ dir, inside dst dir ∧ p = path_join dir "__repo"
  | Rename p q => ∃ dir n, inside dst dir ∧ p = path_join (path_join dir "__repo") n ∧ q = path_join dir n
  | _ => False
  end.
Lemma only_ret {A} P (a : A) : only P (Ret a).
Proof. done. Qed.
Lemma only_ctl_io P c : P c → only P (ctl_io show_io c).
Proof. by split. Qed.
Lemma only_check {A} P (o : outcome CtlError unit) (k : prog (outcome CtlError A)) :
  (o = Ok tt → only P k) → only P (let! _ := Ret o in k).
Proof. intros Hk. destruct o as [[]|e|]; [by apply Hk|done..]. Qed.
Lemma clone_one_only spec dst dir repo git_ref :
  asked spec repo git_ref → inside dst dir → only (clone_call spec dst) (clone_one show_io repo git_ref dir).
Proof.
  intros Ha Hi. unfold clone_one. apply only_check. intros Hu%validate_repo_url_ok. apply only_check. intros Hr.
  assert (∀ r, git_ref = Some r → clean_ref r) as Hclean by (intros r ->; by apply validate_git_ref_ok).
  apply only_jbind; [apply only_ctl_io; by exists dir; auto|]. intros _.
  split; [split_and!; [done..|]; exists repo, git_ref, dir; split_and!; done|]. intros out.
  cbn [pbind]. destruct (rv out =? -2); [done|]. destruct (negb (ok out)); [done|]. destruct (negb (rv out =? 0)); [done|].
  apply only_jbind; [apply only_ctl_io; by exists dir|]. intros r.
  apply only_jbind.
  - apply only_for_each. intros [n|] _; [|done]. apply only_jbind; [apply only_ctl_io; by exists dir, n|done].
  - intros _. split; [by exists dir|done].
Qed.
Lemma git_clone_only spec dst : only (clone_call spec dst) (git_clone show_io spec dst).
Proof.
  unfold git_clone, clone_spec. destruct (gs_repo spec) as [repo|] eqn:Er, (gs_repos spec) as [|e es] eqn:Ees; try done.
  - apply clone_one_only; [left; by rewrite Er|by left].
  - apply only_for_each. intros x Hx. apply only_check. intros [Hp Hd]%validate_subdir_ok.
    assert (inside dst (path_join dst (default (default_repo_subdir (ge_repo x)) (ge_dir x)))) as Hin by (right; eauto).
    apply only_jbind; [apply only_ctl_io; eexists; split; [exact Hin|by left]|]. intros _.
    apply clone_one_only; [|done]. right. exists x. by rewrite Ees.
Qed.
End host.

(** C26: What a clone runs on the host.  On every kernel, every command that
    [git_clone] starts is git with the pinned configuration, an environment of
    exactly three variables and a limit of sixty seconds; its only arguments from
    the request are a ref that is not an option and has no control characters,
    and, after [--], one of the requested URLs, which is [https], at most 512
    bytes long and has no [@] in its authority.  Everything it touches is [dst]
    or a directory directly below [dst] whose name is a single ordinary component
    that does not start with a dot. *)
Theorem git_clone_commands `{DebugFmt} (show_io : Z → string) (spec : GitSpec) (dst : string) (K : kernel) (c : syscall) (r : ret) :
  (c, r) ∈ (run K [] (git_clone show_io spec dst)).1 → clone_call spec dst c.
Proof. intros Hin. destruct (only_run _ _ K [] c r (git_clone_only show_io spec dst) Hin) as [?%elem_of_nil|?]; done. Qed.
Module GitExample.
Local Open Scope string_scope.
Definition spec : GitSpec := Workspaces.MkGit (Some "https://github.com/a/b") (Some "main") [].
Definition K : kernel := λ _ _, rint 0.
Definition args : list string := clone_args host_pins (Some "main") "https://github.com/a/b" "/src/__repo".
End GitExample.
Lemma git_clone_commands_witness :
  clone_call GitExample.spec "/src" (CommandEnv "git" GitExample.args git_env 60).
Proof.
  apply (git_clone_commands (λ _, ""%string) GitExample.spec "/src" GitExample.K _ (rint 0)).
  apply (list_elem_of_lookup_2 _ 1). vm_compute. reflexivity.
Defined.

(** The clone jail may talk to the host named in the URL and to nothing else: what
    is allowed is the URL's authority without its port. *)
Lemma repo_host_exact url h :
  repo_host url = Ok h →
  ∃ rest, url = ("https://" +:+ h +:+ rest)%string ∧ ¬ str_elem "/"%char h ∧ ¬ str_elem ":"%char h ∧
    (rest = ""%string ∨ starts_with "/" rest = true ∨ starts_with ":" rest = true).
Proof.
  unfold repo_host. destruct (strip_prefix "https://" url) as [after|] eqn:E; [|done]. apply strip_prefix_Some in E as ->.
  destruct (str_is_empty (before_char "/" after)); [done|]. intros [= <-].
  destruct (before_char_splits "/" after) as (r1 & E1 & H1 & S1). destruct (before_char_splits ":" (before_char "/" after)) as (r2 & E2 & H2 & S2).
  exists (r2 +:+ r1)%string. split; [f_equal; by rewrite <- str_app_assoc, <- E2, <- E1|].
  split; [intros Hin; apply H1; rewrite E2; apply str_elem_app; by left|]. split; [done|].
  destruct S2 as [->|S2]; [destruct S1 as [->|S1]; [by left|by right; left]|]. right. right.
  apply starts_with_true in S2 as [x ->]. apply starts_with_true. by exists (x +:+ r1)%string; rewrite str_app_assoc.
Qed.
