(* ===== verification/Monitor.v ===== *)
(** * The control plane's state and the monitored run of a jail

    Models the state that the handlers share ([AppState] of [routes/mod.rs], less
    the fields that only other files use), [agentjail-ctl/src/exec.rs] (limits and
    counters), [sampler.rs] (one sample) and [routes/exec_monitor.rs] (spawning a
    jail, following its output, publishing it while it runs).

    A handler is a program that also threads the shared state ([act]).  Its
    background tasks (the flush ticker and the sampler) only act between two awaits
    of the handler: [Select] is one await, and answers which of the enabled events
    came first. *)

From S2P Require Import Prelude Text Tenant Provider Ctl Jails Sessions Snapshots Workspaces Sys Order Netlink Cgroup Config Isolation Child Run.
Local Open Scope Z_scope.

(** ** [exec.rs] *)
Record ExecConfig := MkExec { default_memory_mb : Z; default_timeout_secs : Z; max_concurrent : nat }.
Definition exec_default : ExecConfig := MkExec 512 300 16.
Record ExecMetrics := MkMetrics { m_active : Z; m_total : Z }.
Definition metrics_new : ExecMetrics := MkMetrics 0 0.
Definition metrics_start (m : ExecMetrics) : ExecMetrics := MkMetrics (u64 (m_active m + 1)) (u64 (m_total m + 1)).
Definition metrics_drop (m : ExecMetrics) : ExecMetrics := MkMetrics (u64 (m_active m - 1)) (m_total m).

(** ** The shared state *)
Record AppState := MkApp {
  a_exec_config : option ExecConfig;
  a_permits : nat; (* free permits of the semaphore *)
  a_metrics : ExecMetrics;
  a_sessions : InMemorySessionStore;
  a_jails : InMemoryJailStore;
  a_workspaces : InMemoryWorkspaceStore;
  a_locks : gset string; (* workspaces whose exec lock is held *)
  a_cgroups : ActiveMap string;
  a_ips : ActiveMap bytes;
  a_snapshots : InMemorySnapshotStore;
  a_state_dir : string;
  a_pool_dir : option string;
  a_flavors : string (* root of the flavor registry *)
}.
Definition set_jails (s : InMemoryJailStore) (a : AppState) : AppState :=
  MkApp (a_exec_config a) (a_permits a) (a_metrics a) (a_sessions a) s (a_workspaces a) (a_locks a) (a_cgroups a) (a_ips a)
    (a_snapshots a) (a_state_dir a) (a_pool_dir a) (a_flavors a).
Definition set_active (cg : ActiveMap string) (ips : ActiveMap bytes) (a : AppState) : AppState :=
  MkApp (a_exec_config a) (a_permits a) (a_metrics a) (a_sessions a) (a_jails a) (a_workspaces a) (a_locks a) cg ips
    (a_snapshots a) (a_state_dir a) (a_pool_dir a) (a_flavors a).
Definition set_gate (permits : nat) (m : ExecMetrics) (a : AppState) : AppState :=
  MkApp (a_exec_config a) permits m (a_sessions a) (a_jails a) (a_workspaces a) (a_locks a) (a_cgroups a) (a_ips a)
    (a_snapshots a) (a_state_dir a) (a_pool_dir a) (a_flavors a).
Definition set_workspaces (s : InMemoryWorkspaceStore) (a : AppState) : AppState :=
  MkApp (a_exec_config a) (a_permits a) (a_metrics a) (a_sessions a) (a_jails a) s (a_locks a) (a_cgroups a) (a_ips a)
    (a_snapshots a) (a_state_dir a) (a_pool_dir a) (a_flavors a).
Definition set_locks (l : gset string) (a : AppState) : AppState :=
  MkApp (a_exec_config a) (a_permits a) (a_metrics a) (a_sessions a) (a_jails a) (a_workspaces a) l (a_cgroups a) (a_ips a)
    (a_snapshots a) (a_state_dir a) (a_pool_dir a) (a_flavors a).
Definition set_snapshots (s : InMemorySnapshotStore) (a : AppState) : AppState :=
  MkApp (a_exec_config a) (a_permits a) (a_metrics a) (a_sessions a) (a_jails a) (a_workspaces a) (a_locks a) (a_cgroups a) (a_ips a)
    s (a_state_dir a) (a_pool_dir a) (a_flavors a).

(** ** Actions *)
Definition act (A : Type) : Type := AppState → prog (AppState * A).
Definition aret {A} (a : A) : act A := λ st, Ret (st, a).
Definition abind {A B} (m : act A) (f : A → act B) : act B := λ st, let* '(st', a) := m st in f a st'.
(** A program of the engine. *)
Definition alift {A} (p : prog A) : act A := λ st, let* a := p in Ret (st, a).
Definition aread {A} (f : AppState → A) : act A := λ st, Ret (st, f st).
Definition amod (f : AppState → AppState) : act unit := λ st, Ret (f st, tt).
(** [?] on the handlers' [Result]. *)
Definition atry {E A B} (m : act (outcome E A)) (f : A → act (outcome E B)) : act (outcome E B) :=
  abind m (λ o, match o with Ok a => f a | Err e => aret (Err e) | Panic => aret Panic end).
Declare Scope act_scope.
Delimit Scope act_scope with act.
Notation "'let+' x ':=' m 'in' k" := (abind m (λ x, k)) (at level 10, x binder, m at level 100, k at level 200) : act_scope.
Notation "'try+' x ':=' m 'in' k" := (atry m (λ x, k)) (at level 10, x binder, m at level 100, k at level 200) : act_scope.
#[global] Open Scope act_scope.

(** ** [sampler.rs] *)
Definition read_u64 (p : string) : prog Z :=
  let* r := sys (ReadFile p) in
  Ret (default 0 (if ok r then parse_u64 (trim (rtext r)) else None)).
Fixpoint usec_line (lines : list string) : Z :=
  match lines with
  | [] => 0
  | l :: rest => match strip_prefix "usage_usec " l with Some v => default 0 (parse_u64 (trim v)) | None => usec_line rest end
  end.
Definition read_cpu_usec (path : string) : prog Z :=
  let* r := sys (ReadFile (path_join path "cpu.stat")) in
  Ret (if ok r then usec_line (str_lines (rtext r)) else 0).
Definition io_kv (rw : Z * Z) (kv : string) : Z * Z :=
  let r := match strip_prefix "rbytes=" kv with Some v => u64 (rw.1 + default 0 (parse_u64 v)) | None => rw.1 end in
  let w := match strip_prefix "wbytes=" kv with Some v => u64 (rw.2 + default 0 (parse_u64 v)) | None => rw.2 end in
  (r, w).
Definition read_io (path : string) : prog (Z * Z) :=
  let* r := sys (ReadFile (path_join path "io.stat")) in
  Ret (if ok r then foldl (λ rw line, foldl io_kv rw (split_whitespace line)) (0, 0) (str_lines (rtext r)) else (0, 0)).
Definition sample (path : string) : prog ResourceStats :=
  let* '(io_read, io_write) := read_io path in
  let* peak := read_u64 (path_join path "memory.peak") in
  let* cur := read_u64 (path_join path "memory.current") in
  let* cpu := read_cpu_usec path in
  let* pids := read_u64 (path_join path "pids.current") in
  Ret {| memory_peak_bytes := peak; memory_current_bytes := cur; Jails.cpu_usage_usec := cpu; stats_oom_killed := false;
         io_read_bytes := io_read; io_write_bytes := io_write; Jails.pids_current := pids |}.

(** ** [routes/exec_monitor.rs] *)
Definition OUTPUT_CAP_BYTES : nat := Z.to_nat (16 * 1024).
Definition ELLIPSIS : string := "…".
(** [None]: the slice panics. *)
Definition push_capped (buf line : string) : option string :=
  if (OUTPUT_CAP_BYTES <? str_len buf + str_len line)%nat then
    let take := (OUTPUT_CAP_BYTES - str_len buf)%nat in
    p ← slice_to (Nat.min take (str_len line)) line;
    let buf := buf +:+ p in
    Some (if ends_with ELLIPSIS buf then buf else buf +:+ ELLIPSIS)
  else Some (buf +:+ line).

(** What the registration of a workspace exec publishes, and takes back when it is
    dropped. *)
Record ExecRegistration := MkReg { reg_workspace : string; reg_cgroup : bool; reg_ip : bool }.
Definition registration_new (workspace : string) : ExecRegistration := MkReg workspace false false.
Definition publish_handle (h : JailHandle) (reg : ExecRegistration) : act ExecRegistration := λ st,
  let id := reg_workspace reg in
  let cgs := match h_cgroup h with Some cg => active_insert id (cg_path cg) (a_cgroups st) | None => a_cgroups st end in
  let ips := match h_jail_ip h with Some ip => active_insert id ip (a_ips st) | None => a_ips st end in
  Ret (set_active cgs ips st,
       MkReg id (match h_cgroup h with Some _ => true | None => reg_cgroup reg end)
         (match h_jail_ip h with Some _ => true | None => reg_ip reg end)).
Definition registration_drop (reg : ExecRegistration) : act unit := amod (λ st,
  set_active (if reg_cgroup reg then active_remove (reg_workspace reg) (a_cgroups st) else a_cgroups st)
             (if reg_ip reg then active_remove (reg_workspace reg) (a_ips st) else a_ips st) st).
Definition drop_registration (reg : option ExecRegistration) : act unit :=
  match reg with Some r => registration_drop r | None => aret tt end.

(** The events an await can bring: a line or the end of a pipe that is still
    open, a tick of the flusher, a tick of the sampler. *)
Inductive mon_event := OutLine (l : string) | OutEof | ErrLine (l : string) | ErrEof | FlushTick | StatsTick | Nothing.
Definition mon_event_of (stdout_done stderr_done : bool) (r : ret) : mon_event :=
  if rv r =? 0 then (if stdout_done then Nothing else OutLine (rtext r))
  else if rv r =? 1 then (if stdout_done then Nothing else OutEof)
  else if rv r =? 2 then (if stderr_done then Nothing else ErrLine (rtext r))
  else if rv r =? 3 then (if stderr_done then Nothing else ErrEof)
  else if rv r =? 4 then FlushTick
  else if rv r =? 5 then StatsTick
  else Nothing.
Definition flush (rec_id : Z) (so se : string) : act unit := amod (λ st, set_jails (jail_tail rec_id so se (a_jails st)).1 st).
(** The sampler runs only for a jail with a cgroup. *)
Definition stats_tick (rec_id : Z) (h : JailHandle) : act unit :=
  match h_cgroup h with
  | None => aret tt
  | Some cg => let+ s := alift (sample (cg_path cg)) in amod (λ st, set_jails (jail_sample_stats rec_id s (a_jails st)) st)
  end.
(** The loop over both pipes: the two buffers, or a panic. *)
Fixpoint drain (fuel : nat) (rec_id : Z) (h : JailHandle) (so se : string) (stdout_done stderr_done : bool)
    : act (option (string * string)) :=
  match fuel with
  | O => λ _, Halt
  | S f =>
      if stdout_done && stderr_done then aret (Some (so, se)) else
      let+ r := alift (sys (Select (negb stdout_done) (negb stderr_done))) in
      match mon_event_of stdout_done stderr_done r with
      | OutLine l => match push_capped so l with
                     | Some so => drain f rec_id h so se stdout_done stderr_done
                     | None => aret None
                     end
      | OutEof => drain f rec_id h so se true stderr_done
      | ErrLine l => match push_capped se l with
                     | Some se => drain f rec_id h so se stdout_done stderr_done
                     | None => aret None
                     end
      | ErrEof => drain f rec_id h so se stdout_done true
      | FlushTick => let+ _ := flush rec_id so se in drain f rec_id h so se stdout_done stderr_done
      | StatsTick => let+ _ := stats_tick rec_id h in drain f rec_id h so se stdout_done stderr_done
      | Nothing => drain f rec_id h so se stdout_done stderr_done
      end
  end.
(** The ticks that come while the handler waits for the process. *)
Fixpoint ticks (fuel : nat) (rec_id : Z) (h : JailHandle) (so se : string) : act unit :=
  match fuel with
  | O => λ _, Halt
  | S f =>
      let+ r := alift (sys (Select false false)) in
      match mon_event_of true true r with
      | FlushTick => let+ _ := flush rec_id so se in ticks f rec_id h so se
      | StatsTick => let+ _ := stats_tick rec_id h in ticks f rec_id h so se
      | _ => aret tt
      end
  end.
Definition merge_output (so se : string) (o : Output) : Output :=
  {| out_stdout := if str_is_empty (out_stdout o) && negb (str_is_empty so) then so else out_stdout o;
     out_stderr := if str_is_empty (out_stderr o) && negb (str_is_empty se) then se else out_stderr o;
     out_exit_code := out_exit_code o; out_duration := out_duration o; out_timed_out := out_timed_out o;
     out_oom_killed := out_oom_killed o; out_stats := out_stats o |}.

Section monitor.
Context `{Target} `{DebugFmt} `{Seccompiler} (show_error : JailError → string).
(** After the handle exists: when a line makes [push_capped] panic, unwinding
    drops the handle and the registration. *)
Definition monitor (fuel : nat) (rec_id : Z) (h : JailHandle) (reg : option ExecRegistration) : act (outcome JailError Output) :=
  let+ bufs := drain fuel rec_id h "" "" false false in
  match bufs with
  | None =>
      let+ _ := alift (handle_drop h) in
      let+ _ := drop_registration reg in
      aret Panic
  | Some (so, se) =>
      let+ _ := ticks fuel rec_id h so se in
      let+ o := alift (handle_wait h) in
      let+ panicked := (λ st, let '(s, p) := jail_tail rec_id so se (a_jails st) in Ret (set_jails s st, p)) in
      let+ _ := drop_registration reg in
      if panicked : bool then aret Panic else aret (Ok (merge_output so se o))
  end.
Definition run_monitored_with (fuel : nat) (rec_id : Z) (jail : Jail) (cmd : string) (args : list string)
    (registration : option ExecRegistration) : act (outcome JailError Output) :=
  try+ h := alift (spawn show_error jail cmd args) in
  let+ reg := (match registration with
               | Some reg => let+ reg := publish_handle h reg in aret (Some reg)
               | None => aret None
               end) in
  monitor fuel rec_id h reg.
Definition run_monitored (fuel : nat) (rec_id : Z) (jail : Jail) (cmd : string) (args : list string) : act (outcome JailError Output) :=
  run_monitored_with fuel rec_id jail cmd args None.
End monitor.

(** ** What an action ends with, on every kernel *)
Definition ends {A} (m : act A) (st : AppState) (Q : AppState → A → Prop) : Prop :=
  ∀ K tr st' a, (run K tr (m st)).2 = Some (st', a) → Q st' a.
Lemma ends_ret {A} (a : A) st (Q : AppState → A → Prop) : Q st a → ends (aret a) st Q.
Proof. intros HQ K tr st' a' [= <- <-]. done. Qed.
Lemma ends_mod f st (Q : AppState → unit → Prop) : Q (f st) tt → ends (amod f) st Q.
Proof. intros HQ K tr st' a' [= <- <-]. done. Qed.
Lemma ends_bind {A B} (m : act A) (f : A → act B) st Q R :
  ends m st Q → (∀ st' a, Q st' a → ends (f a) st' R) → ends (abind m f) st R.
Proof.
  intros Hm Hf K tr st' b. unfold abind. rewrite run_bind. destruct (run K tr (m st)) as [tr' [[st1 a]|]] eqn:E; [|done].
  apply Hf. apply (Hm K tr). by rewrite E.
Qed.
Lemma ends_lift {A} (p : prog A) st (Q : AppState → A → Prop) : (∀ a, Q st a) → ends (alift p) st Q.
Proof.
  intros HQ K tr st' a'. unfold alift. rewrite run_bind. destruct (run K tr p) as [tr' [a|]]; [|done]. intros [= <- <-]. apply HQ.
Qed.
Lemma ends_try {E A B} (m : act (outcome E A)) (f : A → act (outcome E B)) st Q R :
  ends m st Q → (∀ st' a, Q st' (Ok a) → ends (f a) st' R) → (∀ st' e, Q st' (Err e) → R st' (Err e)) →
  (∀ st', Q st' Panic → R st' Panic) → ends (atry m f) st R.
Proof.
  intros Hm Hf He Hp. unfold atry. eapply ends_bind; [exact Hm|]. intros st' [a|e|] HQ; [by apply Hf|apply ends_ret; by apply He|apply ends_ret; by apply Hp].
Qed.
Lemma ends_mono {A} (m : act A) st (Q R : AppState → A → Prop) : ends m st Q → (∀ st' a, Q st' a → R st' a) → ends m st R.
Proof. intros Hm HQ K tr st' a Hr. by eapply HQ, Hm. Qed.
Lemma ends_halt {A} st (Q : AppState → A → Prop) : ends (λ _, Halt) st Q.
Proof. by intros K tr st' a [=]. Qed.

(** The same for one kernel, with the calls that were made. *)
Definition did {A} (K : kernel) (m : act A) (st : AppState) (tr : trace) (Q : trace → AppState → A → Prop) : Prop :=
  ∀ t st' a, run K tr (m st) = (t, Some (st', a)) → Q t st' a.
Lemma did_ret {A} K (a : A) st tr (Q : trace → AppState → A → Prop) : Q tr st a → did K (aret a) st tr Q.
Proof. by intros HQ t st' a' [= <- <- <-]. Qed.
Lemma did_bind {A B} K (m : act A) (f : A → act B) st tr Q R :
  did K m st tr Q → (∀ t st' a, Q t st' a → did K (f a) st' t R) → did K (abind m f) st tr R.
Proof.
  intros Hm Hf t st' b. unfold abind. rewrite run_bind. destruct (run K tr (m st)) as [t1 [[st1 a]|]] eqn:E; [|done]. by apply Hf, Hm.
Qed.
Lemma did_call {B} K c (f : ret → act B) st tr Q : did K (f (K tr c)) st (tr ++ [(c, K tr c)]) Q → did K (abind (alift (sys c)) f) st tr Q.
Proof. intros Hf t st' b. exact (Hf t st' b). Qed.
Lemma did_lift {A B} K (p : prog A) (f : A → act B) st tr Q :
  (∀ t a, run K tr p = (t, Some a) → did K (f a) st t Q) → did K (abind (alift p) f) st tr Q.
Proof.
  intros Hf. eapply (did_bind _ _ _ _ _ (λ t st' a, st' = st ∧ run K tr p = (t, Some a))).
  - intros t st' a. unfold alift. rewrite run_bind. destruct (run K tr p) as [t1 [b|]]; [|done]. by intros [= <- <- <-].
  - intros t st' a [-> Hr]. by apply Hf.
Qed.
Lemma did_lift_try {E A B} K (p : prog (outcome E A)) (f : A → act (outcome E B)) st tr Q :
  (∀ t a, run K tr p = (t, Some (Ok a)) → did K (f a) st t Q) →
  (∀ t o, run K tr p = (t, Some o) → ∀ o', (∀ b, o' ≠ Ok b) → Q t st o') → did K (atry (alift p) f) st tr Q.
Proof. intros Hf Hq. apply did_lift. intros t [a|e|] Hr; [by apply Hf|by apply did_ret, (Hq t (Err e) Hr)|by apply did_ret, (Hq t Panic Hr)]. Qed.
Lemma did_read {A B} K (g : AppState → A) (f : A → act B) st tr Q : did K (f (g st)) st tr Q → did K (abind (aread g) f) st tr Q.
Proof. intros Hf t st' b. exact (Hf t st' b). Qed.
Lemma did_read_try {E A B} K (g : AppState → outcome E A) (f : A → act (outcome E B)) st tr Q :
  (∀ a, g st = Ok a → did K (f a) st tr Q) → (∀ o, (∀ b, o ≠ Ok b) → Q tr st o) → did K (atry (aread g) f) st tr Q.
Proof. intros Hf Hq. unfold atry. apply did_read. destruct (g st) as [a|e|]; [by apply Hf|by apply did_ret, Hq..]. Qed.
Lemma did_update {A B} K (g : AppState → AppState * A) (f : A → act B) st tr Q :
  did K (f (g st).2) (g st).1 tr Q → did K (abind (λ st, Ret (g st)) f) st tr Q.
Proof. intros Hf t st' b. unfold abind. cbn [pbind]. destruct (g st) as [st1 a]. apply Hf. Qed.
Lemma did_ends {A} K (m : act A) st tr Q : ends m st Q → did K m st tr (λ _, Q).
Proof. intros Hm t st' a Hr. apply (Hm K tr). by rewrite Hr. Qed.
Lemma did_mono {A} K (m : act A) st tr (Q R : trace → AppState → A → Prop) : did K m st tr Q → (∀ t st' a, Q t st' a → R t st' a) → did K m st tr R.
Proof. intros Hm HR t st' a Hr. by apply HR, Hm. Qed.
Lemma did_and {A} K (m : act A) st tr (Q R : trace → AppState → A → Prop) : did K m st tr Q → did K m st tr R → did K m st tr (λ t st' a, Q t st' a ∧ R t st' a).
Proof. intros HQ HR t st' a Hr. split; [by apply HQ|by apply HR]. Qed.

Lemma run_extends {A} K tr (p : prog A) : tr `prefix_of` (run K tr p).1.
Proof. destruct (run_app K tr p) as [t ->]. by apply prefix_app_r. Qed.
(** Between [tr] and [t] the program [p] was executed, with answer [a]. *)
Definition happened {A} (K : kernel) (tr t : trace) (p : prog A) (a : A) : Prop :=
  ∃ t0 t1, tr `prefix_of` t0 ∧ run K t0 p = (t1, Some a) ∧ t1 `prefix_of` t.
Lemma happened_later {A} K tr t t' (p : prog A) a : happened K tr t p a → t `prefix_of` t' → happened K tr t' p a.
Proof. intros (t0 & t1 & H0 & Hr & H1) Ht. exists t0, t1. split; [done|]. split; [done|]. by etransitivity. Qed.
Lemma happened_earlier {A} K tr tr' t (p : prog A) a : happened K tr' t p a → tr `prefix_of` tr' → happened K tr t p a.
Proof. intros (t0 & t1 & H0 & Hr & H1) Ht. exists t0, t1. split; [by etransitivity|done]. Qed.
Lemma happened_now {A} K tr t (p : prog A) a : run K tr p = (t, Some a) → happened K tr t p a.
Proof. intros Hr. by exists tr, t. Qed.
Lemma did_extends {A} K (m : act A) st tr : did K m st tr (λ t _ _, tr `prefix_of` t).
Proof. intros t st' a Hr. pose proof (run_extends K tr (m st)) as Hp. by rewrite Hr in Hp. Qed.
(** What happened in a part happened in the whole. *)
Lemma did_after {A B} K (m : act A) (f : A → act B) st tr Q (R : trace → AppState → B → Prop) :
  did K m st tr Q → (∀ t st' a, Q t st' a → tr `prefix_of` t → did K (f a) st' t (λ t' st'' b, t `prefix_of` t' → R t' st'' b)) → did K (abind m f) st tr R.
Proof.
  intros Hm Hf. eapply did_bind; [apply did_and; [exact Hm|apply did_extends]|]. intros t st' a [HQ Hp].
  eapply did_mono; [apply did_and; [by apply Hf|apply did_extends]|]. intros t' st'' b [HR Hp']. by apply HR.
Qed.

(** An action that leaves the shared state alone. *)
Definition stateless {A} (m : act A) : Prop := ∀ st, ends m st (λ st' _, st' = st).
Lemma stateless_ret {A} (a : A) : stateless (aret a).
Proof. intros st. by apply ends_ret. Qed.
Lemma stateless_lift {A} (p : prog A) : stateless (alift p).
Proof. intros st. by apply ends_lift. Qed.
Lemma stateless_read {A} (f : AppState → A) : stateless (aread f).
Proof. by intros st K tr st' a [= <- <-]. Qed.
Lemma stateless_bind {A B} (m : act A) (f : A → act B) : stateless m → (∀ a, stateless (f a)) → stateless (abind m f).
Proof. intros Hm Hf st. eapply ends_bind; [apply Hm|]. intros st' a ->. apply Hf. Qed.
Lemma stateless_try {E A B} (m : act (outcome E A)) (f : A → act (outcome E B)) : stateless m → (∀ a, stateless (f a)) → stateless (atry m f).
Proof. intros Hm Hf. apply stateless_bind; [done|]. intros [a|e|]; [apply Hf|apply stateless_ret..]. Qed.
Lemma ends_read {A B} (g : AppState → A) (f : A → act B) st Q : ends (f (g st)) st Q → ends (abind (aread g) f) st Q.
Proof. intros Hf. eapply (ends_bind _ _ _ (λ st' a, st' = st ∧ a = g st)); [by intros K tr st' a [= <- <-]|]. by intros st' a [-> ->]. Qed.
Lemma ends_read_try {E A B} (g : AppState → outcome E A) (f : A → act (outcome E B)) st (Q : AppState → outcome E B → Prop) :
  (∀ o, (∀ b, o ≠ Ok b) → Q st o) → (∀ a, g st = Ok a → ends (f a) st Q) → ends (atry (aread g) f) st Q.
Proof.
  intros Hq Hf. unfold atry. apply ends_read. destruct (g st) as [a|e|]; [by apply Hf|apply ends_ret; by apply Hq..].
Qed.
Lemma ends_stateless {A B} (m : act A) (f : A → act B) st Q : stateless m → (∀ a, ends (f a) st Q) → ends (abind m f) st Q.
Proof. intros Hm Hf. eapply ends_bind; [apply Hm|]. intros st' a ->. apply Hf. Qed.
Lemma ends_stateless_try {E A B} (m : act (outcome E A)) (f : A → act (outcome E B)) st (Q : AppState → outcome E B → Prop) :
  stateless m → (∀ o, (∀ b, o ≠ Ok b) → Q st o) → (∀ a, ends (f a) st Q) → ends (atry m f) st Q.
Proof. intros Hm Hq Hf. apply ends_stateless; [done|]. intros [a|e|]; [apply Hf|apply ends_ret; by apply Hq..]. Qed.
Lemma ends_modify {B} g (f : unit → act B) st Q : ends (f tt) (g st) Q → ends (abind (amod g) f) st Q.
Proof. intros Hf. by intros K tr st' b Hr; apply (Hf K tr). Qed.
(** An operation on the shared state that answers. *)
Lemma ends_update {A B} (g : AppState → AppState * A) (f : A → act B) st Q :
  ends (f (g st).2) (g st).1 Q → ends (abind (λ st, Ret (g st)) f) st Q.
Proof. intros Hf K tr st' b. unfold abind. cbn [pbind]. destruct (g st) as [st1 a]. apply Hf. Qed.
Create HintDb stateless.
#[export] Hint Resolve stateless_ret stateless_lift stateless_read stateless_bind stateless_try : stateless.

(** ** Capped buffers *)
Definition capped (buf : string) : Prop :=
  (str_len buf ≤ OUTPUT_CAP_BYTES)%nat ∨ ∃ p, buf = (p +:+ ELLIPSIS)%string ∧ str_len p = OUTPUT_CAP_BYTES.
Lemma cap_eq : OUTPUT_CAP_BYTES = OUTPUT_CAP.
Proof. done. Qed.
#[local] Opaque OUTPUT_CAP_BYTES OUTPUT_CAP.
Lemma str_nth_app_r n a b : (str_len a ≤ n)%nat → str_nth n (a +:+ b) = str_nth (n - str_len a) b.
Proof.
  revert n. induction a as [|c a IH]; intros n Hn; [by rewrite app_nil_l', Nat.sub_0_r|]. simpl in Hn. rewrite app_cons.
  destruct n as [|n]; [lia|]. simpl. apply IH. lia.
Qed.
Lemma slice_to_len n s p : slice_to n s = Some p → (n ≤ str_len s)%nat → str_len p = n.
Proof.
  unfold slice_to. destruct (Nat.ltb_spec (str_len s) n); [done|]. intros Hs Hle. destruct (str_nth n s) as [a|] eqn:En.
  - destruct (is_cont a); [done|]. injection Hs as <-. by apply str_take_len.
  - injection Hs as <-. destruct (Nat.eq_dec (str_len s) n) as [|Hne]; [done|]. destruct (str_nth_is_Some n s) as [? E]; [lia|congruence].
Qed.
Lemma push_capped_keeps buf line buf' : capped buf → push_capped buf line = Some buf' → capped buf'.
Proof.
  unfold push_capped. intros Hb. destruct (Nat.ltb_spec OUTPUT_CAP_BYTES (str_len buf + str_len line)) as [Hlt|Hle].
  - destruct (slice_to _ line) as [p|] eqn:Es; simpl; [|done]. apply slice_to_len in Es; [|lia].
    destruct Hb as [Hb|(q & -> & Hq)].
    + assert (str_len (buf +:+ p) = OUTPUT_CAP_BYTES) as Hl by (rewrite str_len_app; lia).
      destruct (ends_with _ _) eqn:Ee; intros [= <-]; [left; lia|right; by eexists].
    + assert (p = ""%string) as ->. { destruct p; [done|]. rewrite str_len_app in Es. simpl in Es. lia. }
      rewrite str_app_nil_r. assert (ends_with ELLIPSIS (q +:+ ELLIPSIS) = true) as -> by (apply ends_with_true; by eexists).
      intros [= <-]. right. by eexists.
  - intros [= <-]. left. rewrite str_len_app. lia.
Qed.
Lemma capped_truncate buf : capped buf → is_Some (truncate buf OUTPUT_CAP).
Proof.
  rewrite <- cap_eq. intros [Hb|(p & -> & Hp)]; unfold truncate.
  - apply Nat.leb_le in Hb as ->. by eexists.
  - destruct (_ <=? _)%nat; [by eexists|]. unfold slice_to.
    destruct (Nat.ltb_spec (str_len (p +:+ ELLIPSIS)) OUTPUT_CAP_BYTES) as [Hlt|_]; [rewrite str_len_app in Hlt; lia|].
    rewrite str_nth_app_r by lia. rewrite Hp, Nat.sub_diag. by eexists.
Qed.
(** Flushing such buffers does not panic. *)
Lemma capped_tail rec so se s : capped so → capped se → (jail_tail rec so se s).2 = false.
Proof.
  intros [so' Ho]%capped_truncate [se' He]%capped_truncate. simpl. unfold row_panics. destruct (jail_get rec s) as [r|]; [|done].
  unfold store_output. rewrite Ho, He. done.
Qed.

(** ** The ledger during a run *)
(** Row [rec] is followed: its output and its usage, nothing else. *)
Definition follows_row (rec : Z) (op : JailOp) : Prop :=
  match op with JTail id _ _ | JSample id _ => id = rec | _ => False end.
Definition followed (rec : Z) (st st' : AppState) : Prop :=
  ∃ ops, Forall (follows_row rec) ops ∧ st' = set_jails (foldl jail_step (a_jails st) ops) st.
Lemma set_jails_id st : set_jails (a_jails st) st = st.
Proof. by destruct st. Qed.
Lemma followed_refl rec st : followed rec st st.
Proof. exists []. split; [constructor|]. symmetry. apply set_jails_id. Qed.
Lemma followed_step rec st st' op : followed rec st st' → follows_row rec op → followed rec st (set_jails (jail_step (a_jails st') op) st').
Proof. intros (ops & HF & ->) Hop. exists (ops ++ [op]). split; [by apply Forall_app; split; [|constructor]|]. simpl. by rewrite foldl_app. Qed.
Lemma followed_trans rec a b c : followed rec a b → followed rec b c → followed rec a c.
Proof. intros (o1 & F1 & ->) (o2 & F2 & ->). exists (o1 ++ o2). split; [by apply Forall_app|]. simpl. by rewrite foldl_app. Qed.
Lemma flush_follows rec so se st0 st :
  followed rec st0 st → ends (flush rec so se) st (λ st' _, followed rec st0 st').
Proof. intros Hf. apply ends_mod. by apply (followed_step rec st0 st (JTail rec so se)). Qed.
Lemma stats_follows rec h st0 st : followed rec st0 st → ends (stats_tick rec h) st (λ st' _, followed rec st0 st').
Proof.
  intros Hf. unfold stats_tick. destruct (h_cgroup h); [|by apply ends_ret]. eapply ends_bind; [apply (ends_lift _ _ (λ st' _, st' = st)); done|].
  intros st' s ->. apply ends_mod. by apply (followed_step rec st0 st (JSample rec s)).
Qed.
Lemma drain_follows fuel rec h : ∀ so se od ed st0 st,
  followed rec st0 st → capped so → capped se →
  ends (drain fuel rec h so se od ed) st (λ st' o, followed rec st0 st' ∧ ∀ a b, o = Some (a, b) → capped a ∧ capped b).
Proof.
  induction fuel as [|fuel IH]; intros so se od ed st0 st Hf Ho He; [apply ends_halt|]. cbn [drain].
  destruct (od && ed); [apply ends_ret; split; [done|by intros a b [= <- <-]]|].
  eapply ends_bind; [apply (ends_lift _ _ (λ st' _, st' = st)); done|]. intros st' r ->.
  destruct (mon_event_of od ed r) as [l| |l| | | |]; try (by apply IH).
  - destruct (push_capped so l) as [so'|] eqn:E; [apply IH; [done|by eapply (push_capped_keeps so l)|done]|by apply ends_ret].
  - destruct (push_capped se l) as [se'|] eqn:E; [apply IH; [done|done|by eapply (push_capped_keeps se l)]|by apply ends_ret].
  - eapply ends_bind; [by apply flush_follows|]. intros st' [] Hf'. by apply IH.
  - eapply ends_bind; [by apply stats_follows|]. intros st' [] Hf'. by apply IH.
Qed.
Lemma ticks_follow fuel rec h so se : ∀ st0 st, followed rec st0 st → ends (ticks fuel rec h so se) st (λ st' _, followed rec st0 st').
Proof.
  induction fuel as [|fuel IH]; intros st0 st Hf; [apply ends_halt|]. cbn [ticks].
  eapply ends_bind; [apply (ends_lift _ _ (λ st' _, st' = st)); done|]. intros st' r ->.
  destruct (mon_event_of true true r); try (by apply ends_ret).
  - eapply ends_bind; [by apply flush_follows|]. intros st' [] Hf'. by apply IH.
  - eapply ends_bind; [by apply stats_follows|]. intros st' [] Hf'. by apply IH.
Qed.

Section monitored.
Context `{Target} `{DebugFmt} `{Seccompiler} (show_error : JailError → string).
(** The entry of workspace [id] is gone again, or was never made. *)
Definition released {A} (id : string) (m m' : ActiveMap A) : Prop := m' = m ∨ ∃ a, m' = active_remove id (active_insert id a m).
(** Where a run leaves the state: row [rec] was followed, and what was published
    is taken back. *)
Definition ran (rec : Z) (reg : option ExecRegistration) (st st' : AppState) : Prop :=
  ∃ st1 cgs ips, followed rec st st1 ∧ st' = set_active cgs ips st1 ∧
    match reg with
    | None => cgs = a_cgroups st ∧ ips = a_ips st
    | Some r => released (reg_workspace r) (a_cgroups st) cgs ∧ released (reg_workspace r) (a_ips st) ips
    end.
Lemma set_active_id st : set_active (a_cgroups st) (a_ips st) st = st.
Proof. by destruct st. Qed.
Lemma ran_refl rec reg st : ran rec reg st st.
Proof.
  exists st, (a_cgroups st), (a_ips st). split; [apply followed_refl|]. split; [by rewrite set_active_id|].
  destruct reg; [split; by left|done].
Qed.
Definition unpublished (reg : option ExecRegistration) (st : AppState) : AppState :=
  match reg with
  | Some r => set_active (if reg_cgroup r then active_remove (reg_workspace r) (a_cgroups st) else a_cgroups st)
                         (if reg_ip r then active_remove (reg_workspace r) (a_ips st) else a_ips st) st
  | None => st
  end.
Definition monitored (rec : Z) (reg : option ExecRegistration) (st st' : AppState) (o : outcome JailError Output) : Prop :=
  ∃ st1, followed rec st st1 ∧ st' = unpublished reg st1 ∧ ∀ e, o ≠ Err e.
Lemma drop_reg_monitored rec reg st st1 (o : outcome JailError Output) :
  (∀ e, o ≠ Err e) → followed rec st st1 → ends (let+ _ := drop_registration reg in aret o) st1 (monitored rec reg st).
Proof.
  intros Ho Hf. eapply (ends_bind _ _ _ (λ st' _, st' = unpublished reg st1)); [destruct reg; [by apply ends_mod|by apply ends_ret]|].
  intros st' [] ->. apply ends_ret. by exists st1.
Qed.
Lemma monitor_ran fuel rec h reg st : ends (monitor fuel rec h reg) st (monitored rec reg st).
Proof.
  unfold monitor. eapply ends_bind; [apply drain_follows; [apply followed_refl|left; simpl; lia|left; simpl; lia]|].
  intros st1 bufs [Hf Hc]. destruct bufs as [[so se]|].
  - destruct (Hc so se eq_refl) as [Ho He]. eapply ends_bind; [by apply ticks_follow|]. intros st2 [] Hf2.
    eapply ends_bind; [apply (ends_lift _ _ (λ st' _, st' = st2)); done|]. intros st3 o ->.
    eapply (ends_bind _ _ _ (λ st' p, p = false ∧ followed rec st st')).
    { intros K tr st' p. pose proof (capped_tail rec so se (a_jails st2) Ho He) as Hp. destruct (jail_tail _ _ _ _) as [s p'] eqn:E. simpl in Hp. subst p'.
      intros [= <- <-]. split; [done|]. replace s with (jail_step (a_jails st2) (JTail rec so se)) by exact (f_equal fst E). by apply followed_step. }
    intros st3 p [-> Hf3]. by apply drop_reg_monitored.
  - eapply ends_bind; [apply (ends_lift _ _ (λ st' _, st' = st1)); done|]. intros st2 [] ->. by apply drop_reg_monitored.
Qed.
Lemma run_monitored_ran fuel rec jail cmd args (id : option string) st :
  ends (run_monitored_with show_error fuel rec jail cmd args (registration_new <$> id)) st (λ st' _, ran rec (registration_new <$> id) st st').
Proof.
  unfold run_monitored_with. eapply ends_try; [apply (ends_lift _ _ (λ st' _, st' = st)); done|..]; [|by intros st' e ->; apply ran_refl|by intros st' ->; apply ran_refl].
  intros st' h ->. destruct id as [id|]; simpl.
  - eapply (ends_bind _ _ _ (λ st' reg, ∃ r, reg = Some r ∧ reg_workspace r = id ∧
      st' = set_active (match h_cgroup h with Some cg => active_insert id (cg_path cg) (a_cgroups st) | None => a_cgroups st end)
                       (match h_jail_ip h with Some ip => active_insert id ip (a_ips st) | None => a_ips st end) st ∧
      reg_cgroup r = match h_cgroup h with Some _ => true | None => false end ∧ reg_ip r = match h_jail_ip h with Some _ => true | None => false end)).
    { intros K tr st' o [= <- <-]. by eexists. }
    intros st1 reg (r & -> & <- & -> & Ec & Ei). eapply ends_mono; [apply monitor_ran|]. intros st' o (st2 & (ops & HF & ->) & -> & _).
    unfold unpublished. rewrite Ec, Ei. simpl.
    eexists (set_jails (foldl jail_step (a_jails st) ops) st), _, _. split; [by exists ops|]. split; [done|].
    split; [destruct (h_cgroup h); [right; by eexists|by left]|destruct (h_jail_ip h); [right; by eexists|by left]].
  - eapply (ends_bind _ _ _ (λ st' reg, reg = None ∧ st' = st)); [by apply ends_ret|]. intros st1 reg [-> ->].
    eapply ends_mono; [apply monitor_ran|]. intros st' o (st2 & Hf & -> & _). exists st2, (a_cgroups st2), (a_ips st2).
    split; [done|]. split; [by rewrite set_active_id|]. by destruct Hf as (ops & _ & ->).
Qed.
End monitored.

(** ** Timeouts *)
Lemma run_alift {A} K tr (p : prog A) st : run K tr (alift p st) = match run K tr p with (t, Some a) => (t, Some (st, a)) | (t, None) => (t, None) end.
Proof. unfold alift. rewrite run_bind. by destruct (run K tr p) as [t [a|]]. Qed.
Lemma run_abind {A B} K tr (m : act A) (f : A → act B) st :
  run K tr (abind m f st) = match run K tr (m st) with (t, Some (st', a)) => run K t (f a st') | (t, None) => (t, None) end.
Proof. unfold abind. rewrite run_bind. by destruct (run K tr (m st)) as [t [[st' a]|]]. Qed.
Lemma ascii_slice n s : is_ascii s = true → (n ≤ str_len s)%nat → is_Some (slice_to n s).
Proof.
  intros Ha Hn. unfold slice_to. destruct (Nat.ltb_spec (str_len s) n); [lia|]. destruct (str_nth n s) as [a|] eqn:E; [|by eexists].
  assert (is_cont a = false) as ->; [|by eexists]. apply (str_nth_forallb _ _ _ _ Ha) in E. unfold in_range, is_cont in *.
  apply andb_true_iff in E as [_ E%Z.leb_le]. unfold in_range. destruct (Z.leb_spec 128 (byte_val a)); [lia|done].
Qed.
Lemma push_capped_ascii buf line : is_ascii line = true → is_Some (push_capped buf line).
Proof.
  intros Ha. unfold push_capped. destruct (_ <? _)%nat; [|by eexists].
  destruct (ascii_slice (Nat.min (OUTPUT_CAP_BYTES - str_len buf) (str_len line)) line Ha) as [p ->]; [lia|]. by eexists.
Qed.
(** The calls of the loop. *)
Definition loop_call (c : syscall) : Prop := match c with Select _ _ | ReadFile _ => True | _ => False end.
Lemma only_sample path : only loop_call (sample path).
Proof.
  unfold sample. apply only_bind; [by split|]. intros [ior iow].
  repeat (apply only_bind; [by split|]; intros ?). done.
Qed.
Lemma only_stats rec h st : only loop_call (stats_tick rec h st).
Proof.
  unfold stats_tick. destruct (h_cgroup h) as [cg|]; [|done]. unfold abind. apply only_bind; [|by intros [? ?]].
  apply only_bind; [apply only_sample|done].
Qed.
Lemma only_drain fuel rec h : ∀ so se od ed st, only loop_call (drain fuel rec h so se od ed st).
Proof.
  induction fuel as [|fuel IH]; intros so se od ed st; [done|]. cbn [drain]. destruct (od && ed); [done|].
  unfold abind at 1. apply only_bind; [by split|]. intros [st' r]. destruct (mon_event_of od ed r); try apply IH.
  - destruct (push_capped so l); [apply IH|done].
  - destruct (push_capped se l); [apply IH|done].
  - unfold abind. apply only_bind; [apply only_stats|]. intros [st'' _]. apply IH.
Qed.
Lemma drain_never K fuel rec h :
  (∀ t e, rv (K t (Select true e)) ≠ 1 ∧ is_ascii (rtext (K t (Select true e))) = true) →
  ∀ so se ed st tr, (run K tr (drain fuel rec h so se false ed st)).2 = None.
Proof.
  intros HK. induction fuel as [|fuel IH]; intros so se ed st tr; [done|]. cbn [drain andb negb].
  rewrite run_abind, run_alift. cbn [run sys]. destruct (HK tr (negb ed)) as [H1 Ha]. set (r := K tr (Select true (negb ed))) in *.
  unfold mon_event_of. destruct (rv r =? 0).
  { destruct (push_capped_ascii so (rtext r) Ha) as [so' ->]. apply IH. }
  destruct (Z.eqb_spec (rv r) 1); [done|]. destruct (rv r =? 2).
  { destruct ed; [apply IH|]. destruct (push_capped_ascii se (rtext r) Ha) as [se' ->]. apply IH. }
  destruct (rv r =? 3); [destruct ed; apply IH|].
  destruct (rv r =? 4); [rewrite run_abind; apply IH|]. destruct (rv r =? 5); [|apply IH].
  rewrite run_abind. destruct (run K _ (stats_tick rec h st)) as [t [[st' []]|]]; [apply IH|done].
Qed.

(** C39: A monitored jail is never timed out.  The loop that follows a jail's output
    waits for both pipes to close before it waits for the process, and only that
    wait has the timeout: on every kernel on which the jail's standard output stays
    open (a command that sleeps for ever, or a child of it that keeps the pipe),
    the run never returns and no signal is ever sent, however small the jail's
    timeout is.  ([rtext] is ASCII so that the loop does not end in the panic of
    [push_capped] either.) *)
Theorem monitored_never_times_out `{Target} (fuel : nat) (rec : Z) (h : JailHandle) (reg : option ExecRegistration) (st : AppState)
    (K : kernel) (tr : trace) :
  (∀ t e, rv (K t (Select true e)) ≠ 1 ∧ is_ascii (rtext (K t (Select true e))) = true) →
  (run K tr (monitor fuel rec h reg st)).2 = None ∧
  ∀ pid sig r, (Kill pid sig, r) ∈ (run K tr (monitor fuel rec h reg st)).1 → (Kill pid sig, r) ∈ tr.
Proof.
  intros HK. unfold monitor. rewrite run_abind. pose proof (drain_never K fuel rec h HK "" "" false st tr) as Hn.
  pose proof (λ c r, only_run _ _ K tr c r (only_drain fuel rec h "" "" false false st)) as Ho.
  destruct (run K tr (drain fuel rec h "" "" false false st)) as [t [a|]]; [done|]. split; [done|].
  intros pid sig r Hin. by destruct (Ho _ _ Hin).
Qed.
Module MonitorExample.
Definition jail_handle : JailHandle := MkHandle 42 false 10 11 1000000 None None None false.
Definition app : AppState :=
  MkApp (Some exec_default) 16 metrics_new (new_lock ∅) jails_new (new_lock ∅) ∅ (new_lock ∅) (new_lock ∅) (new_lock ∅) "/state" None "/flavors".
(** A command that prints and then sleeps for ever. *)
Definition K : kernel := λ t c, match c with Select _ _ => if decide (t = []) then MkRet 0 0 [] "hello" [] else rint 4 | _ => rint 0 end.
End MonitorExample.
Lemma monitored_never_times_out_witness :
  (run MonitorExample.K [] (monitor 1000 7 MonitorExample.jail_handle None MonitorExample.app)).2 = None ∧
  ∀ pid sig r, (Kill pid sig, r) ∈ (run MonitorExample.K [] (monitor 1000 7 MonitorExample.jail_handle None MonitorExample.app)).1 → (Kill pid sig, r) ∈ ([] : trace).
Proof.
  apply (monitored_never_times_out 1000 7 MonitorExample.jail_handle None MonitorExample.app MonitorExample.K []).
  intros t e. unfold MonitorExample.K. by destruct (decide (t = [])).
Defined.
