(* ===== verification/ExecRoutes.v ===== *)
(** * Running code over HTTP

    Models [agentjail-ctl/src/routes/exec.rs]: request shapes, the jail
    configuration built from them, and the handlers [exec_in_session] and
    [create_run], on the engine's programs and the shared state of [Monitor].
    Temporary directories come from the [tempfile] crate ([MkTempDir]) and are
    removed when their guard is dropped. *)

From S2P Require Import Prelude Text Tenant Provider Ctl Jails Sessions Snapshots Sys Order Netlink Cgroup Config Isolation Child Run Git Monitor.
From S2P Require Workspaces.
Import Workspaces(GitSpec, ExecOptions, eo_network, eo_seccomp, eo_cpu_percent, eo_max_pids, zclamp, config_snapshot).
Local Open Scope Z_scope.

(** ** Requests and responses *)
Record ExecRequest := MkExecReq {
  er_cmd : string; er_args : list string; er_timeout_secs : option Z; er_memory_mb : option Z; er_options : ExecOptions }.
Record RunRequest := MkRunReq {
  rr_code : string; rr_language : string; rr_timeout_secs : option Z; rr_memory_mb : option Z;
  rr_git : option GitSpec; rr_options : ExecOptions }.
Definition default_language : string := "javascript".
Record StatsResponse := MkStatsResp {
  sr_memory_peak_bytes : Z; sr_memory_current_bytes : Z; sr_cpu_usage_usec : Z;
  sr_io_read_bytes : Z; sr_io_write_bytes : Z; sr_pids_current : Z }.
Record ExecResponse := MkExecResp {
  xr_stdout : string; xr_stderr : string; xr_exit_code : Z; xr_duration_ms : Z;
  xr_timed_out : bool; xr_oom_killed : bool; xr_stats : option StatsResponse }.
Definition language_runtime (lang : string) : outcome CtlError (string * string) :=
  if String.eqb lang "javascript" || String.eqb lang "js" then Ok ("main.mjs", "/usr/bin/node")%string
  else if String.eqb lang "python" || String.eqb lang "py" then Ok ("main.py", "/usr/bin/python3")%string
  else if String.eqb lang "bash" || String.eqb lang "sh" then Ok ("main.sh", "/bin/sh")%string
  else Err (BadRequest ("unsupported language: " +:+ lang)).
Definition stats_response (s : ResourceStats) : StatsResponse :=
  MkStatsResp (memory_peak_bytes s) (memory_current_bytes s) (Jails.cpu_usage_usec s) (io_read_bytes s) (io_write_bytes s) (Jails.pids_current s).
Definition output_to_response (o : Output) : ExecResponse :=
  MkExecResp (from_utf8_lossy (out_stdout o)) (from_utf8_lossy (out_stderr o)) (out_exit_code o)
    (u64 (out_duration o / 10 ^ 6)) (out_timed_out o) (out_oom_killed o) (stats_response <$> out_stats o).

(** ** The jail's configuration *)
Section exec.
Context `{HashIter} `{DebugFmt} `{Target} `{Seccompiler} (show_io : Z → string) (show_error : JailError → string).

Fixpoint check_domains (domains : list string) : outcome CtlError unit :=
  match domains with
  | [] => Ok tt
  | d :: rest =>
      if str_is_empty d || (253 <? str_len d)%nat then Err (BadRequest ("invalid domain: " +:+ str_debug d))
      else if has_control d || contains_whitespace d then Err (BadRequest ("invalid domain: " +:+ str_debug d))
      else if str_contains "://" d then Err (BadRequest ("domain must not include scheme: " +:+ str_debug d))
      else check_domains rest
  end.
Definition validate_domains (domains : list string) : outcome CtlError unit :=
  match domains with
  | [] => Err (BadRequest "allowlist must contain at least one domain")
  | _ => if (32 <? length domains)%nat then Err (BadRequest "allowlist limited to 32 domains") else check_domains domains
  end.
Definition jail_config (src out : string) (memory timeout : Z) (env : list (string * string)) (options : ExecOptions)
    (rw : bool) (overlays : list string) : prog (outcome CtlError JailConfig) :=
  let! net := Ret (match eo_network options with
                   | None | Some Workspaces.NetNone => Ok NetNone
                   | Some Workspaces.NetLoopback => Ok NetLoopback
                   | Some (Workspaces.NetAllowlist domains) =>
                       obind (validate_domains domains) (λ _, Ok (NetAllowlist domains))
                   end) in
  let sec := match eo_seccomp options with None | Some Workspaces.SecStandard => SecStandard | Some Workspaces.SecStrict => SecStrict end in
  let* uid := sys Getuid in
  pok {| source := src; output := out; source_rw := rw; network := net; seccomp := sec; landlock := false;
         memory_mb := memory; cpu_percent := zclamp 1 800 (default 100 (eo_cpu_percent options));
         max_pids := zclamp 1 1024 (default 64 (eo_max_pids options));
         io_read_mbps := io_read_mbps config_default; io_write_mbps := io_write_mbps config_default;
         timeout_secs := timeout; cfg_env := env; user_namespace := negb (rv uid =? 0); pid_namespace := true;
         ipc_namespace := ipc_namespace config_default; workdir := workdir config_default; gpu := gpu config_default;
         readonly_overlays := overlays |}.

(** ** Guards of a handler *)
Definition now_utc : act Z := let+ r := alift (sys NowUtc) in aret (rv r).
(** [try_acquire] and [ExecMetrics::start]; both guards are dropped at the end. *)
Definition with_permit {R} (body : act (outcome CtlError R)) : act (outcome CtlError R) := λ st,
  match a_permits st with
  | O => Ret (st, Err (BadRequest "too many concurrent executions"))
  | S n =>
      let* '(st, r) := body (set_gate n (metrics_start (a_metrics st)) st) in
      Ret (set_gate (S (a_permits st)) (metrics_drop (a_metrics st)) st, r)
  end.
Definition with_tempdir {R} (body : string → act (outcome CtlError R)) : act (outcome CtlError R) :=
  let+ d := alift (sys MkTempDir) in
  if negb (ok d) then aret (Err (IoErr (show_io (rerr d)))) else
  let+ r := body (rtext d) in
  let+ _ := alift (sys (RemoveDirAll (rtext d))) in
  aret r.
(** A run with its row in the ledger. *)
Definition run_recorded (fuel : nat) (tenant : string) (kind : JailKind) (label : string) (session : option string)
    (config : JailConfigSnapshot) (jail : Jail) (cmd : string) (args : list string) (reg : option ExecRegistration)
    : act (outcome CtlError Output) :=
  let+ t := now_utc in
  let+ rec_id := (λ st, let '(id, s) := jail_start t tenant kind label session None (a_jails st) in Ret (set_jails s st, id)) in
  let+ _ := amod (λ st, set_jails (jail_attach_config rec_id config (a_jails st)) st) in
  let+ result := run_monitored_with show_error fuel rec_id jail cmd args reg in
  match result with
  | Ok o =>
      let+ t := now_utc in
      let+ panicked := (λ st, let '(s, p) := jail_finish t rec_id o (a_jails st) in Ret (set_jails s st, p)) in
      if panicked : bool then aret Panic else aret (Ok o)
  | Err e =>
      let+ t := now_utc in
      let+ _ := amod (λ st, set_jails (jail_error t rec_id (show_error e) (a_jails st)) st) in
      aret (Err (JailErr (show_error e)))
  | Panic => aret Panic
  end.
Definition new_jail (cfg : JailConfig) : act (outcome CtlError Jail) := alift (ctl_jail show_error (jail_new cfg)).
Definition lift_result {E A} (o : outcome E A) : act (outcome E A) := aret o.
Definition clamp_timeout (t : Z) : Z := zclamp 1 3600 t.

(** ** Handlers *)
(** What each request asks of the engine. *)
Definition exec_memory (c : ExecConfig) (req : ExecRequest) : Z := Z.min (default (default_memory_mb c) (er_memory_mb req)) 8192.
Definition exec_timeout (c : ExecConfig) (req : ExecRequest) : Z := clamp_timeout (default (default_timeout_secs c) (er_timeout_secs req)).
Definition run_memory (c : ExecConfig) (req : RunRequest) : Z := Z.min (default (default_memory_mb c) (rr_memory_mb req)) 8192.
Definition run_timeout (c : ExecConfig) (req : RunRequest) : Z := clamp_timeout (default (default_timeout_secs c) (rr_timeout_secs req)).
Definition PATH_ENV : string * string := ("PATH", "/usr/local/bin:/usr/bin:/bin")%string.
Definition visible_session (sc : TenantScope) (id : string) : act (outcome CtlError Session) :=
  aread (λ st, ok_or (s ← sess_get id (a_sessions st); if can_see sc (s_tenant_id s) then Some s else None)
                     (NotFound ("session " +:+ id))).
Definition exec_enabled : act (outcome CtlError ExecConfig) :=
  aread (λ st, ok_or (a_exec_config st) (Internal "exec not enabled")).
Definition exec_in_session (fuel : nat) (sc : TenantScope) (id : string) (req : ExecRequest) : act (outcome CtlError ExecResponse) :=
  try+ exec_cfg := exec_enabled in
  try+ session := visible_session sc id in
  let+ expired := (match s_expires_at session with Some exp => let+ t := now_utc in aret (exp <? t) | None => aret false end) in
  if expired : bool then aret (Err (BadRequest "session expired")) else
  let timeout := exec_timeout exec_cfg req in
  let memory := exec_memory exec_cfg req in
  with_permit (
    with_tempdir (λ src, with_tempdir (λ out,
      try+ config := alift (jail_config src out memory timeout (PATH_ENV :: hash_iter (s_env session)) (er_options req) false []) in
      try+ jail := new_jail config in
      try+ result := run_recorded fuel (ts_tenant sc) Exec (er_cmd req) (Some id)
                       (config_snapshot (er_options req) memory timeout None) jail (er_cmd req) (er_args req) None in
      aret (Ok (output_to_response result))))).
Definition create_run (fuel : nat) (sc : TenantScope) (req : RunRequest) : act (outcome CtlError ExecResponse) :=
  try+ exec_cfg := exec_enabled in
  if 1024 * 1024 <? Z.of_nat (str_len (rr_code req)) then aret (Err (BadRequest "code exceeds 1 MB")) else
  let timeout := run_timeout exec_cfg req in
  let memory := run_memory exec_cfg req in
  with_permit (
    with_tempdir (λ src, with_tempdir (λ out,
      try+ '(filename, cmd) := lift_result (language_runtime (rr_language req)) in
      try+ _ := alift (match rr_git req with Some g => git_clone show_io g src | None => pok tt end) in
      try+ _ := alift (ctl_io show_io (WriteFile (path_join src filename) (rr_code req))) in
      try+ config := alift (jail_config src out memory timeout [PATH_ENV] (rr_options req) false []) in
      try+ jail := new_jail config in
      try+ result := run_recorded fuel (ts_tenant sc) Jails.Run (rr_language req) None
                       (config_snapshot (rr_options req) memory timeout (rr_git req)) jail cmd
                       ["/workspace/" +:+ filename]%string None in
      aret (Ok (output_to_response result))))).
End exec.

(** ** The ledger tells what happened *)
Section protocol.
Context `{HashIter} `{DebugFmt} `{Target} `{Seccompiler} (show_io : Z → string) (show_error : JailError → string).

(** The operations of one run on the ledger, from its start to its outcome. *)
Definition run_ops (id : Z) (t : Z) (tenant : string) (kind : JailKind) (label : string) (session : option string)
    (config : JailConfigSnapshot) (mid last : list JailOp) : list JailOp :=
  JStart t tenant kind label session None :: JAttach id config :: mid ++ last.
Definition closing {A} (id : Z) (out : Output → A) (o : outcome CtlError A) (last : list JailOp) : Prop :=
  match o with
  | Ok a => ∃ t r, last = [JFinish t id r] ∧ a = out r
  | Err e => ∃ t m, last = [JError t id m] ∧ e = JailErr m
  | Panic => last = [] ∨ ∃ t r, last = [JFinish t id r]
  end.
(** One run was recorded, or none was started and the answer is an error. *)
Definition recorded {A} (tenant : string) (kind : JailKind) (label : string) (session : option string) (config : JailConfigSnapshot)
    (out : Output → A) (s s' : InMemoryJailStore) (o : outcome CtlError A) : Prop :=
  (s' = s ∧ (∀ a, o ≠ Ok a)) ∨
  ∃ t mid last, s' = foldl jail_step s (run_ops (js_next_id s) t tenant kind label session config mid last) ∧
    Forall (follows_row (js_next_id s)) mid ∧ closing (js_next_id s) out o last.
(** Nothing but the ledger changed, and what a workspace exec publishes about the
    running jail, which is taken back. *)
Definition only_ledger (reg : option string) (st st' : AppState) : Prop :=
  ∃ cgs ips, st' = set_jails (a_jails st') (set_active cgs ips st) ∧
    match reg with
    | None => cgs = a_cgroups st ∧ ips = a_ips st
    | Some w => released w (a_cgroups st) cgs ∧ released w (a_ips st) ips
    end.

Lemma ends_now st : ends now_utc st (λ st' _, st' = st).
Proof. unfold now_utc. eapply ends_bind; [by apply (ends_lift _ _ (λ st' _, st' = st))|]. intros st' r ->. by apply ends_ret. Qed.
Definition run_logged (reg : option string) (tenant : string) (kind : JailKind) (label : string) (session : option string)
    (config : JailConfigSnapshot) (st st' : AppState) (mid last : list JailOp) : Prop :=
  only_ledger reg st st' ∧ Forall (follows_row (js_next_id (a_jails st))) mid ∧
  ∃ t, a_jails st' = foldl jail_step (a_jails st) (run_ops (js_next_id (a_jails st)) t tenant kind label session config mid last).
Lemma run_logged_snoc reg tenant kind label session config st st' mid last op :
  run_logged reg tenant kind label session config st st' mid last →
  run_logged reg tenant kind label session config st (set_jails (jail_step (a_jails st') op) st') mid (last ++ [op]).
Proof.
  intros ((cgs & ips & Hst & Hr) & HF & t & Hj). split; [|split; [done|]].
  - exists cgs, ips. split; [|done]. simpl. rewrite Hst. done.
  - exists t. change (a_jails (set_jails ?s ?a)) with s. rewrite Hj. unfold run_ops. simpl. by rewrite app_assoc, (foldl_app _ (mid ++ last) [op]).
Qed.
Lemma run_recorded_ends fuel tenant kind label session config jail cmd args (reg : option string) st :
  ends (run_recorded show_error fuel tenant kind label session config jail cmd args (registration_new <$> reg)) st (λ st' o,
    ∃ mid last, run_logged reg tenant kind label session config st st' mid last ∧ closing (js_next_id (a_jails st)) id o last).
Proof.
  unfold run_recorded. eapply ends_bind; [apply ends_now|]. intros ? t ->.
  set (st1 := set_jails (jail_step (a_jails st) (JStart t tenant kind label session None)) st).
  eapply (ends_bind _ _ _ (λ st' i, i = js_next_id (a_jails st) ∧ st' = st1)); [by intros K tr st' i [= <- <-]|].
  intros ? i [-> ->]. set (i := js_next_id (a_jails st)).
  set (st2 := set_jails (jail_step (a_jails st1) (JAttach i config)) st1).
  eapply (ends_bind _ _ _ (λ st' _, st' = st2)); [by apply ends_mod|]. intros ? [] ->.
  eapply ends_bind; [apply run_monitored_ran|]. intros st3 r (st3' & cgs & ips & (mid & HF & ->) & Est3 & Hreg).
  assert (run_logged reg tenant kind label session config st st3 mid []) as Hlog.
  { split; [|split; [done|]].
    - exists cgs, ips. split; [by rewrite Est3|]. by destruct reg.
    - exists t. unfold run_ops. rewrite app_nil_r, Est3. done. }
  clear Est3. destruct r as [o|e|].
  - eapply ends_bind; [apply ends_now|]. intros ? t2 ->.
    eapply (ends_bind _ _ _ (λ st' _, st' = set_jails (jail_step (a_jails st3) (JFinish t2 i o)) st3)); [by intros K tr st' p [= <- <-]|].
    intros ? p ->. apply (run_logged_snoc _ _ _ _ _ _ _ _ _ _ (JFinish t2 i o)) in Hlog.
    destruct p; apply ends_ret; exists mid, [JFinish t2 i o]; (split; [done|]); [right; by eexists _, _|by eexists _, _].
  - eapply ends_bind; [apply ends_now|]. intros ? t2 ->.
    eapply (ends_bind _ _ _ (λ st' _, st' = set_jails (jail_step (a_jails st3) (JError t2 i (show_error e))) st3)); [by apply ends_mod|].
    intros ? [] ->. apply (run_logged_snoc _ _ _ _ _ _ _ _ _ _ (JError t2 i (show_error e))) in Hlog.
    apply ends_ret. exists mid, [JError t2 i (show_error e)]. split; [done|]. by eexists _, _.
  - apply ends_ret. exists mid, []. split; [done|]. by left.
Qed.
(** The ledger is all that a handler changes, besides the total of executions:
    the permit is back and the gauge is down again. *)
Definition settled (st st' : AppState) : Prop :=
  ∃ total, st' = set_jails (a_jails st') (set_gate (a_permits st) (MkMetrics (m_active (a_metrics st)) total) st).
Definition handled (tenant : string) (kind : JailKind) (label : string) (session : option string) (config : JailConfigSnapshot)
    (st st' : AppState) (o : outcome CtlError ExecResponse) : Prop :=
  settled st st' ∧ recorded tenant kind label session config output_to_response (a_jails st) (a_jails st') o.
(** What the body of a handler, between its guards, guarantees. *)
Definition body_ok (tenant : string) (kind : JailKind) (label : string) (session : option string) (config : JailConfigSnapshot)
    (st st' : AppState) (o : outcome CtlError ExecResponse) : Prop :=
  only_ledger None st st' ∧ recorded tenant kind label session config output_to_response (a_jails st) (a_jails st') o.
Lemma body_ok_refused tenant kind label session config st (o : outcome CtlError ExecResponse) :
  (∀ a, o ≠ Ok a) → body_ok tenant kind label session config st st o.
Proof. intros Ho. split; [|by left]. exists (a_cgroups st), (a_ips st). split; [by destruct st|done]. Qed.
Lemma ends_lift_try {E A B} (p : prog (outcome E A)) (f : A → act (outcome E B)) st (Q : AppState → outcome E B → Prop) :
  (∀ o, (∀ b, o ≠ Ok b) → Q st o) → (∀ a, ends (f a) st Q) → ends (atry (alift p) f) st Q.
Proof.
  intros Hq Hf. eapply ends_try; [by apply (ends_lift _ _ (λ st' _, st' = st))|..]; intros st'; [intros a ->; apply Hf|intros e ->; by apply Hq|intros ->; by apply Hq].
Qed.
Lemma ends_tempdir {R} (body : string → act (outcome CtlError R)) st (Q : AppState → outcome CtlError R → Prop) :
  (∀ o, (∀ b, o ≠ Ok b) → Q st o) → (∀ d, ends (body d) st Q) → ends (with_tempdir show_io body) st Q.
Proof.
  intros Hq Hb. unfold with_tempdir. eapply ends_bind; [by apply (ends_lift _ _ (λ st' _, st' = st))|]. intros st' d ->.
  destruct (negb (ok d)); [apply ends_ret; by apply Hq|]. eapply ends_bind; [apply Hb|]. intros st' o HQ.
  eapply ends_bind; [by apply (ends_lift _ _ (λ st2 _, st2 = st'))|]. intros st2 r ->. by apply ends_ret.
Qed.
Lemma ends_permit tenant kind label session config (body : act (outcome CtlError ExecResponse)) st :
  0 ≤ m_active (a_metrics st) < 2 ^ 64 →
  (∀ st1, a_jails st1 = a_jails st → ends body st1 (body_ok tenant kind label session config st1)) →
  ends (with_permit body) st (handled tenant kind label session config st).
Proof.
  intros Hm Hb. unfold with_permit, ends. destruct (a_permits st) as [|n] eqn:Ep.
  - intros K tr st' o [= <- <-]. split; [|by left]. exists (m_total (a_metrics st)). destruct st; simpl in *. destruct a_metrics; simpl. by rewrite Ep.
  - intros K tr st' o. rewrite run_bind. set (st1 := set_gate n _ st). pose proof (Hb st1 eq_refl K tr) as Hb1.
    destruct (run K tr (body st1)) as [tr' [[st2 r]|]]; [|done]. destruct (Hb1 _ _ eq_refl) as [(cgs & ips & E2 & -> & ->) HR].
    intros [= <- <-]. split; [|done]. rewrite E2. exists (u64 (m_total (a_metrics st) + 1)). unfold settled, set_gate, set_jails. simpl.
    rewrite Ep. unfold metrics_drop, metrics_start. simpl. repeat f_equal. unfold u64. rewrite Zminus_mod_idemp_l, Z.add_simpl_r. by apply Z.mod_small.
Qed.
Lemma recorded_body fuel tenant kind label session config jail cmd args st :
  ends (try+ result := run_recorded show_error fuel tenant kind label session config jail cmd args None in
        aret (Ok (output_to_response result))) st (body_ok tenant kind label session config st).
Proof.
  assert (∀ st' (o' : outcome CtlError ExecResponse) mid last,
    run_logged None tenant kind label session config st st' mid last → closing (js_next_id (a_jails st)) output_to_response o' last →
    body_ok tenant kind label session config st st' o') as Hok.
  { intros st' o' mid last (Hl & HF & t & Hj) Hc. split; [done|]. right. by exists t, mid, last. }
  eapply ends_try; [apply (run_recorded_ends fuel tenant kind label session config jail cmd args None)|..].
  - intros st' o (mid & last & Hl & t & r & -> & ->). apply ends_ret. eapply Hok; [exact Hl|]. by exists t, r.
  - intros st' e (mid & last & Hl & Hc). by eapply Hok.
  - intros st' (mid & last & Hl & Hc). by eapply Hok.
Qed.
Lemma handled_refused tenant kind label session config st (o : outcome CtlError ExecResponse) :
  (∀ a, o ≠ Ok a) → handled tenant kind label session config st st o.
Proof. intros Ho. split; [|by left]. exists (m_total (a_metrics st)). destruct st as [? ? []]. done. Qed.

(** C15: The ledger tells what a request did.  Whatever the kernel and the jailed
    code do, when [exec_in_session] or [create_run] answers: either no run was
    started, the ledger is as before and the answer is not a success; or the
    ledger got exactly one new row, of the caller's tenant, with the configuration
    the request asked for, then only live output and usage of that row, and then
    its outcome: a finish whose output is what the client got, or the error the
    client got.  Only a panic of the handler can leave the row open.  The
    permit and the gauge of running executions are as before. *)
Theorem exec_ledger_protocol (fuel : nat) (sc : TenantScope) (id : string) (er : ExecRequest) (rr : RunRequest)
    (c : ExecConfig) (K : kernel) (tr : trace) (st st' : AppState) (o : outcome CtlError ExecResponse) :
  a_exec_config st = Some c → 0 ≤ m_active (a_metrics st) < 2 ^ 64 →
  ((run K tr (exec_in_session show_io show_error fuel sc id er st)).2 = Some (st', o) →
   handled (ts_tenant sc) Exec (er_cmd er) (Some id) (config_snapshot (er_options er) (exec_memory c er) (exec_timeout c er) None) st st' o) ∧
  ((run K tr (create_run show_io show_error fuel sc rr st)).2 = Some (st', o) →
   handled (ts_tenant sc) Jails.Run (rr_language rr) None (config_snapshot (rr_options rr) (run_memory c rr) (run_timeout c rr) (rr_git rr)) st st' o).
Proof.
  intros Hc Hm. split; intros Hr; revert K tr st' o Hr.
  - refine (_ : ends _ _ _). unfold exec_in_session.
    eapply (ends_try _ _ _ (λ st1 o1, st1 = st ∧ o1 = Ok c)); [intros K tr st' o [= <- <-]; by rewrite Hc|..]; [|by intros st1 e [_ [=]]|by intros st1 [_ [=]]].
    intros st1 c' [-> [= ->]].
    eapply (ends_try _ _ _ (λ st1 _, st1 = st)); [by intros K tr st' o [= <- <-]|..]; [|intros st1 e ->; by apply handled_refused|intros st1 ->; by apply handled_refused].
    intros st1 s ->. eapply (ends_bind _ _ _ (λ st1 _, st1 = st)).
    { destruct (s_expires_at s); [|by apply ends_ret]. eapply ends_bind; [apply ends_now|]. intros st1 t ->. by apply ends_ret. }
    intros st1 ex ->. destruct ex; [apply ends_ret; by apply handled_refused|]. apply ends_permit; [done|]. intros st1 _.
    do 2 (apply ends_tempdir; [intros; by apply body_ok_refused|]; intros ?).
    do 2 (apply ends_lift_try; [intros; by apply body_ok_refused|]; intros ?). apply recorded_body.
  - refine (_ : ends _ _ _). unfold create_run.
    eapply (ends_try _ _ _ (λ st1 o1, st1 = st ∧ o1 = Ok c)); [intros K tr st' o [= <- <-]; by rewrite Hc|..]; [|by intros st1 e [_ [=]]|by intros st1 [_ [=]]].
    intros st1 c' [-> [= ->]]. destruct (_ <? _); [apply ends_ret; by apply handled_refused|]. apply ends_permit; [done|]. intros st1 _.
    do 2 (apply ends_tempdir; [intros; by apply body_ok_refused|]; intros ?).
    eapply (ends_try _ _ _ (λ st2 _, st2 = st1)); [by apply ends_ret|..]; [|intros st2 e ->; by apply body_ok_refused|intros st2 ->; by apply body_ok_refused].
    intros st2 [filename prog] ->. do 4 (apply ends_lift_try; [intros; by apply body_ok_refused|]; intros ?). apply recorded_body.
Qed.
End protocol.

(** ** Which jails a program starts *)
(** Every process that a program starts is started by [Jail::spawn] of a jail with
    [P]: whenever its trace has a call of [fork], that call lies in a part of the trace
    that is an execution of [spawn] for such a jail. *)
Section spawning.
Context `{Target} `{DebugFmt} `{Seccompiler} (show_error : JailError → string).
Definition forks_within (P : Jail → Prop) {A} (p : prog A) : Prop :=
  ∀ K tr n r, (run K tr p).1 !! n = Some (Sys.Fork, r) → (length tr ≤ n)%nat →
    ∃ j cmd args t, P j ∧ tr `prefix_of` t ∧ (length t ≤ n < length (run K t (spawn show_error j cmd args)).1)%nat ∧
      (run K t (spawn show_error j cmd args)).1 `prefix_of` (run K tr p).1.
(** The same with what the program answers, whatever the kernel does. *)
Definition spawns (P : Jail → Prop) {A} (Q : A → Prop) (p : prog A) : Prop :=
  forks_within P p ∧ ∀ K tr a, (run K tr p).2 = Some a → Q a.
Definition is_fork (c : syscall) : bool := match c with Sys.Fork => true | _ => false end.

Lemma forks_avoids P {A} (p : prog A) : avoids is_fork p → forks_within P p.
Proof.
  intros Ha K tr n r Hn Hle. exfalso. revert tr n Hn Hle. induction p as [a| |c k IH]; intros tr n Hn Hle; simpl in *.
  1-2: apply lookup_lt_Some in Hn; lia.
  destruct Ha as [Hc Hk]. destruct (decide (n = length tr)) as [->|Hne].
  - pose proof (run_extends K (tr ++ [(c, K tr c)]) (k (K tr c))) as Hp.
    assert ((run K (tr ++ [(c, K tr c)]) (k (K tr c))).1 !! length tr = Some (c, K tr c)) as E.
    { eapply prefix_lookup_Some; [|exact Hp]. by apply list_lookup_middle. }
    rewrite E in Hn. injection Hn as ->. done.
  - eapply (IH (K tr c)); [done|exact Hn|]. rewrite length_app. simpl. lia.
Qed.
Lemma spawns_avoids P {A} (Q : A → Prop) (p : prog A) : avoids is_fork p → (∀ a, Q a) → spawns P Q p.
Proof. intros Ha HQ. split; [by apply forks_avoids|auto]. Qed.
Lemma spawns_spawn (P : Jail → Prop) j cmd args : P j → spawns P (λ _, True) (spawn show_error j cmd args).
Proof.
  intros HP. split; [|done]. intros K tr n r Hn Hle. exists j, cmd, args, tr. split; [done|]. split; [done|]. split; [|done]. split; [done|]. by eapply lookup_lt_Some.
Qed.
Lemma spawns_bind P {A B} (Q : A → Prop) (R : B → Prop) (p : prog A) (f : A → prog B) :
  spawns P Q p → (∀ a, Q a → spawns P R (f a)) → spawns P R (pbind p f).
Proof.
  intros [Hp HQ] Hf. split.
  - intros K tr n r. rewrite run_bind. specialize (Hp K tr n r). specialize (HQ K tr). pose proof (run_extends K tr p) as Hpre.
    destruct (run K tr p) as [t1 [a|]]; simpl in *; [|done]. destruct (Hf a (HQ a eq_refl)) as [Hfa _]. pose proof (run_extends K t1 (f a)) as Hpre'.
    intros Hn Hle. destruct (decide (length t1 ≤ n)%nat) as [Hge|Hlt].
    + destruct (Hfa K t1 n r Hn Hge) as (j & cmd & args & t & HP & Ht & Hlen & Hin). exists j, cmd, args, t. split; [done|]. split; [by etransitivity|]. by split.
    + destruct Hp as (j & cmd & args & t & HP & Ht & Hlen & Hin); [|done|].
      { destruct (lookup_lt_is_Some_2 t1 n) as [e He]; [lia|]. rewrite He. f_equal. eapply prefix_lookup_Some in He; [|exact Hpre']. rewrite He in Hn. by injection Hn. }
      exists j, cmd, args, t. split; [done|]. split; [done|]. split; [done|]. by etransitivity.
  - intros K tr b. rewrite run_bind. specialize (HQ K tr). destruct (run K tr p) as [t1 [a|]]; simpl in *; [|done].
    destruct (Hf a (HQ a eq_refl)) as [_ HR]. apply HR.
Qed.
Lemma spawns_ret P {A} (Q : A → Prop) a : Q a → spawns P Q (Ret a).
Proof. intros Ha. split; [by apply forks_avoids|]. by intros K tr a' [= <-]. Qed.
Lemma spawns_mono P {A} (Q R : A → Prop) p : spawns P Q p → (∀ a, Q a → R a) → spawns P R p.
Proof. intros [Hp HQ] HR. split; [done|]. intros K tr a Ha. by eapply HR, HQ. Qed.

(** Actions on the shared state. *)
Definition aspawns (P : Jail → Prop) {A} (Q : A → Prop) (m : act A) : Prop := ∀ st, spawns P (λ sa, Q sa.2) (m st).
Definition on_ok {E A} (Q : A → Prop) (o : outcome E A) : Prop := ∀ a, o = Ok a → Q a.
Lemma aspawns_bind P {A B} (Q : A → Prop) (R : B → Prop) (m : act A) (f : A → act B) :
  aspawns P Q m → (∀ a, Q a → aspawns P R (f a)) → aspawns P R (abind m f).
Proof. intros Hm Hf st. eapply spawns_bind; [apply Hm|]. intros [st' a] Ha. by apply Hf. Qed.
Lemma aspawns_ret P {A} (Q : A → Prop) a : Q a → aspawns P Q (aret a).
Proof. intros Ha st. by apply spawns_ret. Qed.
Lemma aspawns_lift P {A} (Q : A → Prop) (p : prog A) : spawns P Q p → aspawns P Q (alift p).
Proof. intros Hp st. eapply spawns_bind; [exact Hp|]. intros a Ha. by apply spawns_ret. Qed.
Lemma aspawns_quiet P {A} (p : prog A) : avoids is_fork p → aspawns P (λ _, True) (alift p).
Proof. intros Hp. apply aspawns_lift. by apply spawns_avoids. Qed.
(** An operation on the shared state makes no call. *)
Lemma aspawns_pure P {A} (g : AppState → AppState * A) : aspawns P (λ _, True) (λ st, Ret (g st)).
Proof. intros st. by apply spawns_ret. Qed.
Lemma aspawns_try P {E A B} (Q : A → Prop) (m : act (outcome E A)) (f : A → act (outcome E B)) :
  aspawns P (on_ok Q) m → (∀ a, Q a → aspawns P (λ _, True) (f a)) → aspawns P (λ _, True) (atry m f).
Proof. intros Hm Hf. eapply aspawns_bind; [exact Hm|]. intros [a|e|] Ha; [by apply Hf, Ha|by apply aspawns_ret..]. Qed.
Lemma aspawns_try_any P {E A B} (m : act (outcome E A)) (f : A → act (outcome E B)) :
  aspawns P (λ _, True) m → (∀ a, aspawns P (λ _, True) (f a)) → aspawns P (λ _, True) (atry m f).
Proof. intros Hm Hf. eapply aspawns_bind; [exact Hm|]. intros [a|e|] _; [by apply Hf|by apply aspawns_ret..]. Qed.

(** Following a jail starts no process. *)
Lemma only_avoids {A} (P : syscall → Prop) bad (p : prog A) : only P p → (∀ c, P c → bad c = false) → avoids bad p.
Proof. intros Hp HP. induction p as [a| |c k IH]; simpl in *; [done..|]. destruct Hp as [Hc Hk]. auto. Qed.
Lemma avoids_fork_read_number cg f : avoids is_fork (read_number cg f).
Proof. unfold read_number, cg_read. avoids_tac. Qed.
Lemma avoids_fork_cleanup h : avoids is_fork (cleanup_veth h).
Proof. unfold cleanup_veth, delete_link, ifindex, with_nl_socket, net, nl_socket, nl_exec. avoids_tac. Qed.
Lemma avoids_fork_drop_cgroup h : avoids is_fork (drop_cgroup h).
Proof.
  unfold drop_cgroup, cgroup_drop. avoids_tac.
  match goal with |- avoids _ (remove_loop ?n ?p) => generalize n as k end. intros k. induction k; cbn [remove_loop]; avoids_tac; done.
Qed.
Lemma avoids_fork_handle_drop h : avoids is_fork (handle_drop h).
Proof.
  unfold handle_drop, kill_tree. avoids_tac; try apply avoids_fork_cleanup; try apply avoids_fork_drop_cgroup.
  generalize 10%nat as k. intros k. induction k; cbn [reap_spin]; avoids_tac; done.
Qed.
Lemma avoids_fork_wait h : avoids is_fork (handle_wait h).
Proof.
  unfold handle_wait, wait_exit, await, kill_tree, collect_stats, io_stats, memory_peak, memory_current, cpu_usage_usec, oom_killed, pids_current.
  unfold cg_read. avoids_tac; try apply avoids_fork_read_number; try apply avoids_fork_cleanup; apply avoids_fork_handle_drop.
Qed.
Lemma aspawns_ticks P fuel rec h so se : aspawns P (λ _, True) (ticks fuel rec h so se).
Proof.
  induction fuel as [|fuel IH]; [intros st; by apply spawns_avoids|]. cbn [ticks].
  eapply aspawns_bind; [by apply aspawns_quiet|]. intros r _. destruct (mon_event_of true true r); try by apply aspawns_ret.
  - eapply aspawns_bind; [apply aspawns_pure|]. by intros [] _.
  - eapply (aspawns_bind _ (λ _, True)); [|by intros [] _]. intros st. apply spawns_avoids; [|done].
    eapply only_avoids; [apply only_stats|]. by intros [].
Qed.
Lemma aspawns_drop_registration P reg : aspawns P (λ _, True) (drop_registration reg).
Proof. destruct reg; [apply aspawns_pure|by apply aspawns_ret]. Qed.
Lemma aspawns_monitor P fuel rec h reg : aspawns P (λ _, True) (monitor fuel rec h reg).
Proof.
  unfold monitor. eapply (aspawns_bind _ (λ _, True)).
  { intros st. apply spawns_avoids; [|done]. eapply only_avoids; [apply only_drain|]. by intros []. }
  intros [[so se]|] _.
  - eapply aspawns_bind; [apply aspawns_ticks|]. intros [] _. eapply aspawns_bind; [apply aspawns_quiet, avoids_fork_wait|]. intros o _.
    eapply (aspawns_bind _ (λ _, True)); [intros st; destruct (jail_tail _ _ _ _); by apply spawns_ret|]. intros p _.
    eapply aspawns_bind; [apply aspawns_drop_registration|]. intros [] _. destruct p; by apply aspawns_ret.
  - eapply aspawns_bind; [apply aspawns_quiet, avoids_fork_handle_drop|]. intros [] _.
    eapply aspawns_bind; [apply aspawns_drop_registration|]. intros [] _. by apply aspawns_ret.
Qed.
Lemma aspawns_run_recorded (P : Jail → Prop) fuel tenant kind label session config jail cmd args :
  P jail → aspawns P (λ _, True) (run_recorded show_error fuel tenant kind label session config jail cmd args None).
Proof.
  intros HP. unfold run_recorded, now_utc.
  assert (aspawns P (λ _, True) (let+ r := alift (sys NowUtc) in aret (rv r))) as Hnow.
  { eapply aspawns_bind; [by apply aspawns_quiet|]. intros r _. by apply aspawns_ret. }
  eapply aspawns_bind; [exact Hnow|]. intros t _.
  eapply (aspawns_bind _ (λ _, True)); [intros st; destruct (jail_start _ _ _ _ _ _ _); by apply spawns_ret|]. intros i _.
  eapply aspawns_bind; [apply aspawns_pure|]. intros [] _. eapply (aspawns_bind _ (λ _, True)).
  - unfold run_monitored_with. apply aspawns_try_any; [by apply aspawns_lift, spawns_spawn|]. intros h.
    eapply aspawns_bind; [by apply (aspawns_ret _ (λ _, True))|]. intros reg _. apply aspawns_monitor.
  - intros [o|e|] _; [..|by apply aspawns_ret]; (eapply aspawns_bind; [exact Hnow|]; intros t' _).
    + eapply (aspawns_bind _ (λ _, True)); [intros st; destruct (jail_finish _ _ _ _); by apply spawns_ret|]. intros p _. destruct p; by apply aspawns_ret.
    + eapply aspawns_bind; [apply aspawns_pure|]. intros [] _. by apply aspawns_ret.
Qed.
End spawning.

(** ** What a request can ask for *)
Section limits.
Context `{HashIter} `{DebugFmt} `{Target} `{Seccompiler} (show_io : Z → string) (show_error : JailError → string).
(** A domain [validate_domains] accepts. *)
Definition acceptable_domain (d : string) : Prop :=
  (1 ≤ str_len d ≤ 253)%nat ∧ has_control d = false ∧ contains_whitespace d = false ∧ str_contains "://" d = false.
Lemma check_domains_ok ds : check_domains ds = Ok tt ↔ Forall acceptable_domain ds.
Proof.
  induction ds as [|d ds IH]; [by split|]. rewrite Forall_cons, <- IH. unfold acceptable_domain. cbn [check_domains].
  destruct (str_is_empty d) eqn:E1; [destruct d; [|done]; split; [done|]; simpl; intros [[? _] _]; lia|].
  assert (1 ≤ str_len d)%nat by (destruct d; [done|simpl; lia]). cbn [orb].
  destruct (Nat.ltb_spec 253 (str_len d)); [split; [done|]; intros [[? _] _]; lia|].
  destruct (has_control d), (contains_whitespace d), (str_contains "://" d); simpl; split; try done; intros; naive_solver lia.
Qed.
Lemma validate_domains_ok ds : validate_domains ds = Ok tt ↔ (1 ≤ length ds ≤ 32)%nat ∧ Forall acceptable_domain ds.
Proof.
  unfold validate_domains. destruct ds as [|d ds]; [split; [done|]; simpl; lia|].
  destruct (Nat.ltb_spec 32 (length (d :: ds))); [split; [done|]; lia|]. rewrite check_domains_ok. simpl in *. split; [split; [lia|done]|by intros [_ ?]].
Qed.
Lemma zclamp_bounds lo hi x : lo ≤ hi → lo ≤ zclamp lo hi x ≤ hi.
Proof. unfold zclamp. destruct (Z.ltb_spec x lo), (Z.ltb_spec hi x); lia. Qed.

(** What a jail started for a request that asks for [asked] MiB is like. *)
Definition within (asked : Z) (cfg : JailConfig) : Prop :=
  memory_mb cfg = Z.min asked 8192 ∧ 1 ≤ timeout_secs cfg ≤ 3600 ∧ 1 ≤ cpu_percent cfg ≤ 800 ∧ 1 ≤ max_pids cfg ≤ 1024 ∧
  seccomp cfg ≠ SecDisabled ∧ pid_namespace cfg = true ∧ ipc_namespace cfg = true ∧
  match network cfg with
  | NetAllowlist ds => (1 ≤ length ds ≤ 32)%nat ∧ Forall acceptable_domain ds
  | NetNone | NetLoopback => True
  end ∧
  source_rw cfg = false ∧ readonly_overlays cfg = [] ∧ gpu_enabled (gpu cfg) = false.
Definition jail_within (asked : Z) (j : Jail) : Prop := within asked (jl_config j) ∧ jl_filter j = Some (seccomp (jl_config j)).
Lemma jail_config_within P src out asked t env options :
  spawns show_error P (on_ok (within asked)) (jail_config src out (Z.min asked 8192) (clamp_timeout t) env options false []).
Proof.
  unfold jail_config. set (net := match eo_network _ with Some _ => _ | None => _ end).
  eapply (spawns_bind _ _ (λ o, o = net)); [by apply spawns_ret|]. intros o ->.
  destruct net as [n|e|] eqn:En; [|by apply spawns_ret..]. eapply (spawns_bind _ _ (λ _, True)); [by apply spawns_avoids|]. intros uid _.
  apply spawns_ret. intros cfg [= <-]. unfold within. cbn. unfold clamp_timeout. split; [done|]. do 3 (split; [apply zclamp_bounds; lia|]).
  split; [destruct (eo_seccomp _) as [[]|]; done|]. do 2 (split; [done|]). split; [|done].
  destruct (eo_network options) as [[| |ds]|]; subst net; try (by injection En as <-).
  destruct (validate_domains ds) as [[]|e|] eqn:Ev; [|done..]. injection En as <-. by apply validate_domains_ok.
Qed.
Lemma compile_some level : level ≠ SecDisabled → compile level ≠ Ok None.
Proof.
  intros Hl. unfold compile. destruct level; [by destruct Hl|..].
  all: destruct (if decide _ then _ else _) as [f|e|]; simpl; [|done..]; by destruct (sec_err (filter_compile f)).
Qed.
Lemma new_jail_within P asked cfg :
  within asked cfg → aspawns show_error P (on_ok (jail_within asked)) (new_jail show_error cfg).
Proof.
  intros Hw. apply aspawns_lift. unfold ctl_jail. eapply (spawns_bind _ _ (on_ok (jail_within asked))).
  2: { intros [j|e|] Hj; apply spawns_ret; [|done..]. intros j' [= <-]. by apply Hj. }
  unfold jail_new. assert (gpu_enabled (gpu cfg) = false) as -> by apply Hw.
  eapply (spawns_bind _ _ (λ _, True)); [by apply spawns_avoids|]. intros s _. destruct (negb _); [by apply spawns_ret|].
  eapply (spawns_bind _ _ (λ _, True)); [by apply spawns_avoids|]. intros o _. destruct (negb _); [by apply spawns_ret|].
  eapply (spawns_bind _ _ (λ r, r = Ok None)); [by apply spawns_ret|]. intros ? ->.
  assert (compile (seccomp cfg) ≠ Ok None) as Hc by (apply compile_some; apply Hw).
  destruct (compile (seccomp cfg)) as [[f|]|e|]; [|done|by apply spawns_ret..]. apply spawns_ret. by intros j [= <-].
Qed.
Lemma aspawns_permit P {R} (body : act (outcome CtlError R)) :
  aspawns show_error P (λ _, True) body → aspawns show_error P (λ _, True) (with_permit body).
Proof.
  intros Hb st. unfold with_permit. destruct (a_permits st); [by apply spawns_ret|].
  eapply spawns_bind; [apply Hb|]. intros [st' r] _. by apply spawns_ret.
Qed.
Lemma aspawns_tempdir P {R} (body : string → act (outcome CtlError R)) :
  (∀ d, aspawns show_error P (λ _, True) (body d)) → aspawns show_error P (λ _, True) (with_tempdir show_io body).
Proof.
  intros Hb. unfold with_tempdir. eapply aspawns_bind; [by apply aspawns_quiet|]. intros d _. destruct (negb (ok d)); [by apply aspawns_ret|].
  eapply aspawns_bind; [apply Hb|]. intros r _. eapply aspawns_bind; [by apply aspawns_quiet|]. intros _ _. by apply aspawns_ret.
Qed.
(** The common tail of the handlers: configure, make the jail, run it. *)
Lemma run_within fuel src out asked t env options tenant kind label session config cmd args :
  aspawns show_error (jail_within asked) (λ _, True) (
    try+ config' := alift (jail_config src out (Z.min asked 8192) (clamp_timeout t) env options false []) in
    try+ jail := new_jail show_error config' in
    try+ result := run_recorded show_error fuel tenant kind label session config jail cmd args None in
    aret (Ok (output_to_response result))).
Proof.
  eapply aspawns_try; [apply aspawns_lift, jail_config_within|]. intros cfg Hw.
  eapply aspawns_try; [by apply new_jail_within|]. intros j Hj.
  apply aspawns_try_any; [by apply aspawns_run_recorded|]. intros o. by apply aspawns_ret.
Qed.


(** The call writes the memory limit of [cg]. *)
Definition not_memory_max (cg : Cgroup) (c : syscall) : Prop := ∀ text, c ≠ WriteFile (path_join (cg_path cg) "memory.max") text.
Lemma path_join_ne p a b : starts_with "/" a = false → starts_with "/" b = false → a ≠ b → path_join p a ≠ path_join p b.
Proof.
  intros Ha Hb Hab. unfold path_join. rewrite Ha, Hb. destruct (str_is_empty p); [done|].
  destruct (ends_with "/" p); intros He%(inj (String.append _)); [done|]. by apply (inj (String.append "/")) in He.
Qed.
Lemma only_cg_write cg file text : starts_with "/" file = false → file ≠ "memory.max"%string → only (not_memory_max cg) (cg_write cg file text).
Proof.
  intros Hs Hf. unfold cg_write, try_io. apply only_jbind; [|done]. simpl. split; [|intros r; by destruct (ok r)].
  intros text' [= He _]. by apply (path_join_ne (cg_path cg) file "memory.max") in He.
Qed.
(** Asking for no memory gives all of it.  The routes only cap [memory_mb] from
    above, and the engine takes 0 for "no limit": a client that sends
    ["memory_mb": 0] gets a jail whose cgroup exists but whose [memory.max] is
    never written. *)
Theorem zero_memory_is_unlimited (c : ExecConfig) (req : ExecRequest) (K : kernel) (tr : trace) (src out : string)
    (env : list (string * string)) (rw : bool) (overlays : list string) (cfg : JailConfig) (cg : Cgroup) :
  er_memory_mb req = Some 0 →
  (run K tr (jail_config src out (exec_memory c req) (exec_timeout c req) env (er_options req) rw overlays)).2 = Some (Ok cfg) →
  has_limits cfg = true ∧ only (not_memory_max cg) (apply_limits cfg cg).
Proof.
  intros Hz Hr. assert (memory_mb cfg = 0 ∧ 1 ≤ cpu_percent cfg) as [Hm Hcpu].
  { revert Hr. unfold jail_config. set (net := match eo_network _ with Some _ => _ | None => _ end). unfold jbind. rewrite run_bind. cbn [run].
    destruct net as [n|e|]; [|done..]. cbn [sys pbind run]. intros [= <-]. cbn. unfold exec_memory. rewrite Hz. split; [done|apply zclamp_bounds; lia]. }
  split. { unfold has_limits. destruct (Z.ltb_spec 0 (cpu_percent cfg)); [by destruct (0 <? memory_mb cfg)|lia]. }
  unfold apply_limits, when. rewrite Hm. cbn [Z.ltb Z.compare].
  apply only_jbind; [done|]. intros _. apply only_jbind; [destruct (0 <? cpu_percent cfg); [by apply only_cg_write|done]|]. intros _.
  apply only_jbind; [destruct (0 <? max_pids cfg); [by apply only_cg_write|done]|]. intros _.
  destruct (_ || _); [|done]. destruct (utf8_valid (output cfg)); [|by split].
  apply only_bind; [|intros o; by destruct (is_ok o); [|split]]. unfold set_io_limit, get_device_id, try_io.
  apply only_jbind; [apply only_jbind; [split; [done|]; intros r; by destruct (ok r)|done]|]. intros d. by apply only_cg_write.
Qed.
End limits.

(** ** Witnesses *)
Module ExecExample.
(** A host on which every call succeeds, the jail prints one line and exits with 3. *)
Definition K : kernel := λ t c,
  match c with
  | MkTempDir => MkRet 0 0 [] "/tmp/d" []
  | Exists _ => rint 1
  | PipeCall _ => MkRet 0 0 [10; 11] "" []
  | Fork => rint 42
  | OnceBaseGet => MkRet 1 0 [] "/sys/fs/cgroup" []
  | Select true _ => if existsb (λ e, match e.1 with Select _ _ => true | _ => false end) t then rint 1 else MkRet 0 0 [] "hello" []
  | Select false true => rint 3
  | Select false false => rint 9
  | AwaitExit _ _ => MkRet 0 0 [3] "" []
  | Elapsed => rint 1500000
  | NowUtc => rint 1700000000
  | _ => rint 0
  end.
Definition options : ExecOptions := Workspaces.MkOpts (Some (Workspaces.NetAllowlist ["example.com"%string])) None (Some 5000) None.
Definition request : RunRequest := MkRunReq "console.log('hello')" "js" (Some 0) (Some 0) None (Workspaces.MkOpts None None None None).
Definition exec_request : ExecRequest := MkExecReq "/bin/sh" [] (Some 9999) (Some 0) options.
Definition scope : TenantScope := MkTS "acme" Operator.
Definition no_text {A} (_ : A) : string := "".
Definition result : option (AppState * outcome CtlError ExecResponse) :=
  (run K [] (create_run no_text no_text 20 scope request MonitorExample.app)).2.
Definition final : AppState := match result with Some (st, _) => st | None => MonitorExample.app end.
Definition answer : outcome CtlError ExecResponse := match result with Some (_, o) => o | None => Panic end.
Definition config : prog (outcome CtlError JailConfig) :=
  jail_config "/src" "/out" (exec_memory exec_default exec_request) (exec_timeout exec_default exec_request) [] (er_options exec_request) false [].
Definition built : JailConfig := match (run K [] config).2 with Some (Ok c) => c | _ => config_default end.
End ExecExample.
Lemma exec_ledger_protocol_witness :
  (∃ r, ExecExample.answer = Ok r ∧ xr_exit_code r = 3) ∧
  handled "acme" Jails.Run "js" None (config_snapshot (rr_options ExecExample.request) 0 1 None) MonitorExample.app ExecExample.final ExecExample.answer.
Proof.
  split; [by eexists; split; vm_compute|].
  apply (exec_ledger_protocol ExecExample.no_text ExecExample.no_text 20 ExecExample.scope "" ExecExample.exec_request ExecExample.request
    exec_default ExecExample.K [] MonitorExample.app); [done|done|by vm_compute].
Defined.
Lemma zero_memory_is_unlimited_witness :
  has_limits ExecExample.built = true ∧ only (not_memory_max (MkCgroup "/cg")) (apply_limits ExecExample.built (MkCgroup "/cg")).
Proof.
  apply (zero_memory_is_unlimited exec_default ExecExample.exec_request ExecExample.K [] "/src" "/out" [] false []); by vm_compute.
Defined.
