(* ===== verification/SnapshotRoutes.v ===== *)
(** * Snapshots over HTTP

    Models [agentjail-ctl/src/routes/snapshots.rs]: [capture_snapshot] and
    [restore_snapshot], which choose between full copies and the object pool, and
    the handlers built on them.  They run on the engine's snapshot programs and on
    the shared state of [Monitor]; identifiers and labels are drawn with
    [Getrandom]. *)

From S2P Require Import Prelude Text Tenant Provider Ctl Sessions Workspaces Snapshots Sys Order Mount Fs SnapshotStore Git Monitor ExecRoutes.
Local Open Scope Z_scope.

Section routes.
Context `{HexEncode} `{Json} `{Blake3} `{HashIter} `{Lowercase} (show_io : Z → string) (show_error : JailError → string).

(** ** Engine snapshots *)
(** [agentjail::freeze_cgroup(p).ok()]: the path, if it was frozen. *)
Definition frozen_path (cgroup_path : option string) : prog (option string) :=
  match cgroup_path with
  | None => Ret None
  | Some p =>
      let* o := freeze_cgroup p in
      match o with None => out_of_fuel | Some (Ok _) => Ret (Some p) | Some _ => Ret None end
  end.
Definition capture_snapshot (fuel : nat) (cgroup_path : option string) (output_dir snap_dir : string) (pool_dir : option string)
    : prog (outcome CtlError (Snapshot * Z)) :=
  match pool_dir with
  | Some pool =>
      let* frozen := frozen_path cgroup_path in
      let* snap := create_incremental fuel output_dir snap_dir pool in
      match snap with
      | Panic => Ret Panic
      | _ =>
          (match frozen with Some p => thaw_cgroup p ;;* Ret tt | None => Ret tt end) ;;*
          let! snap := ctl_jail show_error (Ret snap) in
          let* m := load_manifest snap_dir in
          let* size := (match m with Ok m => Ret (manifest_size_bytes m) | _ => snapshot_size_bytes fuel snap end) in
          pok (snap, size)
      end
  | None =>
      let! snap := ctl_jail show_error (snapshot_frozen fuel cgroup_path output_dir snap_dir) in
      let* size := snapshot_size_bytes fuel snap in
      pok (snap, size)
  end.
Definition NO_POOL : string := "snapshot is content-addressed but AGENTJAIL_SNAPSHOT_POOL_DIR is not set".
Definition restore_snapshot (fuel : nat) (snap_dir target_dir : string) (pool_dir : option string) : prog (outcome CtlError unit) :=
  let* e := sys (Exists (path_join snap_dir "manifest.json")) in
  if yes e then
    match pool_dir with
    | None => perr (BadRequest NO_POOL)
    | Some pool => ctl_jail show_error (restore_incremental snap_dir pool target_dir)
    end
  else
    let! loaded := ctl_jail show_error (load snap_dir target_dir) in
    ctl_jail show_error (restore_to fuel loaded target_dir).

(** ** Helpers of the handlers *)
Definition random_bytes (n : Z) : act (list ascii) :=
  let+ r := alift (sys (Getrandom n)) in aret (byte_of <$> take (Z.to_nat n) (rbytes r)).
(** Two indices and a word. *)
Definition random_slug : act string :=
  let+ r := alift (sys (Getrandom 4)) in
  aret (slug_generate (Z.to_nat (nth 0 (rbytes r) 0)) (Z.to_nat (nth 1 (rbytes r) 0)) (nth 2 (rbytes r) 0)).
(** [inspect_err]: undo a directory. *)
Definition or_remove {A} (dir : string) (m : act (outcome CtlError A)) : act (outcome CtlError A) :=
  let+ o := m in
  match o with
  | Err e => let+ _ := alift (sys (RemoveDirAll dir)) in aret (Err e)
  | _ => aret o
  end.
Definition create_dir_all (dir : string) : act (outcome CtlError unit) :=
  try+ _ := alift (ctl_io show_io (CreateDirAll dir)) in aret (Ok tt).
Definition visible_workspace (sc : TenantScope) (id : string) : act (outcome CtlError Workspace) :=
  aread (λ st, ok_or (w ← ws_get id (a_workspaces st); if can_see sc (w_tenant_id w) then Some w else None)
                     (NotFound ("workspace " +:+ id))).
Definition visible_snapshot (sc : TenantScope) (id : string) : act (outcome CtlError SnapshotRecord) :=
  aread (λ st, ok_or (s ← snap_get id (a_snapshots st); if can_see sc (sn_tenant_id s) then Some s else None)
                     (NotFound ("snapshot " +:+ id))).
Definition insert_snapshot (r : SnapshotRecord) : act (outcome CtlError unit) := λ st,
  let '(s, o) := snap_insert r (a_snapshots st) in Ret (set_snapshots s st, o).
Definition insert_workspace (w : Workspace) : act (outcome CtlError unit) := λ st,
  let '(s, o) := ws_insert w (a_workspaces st) in Ret (set_workspaces s st, o).
(** The snapshot of a live workspace, on disk and in the store. *)
Definition take_snapshot (fuel : nat) (ws : Workspace) (name : option string) : act (outcome CtlError SnapshotRecord) :=
  let+ b := random_bytes 12 in
  let snap_id := new_snapshot_id b in
  let+ snap_dir := aread (λ st, path_join (path_join (a_state_dir st) "snapshots") snap_id) in
  let+ active := aread (λ st, active_get (w_id ws) (a_cgroups st)) in
  let+ pool := aread a_pool_dir in
  try+ '(snap, size) := alift (capture_snapshot fuel active (w_source_dir ws) snap_dir pool) in
  let+ t := now_utc in
  let record := MkSnap snap_id (w_tenant_id ws) (Some (w_id ws)) name t (SnapshotStore.sn_path snap) size in
  try+ _ := or_remove snap_dir (insert_snapshot record) in
  aret (Ok record).
(** Both directories of a new workspace; the root of the two. *)
Definition workspace_dirs : act (outcome CtlError (string * string)) :=
  let+ b := random_bytes 12 in
  let new_id := new_workspace_id b in
  let+ ws_root := aread (λ st, path_join (path_join (a_state_dir st) "workspaces") new_id) in
  try+ _ := create_dir_all (path_join ws_root "source") in
  try+ _ := create_dir_all (path_join ws_root "output") in
  aret (Ok (new_id, ws_root)).
Definition default_workspace_spec : WorkspaceSpec := MkSpec 512 300 100 64 "none" [] "standard" 0 [].
(** [label.and_then(trim).or_else(generate)] *)
Definition label_or_slug (label : option string) : act string :=
  match l ← trim <$> label; if str_is_empty l then None else Some l with
  | Some l => aret l
  | None => random_slug
  end.

(** ** Handlers *)
Definition create_snapshot (fuel : nat) (sc : TenantScope) (id : string) (name : option string) : act (outcome CtlError SnapshotRecord) :=
  try+ ws := visible_workspace sc id in
  take_snapshot fuel ws name.
Definition list_snapshots (sc : TenantScope) (workspace_id : option string) (q_limit q_offset : option nat) (q : option string)
    : act (list SnapshotRecord * Z * nat * nat) :=
  let limit := Nat.min (default 50%nat q_limit) 500 in
  let offset := default 0%nat q_offset in
  let needle := s ← trim <$> q; if str_is_empty s then None else Some s in
  aread (λ st, let '(rows, total) := snap_list (tenant_filter sc) workspace_id limit offset needle (a_snapshots st) in
               (rows, total, limit, offset)).
Definition get_snapshot (sc : TenantScope) (id : string) : act (outcome CtlError SnapshotRecord) := visible_snapshot sc id.
Record ManifestEntryDto := MkDto { dto_path : string; dto_mode : Z; dto_hash : string; dto_size : Z }.
Record SnapshotManifest := MkSM { sm_kind : string; sm_entries : list ManifestEntryDto }.
Definition get_snapshot_manifest (sc : TenantScope) (id : string) : act (outcome CtlError SnapshotManifest) :=
  try+ rec := visible_snapshot sc id in
  let+ m := alift (load_manifest (Snapshots.sn_path rec)) in
  match m with
  | Ok m => aret (Ok (MkSM "incremental" ((λ e, MkDto (me_path e) (me_mode e) (me_hash e) (me_size e)) <$> mf_entries m)))
  | Err _ => aret (Ok (MkSM "classic" []))
  | Panic => aret Panic
  end.
Definition delete_snapshot (sc : TenantScope) (id : string) : act (outcome CtlError unit) :=
  try+ _ := visible_snapshot sc id in
  let+ removed := (λ st, let '(o, s) := snap_remove id (a_snapshots st) in Ret (set_snapshots s st, o)) in
  match removed with
  | None => aret (Err (NotFound ("snapshot " +:+ id)))
  | Some rec =>
      let+ e := alift (sys (Exists (Snapshots.sn_path rec))) in
      if yes e then let+ _ := alift (sys (RemoveDirAll (Snapshots.sn_path rec))) in aret (Ok tt) else aret (Ok tt)
  end.
Record FromSnapshotRequest := MkFromSnap { fs_snapshot_id : string; fs_parent_workspace_id : string; fs_label : option string }.
Definition create_workspace_from_snapshot (fuel : nat) (sc : TenantScope) (req : FromSnapshotRequest) : act (outcome CtlError Workspace) :=
  try+ snap := visible_snapshot sc (fs_snapshot_id req) in
  let claimed := trim (fs_parent_workspace_id req) in
  if str_is_empty claimed then aret (Err (BadRequest "parent_workspace_id is required")) else
  if negb (bool_decide (sn_workspace_id snap = Some claimed)) then aret (Err (NotFound ("snapshot " +:+ fs_snapshot_id req))) else
  let+ parent := aread (λ st, w ← ws_get claimed (a_workspaces st); if can_see sc (w_tenant_id w) then Some w else None) in
  match parent with
  | None => aret (Err (NotFound ("snapshot " +:+ fs_snapshot_id req)))
  | Some parent =>
      try+ '(new_id, ws_root) := workspace_dirs in
      let+ pool := aread a_pool_dir in
      try+ _ := or_remove ws_root (alift (restore_snapshot fuel (Snapshots.sn_path snap) (path_join ws_root "source") pool)) in
      let+ t := now_utc in
      let+ label := label_or_slug (fs_label req) in
      let ws := MkWs new_id (w_tenant_id parent) t None (path_join ws_root "source") (path_join ws_root "output") (w_config parent)
                  (w_git_repo parent) (w_git_ref parent) (Some label) [] None None None in
      try+ _ := or_remove ws_root (insert_workspace ws) in
      aret (Ok (redact_for sc ws))
  end.
End routes.

(** ** What a captured workspace gives back *)
(** Calls that only look. *)
Definition looks (c : syscall) : Prop :=
  match c with
  | Exists _ | IsDir _ | ReadDir _ | FileType _ | Metadata _ | LMetadata _ | OpenFile _ | ReadFile _ | ReadChunk _ _ => True
  | _ => False
  end.
Definition same_files (w w' : fs) : Prop := tree w' = tree w ∧ nodes w' = nodes w ∧ next_ino w' = next_ino w.
#[local] Opaque CHUNK.
Lemma looks_same `{Oracle} c w r w' : looks c → fs_exec c w = (r, w') → w' = w.
Proof. intros Hl. destruct c; try (by destruct Hl); cbn [fs_exec]; repeat case_match; by intros [= <- <-]. Qed.
Lemma fsrun_looks `{Oracle} {A} (p : prog A) w o w' : only looks p → fsrun w p = (o, w') → same_files w w'.
Proof.
  revert w. induction p as [a| |c k IH]; intros w; [by intros _ [= <- <-]..|]. intros [Hc Hk]. cbn [fsrun].
  destruct (waits c w); [by intros [= <- <-]|]. destruct (fs_exec c w) as [r w1] eqn:E. apply looks_same in E as ->; [|done]. intros Hr. by apply (IH r (tick w) (Hk r)) in Hr.
Qed.
Lemma only_fold_each {S A} P (body : S → A → prog (outcome JailError S)) s l : (∀ s x, only P (body s x)) → only P (fold_each body s l).
Proof. intros Hb. revert s. induction l as [|x l IH]; intros s; [done|]. apply only_jbind; [apply Hb|apply IH]. Qed.
Lemma only_try_io (P : syscall → Prop) wrap c : P c → only P (try_io wrap c).
Proof. intros Hc. by split. Qed.
Lemma dir_size_looks fuel path : only looks (dir_size fuel path).
Proof.
  revert path. induction fuel as [|fuel IH]; intros path; [done|]. cbn [dir_size]. apply only_jbind; [by apply only_try_io|]. intros r.
  apply only_fold_each. intros s [name|]; [|done]. apply only_jbind; [by apply only_try_io|]. intros ft.
  destruct (is_symlink_type ft); [done|]. destruct (is_dir_type ft); apply only_jbind; try done; by apply only_try_io.
Qed.
Lemma same_files_view w w' l : same_files w w' → view w' l = view w l.
Proof. intros (Ht & Hn & _). unfold view. by rewrite Ht, Hn. Qed.
Lemma fsrun_ctl_jail_ok `{Oracle} {A} show_error (p : prog (outcome JailError A)) w a w' :
  fsrun w (ctl_jail show_error p) = (Some (Ok a), w') → fsrun w p = (Some (Ok a), w').
Proof. unfold ctl_jail. rewrite fsrun_bind. destruct (fsrun w p) as [[[b|e|]|] w1]; simpl; try done. by intros [= <- <-]. Qed.
Lemma fsrun_ctl_bind_ok `{Oracle} {E A B} (w w' : fs) (m : prog (outcome E A)) (f : A → prog (outcome E B)) b :
  fsrun w (jbind m f) = (Some (Ok b), w') → ∃ a w1, fsrun w m = (Some (Ok a), w1) ∧ fsrun w1 (f a) = (Some (Ok b), w').
Proof. unfold jbind. rewrite fsrun_bind. destruct (fsrun w m) as [[[a|e|]|] w1]; simpl; try done. intros Hf. by exists a, w1. Qed.

Section classic.
Context `{Json} `{Blake3} `{Oracle} (show_error : JailError → string).
(** A capture without a pool and without a running exec is a copy. *)
Lemma capture_ok fuel w out snap lo d nm s size w' :
  wf w → names out lo → tree w !! lo = Some EDir → names snap (d ++ [nm]) → tree w !! d = Some EDir →
  apart lo (d ++ [nm]) → vacant w (d ++ [nm]) →
  fsrun w (capture_snapshot show_error fuel None out snap None) = (Some (Ok (s, size)), w') →
  s = MkSnapshot snap out ∧ wf w' ∧ ∀ rel, view w' ((d ++ [nm]) ++ rel) = view w (lo ++ rel).
Proof.
  intros Hw Ho Hlo Hs Hd Hap Hv. unfold capture_snapshot.
  intros (s1 & w1 & Hc%fsrun_ctl_jail_ok & Hr)%fsrun_ctl_bind_ok. unfold snapshot_frozen in Hc. cbn [pbind] in Hc. rewrite fsrun_bind in Hc.
  destruct (fsrun w (create fuel out snap)) as [[o|] w2] eqn:Ec; [|done]. injection Hc as -> ->.
  apply (create_ok fuel w out snap lo d nm) in Ec as [-> Hcp]; [|done..]. pose proof (copied_view _ _ _ _ Hcp) as Hcv. destruct Hcp as (Hw1 & _ & _).
  rewrite fsrun_bind in Hr. destruct (fsrun w1 (snapshot_size_bytes fuel (MkSnapshot snap out))) as [[z|] w3] eqn:Es; [|done]. injection Hr as <- _ <-.
  assert (same_files w1 w3) as Hsf. { eapply fsrun_looks; [|exact Es]. apply only_bind; [apply dir_size_looks|]. by intros [| |]. }
  split; [done|]. split. { destruct Hsf as (Ht & Hn & Hi). destruct Hw1 as [H1' H2' H3' H4']. split; rewrite ?Ht, ?Hn, ?Hi; auto. }
  intros rel. by rewrite (same_files_view _ _ _ Hsf), Hcv.
Qed.
Lemma manifest_plain : plain "manifest.json".
Proof. by apply (bool_decide_unpack _); vm_compute. Qed.
Lemma view_no_link w l i : view w l = Some i → is_Some (tree w !! l) ∧ is_link (tree w !! l) = false.
Proof. unfold view. by destruct (tree w !! l) as [[| | | |]|]. Qed.

(** A restore that succeeds without a pool makes a copy of the snapshot. *)
Lemma restore_classic_ok fuel w snap target ls dt nt u w' :
  wf w → names snap ls → tree w !! ls = Some EDir → names target (dt ++ [nt]) → tree w !! dt = Some EDir →
  tree w !! (dt ++ [nt]) = None ∨ tree w !! (dt ++ [nt]) = Some EDir → apart ls (dt ++ [nt]) →
  fsrun w (restore_snapshot show_error fuel snap target None) = (Some (Ok u), w') → copied id w ls (dt ++ [nt]) w'.
Proof.
  intros Hw Hs Hls Ht Hdt Hx Hap. unfold restore_snapshot. cbn [sys pbind fsrun waits opens].
  destruct (fs_exec (Exists _) w) as [r w4] eqn:Ex. apply looks_same in Ex as ->; [|done]. destruct (yes r); [done|].
  intros (s1 & w5 & Hl%fsrun_ctl_jail_ok & Hr%fsrun_ctl_jail_ok)%fsrun_ctl_bind_ok.
  unfold load in Hl. rewrite (exists_dir_yes (tick w) snap ls) in Hl; [|by apply wf_tick|done|done].
  injection Hl as <- <-. apply (restore_to_ok fuel _ _ target ls dt nt) in Hr as (Hw' & Hso & Hv); [|by do 2 apply wf_tick|done..].
  split; [done|]. split; [by do 2 apply same_untick in Hso|]. done.
Qed.

(** C40: Snapshots over HTTP give back what they captured, except for one file name.
    A workspace without a running exec is captured without a pool; later, when the
    snapshot is as it was, it is restored without a pool.  If the workspace had
    nothing called [manifest.json] at its top, every restore that succeeds leaves
    in the target exactly what was captured.  If it had a file or directory of
    that name, the copy is taken for a content-addressed snapshot: every restore
    is refused and changes nothing, so that the workspace cannot be resumed. *)
Theorem snapshot_route_roundtrip (fuel fuel' : nat) (w w1 w2 : fs) (out snap target : string) (lo d dt : loc) (nm nt : string)
    (s : Snapshot) (size : Z) :
  wf w → names out lo → tree w !! lo = Some EDir →
  names snap (d ++ [nm]) → tree w !! d = Some EDir → vacant w (d ++ [nm]) → apart lo (d ++ [nm]) →
  fsrun w (capture_snapshot show_error fuel None out snap None) = (Some (Ok (s, size)), w1) →
  wf w2 → (∀ rel, view w2 ((d ++ [nm]) ++ rel) = view w1 ((d ++ [nm]) ++ rel)) →
  names target (dt ++ [nt]) → tree w2 !! dt = Some EDir → tree w2 !! (dt ++ [nt]) = None ∨ tree w2 !! (dt ++ [nt]) = Some EDir → apart (d ++ [nm]) (dt ++ [nt]) →
  match view w (lo ++ ["manifest.json"%string]) with
  | None => ∀ u w3, fsrun w2 (restore_snapshot show_error fuel' snap target None) = (Some (Ok u), w3) →
      (∀ rel, view w3 ((dt ++ [nt]) ++ rel) = view w (lo ++ rel)) ∧ same_outside (dt ++ [nt]) w2 w3
  | Some _ => ∃ w3, fsrun w2 (restore_snapshot show_error fuel' snap target None) = (Some (Err (BadRequest NO_POOL)), w3) ∧ same_files w2 w3
  end.
Proof.
  intros Hw Ho Hlo Hs Hd Hv Hap Hc Hw2 Hkeep Ht Hdt Hx Hap'.
  apply (capture_ok fuel w out snap lo d nm) in Hc as (-> & Hw1 & Hcv); [|done..].
  assert (tree w2 !! (d ++ [nm]) = Some EDir) as Hd2.
  { specialize (Hkeep []). specialize (Hcv []). rewrite !app_nil_r in *. rewrite Hcv in Hkeep. unfold view in Hkeep. rewrite Hlo in Hkeep.
    destruct (tree w2 !! (d ++ [nm])) as [[|i| | |]|]; try done. by destruct (nodes w2 !! i). }
  unfold restore_snapshot. cbn [sys pbind fsrun waits opens].
  destruct (view w (lo ++ ["manifest.json"%string])) as [i|] eqn:Ei.
  - rewrite <- Hcv, <- Hkeep in Ei. apply view_no_link in Ei as [[e He] Hl].
    rewrite (exec_exists w2 _ ((d ++ [nm]) ++ ["manifest.json"%string])); [|done|by apply names_join, manifest_plain|by apply placed_join|done].
    rewrite He. by exists (tick w2).
  - destruct (fs_exec (Exists _) w2) as [r w4] eqn:Ex. intros u w3 Hr.
    assert (fsrun w2 (restore_snapshot show_error fuel' snap target None) = (Some (Ok u), w3)) as Hr' by (unfold restore_snapshot; cbn [sys pbind fsrun waits opens]; by rewrite Ex).
    apply (restore_classic_ok fuel' w2 snap target (d ++ [nm]) dt nt) in Hr' as Hcp; [|done..].
    split; [|by destruct Hcp as (_ & Hso & _)]. intros rel. rewrite (copied_view _ _ _ _ Hcp), Hkeep, Hcv. done.
Qed.
End classic.

(** ** Ownership *)
Section ownership.
Context `{HexEncode} `{Json} `{Blake3} `{HashIter} `{Lowercase} (show_io : Z → string) (show_error : JailError → string).
Lemma now_stateless : stateless now_utc.
Proof. unfold now_utc. auto with stateless. Qed.
Lemma random_stateless n : stateless (random_bytes n).
Proof. unfold random_bytes. auto with stateless. Qed.
Lemma slug_stateless : stateless random_slug.
Proof. unfold random_slug. auto with stateless. Qed.
Lemma label_stateless l : stateless (label_or_slug l).
Proof. unfold label_or_slug. case_match; [apply stateless_ret|apply slug_stateless]. Qed.
Lemma or_remove_stateless {A} dir (m : act (outcome CtlError A)) : stateless m → stateless (or_remove dir m).
Proof. intros Hm. unfold or_remove. apply stateless_bind; [done|]. intros [a|e|]; auto with stateless. Qed.
Lemma dirs_stateless : stateless (workspace_dirs show_io).
Proof.
  unfold workspace_dirs, create_dir_all. apply stateless_bind; [apply random_stateless|]. intros b.
  repeat (first [apply stateless_try|apply stateless_bind]; [auto with stateless|]; intros ?). apply stateless_ret.
Qed.
(** A directory is removed when the store refuses the row. *)
Lemma or_remove_ends {A} dir (m : act (outcome CtlError A)) st Q : ends m st Q → ends (or_remove dir m) st Q.
Proof.
  intros Hm. unfold or_remove. eapply ends_bind; [exact Hm|]. intros st' [a|e|] HQ; [by apply ends_ret| |by apply ends_ret].
  apply ends_stateless; [apply stateless_lift|]. intros _. by apply ends_ret.
Qed.

(** The only change is one new row, whose id was free. *)
Definition adds_snapshot (st st' : AppState) (r : SnapshotRecord) : Prop :=
  snap_get (sn_id r) (a_snapshots st) = None ∧ st' = set_snapshots (lock_write (<[sn_id r := r]>) (a_snapshots st)) st.
Definition adds_workspace (st st' : AppState) (w : Workspace) : Prop :=
  ws_get (w_id w) (a_workspaces st) = None ∧ st' = set_workspaces (lock_write (<[w_id w := w]>) (a_workspaces st)) st.
Lemma set_snapshots_id st : set_snapshots (a_snapshots st) st = st.
Proof. by destruct st. Qed.
Lemma set_workspaces_id st : set_workspaces (a_workspaces st) st = st.
Proof. by destruct st. Qed.
Lemma insert_snapshot_ends r st : ends (insert_snapshot r) st (λ st' o, match o with Ok _ => adds_snapshot st st' r | _ => st' = st end).
Proof.
  intros K tr st' o. unfold insert_snapshot, snap_insert, adds_snapshot, snap_get. destruct (lock_read (a_snapshots st)) as [g|] eqn:E; simpl.
  - case_bool_decide as Hg; intros [= <- <-]; [by rewrite set_snapshots_id|]. split; [by apply eq_None_not_Some|done].
  - intros [= <- <-]. by rewrite set_snapshots_id.
Qed.
Lemma insert_workspace_ends w st : ends (insert_workspace w) st (λ st' o, match o with Ok _ => adds_workspace st st' w | _ => st' = st end).
Proof.
  intros K tr st' o. unfold insert_workspace, ws_insert, adds_workspace, ws_get. destruct (lock_read (a_workspaces st)) as [g|] eqn:E; simpl.
  - case_bool_decide as Hg; intros [= <- <-]; [by rewrite set_workspaces_id|]. split; [|done]. by apply eq_None_not_Some in Hg as ->.
  - intros [= <- <-]. by rewrite set_workspaces_id.
Qed.
Lemma take_snapshot_ends fuel ws name st :
  ends (take_snapshot show_error fuel ws name) st (λ st' o, match o with
    | Ok r => adds_snapshot st st' r ∧ sn_tenant_id r = w_tenant_id ws ∧ sn_workspace_id r = Some (w_id ws) ∧ sn_name r = name
    | _ => st' = st end).
Proof.
  unfold take_snapshot. apply ends_stateless; [apply random_stateless|]. intros b. do 3 (apply ends_read).
  apply ends_stateless_try; [apply stateless_lift|by intros [a|e|] Ho; [by destruct (Ho a)| |]|]. intros [snap size].
  apply ends_stateless; [apply now_stateless|]. intros t. eapply ends_try; [apply or_remove_ends, insert_snapshot_ends|..]; [|done|done].
  intros st' u Ha. by apply ends_ret.
Qed.
(** What [sc] may rehydrate. *)
Definition rehydrates (sc : TenantScope) (req : FromSnapshotRequest) (st : AppState) (snap : SnapshotRecord) (parent ws : Workspace) : Prop :=
  snap_get (fs_snapshot_id req) (a_snapshots st) = Some snap ∧ can_see sc (sn_tenant_id snap) = true ∧
  sn_workspace_id snap = Some (trim (fs_parent_workspace_id req)) ∧
  ws_get (trim (fs_parent_workspace_id req)) (a_workspaces st) = Some parent ∧ can_see sc (w_tenant_id parent) = true ∧
  w_tenant_id ws = w_tenant_id parent ∧ w_config ws = w_config parent ∧ w_domains ws = [] ∧
  w_deleted_at ws = None ∧ w_paused_at ws = None ∧ w_auto_snapshot ws = None.
Lemma visible_ok {A} (o : option A) (see : A → bool) (e : CtlError) a :
  ok_or (x ← o; if see x then Some x else None) e = Ok a → o = Some a ∧ see a = true.
Proof. destruct o as [x|]; [|done]. simpl. destruct (see x) eqn:E; [|done]. by intros [= ->]. Qed.
Lemma refused_same {R} (st : AppState) (P : R → Prop) (o : outcome CtlError R) :
  (∀ b, o ≠ Ok b) → match o with Ok r => P r | _ => st = st end.
Proof. by destruct o as [r|e|]; intros Ho; [destruct (Ho r)|..]. Qed.
(** ** What the handlers do on the host *)
(** Whatever the kernel answers, a program that ends answers with [Q]. *)
Definition yields {A} (p : prog A) (Q : A → Prop) : Prop := ∀ K tr a, (run K tr p).2 = Some a → Q a.
Lemma yields_bind {A B} (p : prog A) (f : A → prog B) Q R : yields p Q → (∀ a, Q a → yields (f a) R) → yields (pbind p f) R.
Proof.
  intros Hp Hf K tr b. rewrite run_bind. specialize (Hp K tr). destruct (run K tr p) as [t [a|]]; [|done]. by apply Hf, Hp.
Qed.
Lemma yields_skip {A B} (p : prog A) (f : A → prog B) R : (∀ a, yields (f a) R) → yields (pbind p f) R.
Proof. intros Hf. by apply (yields_bind _ _ (λ _, True)). Qed.
Lemma yields_ret {A} (a : A) (Q : A → Prop) : Q a → yields (Ret a) Q.
Proof. by intros HQ K tr b [= <-]. Qed.
Lemma yields_try {E A B} (p : prog (outcome E A)) (f : A → prog (outcome E B)) (R : B → Prop) :
  (∀ a, yields (f a) (on_ok R)) → yields (jbind p f) (on_ok R).
Proof. intros Hf. apply yields_skip. intros [a|e|]; [apply Hf|by apply yields_ret..]. Qed.
(** A snapshot records the directory it was captured into. *)
Definition captured_into (dir : string) (x : Snapshot * Z) : Prop := SnapshotStore.sn_path x.1 = dir.
Lemma capture_path fuel cg out dir pool : yields (capture_snapshot show_error fuel cg out dir pool) (on_ok (captured_into dir)).
Proof.
  assert (∀ p : prog (outcome JailError Snapshot), yields p (on_ok (λ s, SnapshotStore.sn_path s = dir)) →
    yields (ctl_jail show_error p) (on_ok (λ s, SnapshotStore.sn_path s = dir))) as Hj.
  { intros p Hp. eapply yields_bind; [exact Hp|]. intros [s|e|] Hs; apply yields_ret; [|done..]. intros s' [= <-]. by apply Hs. }
  unfold capture_snapshot. destruct pool as [pool|].
  - apply yields_skip. intros frozen. eapply (yields_bind _ _ (on_ok (λ s, SnapshotStore.sn_path s = dir))).
    { unfold create_incremental, create_incremental_with_hint. apply yields_skip. intros e. destruct (negb _); [by apply yields_ret|].
      do 5 (apply yields_try; intros ?). apply yields_ret. by intros s [= <-]. }
    intros o Ho. assert (yields ((match frozen with Some p => thaw_cgroup p ;;* Ret tt | None => Ret tt end) ;;*
        (let! snap := ctl_jail show_error (Ret o) in let* m := load_manifest dir in
         let* size := (match m with Ok m => Ret (manifest_size_bytes m) | _ => snapshot_size_bytes fuel snap end) in pok (snap, size)))
      (on_ok (captured_into dir))) as Hk.
    { apply yields_skip. intros _. eapply yields_bind; [by apply Hj, yields_ret|]. intros [s|e|] Hs; [|by apply yields_ret..].
      apply yields_skip. intros m. apply yields_skip. intros size. apply yields_ret. intros x [= <-]. by apply Hs. }
    destruct o; [exact Hk..|]. by apply yields_ret.
  - eapply yields_bind; [apply Hj|].
    + unfold snapshot_frozen. apply yields_skip. intros frozen. eapply (yields_bind _ _ (on_ok (λ s, SnapshotStore.sn_path s = dir))).
      { unfold create. apply yields_skip. intros e. destruct (negb _); [by apply yields_ret|]. do 2 (apply yields_try; intros ?).
        apply yields_ret. by intros s [= <-]. }
      intros o Ho. destruct frozen; [apply yields_skip; intros _|]; by apply yields_ret.
    + intros [s|e|] Hs; [|by apply yields_ret..]. apply yields_skip. intros size. apply yields_ret. intros x [= <-]. by apply Hs.
Qed.
(** What [create_snapshot] does when it answers with [r]: it draws an id, captures the
    workspace's source directory, of a running exec while it is frozen, into the
    directory of that id, and reads the clock. *)
Definition captures (fuel : nat) (K : kernel) (tr t : trace) (st : AppState) (ws : Workspace) (r : SnapshotRecord) : Prop :=
  let dir := path_join (path_join (a_state_dir st) "snapshots") (sn_id r) in
  ∃ t1 snap, Snapshots.sn_path r = dir ∧
    run K (tr ++ [(Getrandom 12, K tr (Getrandom 12))])
      (capture_snapshot show_error fuel (active_get (w_id ws) (a_cgroups st)) (w_source_dir ws) dir (a_pool_dir st))
    = (t1, Some (Ok (snap, sn_size_bytes r))) ∧ t = t1 ++ [(NowUtc, K t1 NowUtc)].
Lemma take_snapshot_did fuel K ws name st tr :
  did K (take_snapshot show_error fuel ws name) st tr (λ t _ o, match o with Ok r => captures fuel K tr t st ws r | _ => True end).
Proof.
  unfold take_snapshot, random_bytes. eapply did_bind.
  { eapply (did_call _ _ _ _ _ (λ t st' b, st' = st ∧ t = tr ++ [(Getrandom 12, K tr (Getrandom 12))])), did_ret. done. }
  intros ? ? b [-> ->]. do 3 apply did_read. apply did_lift_try; [|by intros ? ? _ [x|e|] Hx; [destruct (Hx x)|..]].
  intros t1 [snap size] Hr. unfold now_utc. eapply did_bind.
  { eapply (did_call _ _ _ _ _ (λ t st' z, st' = st ∧ t = t1 ++ [(NowUtc, K t1 NowUtc)])), did_ret. done. }
  intros ? ? z [-> ->]. set (r := MkSnap _ _ _ _ _ _ _).
  assert (captures fuel K tr (t1 ++ [(NowUtc, K t1 NowUtc)]) st ws r) as Hcap.
  { exists t1, snap. split; [|done]. exact (capture_path _ _ _ _ _ K _ _ (f_equal snd Hr) _ eq_refl). }
  eapply (did_bind _ _ _ _ _ (λ t _ o, (∃ u, o = Ok u) → t = t1 ++ [(NowUtc, K t1 NowUtc)])).
  - unfold or_remove. eapply (did_bind _ _ _ _ _ (λ t _ _, t = t1 ++ [(NowUtc, K t1 NowUtc)])).
    { intros t st' o. unfold insert_snapshot. destruct (snap_insert _ _). by intros [= <- _ _]. }
    intros ? st' [u|e|] ->; [by apply did_ret|apply did_call, did_ret; by intros [? [=]]|by apply did_ret].
  - intros t st' [u|e|] Ht; apply did_ret; [|done..]. by rewrite Ht by eauto.
Qed.

(** What [create_workspace_from_snapshot] does when it has made [ws]: it draws an id,
    creates the two directories of a new root named by that id, and restores the
    snapshot's own directory into the first. *)
Definition restores (fuel : nat) (K : kernel) (tr t : trace) (st : AppState) (snap : SnapshotRecord) (ws : Workspace) : Prop :=
  let root := path_join (path_join (a_state_dir st) "workspaces") (w_id ws) in
  w_source_dir ws = path_join root "source" ∧ w_output_dir ws = path_join root "output" ∧
  ∃ r1 r2 r3 t1 t2, ok r2 = true ∧ ok r3 = true ∧
    run K (tr ++ [(Getrandom 12, r1); (CreateDirAll (w_source_dir ws), r2); (CreateDirAll (w_output_dir ws), r3)])
      (restore_snapshot show_error fuel (Snapshots.sn_path snap) (w_source_dir ws) (a_pool_dir st)) = (t1, Some (Ok tt)) ∧
    t = t1 ++ t2 ∧ Forall (λ e, match e.1 with NowUtc | Getrandom _ => True | _ => False end) t2.
Lemma dirs_did K st tr :
  did K (workspace_dirs show_io) st tr (λ t st' o, st' = st ∧ match o with
    | Ok (new_id, root) => root = path_join (path_join (a_state_dir st) "workspaces") new_id ∧ ∃ r1 r2 r3, ok r2 = true ∧ ok r3 = true ∧
        t = tr ++ [(Getrandom 12, r1); (CreateDirAll (path_join root "source"), r2); (CreateDirAll (path_join root "output"), r3)]
    | _ => True end).
Proof.
  unfold workspace_dirs, random_bytes. eapply did_bind.
  { eapply (did_call _ _ _ _ _ (λ t st' b, st' = st ∧ t = tr ++ [(Getrandom 12, K tr (Getrandom 12))])), did_ret. done. }
  intros ? ? b [-> ->]. apply did_read. set (root := path_join _ _). unfold create_dir_all.
  assert (∀ {B} dir t0 (f : unit → act (outcome CtlError B)) Q, (∀ o, (∀ b, o ≠ Ok b) → ∀ t, Q t st o) →
    (∀ r, ok r = true → did K (f tt) st (t0 ++ [(CreateDirAll dir, r)]) Q) →
    did K (try+ u := (try+ _ := alift (ctl_io show_io (CreateDirAll dir)) in aret (Ok tt)) in f u) st t0 Q) as Hmk.
  { intros B dir t0 f Q Hq Hf. set (r := K t0 (CreateDirAll dir)).
    eapply (did_bind _ _ _ _ _ (λ t st' o, st' = st ∧ t = t0 ++ [(CreateDirAll dir, r)] ∧ ∀ u, o = Ok u → ok r = true)).
    - apply did_lift_try; [|by intros t o [= <- <-] o' Ho; split_and!; [..|intros u ->; by destruct (Ho u)]].
      intros t a Hr. unfold ctl_io in Hr. cbn [run] in Hr. fold r in Hr. destruct (ok r); [|done]. injection Hr as <- _. by apply did_ret.
    - intros ? ? [[]|e|] (-> & -> & Ho); [by apply Hf, (Ho tt)|by apply did_ret, Hq..]. }
  apply Hmk; [by intros [x|e|] Ho t; [destruct (Ho x)|..]|]. intros r2 Hr2. apply Hmk; [by intros [x|e|] Ho t; [destruct (Ho x)|..]|].
  intros r3 Hr3. apply did_ret. split; [done|]. split; [done|]. exists (K tr (Getrandom 12)), r2, r3. do 2 (split; [done|]). by rewrite <- !app_assoc.
Qed.
Lemma from_snapshot_did fuel sc req K st tr :
  did K (create_workspace_from_snapshot show_io show_error fuel sc req) st tr (λ t st' o,
    ((∀ snap parent ws, ¬ rehydrates sc req st snap parent ws) → t = tr) ∧
    match o with
    | Ok v => ∃ snap parent ws, rehydrates sc req st snap parent ws ∧ restores fuel K tr t st snap ws ∧ adds_workspace st st' ws ∧ v = redact_for sc ws
    | _ => st' = st end).
Proof.
  unfold create_workspace_from_snapshot.
  assert (∀ (o : outcome CtlError Workspace), (∀ b, o ≠ Ok b) → ((∀ snap parent ws, ¬ rehydrates sc req st snap parent ws) → tr = tr) ∧
    match o with Ok v => ∃ snap parent ws, rehydrates sc req st snap parent ws ∧ restores fuel K tr tr st snap ws ∧ adds_workspace st st ws ∧ v = redact_for sc ws
    | _ => st = st end) as Hno by (intros [x|e|] Ho; [by destruct (Ho x)|done..]).
  apply did_read_try; [|done]. intros snap [Hs Hsee]%visible_ok.
  destruct (str_is_empty _); [by apply did_ret; split|]. case_bool_decide as Hp; [|by apply did_ret; split]. cbn [negb]. apply did_read.
  destruct (ws_get (trim (fs_parent_workspace_id req)) (a_workspaces st)) as [parent|] eqn:Ew; simpl; [|by apply did_ret; split].
  destruct (can_see sc (w_tenant_id parent)) eqn:Ec; [|by apply did_ret; split]. clear Hno.
  assert (∀ ws, w_tenant_id ws = w_tenant_id parent → w_config ws = w_config parent → w_domains ws = [] →
    w_deleted_at ws = None → w_paused_at ws = None → w_auto_snapshot ws = None → rehydrates sc req st snap parent ws) as Hre by (by repeat split).
  assert (∃ ws, rehydrates sc req st snap parent ws) as [w0 Hw0].
  { eexists (MkWs "" _ 0 None "" "" _ None None None [] None None None). by apply Hre. }
  eapply (did_mono _ _ _ _ (λ t st' o, match o with
    | Ok v => ∃ snap parent ws, rehydrates sc req st snap parent ws ∧ restores fuel K tr t st snap ws ∧ adds_workspace st st' ws ∧ v = redact_for sc ws
    | _ => st' = st end)); [|intros t st' o Ho; split; [by intros Hn; destruct (Hn _ _ _ Hw0)|done]].
  eapply did_bind; [apply dirs_did|]. intros t st0 [[new_id root]|e|] [-> Hd]; [|by apply did_ret..].
  destruct Hd as (-> & r1 & r2 & r3 & Hr2 & Hr3 & ->). apply did_read. set (root := path_join _ new_id).
  set (t0 := tr ++ _). eapply (did_bind _ _ _ _ _ (λ t st' o, st' = st ∧ ∀ u, o = Ok u →
      run K t0 (restore_snapshot show_error fuel (Snapshots.sn_path snap) (path_join root "source") (a_pool_dir st)) = (t, Some (Ok tt)))).
  { unfold or_remove. apply did_lift. intros t [[]|e|] Hr; [by apply did_ret|apply did_call, did_ret; by split|by apply did_ret]. }
  intros t1 ? [[]|e|] [-> Hr]; [|by apply did_ret..]. specialize (Hr tt eq_refl).
  eapply (did_bind _ _ _ _ _ (λ t st' _, st' = st ∧ ∃ t2, t = t1 ++ t2 ∧ Forall (λ e, match e.1 with NowUtc | Getrandom _ => True | _ => False end) t2)).
  { unfold now_utc. apply did_call, did_ret. split; [done|]. eexists. split; [done|]. by repeat constructor. }
  intros ? ? z (-> & t2 & -> & Hq2).
  eapply (did_bind _ _ _ _ _ (λ t st' _, st' = st ∧ ∃ t2, t = t1 ++ t2 ∧ Forall (λ e, match e.1 with NowUtc | Getrandom _ => True | _ => False end) t2)).
  { unfold label_or_slug. case_match; [apply did_ret; eauto|]. unfold random_slug. apply did_call, did_ret. split; [done|].
    eexists. split; [by rewrite <- app_assoc|]. apply Forall_app. split; [done|]. by repeat constructor. }
  intros ? ? label (-> & t3 & -> & Hq3). set (ws := MkWs _ _ _ _ _ _ _ _ _ _ _ _ _ _).
  eapply (did_bind _ _ _ _ _ (λ t st' o, match o with Ok _ => t = t1 ++ t3 ∧ adds_workspace st st' ws | _ => st' = st end)).
  - unfold or_remove. eapply did_bind; [apply (did_and _ _ _ _ (λ t _ _, t = t1 ++ t3)); [|apply did_ends, insert_workspace_ends]|].
    { intros t st' o. unfold insert_workspace. destruct (ws_insert _ _). by intros [= <- _ _]. }
    intros ? st' [u|e|] [-> Ha]; [by apply did_ret|by apply did_call, did_ret|by apply did_ret].
  - intros ? st' [u|e|] Ha; apply did_ret; [|done..]. destruct Ha as [-> Ha]. exists snap, parent, ws. split; [by apply Hre|]. split; [|done].
    split; [done|]. split; [done|]. exists r1, r2, r3, t1, t3. by split_and!.
Qed.
Lemma list_snapshots_seen sc workspace_id limit offset q st r :
  r ∈ (snap_list (tenant_filter sc) workspace_id limit offset q (a_snapshots st)).1 →
  (∃ k, snap_get k (a_snapshots st) = Some r) ∧ can_see sc (sn_tenant_id r) = true.
Proof.
  unfold snap_list, snap_get. destruct (lock_read (a_snapshots st)) as [g|]; [|by intros ?%elem_of_nil]. cbn [fst].
  intros Hr%elem_of_page. rewrite elem_of_sort_by, list_elem_of_filter in Hr. destruct Hr as [Hm Hin].
  apply list_elem_of_fmap in Hin as ([k r'] & -> & Hk%elem_of_hash_iter). split; [by exists k|].
  apply andb_true_iff in Hm as [[Hm _]%andb_true_iff _]. by rewrite tenant_filter_sees in Hm.
Qed.

End ownership.

(** ** Witnesses *)
Module SnapExample.
Local Open Scope string_scope.
(** A serialization that can be read back: the bits of a number that encodes the manifest. *)
#[export] Instance entry_eq_dec : EqDecision ManifestEntry.
Proof. solve_decision. Defined.
#[export] Instance manifest_eq_dec : EqDecision Manifest.
Proof. solve_decision. Defined.
#[export] Instance entry_countable : Countable ManifestEntry :=
  inj_countable' (λ e, (me_path e, me_mode e, me_hash e, me_size e, me_mtime e)) (λ '(p, m, h, s, t), MkEntry p m h s t) ltac:(by intros []).
#[export] Instance manifest_countable : Countable Manifest :=
  inj_countable' (λ m, (mf_version m, mf_entries m)) (λ '(v, es), MkManifest v es) ltac:(by intros []).
Fixpoint bits (p : positive) : string :=
  match p with xH => "" | xO p => String "0" (bits p) | xI p => String "1" (bits p) end.
Fixpoint unbits (s : string) : positive :=
  match s with EmptyString => xH | String c s => if Ascii.eqb c "0" then xO (unbits s) else xI (unbits s) end.
Lemma unbits_bits p : unbits (bits p) = p.
Proof. induction p as [p IH|p IH|]; simpl; by rewrite ?IH. Qed.
#[export] Instance json_ref : Json.
Proof.
  refine {| to_vec_pretty m := Ok (bits (encode m));
            from_slice s := match decode (unbits s) with Some m => Ok m | None => Err "invalid manifest" end |}.
  intros m text [= <-]. by rewrite unbits_bits, decode_encode.
Defined.
Definition pad (d : string) : list Ascii.ascii := take 32 (String.list_ascii_of_string d ++ replicate 32 Ascii.zero).
#[export] Instance hash_ref : Blake3.
Proof. refine {| blake3 := pad |}. intros d. unfold pad. rewrite length_take, length_app, length_replicate. lia. Defined.
(** Two workspaces; the second is a web application. *)
Definition host : fs := build
  [([], EDir); (["a"], EDir); (["a"; "x"], EFile 0); (["b"], EDir); (["b"; "manifest.json"], EFile 1); (["s"], EDir); (["t"], EDir)]
  [(0%N, MkNode "hello" 420 1); (1%N, MkNode "{}" 420 1)].
Definition no_text {A} (_ : A) : string := "".
Definition captured (dir : string) : option (outcome CtlError (Snapshot * Z)) * fs :=
  fsrun host (capture_snapshot no_text 5 None dir "/s/1" None).
Definition restored (dir : string) : option (outcome CtlError unit) * fs :=
  fsrun (captured dir).2 (restore_snapshot no_text 5 "/s/1" "/t" None).
Lemma host_ok : wf host.
Proof. apply wf_check_ok. vm_compute. reflexivity. Qed.
(** A control plane with one workspace and one snapshot of it. *)
Definition ws : Workspace := MkWs "wrk_1" "acme" 1 None "/state/workspaces/wrk_1/source" "/state/workspaces/wrk_1/output" default_workspace_spec
  None None None [] None None None.
Definition snap : SnapshotRecord := MkSnap "snap_1" "acme" (Some "wrk_1") None 1 "/state/snapshots/snap_1" 5.
Definition app : AppState := set_workspaces (new_lock {[ "wrk_1" := ws ]}) (set_snapshots (new_lock {[ "snap_1" := snap ]}) MonitorExample.app).
Definition K : kernel := λ _ c,
  match c with Exists p => rint (if ends_with "manifest.json" p then 0 else 1) | Getrandom _ => MkRet 12 0 [1; 2; 3] "" [] | NowUtc => rint 9 | _ => rint 0 end.
Definition request : FromSnapshotRequest := MkFromSnap "snap_1" " wrk_1 " None.
Definition rehydrated : trace * option (AppState * outcome CtlError Workspace) :=
  run K [] (create_workspace_from_snapshot no_text no_text 5 (MkTS "acme" Operator) request app).
End SnapExample.
#[local] Existing Instance SnapExample.json_ref.
#[local] Existing Instance SnapExample.hash_ref.
Lemma snapshot_route_roundtrip_witness :
  (∀ rel, view (SnapExample.restored "/a").2 (["t"%string] ++ rel) = view SnapExample.host (["a"%string] ++ rel)) ∧
  ∃ w3, SnapExample.restored "/b" = (Some (Err (BadRequest NO_POOL)), w3) ∧ same_files (SnapExample.captured "/b").2 w3.
Proof.
  assert (∀ l, tree SnapExample.host !! (["s"%string] ++ [l]) = None → vacant SnapExample.host (["s"%string] ++ [l])) as Hvac.
  { intros l Hl. split; [by left|]. intros rel Hrel. apply wf_below; [apply SnapExample.host_ok|by rewrite Hl|done]. }
  assert (wf (SnapExample.captured "/a").2 ∧ wf (SnapExample.captured "/b").2) as [Hwa Hwb] by (by split; apply wf_check_ok; vm_compute).
  pose proof SnapExample.host_ok as Hok.
  pose proof (snapshot_route_roundtrip SnapExample.no_text 5 5 SnapExample.host (SnapExample.captured "/a").2 (SnapExample.captured "/a").2 "/a" "/s/1" "/t"
      ["a"%string] ["s"%string] [] "1" "t" (MkSnapshot "/s/1" "/a") 5) as Ha.
  pose proof (snapshot_route_roundtrip SnapExample.no_text 5 5 SnapExample.host (SnapExample.captured "/b").2 (SnapExample.captured "/b").2 "/b" "/s/1" "/t"
      ["b"%string] ["s"%string] [] "1" "t" (MkSnapshot "/s/1" "/b") 2) as Hb.
  do 14 (specialize (Ha ltac:(first [assumption|match goal with |- ∀ _, _ = _ => intros rel; reflexivity end|by apply (bool_decide_unpack _); vm_compute|by apply Hvac; vm_compute|right; by vm_compute|by vm_compute]))).
  do 14 (specialize (Hb ltac:(first [assumption|match goal with |- ∀ _, _ = _ => intros rel; reflexivity end|by apply (bool_decide_unpack _); vm_compute|by apply Hvac; vm_compute|right; by vm_compute|by vm_compute]))).
  split; [|exact Hb]. apply (Ha tt). by vm_compute.
Defined.
