(* ===== verification/WorkspaceOps.v ===== *)
(** * Workspaces: creating, forking and running in them

    Models the handlers of [agentjail-ctl/src/routes/workspaces.rs] that need the
    host ([create_workspace], [fork_workspace]) and
    [routes/workspaces_exec.rs] ([exec_in_workspace]: the per-workspace lock of
    [WorkspaceLocks], auto-resume, flavors, the ledger).  The held locks are a set
    in the shared state. *)

From S2P Require Import Prelude Text Tenant Provider Ctl Jails Sessions Workspaces Snapshots Sys Order Netlink Mount Config Isolation Child Cgroup Run Fs SnapshotStore Flavors Git Monitor ExecRoutes SnapshotRoutes.
Local Open Scope Z_scope.

Record WorkspaceExecRequest := MkWsExec {
  we_cmd : string; we_args : list string; we_timeout_secs : option Z; we_memory_mb : option Z; we_env : list (string * string) }.
Record CreateWorkspaceRequest := MkCreateWs {
  cw_git : option GitSpec; cw_label : option string; cw_memory_mb : option Z; cw_timeout_secs : option Z;
  cw_idle_timeout_secs : option Z; cw_domains : option (list WorkspaceDomain); cw_flavors : option (list string);
  cw_options : ExecOptions }.
Record ForkWorkspaceRequest := MkForkWs { fw_count : nat; fw_label : option string }.
Record ForkWorkspaceResponse := MkForkResp { fr_parent : Workspace; fr_forks : list Workspace; fr_snapshot_id : string }.

Section ops.
Context `{HexEncode} `{Json} `{Blake3} `{DebugFmt} `{Target} `{Seccompiler} (show_io : Z → string) (show_error : JailError → string).

(** ** Running in a workspace *)
(** [lock_for(id).try_lock()], with the guard dropped at the end. *)
Definition with_lock {R} (id : string) (body : act (outcome CtlError R)) : act (outcome CtlError R) := λ st,
  if decide (id ∈ a_locks st) then Ret (st, Err (Conflict "another exec is in flight against this workspace"))
  else
    let* '(st, r) := body (set_locks ({[id]} ∪ a_locks st) st) in
    Ret (set_locks (a_locks st ∖ {[id]}) st, r).
Definition auto_resume (fuel : nat) (ws : Workspace) : act (outcome CtlError unit) :=
  match w_paused_at ws, w_auto_snapshot ws with
  | Some _, Some snap_id =>
      let+ snap := aread (λ st, snap_get snap_id (a_snapshots st)) in
      match snap with
      | None => aret (Ok tt)
      | Some snap =>
          let+ pool := aread a_pool_dir in
          try+ _ := alift (restore_snapshot show_error fuel (Snapshots.sn_path snap) (w_source_dir ws) pool) in
          let+ _ := amod (λ st, set_workspaces (ws_mark_resumed (w_id ws) (a_workspaces st)).2 st) in
          aret (Ok tt)
      end
  | _, _ => aret (Ok tt)
  end.
Definition resolve_overlays (msg : string → string) (names : list string) : act (outcome CtlError (list string)) :=
  match names with
  | [] => aret (Ok [])
  | _ =>
      let+ root := aread a_flavors in
      let+ o := alift (flavors_resolve root names) in
      aret (match o with Ok fs => Ok (fl_path <$> fs) | Err missing => Err (BadRequest (msg missing)) | Panic => Panic end)
  end.
Definition flavor_gone (missing : string) : string := "flavor " +:+ str_debug missing +:+ " is no longer available on this server".
Definition we_memory (ws : Workspace) (req : WorkspaceExecRequest) : Z := Z.min (default (sp_memory_mb (w_config ws)) (we_memory_mb req)) 8192.
Definition we_timeout (ws : Workspace) (req : WorkspaceExecRequest) : Z := zclamp 1 3600 (default (sp_timeout_secs (w_config ws)) (we_timeout_secs req)).
Definition exec_locked (fuel : nat) (ws : Workspace) (req : WorkspaceExecRequest) : act (outcome CtlError ExecResponse) :=
  try+ _ := auto_resume fuel ws in
  with_permit (
    let memory := we_memory ws req in
    let timeout := we_timeout ws req in
    try+ options := lift_result (spec_to_options (w_config ws)) in
    try+ overlays := resolve_overlays flavor_gone (sp_flavors (w_config ws)) in
    try+ config := alift (jail_config (w_source_dir ws) (w_output_dir ws) memory timeout (PATH_ENV :: we_env req) options true overlays) in
    try+ jail := new_jail show_error config in
    let+ t := now_utc in
    let+ _ := amod (λ st, set_workspaces (ws_touch t (w_id ws) (a_workspaces st)) st) in
    try+ out := run_recorded show_error fuel (w_tenant_id ws) Jails.Workspace (workspace_exec_label (w_id ws) (we_cmd req)) None
                  (config_snapshot options memory timeout None) jail (we_cmd req) (we_args req) (Some (registration_new (w_id ws))) in
    aret (Ok (output_to_response out))).
Definition exec_in_workspace (fuel : nat) (sc : TenantScope) (id : string) (req : WorkspaceExecRequest) : act (outcome CtlError ExecResponse) :=
  try+ _ := exec_enabled in
  try+ ws := visible_workspace sc id in
  with_lock (w_id ws) (exec_locked fuel ws req).

(** ** Deleting a workspace: the row, the directory, the lock's slot *)
Definition forget_lock (id : string) : act unit := amod (λ st, set_locks (a_locks st ∖ {[id]}) st).
Definition delete_workspace_host (sc : TenantScope) (id : string) : act (outcome CtlError unit) :=
  try+ _ := visible_workspace sc id in
  let+ t := now_utc in
  let+ gone := (λ st, let '(o, s) := ws_mark_deleted t id (a_workspaces st) in Ret (set_workspaces s st, o)) in
  match gone with
  | None => aret (ws_not_found id)
  | Some ws =>
      let+ root := aread (λ st, path_join (path_join (a_state_dir st) "workspaces") (w_id ws)) in
      let+ _ := alift (sys (RemoveDirAll root)) in
      let+ _ := forget_lock (w_id ws) in
      aret (Ok tt)
  end.

(** ** Creating a workspace *)
Definition clone_into (g : GitSpec) (source_dir : string) : prog (outcome CtlError unit) :=
  let* v := sys (GetEnv "AGENTJAIL_CLONE_MODE") in
  if ok v && eq_ignore_ascii_case (rtext v) "host" then git_clone show_io g source_dir
  else git_clone_in_jail show_io show_error g source_dir.
Fixpoint check_targets (domains : list WorkspaceDomain) : outcome CtlError unit :=
  match domains with
  | [] => Ok tt
  | d :: rest => match domain_target d with Ok _ => check_targets rest | Err e => Err e | Panic => Panic end
  end.
Definition unknown_flavor (missing : string) : string := "unknown flavor: " +:+ str_debug missing.
Definition create_workspace (sc : TenantScope) (req : CreateWorkspaceRequest) : act (outcome CtlError Workspace) :=
  try+ exec_cfg := exec_enabled in
  let memory_mb := Z.min (default (default_memory_mb exec_cfg) (cw_memory_mb req)) 8192 in
  let timeout := zclamp 1 3600 (default (default_timeout_secs exec_cfg) (cw_timeout_secs req)) in
  let idle := default 0 (cw_idle_timeout_secs req) in
  let flavors := default [] (cw_flavors req) in
  try+ _ := resolve_overlays unknown_flavor flavors in
  let spec := options_to_spec (cw_options req) memory_mb timeout idle flavors in
  try+ '(id, ws_root) := workspace_dirs show_io in
  try+ '(git_repo, git_ref) := (match cw_git req with
    | Some g => try+ _ := or_remove ws_root (alift (clone_into g (path_join ws_root "source"))) in aret (Ok (git_primary g))
    | None => aret (Ok (None, None))
    end) in
  let domains := default [] (cw_domains req) in
  try+ _ := or_remove ws_root (lift_result (check_targets domains)) in
  let+ t := now_utc in
  let+ label := label_or_slug (cw_label req) in
  let ws := MkWs id (ts_tenant sc) t None (path_join ws_root "source") (path_join ws_root "output") spec git_repo git_ref
              (Some label) domains None None None in
  try+ _ := or_remove ws_root (insert_workspace ws) in
  aret (Ok (redact_for sc ws)).

(** ** Forking a workspace *)
Definition fork_label (req : ForkWorkspaceRequest) (parent : Workspace) (i : nat) : string :=
  match fw_label req with
  | Some prefix => prefix +:+ "-" +:+ pretty (N.of_nat i)
  | None => "fork of " +:+ w_id parent +:+ "-" +:+ pretty (N.of_nat i)
  end.
Definition fork_one (fuel : nat) (parent : Workspace) (snap_path : string) (label : string) : act (outcome CtlError Workspace) :=
  try+ '(new_id, ws_root) := workspace_dirs show_io in
  let+ pool := aread a_pool_dir in
  try+ _ := or_remove ws_root (alift (restore_snapshot show_error fuel snap_path (path_join ws_root "source") pool)) in
  let+ t := now_utc in
  let child := MkWs new_id (w_tenant_id parent) t None (path_join ws_root "source") (path_join ws_root "output") (w_config parent)
                 (w_git_repo parent) (w_git_ref parent) (Some label) [] None None None in
  try+ _ := or_remove ws_root (insert_workspace child) in
  aret (Ok child).
(** [n] children from number [i] on. *)
Fixpoint fork_loop (fuel : nat) (req : ForkWorkspaceRequest) (parent : Workspace) (snap_path : string) (i n : nat) (forks : list Workspace)
    : act (outcome CtlError (list Workspace)) :=
  match n with
  | O => aret (Ok forks)
  | S n =>
      try+ child := fork_one fuel parent snap_path (fork_label req parent i) in
      fork_loop fuel req parent snap_path (S i) n (forks ++ [child])
  end.
Definition fork_workspace (fuel : nat) (sc : TenantScope) (id : string) (req : ForkWorkspaceRequest) : act (outcome CtlError ForkWorkspaceResponse) :=
  if (fw_count req =? 0)%nat || (16 <? fw_count req)%nat then aret (Err (BadRequest "fork.count must be 1..=16")) else
  try+ parent := visible_workspace sc id in
  try+ snap := take_snapshot show_error fuel parent (Some ("fork-origin:" +:+ w_id parent)) in
  try+ forks := fork_loop fuel req parent (Snapshots.sn_path snap) 0 (fw_count req) [] in
  aret (Ok (MkForkResp (redact_for sc parent) (redact_for sc <$> forks) (sn_id snap))).
End ops.

(** ** One exec at a time, on the right files, on the record *)
Section exec_protocol.
Context `{HexEncode} `{Json} `{Blake3} `{DebugFmt} `{Target} `{Seccompiler} (show_io : Z → string) (show_error : JailError → string).

Lemma ends_gate {R} (body : act (outcome CtlError R)) st (Q : AppState → outcome CtlError R → Prop) :
  Q st (Err (BadRequest "too many concurrent executions")) →
  (∀ n, a_permits st = S n → ends body (set_gate n (metrics_start (a_metrics st)) st)
     (λ st' o, Q (set_gate (S (a_permits st')) (metrics_drop (a_metrics st')) st') o)) →
  ends (with_permit body) st Q.
Proof.
  intros He Hb. unfold with_permit, ends. destruct (a_permits st) as [|n] eqn:Ep; [by intros K tr st' o [= <- <-]|].
  intros K tr st' o. rewrite run_bind. pose proof (Hb n eq_refl K tr) as Hb1.
  destruct (run K tr (body _)) as [tr' [[st2 r]|]]; [|done]. intros [= <- <-]. by apply Hb1.
Qed.
Lemma ends_lock {R} id (body : act (outcome CtlError R)) st (Q : AppState → outcome CtlError R → Prop) :
  (id ∈ a_locks st → Q st (Err (Conflict "another exec is in flight against this workspace"))) →
  (id ∉ a_locks st → ends body (set_locks ({[id]} ∪ a_locks st) st) (λ st' o, Q (set_locks (a_locks st' ∖ {[id]}) st') o)) →
  ends (with_lock id body) st Q.
Proof.
  intros He Hb. unfold with_lock, ends. destruct (decide (id ∈ a_locks st)) as [Hin|Hn]; [intros K tr st' o [= <- <-]; by apply He|].
  intros K tr st' o. rewrite run_bind. pose proof (Hb Hn K tr) as Hb1.
  destruct (run K tr (body _)) as [tr' [[st2 r]|]]; [|done]. intros [= <- <-]. by apply Hb1.
Qed.

(** The snapshot to resume from: the workspace is paused and its snapshot's row is
    still there.  Without the row, nothing is restored and the pause stays. *)
Definition due_snapshot (ws : Workspace) (st : AppState) : option SnapshotRecord :=
  match w_paused_at ws, w_auto_snapshot ws with Some _, Some snap => snap_get snap (a_snapshots st) | _, _ => None end.
Definition resume_ops (ws : Workspace) (st : AppState) : list WsOp :=
  match due_snapshot ws st with Some _ => [WResume (w_id ws)] | None => [] end.
(** Resuming comes first: the calls of the handler start with restoring that snapshot's
    directory into the workspace's source directory, and go on only if it succeeded. *)
Definition resumed_first (fuel : nat) (K : kernel) (tr t : trace) (st : AppState) (ws : Workspace) {R} (o : outcome CtlError R) : Prop :=
  match due_snapshot ws st with
  | None => True
  | Some snap => ∃ t1 r,
      run K tr (restore_snapshot show_error fuel (Snapshots.sn_path snap) (w_source_dir ws) (a_pool_dir st)) = (t1, Some r) ∧
      match r with Ok _ => t1 `prefix_of` t | Err e => t = t1 ∧ o = Err e | Panic => t = t1 ∧ o = Panic end
  end.
Definition with_ws_ops (ops : list WsOp) (st : AppState) : AppState := set_workspaces (foldl ws_step (a_workspaces st) ops) st.
Lemma auto_resume_ends fuel ws st :
  ends (auto_resume show_error fuel ws) st (λ st' o, match o with Ok _ => st' = with_ws_ops (resume_ops ws st) st | _ => st' = st end).
Proof.
  unfold auto_resume, resume_ops, due_snapshot, with_ws_ops. destruct (w_paused_at ws) as [t|]; [|apply ends_ret; simpl; by rewrite set_workspaces_id].
  destruct (w_auto_snapshot ws) as [snap|]; [|apply ends_ret; simpl; by rewrite set_workspaces_id]. apply ends_read.
  destruct (snap_get snap (a_snapshots st)) as [r|]; [|apply ends_ret; simpl; by rewrite set_workspaces_id]. apply ends_read.
  apply ends_stateless_try; [apply stateless_lift|by intros [a|e|] Ho; [destruct (Ho a)|..]|]. intros [].
  eapply (ends_bind _ _ _ (λ st' _, st' = with_ws_ops [WResume (w_id ws)] st)); [by apply ends_mod|]. intros st' _ ->. by apply ends_ret.
Qed.
Lemma auto_resume_did fuel K ws st tr :
  did K (auto_resume show_error fuel ws) st tr (λ t _ o, match due_snapshot ws st with
    | None => o = Ok tt
    | Some snap => run K tr (restore_snapshot show_error fuel (Snapshots.sn_path snap) (w_source_dir ws) (a_pool_dir st)) = (t, Some o) end).
Proof.
  unfold auto_resume, due_snapshot. destruct (w_paused_at ws) as [z|]; [|by apply did_ret]. destruct (w_auto_snapshot ws) as [id|]; [|by apply did_ret].
  apply did_read. destruct (snap_get id (a_snapshots st)) as [snap|]; [|by apply did_ret]. apply did_read. apply did_lift.
  intros t [[]|e|] Hr; [|by apply did_ret..]. apply (did_update _ (λ st, (set_workspaces (ws_mark_resumed (w_id ws) (a_workspaces st)).2 st, tt))). by apply did_ret.
Qed.
Lemma exec_locked_did fuel K ws req st tr :
  did K (exec_locked show_error fuel ws req) st tr (λ t _ o, resumed_first fuel K tr t st ws o).
Proof.
  unfold exec_locked. eapply did_bind; [apply auto_resume_did|]. intros t1 st1 o1. unfold resumed_first.
  destruct (due_snapshot ws st) as [snap|]; [|done]. intros Hr. destruct o1 as [[]|e|].
  - intros t st' o Hrun. exists t1, (Ok tt). split; [done|].
    match type of Hrun with run _ _ ?p = _ => pose proof (run_extends K t1 p) as Hp end. by rewrite Hrun in Hp.
  - apply did_ret. by exists t1, (Err e).
  - apply did_ret. by exists t1, Panic.
Qed.
Lemma with_lock_did {R} id K (body : act (outcome CtlError R)) st tr Q :
  (id ∈ a_locks st → Q tr st (Err (Conflict "another exec is in flight against this workspace"))) →
  (id ∉ a_locks st → did K body (set_locks ({[id]} ∪ a_locks st) st) tr (λ t st' o, Q t (set_locks (a_locks st' ∖ {[id]}) st') o)) →
  did K (with_lock id body) st tr Q.
Proof.
  intros He Hb. unfold with_lock, did. destruct (decide (id ∈ a_locks st)) as [Hin|Hn]; [intros t st' o [= <- <- <-]; by apply He|].
  intros t st' o. rewrite run_bind. specialize (Hb Hn). destruct (run K tr (body _)) as [t1 [[st2 r]|]] eqn:E; [|done]. intros [= <- <- <-]. by apply Hb.
Qed.
Lemma overlays_stateless msg names : stateless (resolve_overlays msg names).
Proof. unfold resolve_overlays. destruct names; [apply stateless_ret|]. repeat (apply stateless_bind; [auto with stateless|]; intros ?). apply stateless_ret. Qed.

(** Everything but the workspace's row and the ledger is as before. *)
Record exec_settled (id : string) (st st' : AppState) : Prop := {
  es_locks : a_locks st' = a_locks st;
  es_permits : a_permits st' = a_permits st;
  es_active : m_active (a_metrics st') = m_active (a_metrics st);
  es_stores : a_sessions st' = a_sessions st ∧ a_snapshots st' = a_snapshots st;
  es_cgroups : released id (a_cgroups st) (a_cgroups st');
  es_ips : released id (a_ips st) (a_ips st')
}.
(** What a run in [ws] leaves: nothing was started, or one row of the ledger tells what happened. *)
Definition ws_started (ws : Workspace) (req : WorkspaceExecRequest) (st st' : AppState) (o : outcome CtlError ExecResponse) : Prop :=
  ∃ options t t0 mid last, spec_to_options (w_config ws) = Ok options ∧
    a_workspaces st' = foldl ws_step (a_workspaces st) (resume_ops ws st ++ [WTouch t (w_id ws)]) ∧
    a_jails st' = foldl jail_step (a_jails st) (run_ops (js_next_id (a_jails st)) t0 (w_tenant_id ws) Jails.Workspace
      (workspace_exec_label (w_id ws) (we_cmd req)) None (config_snapshot options (we_memory ws req) (we_timeout ws req) None) mid last) ∧
    Forall (follows_row (js_next_id (a_jails st))) mid ∧ closing (js_next_id (a_jails st)) output_to_response o last.
Definition ws_refused (ws : Workspace) (st st' : AppState) (o : outcome CtlError ExecResponse) : Prop :=
  (∀ r, o ≠ Ok r) ∧ a_jails st' = a_jails st ∧
  (a_workspaces st' = a_workspaces st ∨ a_workspaces st' = foldl ws_step (a_workspaces st) (resume_ops ws st)).
Definition ws_ran (ws : Workspace) (req : WorkspaceExecRequest) (st st' : AppState) (o : outcome CtlError ExecResponse) : Prop :=
  exec_settled (w_id ws) st st' ∧ (ws_refused ws st st' o ∨ ws_started ws req st st' o).

Lemma metrics_back (m : ExecMetrics) : 0 ≤ m_active m < 2 ^ 64 → m_active (metrics_drop (metrics_start m)) = m_active m.
Proof. intros Hm. simpl. unfold u64. rewrite Zminus_mod_idemp_l, Z.add_simpl_r. by apply Z.mod_small. Qed.
(** The handler's body from the touch on: one row in the ledger. *)
Definition touched_and_ran (ws : Workspace) (req : WorkspaceExecRequest) (options : ExecOptions) (st st' : AppState) (o : outcome CtlError ExecResponse) : Prop :=
  ∃ t t0 mid last cgs ips, released (w_id ws) (a_cgroups st) cgs ∧ released (w_id ws) (a_ips st) ips ∧
    st' = set_jails (foldl jail_step (a_jails st) (run_ops (js_next_id (a_jails st)) t0 (w_tenant_id ws) Jails.Workspace
            (workspace_exec_label (w_id ws) (we_cmd req)) None (config_snapshot options (we_memory ws req) (we_timeout ws req) None) mid last))
            (set_active cgs ips (set_workspaces (ws_touch t (w_id ws) (a_workspaces st)) st)) ∧
    Forall (follows_row (js_next_id (a_jails st))) mid ∧ closing (js_next_id (a_jails st)) output_to_response o last.
Lemma touch_and_run_ends fuel ws req options jail st :
  ends (let+ t := now_utc in
        let+ _ := amod (λ st, set_workspaces (ws_touch t (w_id ws) (a_workspaces st)) st) in
        try+ out := run_recorded show_error fuel (w_tenant_id ws) Jails.Workspace (workspace_exec_label (w_id ws) (we_cmd req)) None
                  (config_snapshot options (we_memory ws req) (we_timeout ws req) None) jail (we_cmd req) (we_args req) (Some (registration_new (w_id ws))) in
        aret (Ok (output_to_response out))) st (touched_and_ran ws req options st).
Proof.
  apply ends_stateless; [apply now_stateless|]. intros t. eapply ends_bind; [by apply (ends_mod _ _ (λ st' _, st' = set_workspaces (ws_touch t (w_id ws) (a_workspaces st)) st))|].
  intros st1 [] ->. set (st1 := set_workspaces _ st).
  assert (∀ st' (o : outcome CtlError ExecResponse) mid last,
    run_logged (Some (w_id ws)) (w_tenant_id ws) Jails.Workspace (workspace_exec_label (w_id ws) (we_cmd req)) None
      (config_snapshot options (we_memory ws req) (we_timeout ws req) None) st1 st' mid last →
    closing (js_next_id (a_jails st1)) output_to_response o last → touched_and_ran ws req options st st' o) as Hok.
  { intros st' o mid last ((cgs & ips & Est & Hc & Hi) & HF & t0 & Hj) Hcl. exists t, t0, mid, last, cgs, ips.
    split; [done|]. split; [done|]. split; [rewrite Est, Hj; reflexivity|done]. }
  eapply ends_try; [apply (run_recorded_ends show_error fuel _ _ _ _ _ jail (we_cmd req) (we_args req) (Some (w_id ws)))|..].
  - intros st' o (mid & last & Hl & t' & r & -> & ->). apply ends_ret. eapply Hok; [exact Hl|]. by exists t', r.
  - intros st' e (mid & last & Hl & Hcl). by eapply Hok.
  - intros st' (mid & last & Hl & Hcl). by eapply Hok.
Qed.
Lemma exec_locked_ends fuel ws req st :
  0 ≤ m_active (a_metrics st) < 2 ^ 64 → ends (exec_locked show_error fuel ws req) st (ws_ran ws req st).
Proof.
  intros Hm. unfold exec_locked.
  assert (∀ st1 (o : outcome CtlError ExecResponse), st1 = st ∨ st1 = with_ws_ops (resume_ops ws st) st → (∀ r, o ≠ Ok r) →
    ws_ran ws req st st1 o) as Href.
  { intros st1 o Hst Ho. split; [by destruct Hst as [-> | ->]; split; (done || by left)|]. left. split; [done|].
    destruct Hst as [-> | ->]; (split; [done|]); [by left|by right]. }
  eapply ends_try; [apply auto_resume_ends|..]; [|intros st1 e ->; apply Href; [by left|done]|intros st1 ->; apply Href; [by left|done]].
  intros st1 [] ->. set (st1 := with_ws_ops (resume_ops ws st) st). apply ends_gate; [apply Href; [by right|done]|].
  intros n Hn. set (st2 := set_gate n _ st1).
  assert (∀ o : outcome CtlError ExecResponse, (∀ r, o ≠ Ok r) →
    ws_ran ws req st (set_gate (S (a_permits st2)) (metrics_drop (a_metrics st2)) st2) o) as Href2.
  { intros o Ho. split; [|left; split; [done|]; split; [done|by right]].
    split; [done|exact (eq_sym Hn)|apply (metrics_back (a_metrics st)); done|done|by left|by left]. }
  apply (ends_read_try (λ _, spec_to_options (w_config ws))); [done|]. intros options Hopt.
  eapply (ends_mono _ _ (λ st' o, st' = st2 ∧ (∀ r, o ≠ Ok r) ∨ touched_and_ran ws req options st2 st' o)).
  - do 1 (apply ends_stateless_try; [apply overlays_stateless|intros; by left|]; intros ?).
    do 2 (apply ends_stateless_try; [apply stateless_lift|intros; by left|]; intros ?).
    eapply ends_mono; [apply touch_and_run_ends|]. intros st' o Ht. by right.
  - intros st' o [[-> Ho]|Ht]; [by apply Href2|].
    destruct Ht as (t & t0 & mid & last & cgs & ips & Hc & Hi & -> & HF & Hcl).
    split; [split; [done|exact (eq_sym Hn)|apply (metrics_back (a_metrics st)); done|done|done|done]|].
    right. exists options, t, t0, mid, last.
    split; [done|]. split; [|done]. simpl. by rewrite foldl_app.
Qed.
Lemma unlocked_ran ws req st st' o :
  w_id ws ∉ a_locks st → ws_ran ws req (set_locks ({[w_id ws]} ∪ a_locks st) st) st' o →
  ws_ran ws req st (set_locks (a_locks st' ∖ {[w_id ws]}) st') o.
Proof.
  intros Hn [[Hl Hp Ha Hs Hc Hi] Hor]. split; [|exact Hor]. split; try done. simpl. rewrite Hl. simpl. set_solver.
Qed.

(** C18: Runs in a workspace exclude each other, resume first and are on the record.
    On every kernel, when [exec_in_workspace] answers: without a live workspace the
    caller may see, the answer is not found; while another exec holds the workspace's
    lock, it is a conflict; in both cases no call was made and nothing changed.
    Otherwise, if the workspace is paused on a snapshot whose row still exists, the
    first thing done is restoring that snapshot's directory into the source directory,
    and an error of it is the answer, with nothing else done (if the row is gone, the
    run goes on in the directory as it is and the pause stays).  The lock, the permit,
    the gauge and the published cgroup and address are as before, and either the answer
    is not a success and no row was started, or the pause was cleared if it was resumed,
    the workspace was touched, and the ledger got exactly one row, of the owner's tenant,
    followed and closed with the client's answer. *)
Theorem workspace_exec_protocol (fuel : nat) (sc : TenantScope) (id : string) (req : WorkspaceExecRequest) (c : ExecConfig)
    (K : kernel) (tr t : trace) (st st' : AppState) (o : outcome CtlError ExecResponse) :
  a_exec_config st = Some c → 0 ≤ m_active (a_metrics st) < 2 ^ 64 →
  run K tr (exec_in_workspace show_error fuel sc id req st) = (t, Some (st', o)) →
  (st' = st ∧ t = tr ∧ o = Err (NotFound ("workspace " +:+ id)) ∧ (∀ ws, ws_get id (a_workspaces st) = Some ws → can_see sc (w_tenant_id ws) = false)) ∨
  ∃ ws, ws_get id (a_workspaces st) = Some ws ∧ can_see sc (w_tenant_id ws) = true ∧
    if decide (w_id ws ∈ a_locks st)
    then st' = st ∧ t = tr ∧ o = Err (Conflict "another exec is in flight against this workspace")
    else ws_ran ws req st st' o ∧ resumed_first fuel K tr t st ws o.
Proof.
  intros Hc Hm. revert t st' o. refine (_ : did K _ st tr _). unfold exec_in_workspace, exec_enabled, visible_workspace, atry.
  apply did_read. rewrite Hc. cbn [ok_or]. apply did_read.
  destruct (ws_get id (a_workspaces st)) as [ws|] eqn:Ew; simpl; [|apply did_ret; by left].
  destruct (can_see sc (w_tenant_id ws)) eqn:Es; simpl; [|apply did_ret; left; by repeat split; intros ? [= <-]].
  eapply did_mono; [|intros t st' o Hr; right; exists ws; split; [done|]; split; [done|exact Hr]].
  apply with_lock_did; intros Hl; [by rewrite decide_True|]. 
  eapply did_mono; [apply did_and; [apply did_ends, exec_locked_ends; exact Hm|apply exec_locked_did]|].
  intros t st' o [Hr Hf]. rewrite decide_False by done. split; [by apply unlocked_ran|exact Hf].
Qed.
End exec_protocol.

(** ** Deleting while running *)
(** Deleting does not ask for the lock: on every kernel a live workspace that the
    caller may see is marked deleted and its directory is removed even while an
    exec holds the lock and runs in that directory. *)
Theorem delete_ignores_exec_lock (sc : TenantScope) (id : string) (w : Workspace) (K : kernel) (tr : trace) (st : AppState) :
  ws_get id (a_workspaces st) = Some w → can_see sc (w_tenant_id w) = true → w_id w = id → id ∈ a_locks st →
  ∃ st' r, run K tr (delete_workspace_host sc id st) =
    (tr ++ [(NowUtc, K tr NowUtc); (RemoveDirAll (path_join (path_join (a_state_dir st) "workspaces") id), r)], Some (st', Ok tt)) ∧
    ws_get id (a_workspaces st') = None.
Proof.
  intros Hw Hs Hid Hl. unfold delete_workspace_host, atry, visible_workspace, now_utc. rewrite run_abind. cbn [aread run]. rewrite Hw. simpl.
  rewrite Hs. simpl. rewrite run_abind. unfold ws_mark_deleted, ws_update_live. rewrite Hw. simpl. rewrite Hid, <- app_assoc. eexists _, _. split; [done|].
  unfold ws_get, lock_write, lock_read in *. simpl. destruct (poisoned (a_workspaces st)); [done|]. simpl. by rewrite lookup_insert_eq.
Qed.

(** ** A stale look at the pause *)
Section stale.
Context `{Json} `{Blake3} `{Oracle} (show_error : JailError → string).
(** A second resume throws work away.  [exec_in_workspace] looks the workspace
    up before it takes the lock and decides by that copy whether to resume.  If
    the copy says paused while another exec, which held the lock in between, has
    resumed the workspace and changed its files, then the second exec restores
    the snapshot again: when it succeeds, the directory holds what the snapshot
    holds, whatever it held before, and whatever the row says by now. *)
Theorem stale_resume_discards (fuel : nat) (ws : Workspace) (snap : SnapshotRecord) (snap_id : string) (t : Z) (st st' : AppState)
    (w w' : fs) (ls d : loc) (nm : string) (u : unit) :
  w_paused_at ws = Some t → w_auto_snapshot ws = Some snap_id → snap_get snap_id (a_snapshots st) = Some snap → a_pool_dir st = None →
  wf w → names (Snapshots.sn_path snap) ls → tree w !! ls = Some EDir →
  names (w_source_dir ws) (d ++ [nm]) → tree w !! (d ++ [nm]) = Some EDir → apart ls (d ++ [nm]) →
  fsrun w (auto_resume show_error fuel ws st) = (Some (st', Ok u), w') →
  ∀ rel, view w' ((d ++ [nm]) ++ rel) = view w (ls ++ rel).
Proof.
  intros Hp Ha Hs Hpool Hw Hn Hls Ht Hd Hap. unfold auto_resume. rewrite Hp, Ha. unfold abind, aread, atry, alift, abind. cbn [pbind]. rewrite Hs. cbn [pbind].
  rewrite Hpool, !fsrun_bind. destruct (fsrun w (restore_snapshot _ _ _ _ _)) as [[[[]|e|]|] w1] eqn:Er; simpl; try done. intros [= <- <- <-] rel.
  unfold restore_snapshot in Er. cbn [sys pbind fsrun waits opens] in Er. destruct (fs_exec (Exists _) w) as [r w2] eqn:Ex. apply looks_same in Ex as ->; [|done].
  destruct (yes r); [done|].
  apply fsrun_ctl_bind_ok in Er as (s1 & w5 & Hl%fsrun_ctl_jail_ok & Hr%fsrun_ctl_jail_ok). unfold load in Hl.
  rewrite (exists_dir_yes (tick w) (Snapshots.sn_path snap) ls) in Hl; [|by apply wf_tick|done|done].
  injection Hl as <- <-. apply (restore_to_ok fuel _ _ (w_source_dir ws) ls d nm) in Hr as Hcp; [|by do 2 apply wf_tick|done|done|done|by eapply (wf_parent w)|done|by right].
  rewrite (copied_view _ _ _ _ Hcp). done.
Qed.
End stale.

(** ** New workspaces *)
Section created.
Context `{HexEncode} `{Json} `{Blake3} `{DebugFmt} `{Target} `{Seccompiler} (show_io : Z → string) (show_error : JailError → string).
(** A workspace as it starts: live, never used. *)
Definition fresh_workspace (w : Workspace) : Prop :=
  w_deleted_at w = None ∧ w_paused_at w = None ∧ w_auto_snapshot w = None ∧ w_last_exec_at w = None.
(** The limits of a workspace for which [asked] MiB were asked. *)
Definition bounded_spec (asked : Z) (c : WorkspaceSpec) : Prop :=
  sp_memory_mb c = Z.min asked 8192 ∧ 1 ≤ sp_timeout_secs c ≤ 3600 ∧ 1 ≤ sp_cpu_percent c ≤ 800 ∧ 1 ≤ sp_max_pids c ≤ 1024.
(** Both directories lie in a root of the workspace's own, named by its id. *)
Definition own_dirs (state_dir : string) (w : Workspace) : Prop :=
  let root := path_join (path_join state_dir "workspaces") (w_id w) in
  w_source_dir w = path_join root "source" ∧ w_output_dir w = path_join root "output".
Lemma dirs_ends st : ends (workspace_dirs show_io) st (λ st' o, st' = st ∧
  ∀ id root, o = Ok (id, root) → root = path_join (path_join (a_state_dir st) "workspaces") id).
Proof.
  intros K tr st' o Hr. destruct (run K tr (workspace_dirs show_io st)) as [t r] eqn:E. cbn [snd] in Hr. subst r.
  apply dirs_did in E as [-> Ho]. split; [done|]. intros id root ->. apply Ho.
Qed.
Lemma check_targets_ok ds : check_targets ds = Ok tt → Forall (λ d, ∃ t, domain_target d = Ok t) ds.
Proof. induction ds as [|d ds IH]; [done|]. simpl. destruct (domain_target d) eqn:E; [|done..]. intros ?%IH. constructor; eauto. Qed.
Lemma create_workspace_ends sc req st :
  ends (create_workspace show_io show_error sc req) st (λ st' o, match o with
    | Ok v => ∃ w c, a_exec_config st = Some c ∧ adds_workspace st st' w ∧ v = redact_for sc w ∧ w_tenant_id w = ts_tenant sc ∧ fresh_workspace w ∧
                   own_dirs (a_state_dir st) w ∧ bounded_spec (default (default_memory_mb c) (cw_memory_mb req)) (w_config w) ∧
                   Forall (λ d, ∃ t, domain_target d = Ok t) (w_domains w)
    | _ => st' = st end).
Proof.
  unfold create_workspace. apply ends_read_try; [by apply refused_same|]. intros c Hc.
  apply ends_stateless_try; [apply overlays_stateless|by apply refused_same|]. intros _.
  eapply ends_try; [apply dirs_ends|..]; [|by intros st' e [-> _]|by intros st' [-> _]]. intros ? [id root] [-> Hroot]. specialize (Hroot _ _ eq_refl) as ->.
  apply ends_stateless_try; [|by apply refused_same|].
  { destruct (cw_git req); [|apply stateless_ret]. apply stateless_try; [apply or_remove_stateless, stateless_lift|]. intros _. apply stateless_ret. }
  intros [repo ref]. eapply (ends_try _ _ _ (λ st' o, st' = st ∧ o = check_targets (default [] (cw_domains req))));
    [by apply or_remove_ends, ends_ret|..]; [|by intros st' e [-> _]|by intros st' [-> _]]. intros st1 [] [-> Et].
  apply ends_stateless; [apply now_stateless|]. intros t. apply ends_stateless; [apply label_stateless|]. intros label.
  eapply ends_try; [apply or_remove_ends, insert_workspace_ends|..]; [|done|done]. intros st' [] Ha. apply ends_ret.
  eexists _, c. split; [by destruct (a_exec_config st); [injection Hc as ->|]|]. split; [exact Ha|]. do 4 (split; [done|]). split; [|by apply check_targets_ok].
  unfold bounded_spec, options_to_spec. destruct (match eo_network (cw_options req) with Some _ => _ | None => _ end) as [mode ds]. simpl.
  split; [done|]. split; [|split]; apply zclamp_bounds; lia.
Qed.

(** Rows added one after the other. *)
Inductive adds_all : AppState → list Workspace → AppState → Prop :=
| adds_none st : adds_all st [] st
| adds_next st w st1 ws st2 : adds_all st ws st1 → adds_workspace st1 st2 w → adds_all st (ws ++ [w]) st2.
Lemma adds_all_state_dir st ws st' : adds_all st ws st' → a_state_dir st' = a_state_dir st.
Proof. induction 1 as [|st w st1 ws st2 _ IH [_ ->]]; [done|]. exact IH. Qed.
Definition child_of_parent (state_dir : string) (parent w : Workspace) : Prop :=
  w_tenant_id w = w_tenant_id parent ∧ w_config w = w_config parent ∧ w_domains w = [] ∧ fresh_workspace w ∧ own_dirs state_dir w.
Lemma fork_one_ends fuel parent path label st :
  ends (fork_one show_io show_error fuel parent path label) st (λ st' o, match o with
    | Ok w => adds_workspace st st' w ∧ child_of_parent (a_state_dir st) parent w ∧ w_label w = Some label
    | _ => st' = st end).
Proof.
  unfold fork_one. eapply ends_try; [apply dirs_ends|..]; [|by intros st' e [-> _]|by intros st' [-> _]]. intros ? [id root] [-> Hroot].
  specialize (Hroot _ _ eq_refl) as ->. apply ends_read.
  apply ends_stateless_try; [apply or_remove_stateless, stateless_lift|by apply refused_same|]. intros [].
  apply ends_stateless; [apply now_stateless|]. intros t. eapply ends_try; [apply or_remove_ends, insert_workspace_ends|..]; [|done|done].
  intros st' [] Ha. by apply ends_ret.
Qed.
(** The children of a fork, in order. *)
Definition fork_children (req : ForkWorkspaceRequest) (state_dir : string) (parent : Workspace) (ws : list Workspace) : Prop :=
  Forall (child_of_parent state_dir parent) ws ∧ ∀ k w, ws !! k = Some w → w_label w = Some (fork_label req parent k).
Lemma fork_loop_ends fuel req parent path n : ∀ ws st0 st,
  adds_all st0 ws st → fork_children req (a_state_dir st0) parent ws →
  ends (fork_loop show_io show_error fuel req parent path (length ws) n ws) st (λ st' o, ∃ ws', adds_all st0 ws' st' ∧ fork_children req (a_state_dir st0) parent ws' ∧
    ∀ forks, o = Ok forks → forks = ws' ∧ length ws' = (length ws + n)%nat).
Proof.
  induction n as [|n IH]; intros ws st0 st Hadd Hch; cbn [fork_loop].
  { apply ends_ret. exists ws. split; [done|]. split; [done|]. intros forks [= <-]. split; [done|lia]. }
  eapply ends_try; [apply fork_one_ends|..]; [|intros st' e ->; by exists ws|intros st' ->; by exists ws].
  intros st1 w (Ha & Hc & Hl). rewrite (adds_all_state_dir _ _ _ Hadd) in Hc. replace (S (length ws)) with (length (ws ++ [w])) by (rewrite length_app; simpl; lia).
  eapply ends_mono; [apply (IH (ws ++ [w]) st0 st1)|].
  - by eapply adds_next.
  - destruct Hch as [HF Hlab]. split; [by apply Forall_app; split; [|constructor]|]. intros k x [Hk|[Hk Hx]]%lookup_app_Some; [by apply Hlab|].
    apply list_lookup_singleton_Some in Hx as [Hk0 <-]. by replace k with (length ws) by lia.
  - intros st' o (ws' & Hw1 & Hw2 & Hw3). exists ws'. split; [done|]. split; [done|]. intros forks Hf. destruct (Hw3 forks Hf) as [-> ->].
    split; [done|]. rewrite length_app. simpl. lia.
Qed.

(** C21: New workspaces belong to who may have them and live in directories of their
    own.  On every kernel: creating a workspace adds exactly one row, under a free id,
    fresh, of the caller's tenant, with its source and output directories in a root
    named by its own id, only valid domains, and bounded limits: 1 to 3600 seconds, 1 to
    800 percent of a processor, 1 to 1024 processes, and the smaller of the memory asked
    for and 8192 MiB (0 stays 0, which the engine takes for no limit); any other answer
    changes nothing.  Forking one adds, for a live parent the caller may see, first one
    snapshot of the parent and then children under free ids, of the parent's tenant,
    fresh, with the parent's configuration, directories of their own and numbered
    labels: all [count] of them, between 1 and 16, when it succeeds; when it fails
    after the snapshot, the snapshot and the children made so far stay. *)
Theorem workspaces_created_owned (fuel : nat) (sc : TenantScope) (id : string) (creq : CreateWorkspaceRequest) (freq : ForkWorkspaceRequest)
    (K : kernel) (tr : trace) (st st' : AppState) :
  (∀ o, (run K tr (create_workspace show_io show_error sc creq st)).2 = Some (st', o) → match o with
     | Ok v => ∃ w c, a_exec_config st = Some c ∧ adds_workspace st st' w ∧ v = redact_for sc w ∧ w_tenant_id w = ts_tenant sc ∧ fresh_workspace w ∧
                    own_dirs (a_state_dir st) w ∧ bounded_spec (default (default_memory_mb c) (cw_memory_mb creq)) (w_config w) ∧
                    Forall (λ d, ∃ t, domain_target d = Ok t) (w_domains w)
     | _ => st' = st end) ∧
  (∀ o, (run K tr (fork_workspace show_io show_error fuel sc id freq st)).2 = Some (st', o) →
     (st' = st ∧ ∀ r, o ≠ Ok r) ∨
     ∃ parent snap st1 ws, ws_get id (a_workspaces st) = Some parent ∧ can_see sc (w_tenant_id parent) = true ∧ (1 ≤ fw_count freq ≤ 16)%nat ∧
       adds_snapshot st st1 snap ∧ sn_tenant_id snap = w_tenant_id parent ∧ adds_all st1 ws st' ∧ fork_children freq (a_state_dir st) parent ws ∧
       ∀ r, o = Ok r → length ws = fw_count freq ∧ r = MkForkResp (redact_for sc parent) (redact_for sc <$> ws) (sn_id snap)).
Proof.
  split; intros o; [apply create_workspace_ends|]. revert K tr st' o. refine (_ : ends _ _ _). unfold fork_workspace.
  destruct (Nat.eqb_spec (fw_count freq) 0); [apply ends_ret; by left|]. destruct (Nat.ltb_spec 16 (fw_count freq)); [apply ends_ret; by left|]. cbn [orb].
  apply ends_read_try; [intros; by left|]. intros parent [Hp Hs]%visible_ok.
  eapply ends_try; [apply take_snapshot_ends|..]; [|intros st1 e ->; by left|intros st1 ->; by left].
  intros st1 snap (Ha & Ht & _ & _).
  assert (fork_children freq (a_state_dir st1) parent []) as Hnil by (by split). assert (a_state_dir st1 = a_state_dir st) as Hsd by (by destruct Ha as [_ ->]).
  pose proof (fork_loop_ends fuel freq parent (Snapshots.sn_path snap) (fw_count freq) [] st1 st1 (adds_none st1) Hnil) as Hl. rewrite Hsd in Hl.
  eapply ends_try; [exact Hl|..].
  - intros st2 forks (ws & Hw1 & Hw2 & Hw3). destruct (Hw3 _ eq_refl) as [-> Hlen]. apply ends_ret. right. exists parent, snap, st1, ws.
    do 3 (split; [done || lia|]). do 4 (split; [done|]). intros r [= <-]. done.
  - intros st2 e (ws & Hw1 & Hw2 & Hw3). right. exists parent, snap, st1, ws. do 3 (split; [done || lia|]). do 4 (split; [done|]). done.
  - intros st2 (ws & Hw1 & Hw2 & Hw3). right. exists parent, snap, st1, ws. do 3 (split; [done || lia|]). do 4 (split; [done|]). done.
Qed.
End created.

(** ** Witnesses *)
Module WsExample.
Local Open Scope string_scope.
#[export] Instance json : Json := SnapExample.json_ref.
#[export] Instance hash : Blake3 := SnapExample.hash_ref.
Definition scope : TenantScope := MkTS "acme" Operator.
Definition K : kernel := λ t c,
  match c with Getrandom _ => MkRet 12 0 [7; 8] "" [] | ReadDir _ => MkRet 0 0 [] "" [] | _ => ExecExample.K t c end.
Definition exec_req : WorkspaceExecRequest := MkWsExec "/bin/sh" [] None (Some 256) [].
(** The workspace of the example, paused on its snapshot. *)
Definition paused : Workspace := MkWs "wrk_1" "acme" 1 None "/state/workspaces/wrk_1/source" "/state/workspaces/wrk_1/output" default_workspace_spec
  None None None [] None (Some 5) (Some "snap_1").
Definition paused_app : AppState := set_workspaces (new_lock {[ "wrk_1" := paused ]}) SnapExample.app.
Definition Kp : kernel := λ t c, match c with Exists p => rint (if ends_with "manifest.json" p then 0 else 1) | _ => K t c end.
Definition create_req : CreateWorkspaceRequest :=
  MkCreateWs None None None (Some 5) None (Some [MkWD "demo.example" (Some "http://10.0.0.2") None]) None (MkOpts None None (Some 900) None).
Definition created : option (AppState * outcome CtlError Workspace) :=
  (run K [] (create_workspace SnapExample.no_text SnapExample.no_text scope create_req SnapExample.app)).2.
(** A directory that was resumed and changed since. *)
Definition host : fs := build
  [([], EDir); (["s"], EDir); (["s"; "x"], EFile 0); (["t"], EDir); (["t"; "x"], EFile 1); (["t"; "new"], EFile 2)]
  [(0%N, MkNode "old" 420 1); (1%N, MkNode "edited" 420 2); (2%N, MkNode "work" 420 2)].
Definition stale : Workspace := MkWs "wrk_1" "acme" 1 None "/t" "/o" default_workspace_spec None None None [] None (Some 1) (Some "snap_1").
Definition app : AppState := set_snapshots (new_lock {[ "snap_1" := MkSnap "snap_1" "acme" (Some "wrk_1") None 1 "/s" 3 ]}) MonitorExample.app.
Definition resumed : option (AppState * outcome CtlError unit) * fs := fsrun host (auto_resume SnapExample.no_text 5 stale app).
End WsExample.
#[local] Existing Instance WsExample.json.
#[local] Existing Instance WsExample.hash.
(** A paused workspace is resumed and runs; a locked one is refused. *)
Lemma workspace_exec_protocol_witness :
  (∃ t st' r, run WsExample.Kp [] (exec_in_workspace SnapExample.no_text 20 WsExample.scope "wrk_1" WsExample.exec_req WsExample.paused_app) = (t, Some (st', Ok r)) ∧
     xr_stdout r = "hello"%string ∧ due_snapshot WsExample.paused WsExample.paused_app = Some SnapExample.snap ∧
     resumed_first SnapExample.no_text 20 WsExample.Kp [] t WsExample.paused_app WsExample.paused (Ok r) ∧
     ws_ran WsExample.paused WsExample.exec_req WsExample.paused_app st' (Ok r)) ∧
  ∀ o t st', run WsExample.Kp [] (exec_in_workspace SnapExample.no_text 20 WsExample.scope "wrk_1" WsExample.exec_req
      (set_locks {["wrk_1"%string]} WsExample.paused_app)) = (t, Some (st', o)) →
    o = Err (Conflict "another exec is in flight against this workspace").
Proof.
  split.
  - destruct (run WsExample.Kp [] (exec_in_workspace SnapExample.no_text 20 WsExample.scope "wrk_1" WsExample.exec_req WsExample.paused_app))
      as [t [[st' o]|]] eqn:E; [|by vm_compute in E].
    assert (match o with Ok r => xr_stdout r = "hello"%string | _ => False end) as Hok.
    { apply (f_equal snd) in E. vm_compute in E. by injection E as <- <-. }
    destruct o as [r|e|]; [|destruct Hok..]. exists t, st', r. split; [reflexivity|]. split; [exact Hok|]. split; [reflexivity|].
    destruct (workspace_exec_protocol SnapExample.no_text 20 WsExample.scope "wrk_1" WsExample.exec_req exec_default WsExample.Kp [] t
      WsExample.paused_app st' (Ok r)) as [(_ & _ & [=] & _)|(ws & Hw & _ & Hr)]; [reflexivity|split; [discriminate|reflexivity]|exact E|].
    clear E. assert (ws = WsExample.paused) as -> by (vm_compute in Hw; by injection Hw as <-).
    rewrite decide_False in Hr by (by apply (bool_decide_unpack _); vm_compute). destruct Hr as [Hr1 Hr2]. split; [exact Hr2|exact Hr1].
  - intros o t st' E.
    destruct (workspace_exec_protocol SnapExample.no_text 20 WsExample.scope "wrk_1" WsExample.exec_req exec_default WsExample.Kp [] t
      (set_locks {["wrk_1"%string]} WsExample.paused_app) st' o) as [(_ & _ & _ & Hn)|(ws & Hw & _ & Hr)];
      [reflexivity|split; [discriminate|reflexivity]|exact E|..]; clear E.
    + by specialize (Hn WsExample.paused eq_refl).
    + assert (ws = WsExample.paused) as -> by (vm_compute in Hw; by injection Hw as <-). rewrite decide_True in Hr by (by apply (bool_decide_unpack _); vm_compute). apply Hr.
Defined.
Lemma stale_resume_discards_witness :
  view WsExample.host ["t"; "x"]%string = Some (IFile "edited" 420) ∧ view WsExample.resumed.2 (["t"%string] ++ ["x"%string]) = view WsExample.host (["s"%string] ++ ["x"%string]).
Proof.
  split; [by vm_compute|].
  apply (stale_resume_discards SnapExample.no_text 5 WsExample.stale (MkSnap "snap_1" "acme" (Some "wrk_1"%string) None 1 "/s" 3) "snap_1" 1
    WsExample.app WsExample.app WsExample.host WsExample.resumed.2 ["s"%string] [] "t" tt);
    try (by apply (bool_decide_unpack _); vm_compute); try (by vm_compute).
  by apply wf_check_ok; vm_compute.
Defined.
Lemma workspaces_created_owned_witness : ∃ st' v w,
  WsExample.created = Some (st', Ok v) ∧ adds_workspace SnapExample.app st' w ∧ v = redact_for WsExample.scope w ∧ w_tenant_id w = "acme"%string ∧
  own_dirs (a_state_dir SnapExample.app) w ∧ 1 ≤ sp_cpu_percent (w_config w) ≤ 800.
Proof.
  destruct WsExample.created as [[st' o]|] eqn:E; [|by vm_compute in E].
  pose proof (proj1 (workspaces_created_owned SnapExample.no_text SnapExample.no_text 5 WsExample.scope "" WsExample.create_req (MkForkWs 1 None)
    WsExample.K [] SnapExample.app st') o E) as Ho.
  destruct o as [v|e|]; [|by vm_compute in E..]. destruct Ho as (w & c & _ & Ha & Hv & Ht & _ & Hd & Hb & _). exists st', v, w.
  split; [done|]. split; [done|]. split; [done|]. split; [done|]. split; [exact Hd|]. apply Hb.
Defined.
