(* ===== verification/Gateway.v ===== *)
(** * The host-name gateway

    Models [agentjail-server/src/gateway.rs]: one catch-all handler that forwards
    a request to the backend that a live workspace declares for its [Host].  The
    HTTP client, reading the request's body (at most [MAX_BODY_BYTES]) and
    [Method::from_bytes] are parameters; every request that leaves is returned in
    a list.  [RequestBuilder::header] appends, so that outgoing headers are a
    list; names and values of a header map convert unchanged.  Binding and serving
    are axum's; when they happen is in [Lifecycle]. *)

From S2P Require PhantomProxy.
From S2P Require Import Prelude Text Keys Token Tenant Provider Ctl Jails Sessions Workspaces Netlink Git Flavors.
Local Open Scope Z_scope.

Definition LF : string := String (Ascii.ascii_of_nat 10) EmptyString.
Definition MAX_BODY_BYTES : Z := 10 * 1024 * 1024.
Definition gw_hop_by_hop_names : list string :=
  ["connection"; "keep-alive"; "proxy-authenticate"; "proxy-authorization"; "te"; "trailers"; "transfer-encoding"; "upgrade"; "host"]%string.
Definition gw_is_hop_by_hop (name : string) : bool := bool_decide (str_ascii_lower name ∈ gw_hop_by_hop_names).
Definition X_FORWARDED_HOST : string := "x-forwarded-host".

Section gateway.
Context {H V : Type} `{HttpCrate H V} `{HashIter} `{DebugFmt}.
(** Bodies before they are read. *)
Context {B : Type}.

Record GatewayState := MkGateway { gw_workspaces : InMemoryWorkspaceStore; gw_ips : ActiveMap (list Z) }.
Record GwRequest := MkGwReq { gq_method : string; gq_path_and_query : option string; gq_headers : H; gq_body : B }.
Record GwUp := MkGwUp { gu_method : string; gu_url : string; gu_headers : list (string * V); gu_body : string }.
Record GwUpResp := MkGwUpResp { gp_status : Z; gp_headers : H; gp_body : string + string }.
Record GwResponse := MkGwResp { gr_status : Z; gr_headers : H; gr_body : string }.
(** [inl] is an error, with its rendering. *)
Variable to_bytes : B → string + string.
Variable method_from_bytes : string → option string.
Variable send : GwUp → string + GwUpResp.

Definition text (status : Z) (body : string) : GwResponse := MkGwResp status hm_empty body.
Definition gw_bad_request (msg : string) : GwResponse := text 400 ("gateway: bad request: " +:+ msg +:+ LF).
Definition gw_not_found (host : string) : GwResponse := text 404 ("gateway: no workspace declares host " +:+ host +:+ LF).
Definition gw_bad_gateway (msg : string) : GwResponse := text 502 ("gateway: upstream failed: " +:+ msg +:+ LF).
Definition no_live_jail (workspace_id : string) (port : Z) : GwResponse :=
  text 503 ("gateway: no live jail for workspace " +:+ workspace_id +:+ " on vm_port " +:+ pretty port +:+ LF +:+
            "start a workspace exec that binds :" +:+ pretty port +:+ " before retrying" +:+ LF).

Definition extract_host (headers : H) : option string :=
  v ← hm_get "host" headers;
  raw ← hv_to_str v;
  let host := trim (before_char ":" raw) in
  if str_is_empty host then None else Some (str_ascii_lower host).

(** The URL to forward to, or the answer. *)
Definition forward_url (st : GatewayState) (ws : Workspace) (domain : WorkspaceDomain) (path_and_query : string) : GwResponse + string :=
  match domain_target domain with
  | Ok (BackendUrl url) => inr (trim_end_matches "/" url +:+ path_and_query)
  | Ok (VmPort port) =>
      match active_get (w_id ws) (gw_ips st) with
      | None => inl (no_live_jail (w_id ws) port)
      | Some ip => inr ("http://" +:+ ipv4_display ip +:+ ":" +:+ pretty port +:+ path_and_query)
      end
  | Err e => inl (gw_bad_gateway ("invalid workspace domain: " +:+ ctl_display e))
  | Panic => inl (gw_bad_gateway "") (* [target] does not panic *)
  end.
Definition forward_headers (headers : H) (fwd_host : V) : list (string * V) :=
  filter (λ kv, gw_is_hop_by_hop kv.1 = false) (hm_iter headers) ++ [(X_FORWARDED_HOST, fwd_host)].
Definition relay (o : string + GwUpResp) : GwResponse :=
  match o with
  | inl e => gw_bad_gateway e
  | inr resp =>
      match gp_body resp with
      | inl e => gw_bad_gateway ("upstream read: " +:+ e)
      | inr b => MkGwResp (default 500 (PhantomProxy.status_from_u16 (gp_status resp))) (copy_except gw_is_hop_by_hop (gp_headers resp)) b
      end
  end.
(** [Panic]: the [expect] on the forwarded host. *)
Definition proxy (st : GatewayState) (req : GwRequest) : list GwUp * outcome unit GwResponse :=
  match extract_host (gq_headers req) with
  | None => ([], Ok (gw_bad_request "missing Host header"))
  | Some host =>
      match ws_by_domain host (gw_workspaces st) with
      | None => ([], Ok (gw_not_found host))
      | Some (ws, domain) =>
          match forward_url st ws domain (default "/" (gq_path_and_query req)) with
          | inl r => ([], Ok r)
          | inr url =>
              match to_bytes (gq_body req) with
              | inl e => ([], Ok (gw_bad_request ("body read: " +:+ e)))
              | inr body =>
                  match hv_from_str host with
                  | None => ([], Panic)
                  | Some fwd_host =>
                      let up := MkGwUp (default "GET" (method_from_bytes (gq_method req))) url
                                  (forward_headers (gq_headers req) fwd_host) body in
                      ([up], Ok (relay (send up)))
                  end
              end
          end
      end
  end.
End gateway.

(** ** Characters of the forwarded host *)
Lemma before_char_elem a s c : str_elem c (before_char a s) → str_elem c s.
Proof. destruct (before_char_splits a s) as (rest & E & _). intros Hc. rewrite E. apply str_elem_app. by left. Qed.
Lemma lower_visible a : Provider.visible a = true → Provider.visible (to_ascii_lower a) = true.
Proof. destruct a as [[] [] [] [] [] [] [] []]; by vm_compute. Qed.
Lemma str_lower_forallb s : str_forallb Provider.visible s = true → str_forallb Provider.visible (str_ascii_lower s) = true.
Proof. induction s as [|a s IH]; [done|]. simpl. intros [Ha Hs]%andb_true_iff. by rewrite lower_visible, IH. Qed.

(** ** What the gateway forwards *)
Section forwarding.
Context {H V : Type} `{HttpCrate H V} `{HashIter} `{DebugFmt} {B : Type}.
Context (to_bytes : B → string + string) (method_from_bytes : string → option string) (send : GwUp (V := V) → string + GwUpResp (H := H)).

Lemma extract_host_visible (h : H) host :
  (∀ v raw, hm_get "host" h = Some v → hv_to_str v = Some raw → str_forallb Provider.visible raw = true) →
  extract_host h = Some host → str_forallb Provider.visible host = true.
Proof.
  intros Hraw. unfold extract_host. destruct (hm_get "host" h) as [v|] eqn:Ev; [|done]. simpl. destruct (hv_to_str v) as [raw|] eqn:Er; [|done]. simpl.
  destruct (str_is_empty _); [done|]. intros [= <-]. apply str_lower_forallb, str_forallb_intro. intros c Hc%trim_elem%before_char_elem.
  eapply str_forallb_elem; [|exact Hc]. by eapply Hraw.
Qed.
(** Where a declared domain leads. *)
Definition leads_to (st : GatewayState) (ws : Workspace) (d : WorkspaceDomain) (pq url : string) : Prop :=
  (∃ backend, wd_backend_url d = Some backend ∧ wd_vm_port d = None ∧ url = trim_end_matches "/" backend +:+ pq) ∨
  (∃ port ip, wd_vm_port d = Some port ∧ wd_backend_url d = None ∧ port ≠ 0 ∧ active_get (w_id ws) (gw_ips st) = Some ip ∧
     url = "http://" +:+ ipv4_display ip +:+ ":" +:+ pretty port +:+ pq).
Lemma forward_url_leads st ws d pq url : forward_url (H := H) st ws d pq = inr url → leads_to st ws d pq url.
Proof.
  unfold forward_url, domain_target, leads_to. destruct (wd_backend_url d) as [b|], (wd_vm_port d) as [p|]; try done.
  - destruct (_ || _); [|done]. intros [= <-]. left. by exists b.
  - destruct (Z.eqb_spec p 0); [done|]. destruct (active_get (w_id ws) (gw_ips st)) as [ip|] eqn:E; [|done]. intros [= <-]. right. by exists p, ip.
Qed.

(** C22: The gateway forwards only to declared backends.  Given header values that
    hold visible characters, as the http crate documents, no request makes the
    handler panic.  At most one request leaves, and then a live workspace
    declares the request's host without regard to case, and the request goes to
    that declaration's backend URL, or to the declared port of the address that
    the workspace's running jail has published, with the client's path, query and
    body, with all of the client's headers but the hop-by-hop ones and [Host],
    in their order, and with the host appended as [x-forwarded-host].  Nothing
    leaves for a host that no live workspace declares, which is answered with
    404.  Answers never carry a hop-by-hop header. *)
Theorem gateway_forwards_declared (st : GatewayState) (req : GwRequest (H := H) (B := B)) :
  ws_ok (gw_workspaces st) →
  (∀ v raw, hm_get "host" (gq_headers req) = Some v → hv_to_str v = Some raw → str_forallb Provider.visible raw = true) →
  (∀ s, str_forallb Provider.visible s = true → is_Some (hv_from_str s)) →
  let '(ups, o) := proxy to_bytes method_from_bytes send st req in
  ∃ r, o = Ok r ∧ (∀ n, gw_is_hop_by_hop n = true → hm_get_all n (gr_headers r) = []) ∧
  match extract_host (gq_headers req) with
  | None => ups = [] ∧ gr_status r = 400
  | Some host =>
      ((∀ id w d, ws_get id (gw_workspaces st) = Some w → ¬ declares w d host) → ups = [] ∧ gr_status r = 404) ∧
      (ups = [] ∨ ∃ up ws d fwd, ups = [up] ∧ ws_get (w_id ws) (gw_workspaces st) = Some ws ∧ declares ws d host ∧
         leads_to st ws d (default "/" (gq_path_and_query req)) (gu_url up) ∧ to_bytes (gq_body req) = inr (gu_body up) ∧
         gu_headers up = filter (λ kv, gw_is_hop_by_hop kv.1 = false) (hm_iter (gq_headers req)) ++ [(X_FORWARDED_HOST, fwd)] ∧
         hv_to_str fwd = Some host ∧ r = relay (send up))
  end.
Proof.
  intros Hok Hraw Hvis. unfold proxy. assert (∀ n : string, hm_get_all n (hm_empty : H) = []) as Hempty by apply hm_get_all_empty.
  destruct (extract_host (gq_headers req)) as [host|] eqn:Eh; [|eexists; split; [done|]; split; [intros; apply Hempty|done]].
  pose proof (by_domain_exact host (gw_workspaces st) Hok) as Hd.
  destruct (ws_by_domain host (gw_workspaces st)) as [[ws d]|]; [|eexists; split; [done|]; split; [intros; apply Hempty|]; split; [done|by left]].
  destruct Hd as [Hw Hdec]. set (pq := default _ _).
  assert (∀ P, (∀ id w d, ws_get id (gw_workspaces st) = Some w → ¬ declares w d host) → P) as Hnone by (intros P Hn; by destruct (Hn _ _ _ Hw Hdec)).
  destruct (forward_url st ws d pq) as [r|url] eqn:Eu.
  { exists r. split; [done|]. split; [|split; [by apply Hnone|by left]]. intros n _. unfold forward_url in Eu.
    destruct (domain_target d) as [[b|p]|e|]; [done| |by injection Eu as <-..]. destruct (active_get _ _); [done|]. by injection Eu as <-. }
  destruct (to_bytes (gq_body req)) as [e|body] eqn:Eb; [eexists; split; [done|]; split; [intros; apply Hempty|]; split; [by apply Hnone|by left]|].
  destruct (Hvis host) as [fwd Ef]; [by eapply extract_host_visible|]. rewrite Ef. eexists. split; [done|]. split; [|split; [by apply Hnone|]].
  - intros n Hn. unfold relay. destruct (send _) as [e|resp]; [apply Hempty|]. destruct (gp_body resp); [apply Hempty|]. simpl. by rewrite copy_except_get_all, Hn.
  - right. eexists _, ws, d, fwd. split; [done|]. split; [done|]. split; [done|]. split; [by apply forward_url_leads|]. split; [done|]. split; [done|].
    split; [by apply hv_from_to|done].
Qed.
End forwarding.

(** The header a backend trusts can be chosen by the client: values of
    [x-forwarded-host] that the client sent stay in front of the gateway's own. *)
Theorem forwarded_host_appended {H V : Type} `{HttpCrate H V} (h : H) (fwd : V) :
  (filter (λ kv, kv.1 = X_FORWARDED_HOST) (forward_headers h fwd)).*2 = hm_get_all X_FORWARDED_HOST h ++ [fwd].
Proof.
  unfold forward_headers. rewrite filter_app, fmap_app, <- hm_iter_all, list_filter_filter. f_equal. f_equal. apply list_filter_iff. intros [n v]. simpl.
  split; [by intros [? _]|]. intros ->. split; [done|]. by vm_compute.
Qed.

Module GatewayExample.
Local Open Scope string_scope.
Definition ws : Workspace := MkWs "wrk_1" "acme" 1 None "/s" "/o" demo_spec None None None [MkWD "App.Example" None (Some 3000)] None None None.
Definition state : GatewayState := MkGateway (new_lock {[ "wrk_1" := ws ]}) (new_lock {[ "wrk_1" := [10; 0; 0; 2]%Z ]}).
Definition headers : list_headers := [("host", MkHV "app.EXAMPLE:443" false); ("x-forwarded-host", MkHV "admin.example" false); ("upgrade", MkHV "x" false)].
Definition request : GwRequest (H := list_headers) (B := string) := MkGwReq "GET" (Some "/a?b=1") headers "body".
Definition send (_ : GwUp (V := HeaderValue)) : string + GwUpResp (H := list_headers) := inr (MkGwUpResp 200 [("te", MkHV "x" false)] (inr "ok")).
Definition sent : list GwUp * outcome unit GwResponse := proxy (λ b : string, inr b) Some send state request.
End GatewayExample.
Lemma gateway_forwards_declared_witness :
  (gu_url <$> GatewayExample.sent.1) = ["http://10.0.0.2:3000/a?b=1"%string] ∧
  ∃ r, GatewayExample.sent.2 = Ok r ∧ ∀ n, gw_is_hop_by_hop n = true → hm_get_all n (gr_headers r) = [].
Proof.
  split; [by vm_compute|].
  pose proof (gateway_forwards_declared (λ b : string, inr b) Some GatewayExample.send GatewayExample.state GatewayExample.request) as Hg.
  fold GatewayExample.sent in Hg. destruct GatewayExample.sent as [ups o]. destruct Hg as (r & -> & Hr & _).
  - split; [done|]. apply map_Forall_singleton. done.
  - intros v raw [= <-] [= <-]. by vm_compute.
  - intros s Hs. simpl. rewrite Hs. by eexists.
  - by exists r.
Defined.
