(* ===== verification/Pipe.v ===== *)
(** * Output of a jail: lines, limits and events

    Models [agentjail/src/pipe.rs] ([OutputStream::read_line], [read_all]),
    [events.rs] and [wait_with_events] of [run.rs].

    Bytes arrive from the pipe in pieces.  Tokio's [read_until] takes what has
    arrived into its buffer and waits for more; the buffer belongs to the future
    of [read_line].  A call is therefore a small state machine that consumes one
    byte at a time ([line_step]), and dropping the future drops its state. *)

From S2P Require Import Prelude Text Utf8 Sys Order Netlink Config Mount Isolation Child Cgroup Run.
From S2P Require Jails.
Local Open Scope Z_scope.

Definition MAX_LINE_BYTES : Z := 1024 * 1024.
Definition MAX_OUTPUT_BYTES : Z := 256 * 1024 * 1024.
Definition str_zlen (s : string) : Z := Z.of_nat (str_len s).
Definition NL : Ascii.ascii := Ascii.ascii_of_nat 10.

(** ** [read_line] *)
(** [Reading]: the first [read_until], with what it has taken; [Draining]: the
    second one, which throws away the rest of an oversized line. *)
Inductive rl_state := Reading (buf : string) | Draining (buf : string) (sunk : Z).
Definition rl_start : rl_state := Reading "".
(** One byte: the call goes on, or returns these bytes. *)
Definition line_step (st : rl_state) (b : Ascii.ascii) : rl_state + string :=
  match st with
  | Reading buf =>
      let buf := buf +:+ String b "" in
      if Ascii.eqb b NL then inr buf
      else if str_zlen buf =? MAX_LINE_BYTES + 1 then inl (Draining buf 0)
      else inl (Reading buf)
  | Draining buf sunk =>
      if Ascii.eqb b NL || (sunk + 1 =? MAX_OUTPUT_BYTES) then inr (str_take (Z.to_nat MAX_LINE_BYTES) buf)
      else inl (Draining buf (sunk + 1))
  end.
(** What has arrived: the state the call waits in, or its result and the rest. *)
Fixpoint line_feed (st : rl_state) (data : string) : rl_state + (string * string) :=
  match data with
  | EmptyString => inl st
  | String b rest => match line_step st b with inl st' => line_feed st' rest | inr line => inr (line, rest) end
  end.
(** The pipe ends. *)
Definition line_eof (st : rl_state) : option string :=
  match st with
  | Reading EmptyString => None
  | Reading buf => Some buf
  | Draining buf _ => Some (str_take (Z.to_nat MAX_LINE_BYTES) buf)
  end.
(** A whole call on a pipe that holds [data] and then ends: the bytes kept of the line,
    if any, and what is left in the pipe. *)
Definition read_line_bytes (data : string) : option string * string :=
  match line_feed rl_start data with
  | inr (line, rest) => (Some line, rest)
  | inl st => (line_eof st, EmptyString)
  end.
(** What the caller gets is the text of those bytes. *)
Definition read_line (data : string) : option string * string :=
  let '(line, rest) := read_line_bytes data in (from_utf8_lossy <$> line, rest).
(** Calls until the end; one unit of fuel each. *)
Fixpoint read_lines (fuel : nat) (data : string) : option (list string) :=
  match fuel with
  | O => None
  | S f => match read_line data with
           | (None, _) => Some []
           | (Some l, rest) => ls ← read_lines f rest; Some (l :: ls)
           end
  end.
Definition read_all (data : string) : string := str_take (Z.to_nat MAX_OUTPUT_BYTES) data.

(** ** [events.rs] *)
Inductive JailEvent :=
| Started (pid : Z) | Stdout (line : string) | Stderr (line : string) | Completed (exit_code duration : Z)
| Killed | TimedOut | OomKilled | Forked (fork_pid : Z).
(** How an event appears in a trace. *)
Definition event_text (e : JailEvent) : string :=
  match e with
  | Started pid => "started " +:+ pretty pid
  | Stdout l => "stdout " +:+ l
  | Stderr l => "stderr " +:+ l
  | Completed c d => "completed " +:+ pretty c +:+ " " +:+ pretty d
  | Killed => "killed"
  | TimedOut => "timed out"
  | OomKilled => "oom killed"
  | Forked pid => "forked " +:+ pretty pid
  end.
Definition send_event (e : JailEvent) : prog unit := sys (EventSend (event_text e)) ;;* Ret tt.

(** ** Waiting *)
Section events.
Context `{Target}.
Record wait_state := MkWS { ws_stdout : string; ws_stderr : string; ws_out_done : bool; ws_err_done : bool }.
(** The loop inside the timeout; [None] when time is up.  [Select] answers a line
    or the end of a pipe that is open, a tick of the sleep, or, when negative,
    that the timeout fired. *)
Fixpoint wait_loop (fuel : nat) (pid : Z) (s : wait_state) : prog (option Z * wait_state) :=
  match fuel with
  | O => Halt
  | S f =>
      let* r := sys (Select (negb (ws_out_done s)) (negb (ws_err_done s))) in
      if rv r <? 0 then Ret (None, s)
      else if (rv r =? 0) && negb (ws_out_done s) then
        send_event (Stdout (trim_end (rtext r))) ;;*
        wait_loop f pid (MkWS (ws_stdout s +:+ rtext r) (ws_stderr s) (ws_out_done s) (ws_err_done s))
      else if (rv r =? 1) && negb (ws_out_done s) then wait_loop f pid (MkWS (ws_stdout s) (ws_stderr s) true (ws_err_done s))
      else if (rv r =? 2) && negb (ws_err_done s) then
        send_event (Stderr (trim_end (rtext r))) ;;*
        wait_loop f pid (MkWS (ws_stdout s) (ws_stderr s +:+ rtext r) (ws_out_done s) (ws_err_done s))
      else if (rv r =? 3) && negb (ws_err_done s) then wait_loop f pid (MkWS (ws_stdout s) (ws_stderr s) (ws_out_done s) true)
      else if ws_out_done s && ws_err_done s then
        let* w := sys (Waitpid pid WNOHANG) in
        if 0 <? rv w then Ret (Some (extract_exit_code (wait_status w)), s) else wait_loop f pid s
      else wait_loop f pid s
  end.
(** What follows the loop. *)
Definition after_loop (h : JailHandle) (code : option Z) (s : wait_state) : prog Jails.Output :=
  let timed_out := match code with None => true | Some _ => false end in
  let* exit_code := (match code with
    | Some c => Ret c
    | None =>
        send_event TimedOut ;;*
        kill_tree (h_pid h) ;;*
        let* w := await (h_pid h) NO_TIMEOUT in Ret (default (-1) w)
    end) in
  let* dur := sys Elapsed in
  let duration := 1000 * rv dur in
  let* stats := collect_stats h in
  let oom := match stats with Some s => Jails.stats_oom_killed s | None => false end in
  (if timed_out then Ret tt else send_event (Completed exit_code duration)) ;;*
  (if oom then send_event OomKilled else Ret tt) ;;*
  let* h := cleanup_veth (set_reaped h) in
  handle_drop h ;;*
  Ret (Jails.MkOutput (ws_stdout s) (ws_stderr s) exit_code duration timed_out oom stats).
Definition wait_with_events (fuel : nat) (h : JailHandle) : prog Jails.Output :=
  sys Elapsed ;;*
  let* r := wait_loop fuel (h_pid h) (MkWS "" "" false false) in
  after_loop h r.1 r.2.
End events.

(** ** Lines *)
#[local] Opaque Z.to_nat.
Lemma zlen_app a b : str_zlen (a +:+ b) = str_zlen a + str_zlen b.
Proof. unfold str_zlen. rewrite str_len_app. lia. Qed.
Lemma line_feed_app st a b :
  line_feed st (a +:+ b) = match line_feed st a with inl st' => line_feed st' b | inr (l, rest) => inr (l, rest +:+ b) end.
Proof.
  revert st. induction a as [|c a IH]; intros st; [by rewrite app_nil_l'|]. rewrite app_cons. cbn [line_feed].
  destruct (line_step st c); [apply IH|done].
Qed.
(** A piece without a newline that fits. *)
Lemma feed_reading buf a : ¬ str_elem NL a → str_zlen buf + str_zlen a ≤ MAX_LINE_BYTES → line_feed (Reading buf) a = inl (Reading (buf +:+ a)).
Proof.
  revert buf. induction a as [|c a IH]; intros buf Hn Hl; [by rewrite str_app_nil_r|]. cbn [line_feed line_step].
  destruct (Ascii.eqb_spec c NL) as [->|_]; [by destruct Hn; left|]. unfold str_zlen in Hl at 2. cbn [str_len String.length] in Hl.
  assert (str_zlen (buf +:+ String c "") = str_zlen buf + 1) as Hz by (rewrite zlen_app; done).
  rewrite Hz. fold (str_len a) in Hl. destruct (Z.eqb_spec (str_zlen buf + 1) (MAX_LINE_BYTES + 1)); [lia|].
  rewrite IH; [by rewrite str_app_assoc, app_cons, app_nil_l'|by intros ?; apply Hn; right|]. rewrite Hz. unfold str_zlen at 2. lia.
Qed.
Lemma feed_draining buf k a :
  ¬ str_elem NL a → 0 ≤ k → k + str_zlen a < MAX_OUTPUT_BYTES → line_feed (Draining buf k) a = inl (Draining buf (k + str_zlen a)).
Proof.
  revert k. induction a as [|c a IH]; intros k Hn Hk Hl; [unfold str_zlen; simpl; by rewrite Z.add_0_r|]. cbn [line_feed line_step].
  destruct (Ascii.eqb_spec c NL) as [->|_]; [by destruct Hn; left|]. assert (str_zlen (String c a) = 1 + str_zlen a) as Hz by (unfold str_zlen; simpl; lia).
  assert (0 ≤ str_zlen a) by (unfold str_zlen; lia). rewrite Hz in *. cbn [orb]. destruct (Z.eqb_spec (k + 1) MAX_OUTPUT_BYTES); [lia|].
  rewrite IH; [f_equal; f_equal; lia|by intros ?; apply Hn; right|lia|lia].
Qed.
(** A long piece is split after [MAX_LINE_BYTES + 1] bytes. *)
Lemma long_splits c : MAX_LINE_BYTES < str_zlen c → ∃ a x b, c = a +:+ String x b ∧ str_zlen a = MAX_LINE_BYTES.
Proof.
  intros Hl. unfold str_zlen in *. assert (Z.to_nat MAX_LINE_BYTES < str_len c)%nat as Hn by (unfold MAX_LINE_BYTES in *; lia).
  assert (∀ n (s : string), (n < str_len s)%nat → ∃ a x b, s = a +:+ String x b ∧ str_len a = n) as Hs.
  { clear. intros n. induction n as [|n IH]; intros [|y s] Hs; simpl in Hs; try lia; [by exists "", y, s|].
    destruct (IH s) as (a & x & b & -> & Ha); [lia|]. exists (String y a), x, b. split; [by rewrite app_cons|]. simpl. by rewrite Ha. }
  destruct (Hs _ _ Hn) as (a & x & b & -> & Ha). exists a, x, b. split; [done|]. rewrite Ha. unfold MAX_LINE_BYTES. lia.
Qed.
Lemma str_take_app_exact a b : str_take (str_len a) (a +:+ b) = a.
Proof. induction a as [|c a IH]; [by destruct b|]. rewrite app_cons. simpl. by rewrite IH. Qed.
(** What is returned of a line whose bytes, without the newline, are [c]. *)
Definition kept (c e : string) : string := if str_zlen c <=? MAX_LINE_BYTES then c +:+ e else str_take (Z.to_nat MAX_LINE_BYTES) c.
Lemma feed_long c : ¬ str_elem NL c → MAX_LINE_BYTES < str_zlen c ≤ MAX_LINE_BYTES + MAX_OUTPUT_BYTES →
  ∃ buf k, line_feed rl_start c = inl (Draining buf k) ∧ str_take (Z.to_nat MAX_LINE_BYTES) buf = str_take (Z.to_nat MAX_LINE_BYTES) c.
Proof.
  intros Hn [Hl Hu]. destruct (long_splits c Hl) as (a & x & b & -> & Ha). rewrite zlen_app, Ha in Hu. rewrite str_elem_app in Hn.
  assert (str_zlen (String x b) = 1 + str_zlen b) as Hz by (unfold str_zlen; simpl; lia). rewrite Hz in Hu.
  rewrite line_feed_app. unfold rl_start. rewrite feed_reading; [|tauto|unfold str_zlen at 1; simpl; lia]. rewrite app_nil_l'. cbn [line_feed line_step].
  destruct (Ascii.eqb_spec x NL) as [->|_]; [destruct Hn; right; by left|].
  assert (str_zlen (a +:+ String x "") = MAX_LINE_BYTES + 1) as -> by (rewrite zlen_app, Ha; done). rewrite Z.eqb_refl.
  rewrite feed_draining; [|by intros ?; apply Hn; right; right|lia|lia]. eexists _, _. split; [done|].
  assert (Z.to_nat MAX_LINE_BYTES = str_len a) as -> by (unfold str_zlen in Ha; rewrite <- Ha; apply Nat2Z.id). by rewrite !str_take_app_exact.
Qed.
Lemma read_line_newline c rest :
  ¬ str_elem NL c → str_zlen c ≤ MAX_LINE_BYTES + MAX_OUTPUT_BYTES →
  read_line_bytes (c +:+ String NL rest) = (Some (kept c (String NL "")), rest).
Proof.
  intros Hn Hu. unfold read_line_bytes, kept. rewrite line_feed_app. destruct (Z.leb_spec (str_zlen c) MAX_LINE_BYTES) as [Hl|Hl].
  - unfold rl_start. rewrite feed_reading; [|done|unfold str_zlen at 1; simpl; lia]. by rewrite app_nil_l'.
  - destruct (feed_long c Hn) as (buf & k & -> & Hb); [lia|]. cbn [line_feed line_step]. by rewrite Hb.
Qed.
Lemma read_line_end c : c ≠ ""%string → ¬ str_elem NL c → str_zlen c ≤ MAX_LINE_BYTES + MAX_OUTPUT_BYTES → read_line_bytes c = (Some (kept c ""), ""%string).
Proof.
  intros Hne Hn Hu. unfold read_line_bytes, kept. destruct (Z.leb_spec (str_zlen c) MAX_LINE_BYTES) as [Hl|Hl].
  - unfold rl_start. rewrite feed_reading; [|done|unfold str_zlen at 1; simpl; lia]. rewrite app_nil_l', str_app_nil_r. by destruct c.
  - destruct (feed_long c Hn) as (buf & k & -> & Hb); [lia|]. simpl. by rewrite Hb.
Qed.

(** The lines of a text, each with what ends it. *)
Fixpoint lines_of (s : string) : list (string * string) :=
  match s with
  | EmptyString => []
  | String c s' =>
      if Ascii.eqb c NL then (EmptyString, String NL "") :: lines_of s'
      else match lines_of s' with [] => [(String c "", ""%string)] | (l, e) :: ls => (String c l, e) :: ls end
  end.
Lemma lines_of_newline c rest : ¬ str_elem NL c → lines_of (c +:+ String NL rest) = (c, String NL "") :: lines_of rest.
Proof.
  induction c as [|x c IH]; intros Hn; [by rewrite app_nil_l'|]. rewrite app_cons. cbn [lines_of].
  destruct (Ascii.eqb_spec x NL) as [->|_]; [by destruct Hn; left|]. rewrite IH; [done|]. intros ?. apply Hn. by right.
Qed.
Lemma lines_of_end c : c ≠ ""%string → ¬ str_elem NL c → lines_of c = [(c, ""%string)].
Proof.
  induction c as [|x c IH]; [done|]. intros _ Hn. cbn [lines_of]. destruct (Ascii.eqb_spec x NL) as [->|_]; [by destruct Hn; left|].
  destruct c as [|y c]; [done|]. rewrite IH; [done|done|]. intros ?. apply Hn. by right.
Qed.
Lemma line_feed_shorter st s l rest : line_feed st s = inr (l, rest) → (str_len rest < str_len s)%nat.
Proof.
  revert st. induction s as [|c s IH]; intros st; [done|]. cbn [line_feed]. destruct (line_step st c) as [st'|l']; [|intros [= _ <-]; simpl; lia].
  intros Hf%IH. simpl. unfold str_len in *. lia.
Qed.
Lemma read_line_shorter s l rest : read_line_bytes s = (Some l, rest) → (str_len rest < str_len s)%nat.
Proof.
  unfold read_line_bytes. destruct (line_feed rl_start s) as [st|[l' rest']] eqn:E; [|intros [= _ <-]; by eapply line_feed_shorter].
  intros [= Hl <-]. destruct s; [|simpl; lia]. injection E as <-. done.
Qed.
Lemma lines_of_concat s : str_concat ((λ l, l.1 +:+ l.2) <$> lines_of s) = s.
Proof.
  induction s as [|c s IH]; [done|]. cbn [lines_of]. destruct (Ascii.eqb_spec c NL) as [->|_].
  - cbn [fmap list_fmap str_concat fst snd]. rewrite IH. by rewrite app_nil_l', app_cons, app_nil_l'.
  - destruct (lines_of s) as [|[l e] ls]; cbn [fmap list_fmap str_concat fst snd] in *.
    + subst s. done.
    + rewrite <- IH. by rewrite !app_cons.
Qed.
(** The buffer of a call stays within its limit. *)
Definition rl_bounded (st : rl_state) : Prop := match st with Reading buf => str_zlen buf ≤ MAX_LINE_BYTES | Draining _ _ => True end.
Lemma str_take_le n s : (str_len (str_take n s) ≤ n)%nat.
Proof. revert s. induction n as [|n IH]; intros s; [by destruct s|]. destruct s as [|c s]; simpl; [lia|]. specialize (IH s). unfold str_len in *. lia. Qed.
Lemma take_bounded s : str_zlen (str_take (Z.to_nat MAX_LINE_BYTES) s) ≤ MAX_LINE_BYTES.
Proof. unfold str_zlen. pose proof (str_take_le (Z.to_nat MAX_LINE_BYTES) s). unfold MAX_LINE_BYTES in *. lia. Qed.
Lemma line_step_bounded st b : rl_bounded st → match line_step st b with inl st' => rl_bounded st' | inr l => str_zlen l ≤ MAX_LINE_BYTES + 1 end.
Proof.
  destruct st as [buf|buf k]; simpl; intros Hb.
  - assert (str_zlen (buf +:+ String b "") = str_zlen buf + 1) as Hz by (rewrite zlen_app; done).
    destruct (Ascii.eqb b NL); [lia|]. destruct (Z.eqb_spec (str_zlen (buf +:+ String b "")) (MAX_LINE_BYTES + 1)); simpl; [done|lia].
  - destruct (_ || _); [|done]. pose proof (take_bounded buf). lia.
Qed.
Lemma line_feed_bounded st s : rl_bounded st → match line_feed st s with inl st' => rl_bounded st' | inr (l, _) => str_zlen l ≤ MAX_LINE_BYTES + 1 end.
Proof.
  revert st. induction s as [|c s IH]; intros st Hb; [done|]. cbn [line_feed]. pose proof (line_step_bounded st c Hb) as Hs.
  destruct (line_step st c); [by apply IH|done].
Qed.
Lemma read_line_bounded s l rest : read_line_bytes s = (Some l, rest) → str_zlen l ≤ MAX_LINE_BYTES + 1.
Proof.
  unfold read_line_bytes. pose proof (line_feed_bounded rl_start s) as Hb. destruct (line_feed rl_start s) as [st|[l' rest']].
  - intros [= Hl _]. specialize (Hb ltac:(done)). destruct st as [[|c buf]|buf k]; simpl in Hl; [done|injection Hl as <-; simpl in Hb; lia|].
    injection Hl as <-. pose proof (take_bounded buf). lia.
  - intros [= <- _]. by apply Hb.
Qed.

(** C24: Reading a jail's output line by line.  However much a jail prints, reading
    to the end takes at most one call per byte and one more.  Of every line of at most
    [MAX_LINE_BYTES] bytes the call keeps all bytes, with the newline; of a longer one
    exactly the first [MAX_LINE_BYTES], and the rest is thrown away so that the next
    call returns the next line, as long as the line has at most [MAX_OUTPUT_BYTES] bytes
    more (the rest of a still longer one comes back as a line of its own).  What is
    returned is the lossy decoding of the bytes kept: always valid UTF-8, at most three
    times as long, and the bytes themselves exactly if they are valid UTF-8, so that
    an output of valid lines of at most [MAX_LINE_BYTES] bytes comes back exactly. *)
Theorem read_lines_exact (s : string) :
  (∃ ls, read_lines (S (str_len s)) s = Some ls ∧ Forall (λ l, str_zlen l ≤ 3 * (MAX_LINE_BYTES + 1) ∧ utf8_valid l = true) ls) ∧
  (Forall (λ l, str_zlen l.1 ≤ MAX_LINE_BYTES + MAX_OUTPUT_BYTES) (lines_of s) →
   read_lines (S (str_len s)) s = Some ((λ l, from_utf8_lossy (kept l.1 l.2)) <$> lines_of s)) ∧
  (Forall (λ l, str_zlen l.1 ≤ MAX_LINE_BYTES ∧ utf8_valid (l.1 +:+ l.2) = true) (lines_of s) →
   ∃ ls, read_lines (S (str_len s)) s = Some ls ∧ str_concat ls = s).
Proof.
  assert (∀ fuel s, (str_len s < fuel)%nat →
    (∃ ls, read_lines fuel s = Some ls ∧ Forall (λ l, str_zlen l ≤ 3 * (MAX_LINE_BYTES + 1) ∧ utf8_valid l = true) ls) ∧
    (Forall (λ l, str_zlen l.1 ≤ MAX_LINE_BYTES + MAX_OUTPUT_BYTES) (lines_of s) →
     read_lines fuel s = Some ((λ l, from_utf8_lossy (kept l.1 l.2)) <$> lines_of s))) as Hall.
  { clear s. intros fuel. induction fuel as [|fuel IH]; intros s Hf; [lia|]. split.
    - cbn [read_lines]. unfold read_line. destruct (read_line_bytes s) as [[l|] rest] eqn:E; [|by exists []]. cbn [fmap option_fmap option_map].
      pose proof (read_line_shorter _ _ _ E). destruct (IH rest) as [(ls & Hr & HF) _]; [lia|]. rewrite Hr. exists (from_utf8_lossy l :: ls). split; [done|].
      constructor; [|done]. split; [|apply lossy_valid]. apply read_line_bounded in E. pose proof (lossy_length l). unfold str_zlen in *. lia.
    - intros HF. cbn [read_lines]. unfold read_line. destruct (split_once NL s) as [[c rest]|] eqn:Es.
      + apply split_once_Some in Es as [-> Hn]. rewrite lines_of_newline in HF |- * by done. apply Forall_cons in HF as [Hc HF]. simpl in Hc.
        rewrite read_line_newline by done. destruct (IH rest) as [_ Hr]; [rewrite str_len_app in Hf; simpl in Hf; unfold str_len in *; lia|].
        cbn [fmap option_fmap option_map]. by rewrite Hr.
      + apply split_once_None in Es. destruct (decide (s = ""%string)) as [->|Hne]; [done|]. rewrite lines_of_end in HF |- * by done.
        apply Forall_cons in HF as [Hc _]. rewrite read_line_end by done. destruct fuel; [destruct s; [done|simpl in Hf; lia]|]. done. }
  destruct (Hall (S (str_len s)) s) as [H1 H2]; [lia|]. split; [done|]. split; [done|]. intros HF. eexists. split; [apply H2|].
  - eapply Forall_impl; [exact HF|]. intros l [Hl _]. unfold MAX_OUTPUT_BYTES. lia.
  - rewrite <- (lines_of_concat s) at 2. f_equal. apply list_fmap_ext. intros k l Hk. rewrite Forall_lookup in HF. destruct (HF k l Hk) as [Hl Hv].
    unfold kept. destruct (Z.leb_spec (str_zlen l.1) MAX_LINE_BYTES); [|lia]. by apply lossy_id_iff.
Qed.
(** A line that is interrupted is lost.  Every caller in the code base waits for
    standard output and standard error with [select!], which drops the call that
    was not ready.  If a part of a line has arrived when the other pipe becomes
    ready, the dropped call has taken that part with it: the next call returns
    only what came later, although undisturbed reading returns the whole line. *)
Theorem dropped_read_loses (a b : string) :
  ¬ str_elem NL (a +:+ b) → str_zlen a + str_zlen b ≤ MAX_LINE_BYTES →
  (* undisturbed *) read_line_bytes (a +:+ b +:+ String NL "") = (Some (a +:+ b +:+ String NL ""), ""%string) ∧
  (* the first call, when [a] has arrived: it has emptied the pipe and waits *) line_feed rl_start a = inl (Reading a) ∧
  (* the next call *) read_line_bytes (b +:+ String NL "") = (Some (b +:+ String NL ""), ""%string).
Proof.
  intros Hn Hl. assert (0 ≤ str_zlen a ∧ 0 ≤ str_zlen b) as [??] by (unfold str_zlen; lia). assert (0 < MAX_OUTPUT_BYTES) by (unfold MAX_OUTPUT_BYTES; lia).
  rewrite str_elem_app in Hn. split; [|split].
  - rewrite <- str_app_assoc. rewrite read_line_newline; [|by rewrite str_elem_app|rewrite zlen_app; lia]. unfold kept. rewrite zlen_app.
    destruct (Z.leb_spec (str_zlen a + str_zlen b) MAX_LINE_BYTES); [|lia]. by rewrite str_app_assoc.
  - unfold rl_start. rewrite feed_reading; [by rewrite app_nil_l'|tauto|]. unfold str_zlen at 1. simpl. lia.
  - rewrite read_line_newline; [|tauto|lia]. unfold kept. by destruct (Z.leb_spec (str_zlen b) MAX_LINE_BYTES); [|lia].
Qed.

Lemma read_lines_exact_witness :
  ∃ ls, read_lines 12 (("one" +:+ String NL "two") +:+ String NL "end") = Some ls ∧ str_concat ls = (("one" +:+ String NL "two") +:+ String NL "end")%string.
Proof.
  apply (read_lines_exact (("one" +:+ String NL "two") +:+ String NL "end")). repeat constructor; vm_compute; discriminate.
Defined.
(** An invalid byte comes back as U+FFFD. *)
Lemma read_line_lossy : read_line (String (Ascii.ascii_of_nat 255) (String NL "x")) = (Some (REPLACEMENT +:+ String NL ""), "x"%string).
Proof. reflexivity. Qed.
Lemma dropped_read_loses_witness :
  read_line_bytes ("hello" +:+ String NL "") = (Some ("hello" +:+ String NL ""), ""%string) ∧
  read_line_bytes ("lo" +:+ String NL "") = (Some ("lo" +:+ String NL ""), ""%string).
Proof.
  destruct (dropped_read_loses "hel" "lo") as (H1 & _ & H3); [|vm_compute; discriminate|by split].
  intros Hn. repeat (destruct Hn as [Hn|Hn]; [discriminate Hn|]). exact Hn.
Defined.

(** ** The events of a run *)
(** What was sent on the channel. *)
Definition sent (t : trace) : list string := omap (λ e, match e.1 with EventSend k => Some k | _ => None end) t.
(** The lines the pipes delivered: on which pipe ([true]: standard error), and
    the text [read_line] returned. *)
Definition delivered (e : event) : option (bool * string) :=
  match e.1 with
  | Select o x => if (rv e.2 =? 0) && o then Some (false, rtext e.2) else if (rv e.2 =? 2) && x then Some (true, rtext e.2) else None
  | _ => None
  end.
Definition lines_read (t : trace) : list (bool * string) := omap delivered t.
Definition line_event (l : bool * string) : JailEvent := if l.1 then Stderr (trim_end l.2) else Stdout (trim_end l.2).
Fixpoint raw (err : bool) (ls : list (bool * string)) : string :=
  match ls with [] => EmptyString | l :: ls => if Bool.eqb l.1 err then l.2 +:+ raw err ls else raw err ls end.
Definition is_select (e : event) : bool := match e.1 with Select _ _ => true | _ => false end.
Definition selects (t : trace) : nat := length (filter (λ e, is_select e) t).

Definition talks (c : syscall) : bool := match c with EventSend _ | Select _ _ => true | _ => false end.
(** Programs that return, and use neither the channel nor the pipes. *)
Fixpoint calm {A} (p : prog A) : Prop :=
  match p with Ret _ => True | Halt => False | Call c k => talks c = false ∧ ∀ r, calm (k r) end.
Lemma calm_bind {A B} (p : prog A) (f : A → prog B) : calm p → (∀ a, calm (f a)) → calm (pbind p f).
Proof. intros Hp Hf. induction p as [a| |c k IH]; simpl in *; [auto|done|]. destruct Hp as [Hc Hk]. split; auto. Qed.
Lemma calm_jbind {E A B} (m : prog (outcome E A)) (f : A → prog (outcome E B)) : calm m → (∀ a, calm (f a)) → calm (jbind m f).
Proof. intros Hm Hf. apply calm_bind; [done|]. intros [a|e|]; simpl; auto. Qed.
Lemma calm_for_all {A} (body : A → prog unit) l : (∀ x, calm (body x)) → calm (for_all_do body l).
Proof. intros Hb. induction l as [|x l IH]; [done|]. simpl. by apply calm_bind. Qed.
Ltac calm_tac :=
  repeat first
  [ progress intros
  | apply calm_bind
  | apply calm_jbind
  | apply calm_for_all
  | match goal with |- calm (match ?x with _ => _ end) => destruct x end
  | done
  | by split ].

Section protocol.
Context `{Target}.
Lemma calm_read_number cg f : calm (read_number cg f).
Proof. unfold read_number, cg_read. calm_tac. Qed.
Lemma calm_stats h : calm (collect_stats h).
Proof.
  unfold collect_stats, io_stats, memory_peak, memory_current, cpu_usage_usec, oom_killed, pids_current, cg_read.
  calm_tac; apply calm_read_number.
Qed.
Lemma calm_cleanup h : calm (cleanup_veth h).
Proof. unfold cleanup_veth, delete_link, ifindex, with_nl_socket, net, nl_socket, nl_exec, finally. calm_tac. Qed.
Lemma calm_drop_cgroup h : calm (drop_cgroup h).
Proof.
  unfold drop_cgroup, cgroup_drop. destruct (h_cgroup h) as [cg|]; [|done]. apply calm_bind; [calm_tac|intros procs].
  apply calm_bind; [calm_tac|intros _]. apply calm_bind; [|calm_tac]. generalize 20%nat as n, (cg_path cg) as path.
  intros n path. induction n as [|n IH]; cbn [remove_loop]; calm_tac.
Qed.
Lemma calm_drop h : calm (handle_drop h).
Proof.
  unfold handle_drop, kill_tree. apply calm_bind; [|intros _; apply calm_drop_cgroup]. destruct (h_reaped h); [apply calm_cleanup|].
  apply calm_bind; [calm_tac|intros _]. apply calm_bind; [|intros reaped; apply calm_bind; [calm_tac|intros _; apply calm_cleanup]].
  destruct (_ =? _); [done|]. generalize 10%nat as n. intros n. induction n as [|n IH]; cbn [reap_spin]; calm_tac.
Qed.

(** [emits p Q]: what a program reads and sends, when it returns. *)
Definition emits {A} (p : prog A) (Q : A → list (bool * string) → list string → Prop) : Prop :=
  ∀ tr, wp p (λ o t, ∀ a, o = Some a → ∃ t', t = tr ++ t' ∧ Q a (lines_read t') (sent t')) tr.
Lemma emits_bind {A B} (p : prog A) (f : A → prog B) Q R :
  emits p Q → (∀ a l e, Q a l e → emits (f a) (λ b l' e', R b (l ++ l') (e ++ e'))) → emits (pbind p f) R.
Proof.
  intros Hp Hf tr. rewrite wp_bind. eapply wp_mono; [|apply Hp]. intros [a|] t Ht; [|done].
  destruct (Ht a eq_refl) as (t1 & -> & HQ). eapply wp_mono; [|apply (Hf _ _ _ HQ)].
  intros o t Ho b ->. destruct (Ho b eq_refl) as (t2 & -> & HR). exists (t1 ++ t2). split; [by rewrite app_assoc|].
  unfold lines_read, sent in *. by rewrite !omap_app.
Qed.
Lemma emits_mono {A} (p : prog A) (Q R : A → list (bool * string) → list string → Prop) :
  emits p Q → (∀ a l e, Q a l e → R a l e) → emits p R.
Proof. intros Hp HQ tr. eapply wp_mono; [|apply Hp]. intros o t Ho a Ha. destruct (Ho a Ha) as (t' & -> & ?). eauto. Qed.
Lemma emits_ret {A} (a : A) (Q : A → list (bool * string) → list string → Prop) : Q a [] [] → emits (Ret a) Q.
Proof. intros HQ tr a' [= <-]. exists []. by rewrite app_nil_r. Qed.
Lemma emits_halt {A} (Q : A → list (bool * string) → list string → Prop) : emits Halt Q.
Proof. intros tr a [=]. Qed.
Lemma emits_sys c : emits (sys c) (λ r l e, l = lines_read [(c, r)] ∧ e = sent [(c, r)]).
Proof. intros tr r a [= <-]. by exists [(c, r)]. Qed.
Lemma emits_calm {A} (p : prog A) : calm p → emits p (λ _ l e, l = [] ∧ e = []).
Proof.
  intros Hp. assert (∀ tr, wp p (λ o t, ∃ t', t = tr ++ t' ∧ lines_read t' = [] ∧ sent t' = []) tr) as Hw.
  { induction p as [a| |c k IH]; intros tr; [by exists []; rewrite app_nil_r|done|]. destruct Hp as [Hc Hk]. simpl. intros r.
    eapply wp_mono; [|by apply IH]. intros o t (t' & -> & Hl & Hs). exists ((c, r) :: t'). split; [by rewrite <- app_assoc|].
    unfold lines_read, sent in *. cbn [omap list_omap]. by destruct c. }
  intros tr. eapply wp_mono; [|apply Hw]. intros o t (t' & -> & ?) a _. by exists t'.
Qed.
Lemma emits_event e : emits (send_event e) (λ _ l s, l = [] ∧ s = [event_text e]).
Proof. intros tr r a [= <-]. by exists [(EventSend (event_text e), r)]. Qed.

(** The loop passes on every line it reads, in order, and keeps all of them. *)
Definition passes_on (s : wait_state) (o : option Z * wait_state) (l : list (bool * string)) (e : list string) : Prop :=
  ws_stdout o.2 = ws_stdout s +:+ raw false l ∧ ws_stderr o.2 = ws_stderr s +:+ raw true l ∧ e = event_text ∘ line_event <$> l.
Lemma passes_on_nil code s : passes_on s (code, s) [] [].
Proof. by unfold passes_on; rewrite !str_app_nil_r. Qed.
Lemma emits_line {A} err line (q : prog A) R :
  emits q (λ a l e, R a ((err, line) :: l) (event_text (line_event (err, line)) :: e)) →
  ∀ r, rtext r = line → emits (send_event (line_event (err, rtext r)) ;;* q) (λ a l e, R a ((err, line) :: l) e).
Proof.
  intros Hq r <-. eapply emits_bind; [apply emits_event|]. intros [] l e [-> ->]. exact Hq.
Qed.
Lemma wait_loop_emits fuel pid s : emits (wait_loop fuel pid s) (passes_on s).
Proof.
  revert s. induction fuel as [|fuel IH]; intros s; [apply emits_halt|]. cbn [wait_loop].
  eapply emits_bind; [apply emits_sys|]. intros r l e [-> ->]. unfold lines_read, sent. cbn [omap list_omap fst snd delivered].
  assert (∀ b1 b2, emits (wait_loop fuel pid (MkWS (ws_stdout s) (ws_stderr s) b1 b2)) (passes_on s)) as Hskip.
  { intros b1 b2. eapply emits_mono; [apply IH|]. done. }
  destruct (Z.ltb_spec (rv r) 0) as [Hneg|Hneg].
  { destruct (Z.eqb_spec (rv r) 0), (Z.eqb_spec (rv r) 2); try lia. apply emits_ret, passes_on_nil. }
  destruct ((rv r =? 0) && negb (ws_out_done s)) eqn:E0; cbn [app].
  { apply (emits_line false _ _ (passes_on s)); [|done]. eapply emits_mono; [apply IH|]. intros o l e (H1 & H2 & ->).
    simpl in *. repeat split; simpl; [by rewrite H1, str_app_assoc|done]. }
  destruct ((rv r =? 2) && negb (ws_err_done s)) eqn:E2; cbn [app].
  { replace ((rv r =? 1) && negb (ws_out_done s)) with false by (destruct (Z.eqb_spec (rv r) 1), (Z.eqb_spec (rv r) 2); simpl in *; (congruence || lia)).
    apply (emits_line true _ _ (passes_on s)); [|done]. eapply emits_mono; [apply IH|]. intros o l e (H1 & H2 & ->).
    simpl in *. repeat split; simpl; [done|by rewrite H2, str_app_assoc]. }
  destruct ((rv r =? 1) && _); [apply Hskip|]. destruct ((rv r =? 3) && _); [apply Hskip|].
  destruct (ws_out_done s && ws_err_done s); [|destruct s; apply Hskip].
  eapply emits_bind; [apply emits_sys|]. intros w l e [-> ->]. cbn [app lines_read sent omap list_omap delivered fst].
  destruct (0 <? rv w); [apply emits_ret, passes_on_nil|destruct s; apply Hskip].
Qed.

(** Programs that return. *)
Fixpoint total {A} (p : prog A) : Prop := match p with Ret _ => True | Halt => False | Call _ k => ∀ r, total (k r) end.
Lemma total_calm {A} (p : prog A) : calm p → total p.
Proof. induction p as [a| |c k IH]; simpl; [done..|]. intros [_ Hk] r. by apply IH. Qed.
Lemma total_bind {A B} (p : prog A) (f : A → prog B) : total p → (∀ a, total (f a)) → total (pbind p f).
Proof. intros Hp Hf. induction p as [a| |c k IH]; simpl in *; [auto|done|]. intros r. by apply IH. Qed.
Lemma run_total {A} K (p : prog A) tr : total p → ∃ a, (run K tr p).2 = Some a.
Proof. revert tr. induction p as [a| |c k IH]; intros tr Hp; simpl in *; [by exists a|done|]. by apply IH, Hp. Qed.
Lemma run_bind_total {A B} K (p : prog A) (f : A → prog B) tr :
  (∃ a, (run K tr p).2 = Some a) → (∀ a t, ∃ b, (run K t (f a)).2 = Some b) → ∃ b, (run K tr (pbind p f)).2 = Some b.
Proof. intros [a Ha] Hf. rewrite run_bind. destruct (run K tr p) as [t [a'|]]; [apply Hf|done]. Qed.
Lemma selects_app t t' : selects (t ++ t') = (selects t + selects t')%nat.
Proof. unfold selects. by rewrite filter_app, length_app. Qed.
Lemma selects_snoc t c r : selects (t ++ [(c, r)]) = (selects t + if is_select (c, r) then 1 else 0)%nat.
Proof. rewrite selects_app. f_equal. unfold selects. rewrite filter_cons. by destruct (is_select (c, r)). Qed.
Lemma wait_loop_returns K N fuel pid s tr :
  (∀ t o e, (N ≤ selects t)%nat → rv (K t (Select o e)) < 0) → (selects tr ≤ N < selects tr + fuel)%nat →
  ∃ a, (run K tr (wait_loop fuel pid s)).2 = Some a.
Proof.
  intros HK. revert s tr. induction fuel as [|fuel IH]; intros s tr Hf; [lia|]. cbn [wait_loop pbind sys run].
  set (r := K tr (Select _ _)). destruct (Z.ltb_spec (rv r) 0) as [Hneg|Hneg]; [by eexists|].
  assert (selects tr < N)%nat as Hlt. { destruct (decide (N ≤ selects tr)%nat) as [Hge|]; [|lia]. unfold r in Hneg. pose proof (HK tr (negb (ws_out_done s)) (negb (ws_err_done s)) Hge). lia. }
  assert (∀ s t, (selects t = S (selects tr))%nat → ∃ a, (run K t (wait_loop fuel pid s)).2 = Some a) as Hgo by (intros; apply IH; lia).
  unfold send_event. repeat (case_match; cbn [pbind sys run]);
    try (by eexists); apply Hgo; rewrite ?selects_snoc; simpl; lia.
Qed.

(** What is sent after the loop, and the output. *)
Definition ends_with (s : wait_state) (out : Jails.Output) (l : list (bool * string)) (e : list string) : Prop :=
  l = [] ∧
  e = [event_text (if Jails.out_timed_out out then TimedOut else Completed (Jails.out_exit_code out) (Jails.out_duration out))] ++
      (if Jails.out_oom_killed out then [event_text OomKilled] else []) ∧
  Jails.out_stdout out = ws_stdout s ∧ Jails.out_stderr out = ws_stderr s.
Lemma after_loop_emits h code s : emits (after_loop h code s) (ends_with s).
Proof.
  unfold after_loop. eapply (emits_bind _ _ (λ c l e, l = [] ∧ e = match code with None => [event_text TimedOut] | Some _ => [] end)).
  { destruct code as [c|]; [by apply emits_ret|]. eapply emits_bind; [apply emits_event|]. intros _ l e [-> ->].
    eapply emits_mono; [apply emits_calm; unfold kill_tree, await; calm_tac|]. by intros c l e [-> ->]. }
  intros c l e [-> ->]. eapply emits_bind; [by apply (emits_calm (sys Elapsed))|]. intros dur l e [-> ->].
  eapply emits_bind; [apply emits_calm, calm_stats|]. intros stats l e [-> ->]. cbn [app].
  set (oom := match stats with Some s => _ | None => _ end).
  eapply (emits_bind _ _ (λ _ l e, l = [] ∧ e = match code with None => [] | Some _ => [event_text (Completed c (1000 * rv dur))] end)).
  { destruct code; [apply emits_event|by apply emits_ret]. }
  intros _ l e [-> ->]. eapply (emits_bind _ _ (λ _ l e, l = [] ∧ e = if oom then [event_text OomKilled] else [])).
  { destruct oom; [apply emits_event|by apply emits_ret]. }
  intros _ l e [-> ->]. eapply emits_bind; [apply emits_calm, calm_cleanup|]. intros h' l e [-> ->].
  eapply emits_bind; [apply emits_calm, calm_drop|]. intros _ l e [-> ->]. apply emits_ret.
  unfold ends_with. cbn [app Jails.out_timed_out Jails.out_exit_code Jails.out_duration Jails.out_oom_killed Jails.out_stdout Jails.out_stderr].
  rewrite !app_nil_r. by destruct code.
Qed.
Lemma after_loop_total h code s : total (after_loop h code s).
Proof.
  unfold after_loop. apply total_bind; [by destruct code|intros c]. apply total_bind; [done|intros dur].
  apply total_bind; [apply total_calm, calm_stats|intros stats]. apply total_bind; [by destruct code|intros _].
  apply total_bind; [by repeat case_match|intros _]. apply total_bind; [apply total_calm, calm_cleanup|intros h'].
  by apply total_bind; [apply total_calm, calm_drop|].
Qed.
(** C25: The events of a watched run.  Whatever the kernel does, when
    [wait_with_events] returns, it has sent exactly this: one [Stdout] or
    [Stderr] event for each line the pipes delivered, in the order they were
    delivered, with the white space at the end cut off; then exactly one of
    [TimedOut] and [Completed], the latter with the exit code and the duration of
    the returned output; then [OomKilled] exactly when the output says so; and
    nothing after that.  The output holds the uncut lines of each pipe.  And it
    does return: if the deadline passes after [N] wake-ups, [N + 1] rounds are
    enough. *)
Theorem watched_run_protocol (h : JailHandle) (fuel : nat) (K : kernel) :
  (∀ out, (run K [] (wait_with_events fuel h)).2 = Some out →
     let t := (run K [] (wait_with_events fuel h)).1 in
     sent t = (event_text ∘ line_event <$> lines_read t) ++
              [event_text (if Jails.out_timed_out out then TimedOut else Completed (Jails.out_exit_code out) (Jails.out_duration out))] ++
              (if Jails.out_oom_killed out then [event_text OomKilled] else []) ∧
     Jails.out_stdout out = raw false (lines_read t) ∧ Jails.out_stderr out = raw true (lines_read t)) ∧
  (∀ N, (∀ t o e, (N ≤ selects t)%nat → rv (K t (Select o e)) < 0) → (N < fuel)%nat →
     ∃ out, (run K [] (wait_with_events fuel h)).2 = Some out).
Proof.
  split.
  - intros out Hout t. assert (emits (wait_with_events fuel h) (λ out l e,
      e = (event_text ∘ line_event <$> l) ++
              [event_text (if Jails.out_timed_out out then TimedOut else Completed (Jails.out_exit_code out) (Jails.out_duration out))] ++
              (if Jails.out_oom_killed out then [event_text OomKilled] else []) ∧
      Jails.out_stdout out = raw false l ∧ Jails.out_stderr out = raw true l)) as He.
    + unfold wait_with_events. eapply emits_bind; [by apply (emits_calm (sys Elapsed))|]. intros start l e [-> ->].
      eapply emits_bind; [apply wait_loop_emits|]. intros [code s] l e (Ho & Hx & ->). simpl in Ho, Hx. rewrite app_nil_l' in Ho, Hx.
      eapply emits_mono; [apply after_loop_emits|]. intros out' l' e' (-> & -> & -> & ->). simpl. rewrite app_nil_r. done.
    + pose proof (wp_run _ _ _ K (He [])) as Hw. cbv beta in Hw. destruct (Hw out Hout) as (t' & Ht & Hall). unfold t. by rewrite Ht.
  - intros N HK Hf. unfold wait_with_events. cbn [pbind sys run].
    apply run_bind_total; [eapply wait_loop_returns; [exact HK|]; unfold selects; simpl; lia|].
    intros [code s] t1. apply run_total, after_loop_total.
Qed.
End protocol.

(** A run that prints a line on each pipe and exits with code 3. *)
Definition printing_kernel : kernel := λ t c,
  match c with
  | Select _ _ =>
      match selects t with
      | 0 => MkRet 0 0 [] ("out" +:+ String NL "") []
      | 1 => MkRet 2 0 [] ("err " +:+ String NL "") []
      | 2 => rint 1
      | 3 => rint 3
      | 4 => rint 4
      | _ => rint (-1)
      end%nat
  | Waitpid _ _ => MkRet 4242 0 [768] "" []
  | _ => rint 0
  end.
Definition plain_handle : JailHandle := {|
  h_pid := 4242; h_reaped := false; h_stdout := 5; h_stderr := 6; h_timeout := 1000; h_cgroup := None;
  h_veth := None; h_jail_ip := None; h_proxy := false |}.
Lemma watched_run_protocol_witness :
  sent (run printing_kernel [] (wait_with_events 9 plain_handle)).1 = ["stdout out"; "stderr err"; "completed 3 0"]%string ∧
  ∃ out, (run printing_kernel [] (wait_with_events 9 plain_handle)).2 = Some out.
Proof.
  destruct (watched_run_protocol plain_handle 9 printing_kernel) as [Hsent Hret]. split.
  - edestruct Hsent as (He & _); [vm_compute; reflexivity|]. etransitivity; [exact He|]. vm_compute. reflexivity.
  - apply (Hret 5%nat); [|lia]. intros t o e Ht. unfold printing_kernel. destruct (selects t) as [|[|[|[|[|n]]]]]; [lia..|]. simpl. lia.
Defined.
