(* ===== verification/StreamRoutes.v ===== *)
(** * Streaming runs

    Models [agentjail-ctl/src/routes/stream.rs]: [create_stream_run], which starts
    a jail and answers with a stream of server-sent events.  The stream outlives
    the handler and owns the permit, the gauge, the temporary directories and the
    jail.  Axum polls it; when the client goes away axum drops it, wherever it
    stands.  Yielding an event is [EventSend], waiting is [Select]; a negative
    answer of either says that the stream was dropped there.  Background tasks act
    while the stream waits.

    Axum's event builder is a parameter ([Sse]). *)

From S2P Require Import Prelude Text Tenant Provider Ctl Jails Sessions Snapshots Sys Order Netlink Cgroup Config Isolation Child Run Git Monitor ExecRoutes.
From S2P Require Workspaces Pipe.
Import Workspaces(config_snapshot).
Local Open Scope Z_scope.

(** What [json_data] is given. *)
Inductive SsePayload :=
| PStarted (pid : Z) | PStats (s : ResourceStats)
| PCompleted (exit_code duration_ms : Z) (timed_out oom_killed : bool) (memory_peak memory_current cpu_usage pids : Z).
(** [axum::response::sse::Event]: [data] panics ([None]) as documented, [json_data]
    can fail. *)
Class Sse := {
  sse_data : string → string → option string;
  sse_json : string → SsePayload → option string
}.
Definition CR : Ascii.ascii := Ascii.ascii_of_nat 13.
(** "Panics if data contains any carriage returns, as they cannot be transmitted
    over SSE." *)
Class SseLaws `{Sse} : Prop := sse_data_panics kind text : sse_data kind text = None ↔ str_elem CR text.

(** [String::pop] of an ASCII character. *)
Definition pop_suffix (c : Ascii.ascii) (s : string) : string :=
  if ends_with (String c "") s then str_take (str_len s - 1) s else s.
Definition trim_nl (s : string) : string := pop_suffix CR (pop_suffix (Ascii.ascii_of_nat 10) s).
Definition completed (o : Output) : SsePayload :=
  let stat f := match out_stats o with Some s => f s | None => 0 end in
  PCompleted (out_exit_code o) (u64_sat (out_duration o / 10 ^ 6)) (out_timed_out o) (out_oom_killed o)
    (stat memory_peak_bytes) (stat memory_current_bytes) (stat Jails.cpu_usage_usec) (stat Jails.pids_current).

Section stream.
Context `{Sse} `{DebugFmt} `{Target} `{Seccompiler} (show_io : Z → string) (show_error : JailError → string).

(** ** Opening *)
(** What the stream owns. *)
Record StreamRun := MkStream { sr_handle : JailHandle; sr_rec : Z; sr_source : string; sr_output : string }.
(** [try_acquire_owned]: kept on success, dropped on an early return. *)
Definition owned_permit {R} (body : act (outcome CtlError R)) : act (outcome CtlError R) := λ st,
  match a_permits st with
  | O => Ret (st, Err (BadRequest "too many concurrent executions"))
  | S n =>
      let* '(st, r) := body (set_gate n (a_metrics st) st) in
      Ret (if is_ok r then st else set_gate (S (a_permits st)) (a_metrics st) st, r)
  end.
Definition owned_tempdir {R} (body : string → act (outcome CtlError R)) : act (outcome CtlError R) :=
  let+ d := alift (sys MkTempDir) in
  if negb (ok d) then aret (Err (IoErr (show_io (rerr d)))) else
  let+ r := body (rtext d) in
  let+ _ := (if is_ok r then aret tt else alift (sys (RemoveDirAll (rtext d)) ;;* Ret tt)) in
  aret r.
Definition open_stream (sc : TenantScope) (req : RunRequest) : act (outcome CtlError StreamRun) :=
  try+ exec_cfg := exec_enabled in
  if 1024 * 1024 <? Z.of_nat (str_len (rr_code req)) then aret (Err (BadRequest "code exceeds 1 MB")) else
  let timeout := run_timeout exec_cfg req in
  let memory := run_memory exec_cfg req in
  owned_permit (
    try+ '(filename, cmd) := lift_result (language_runtime (rr_language req)) in
    owned_tempdir (λ src, owned_tempdir (λ out,
      try+ _ := alift (ctl_io show_io (WriteFile (path_join src filename) (rr_code req))) in
      try+ config := alift (jail_config src out memory timeout [PATH_ENV] (rr_options req) false []) in
      try+ jail := new_jail show_error config in
      try+ h := alift (ctl_jail show_error (spawn show_error jail cmd ["/workspace/" +:+ filename]%string)) in
      let+ _ := amod (λ st, set_gate (a_permits st) (metrics_start (a_metrics st)) st) in
      let+ t := now_utc in
      let+ rec_id := (λ st, let '(id, s) := jail_start t (ts_tenant sc) Stream (rr_language req) None None (a_jails st) in Ret (set_jails s st, id)) in
      let+ _ := amod (λ st, set_jails (jail_attach_config rec_id (config_snapshot (rr_options req) memory timeout (rr_git req)) (a_jails st)) st) in
      aret (Ok (MkStream h rec_id src out))))).

(** ** The stream *)
Inductive stream_end := Finished | Dropped | Panicked.
(** [yield]: does the stream go on? *)
Definition yield_event (ev : string) : act bool := let+ r := alift (sys (EventSend ev)) in aret (0 <=? rv r).
(** [if let Ok(ev) = ... { yield Ok(ev) }] *)
Definition yield_json (kind : string) (p : SsePayload) : act bool :=
  match sse_json kind p with Some ev => yield_event ev | None => aret true end.
Definition SSE_QUEUE : nat := 16.
(** The sampler that feeds the stream's own channel; [try_send] drops the sample
    when the channel is full. *)
Definition sse_tick (h : JailHandle) (q : list ResourceStats) : act (list ResourceStats) :=
  match h_cgroup h with
  | None => aret q
  | Some cg => let+ s := alift (sample (cg_path cg)) in aret (if (length q <? SSE_QUEUE)%nat then q ++ [s] else q)
  end.
(** The loop over both pipes and the channel [q]; [None] when both have ended.  [4]
    in an answer is a message on the channel, [5] the ledger's sampler, [6] the
    stream's. *)
Fixpoint stream_loop (fuel : nat) (rec_id : Z) (h : JailHandle) (q : list ResourceStats) (stdout_done stderr_done : bool)
    : act (option stream_end) :=
  match fuel with
  | O => λ _, Halt
  | S f =>
      if stdout_done && stderr_done then aret None else
      let+ r := alift (sys (Select (negb stdout_done) (negb stderr_done))) in
      if rv r <? 0 then aret (Some Dropped)
      else if rv r =? 6 then let+ q := sse_tick h q in stream_loop f rec_id h q stdout_done stderr_done
      else
        let send kind l := (
          match sse_data kind (trim_nl l) with
          | None => aret (Some Panicked)
          | Some ev => let+ on := yield_event ev in
                       if on : bool then stream_loop f rec_id h q stdout_done stderr_done else aret (Some Dropped)
          end) in
        match mon_event_of stdout_done stderr_done r with
        | OutLine l => send "stdout"%string l
        | OutEof => stream_loop f rec_id h q true stderr_done
        | ErrLine l => send "stderr"%string l
        | ErrEof => stream_loop f rec_id h q stdout_done true
        | FlushTick =>
            match q with
            | [] => stream_loop f rec_id h q stdout_done stderr_done
            | s :: q' => let+ on := yield_json "stats" (PStats s) in
                         if on : bool then stream_loop f rec_id h q' stdout_done stderr_done else aret (Some Dropped)
            end
        | StatsTick => let+ _ := stats_tick rec_id h in stream_loop f rec_id h q stdout_done stderr_done
        | Nothing => stream_loop f rec_id h q stdout_done stderr_done
        end
  end.
(** Up to the exit of the jail; [None]: it is still running. *)
Definition stream_run (fuel : nat) (s : StreamRun) : act (stream_end + Output) :=
  let+ on := yield_json "started" (PStarted (h_pid (sr_handle s))) in
  if negb on then aret (inl Dropped) else
  let+ e := stream_loop fuel (sr_rec s) (sr_handle s) [] false false in
  match e with
  | Some e => aret (inl e)
  | None =>
      let+ r := alift (sys (Select false false)) in
      if rv r <? 0 then aret (inl Dropped) else
      let+ o := alift (handle_wait (sr_handle s)) in aret (inr o)
  end.
(** The guards of the stream. *)
Definition release (s : StreamRun) : act unit :=
  let+ _ := amod (λ st, set_gate (S (a_permits st)) (metrics_drop (a_metrics st)) st) in
  let+ _ := alift (sys (RemoveDirAll (sr_source s))) in
  let+ _ := alift (sys (RemoveDirAll (sr_output s))) in aret tt.
Definition stream_body (fuel : nat) (s : StreamRun) : act stream_end :=
  let+ e := stream_run fuel s in
  let+ e := (match e with
    | inl e => let+ _ := alift (handle_drop (sr_handle s)) in aret e
    | inr o =>
        let+ t := now_utc in
        let+ panicked := (λ st, let '(s', p) := jail_finish t (sr_rec s) o (a_jails st) in Ret (set_jails s' st, p)) in
        if panicked : bool then aret Panicked else
        let+ _ := yield_json "completed" (completed o) in aret Finished
    end) in
  let+ _ := release s in
  aret e.
(** The request as a whole: the refusal, or how the stream ended. *)
Definition create_stream_run (fuel : nat) (sc : TenantScope) (req : RunRequest) : act (outcome CtlError stream_end) :=
  try+ s := open_stream sc req in
  let+ e := stream_body fuel s in aret (Ok e).
End stream.

(** ** The ledger of a stream *)
Section protocol.
Context `{Sse} `{DebugFmt} `{Target} `{Seccompiler} (show_io : Z → string) (show_error : JailError → string).

(** Opening: refused and nothing changed, or one row and one permit. *)
Definition opened (tenant label : string) (config : JailConfigSnapshot) (st st' : AppState) (o : outcome CtlError StreamRun) : Prop :=
  match o with
  | Ok s => sr_rec s = js_next_id (a_jails st) ∧ ∃ t,
      st' = set_jails (foldl jail_step (a_jails st) [JStart t tenant Stream label None None; JAttach (sr_rec s) config])
              (set_gate (a_permits st) (metrics_start (a_metrics st)) st)
  | _ => st' = st
  end.
Lemma ends_owned_tempdir tenant label config (body : string → act (outcome CtlError StreamRun)) st :
  (∀ d, ends (body d) st (opened tenant label config st)) → ends (owned_tempdir show_io body) st (opened tenant label config st).
Proof.
  intros Hb. unfold owned_tempdir. eapply ends_stateless; [apply stateless_lift|]. intros d. destruct (negb (ok d)); [by apply ends_ret|].
  eapply ends_bind; [apply Hb|]. intros st' r HQ. apply ends_stateless; [destruct (is_ok r); auto with stateless|]. intros _. by apply ends_ret.
Qed.
Lemma ends_open sc req c st :
  a_exec_config st = Some c →
  ends (open_stream show_io show_error sc req) st (λ st' o,
    match o with
    | Ok s => ∃ n, a_permits st = S n ∧
        opened (ts_tenant sc) (rr_language req) (config_snapshot (rr_options req) (run_memory c req) (run_timeout c req) (rr_git req))
          (set_gate n (a_metrics st) st) st' o
    | _ => st' = st
    end).
Proof.
  intros Hc. unfold open_stream. apply ends_read_try; [by intros [a|e|] Hn; [destruct (Hn a)|..]|]. intros c'. rewrite Hc. intros [= <-].
  destruct (_ <? _); [by apply ends_ret|]. set (config := config_snapshot _ _ _ _). unfold owned_permit, ends. destruct (a_permits st) as [|n] eqn:Ep; [by intros K tr st' o [= <- <-]|].
  set (st1 := set_gate n (a_metrics st) st).
  match goal with |- context [pbind (?b st1) _] => set (body := b) end.
  assert (ends body st1 (opened (ts_tenant sc) (rr_language req) config st1)) as Hbody.
  { subst body. apply ends_stateless_try; [apply stateless_ret|by intros [a|e|] Hn; [destruct (Hn a)|..]|]. intros [filename cmd].
    do 2 (apply ends_owned_tempdir; intros ?).
    do 4 (apply ends_stateless_try; [apply stateless_lift|by intros [a'|e|] Hn; [destruct (Hn a')|..]|intros ?]).
    apply ends_modify.
    eapply ends_bind; [apply ends_now|]. intros ? t ->.
    eapply (ends_bind _ _ _ (λ st' i, i = js_next_id (a_jails st1) ∧
      st' = set_jails (jail_step (a_jails st1) (JStart t (ts_tenant sc) Stream (rr_language req) None None)) (set_gate (a_permits st1) (metrics_start (a_metrics st1)) st1)));
      [by intros K tr st' i [= <- <-]|].
    intros ? i [-> ->]. apply ends_modify, ends_ret. split; [done|]. by exists t. }
  intros K tr st' o. rewrite run_bind. specialize (Hbody K tr). destruct (run K tr (body st1)) as [tr' [[st2 r]|]]; [|done].
  specialize (Hbody _ _ eq_refl). destruct r as [s|e|]; cbn [is_ok run]; intros [= <- <-]; [by exists n|rewrite Hbody; unfold st1; destruct st; simpl in *; by rewrite Ep..].
Qed.
Lemma yield_stateless kind p : stateless (yield_json kind p).
Proof. unfold yield_json, yield_event. destruct (sse_json kind p); auto with stateless. Qed.
Definition followed_to (rec : Z) (st0 st : AppState) (o : option stream_end) : Prop := followed rec st0 st ∧ o ≠ Some Finished.
Lemma stream_loop_follows fuel rec h : ∀ q od ed st0 st, followed rec st0 st → ends (stream_loop fuel rec h q od ed) st (followed_to rec st0).
Proof.
  induction fuel as [|fuel IH]; intros q od ed st0 st Hf; [apply ends_halt|]. cbn [stream_loop].
  assert (∀ e, e ≠ Some Finished → ends (aret e) st (followed_to rec st0)) as Hend by (intros; by apply ends_ret).
  destruct (od && ed); [by apply Hend|]. apply ends_stateless; [apply stateless_lift|]. intros r.
  destruct (rv r <? 0); [by apply Hend|]. destruct (rv r =? 6).
  { apply ends_stateless; [unfold sse_tick; destruct (h_cgroup h); auto with stateless|]. intros q'. by apply IH. }
  assert (∀ kind l, ends (match sse_data kind (trim_nl l) with
    | None => aret (Some Panicked)
    | Some ev => let+ on := yield_event ev in if on : bool then stream_loop fuel rec h q od ed else aret (Some Dropped)
    end) st (followed_to rec st0)) as Hsend.
  { intros kind l. destruct (sse_data kind _); [|by apply Hend]. apply ends_stateless; [unfold yield_event; auto with stateless|].
    intros [|]; [by apply IH|by apply Hend]. }
  destruct (mon_event_of od ed r) as [l| |l| | | |]; [apply Hsend|by apply IH|apply Hsend|by apply IH|..|by apply IH].
  - destruct q as [|s q]; [by apply IH|]. apply ends_stateless; [apply yield_stateless|]. intros [|]; [by apply IH|by apply Hend].
  - eapply ends_bind; [by apply stats_follows|]. intros st' [] Hf'. by apply IH.
Qed.
(** The jail that a request started, by the trace. *)
Definition spawned (K : kernel) (tr t : trace) (h : JailHandle) : Prop :=
  ∃ jail cmd args, happened K tr t (spawn show_error jail cmd args) (Ok h).
Lemma owned_tempdir_did (body : string → act (outcome CtlError StreamRun)) K st tr :
  (∀ d t, tr `prefix_of` t → did K (body d) st t (λ t' _ o, ∀ s, o = Ok s → spawned K tr t' (sr_handle s))) →
  did K (owned_tempdir show_io body) st tr (λ t' _ o, ∀ s, o = Ok s → spawned K tr t' (sr_handle s)).
Proof.
  intros Hb. unfold owned_tempdir. apply did_call. destruct (negb _); [by apply did_ret|].
  eapply did_bind; [apply Hb; by apply prefix_app_r|]. intros t st' o Ho. eapply did_bind; [apply did_extends|]. intros t' st'' [] Hp.
  apply did_ret. intros s Hs. destruct (Ho s Hs) as (j & cmd & args & Hh). exists j, cmd, args. by eapply happened_later.
Qed.
Lemma open_did sc req K st tr :
  did K (open_stream show_io show_error sc req) st tr (λ t _ o, ∀ s, o = Ok s → spawned K tr t (sr_handle s)).
Proof.
  unfold open_stream. apply did_read_try; [|by intros o Ho s ->; destruct (Ho s)]. intros c _. destruct (_ <? _); [by apply did_ret|].
  intros t st' o. unfold owned_permit. destruct (a_permits st) as [|n]; [by intros [= <- <- <-]|]. rewrite run_bind.
  match goal with |- context [run K tr (?b (set_gate n (a_metrics st) st))] => set (body := b) end.
  assert (∀ st1, did K body st1 tr (λ t _ o, ∀ s, o = Ok s → spawned K tr t (sr_handle s))) as Hb.
  { intros st1. subst body. unfold atry at 1. eapply (did_bind _ _ _ _ _ (λ t _ _, t = tr)); [by intros t1 st2 o1 [= <- _ _]|].
    intros ? st2 [[filename cmd]|e|] ->; [|by apply did_ret..].
    apply owned_tempdir_did. intros d1 t1 Hp1. eapply did_mono; [apply owned_tempdir_did|intros t' st5 o1 Ho s Hs; destruct (Ho s Hs) as (j & c1 & args & Hh); exists j, c1, args; by eapply happened_earlier].
    intros d2 t2 Hp2.
    do 3 (unfold atry at 1; eapply did_bind; [apply did_extends|]; intros ? ? [?|?|] ?; [|by apply did_ret..]).
    unfold atry at 1. apply did_lift. intros t6 r Hr. unfold ctl_jail in Hr. rewrite run_bind in Hr.
    destruct (run K _ (spawn _ _ _ _)) as [t7 [[h|e|]|]] eqn:Es; [..|done]; injection Hr as -> <-; [|by apply did_ret..]. cbn [omap_err].
    eapply did_bind; [apply did_extends|]. intros t8 st8 [] H8. eapply did_bind; [apply did_extends|]. intros t9 st9 z H9.
    eapply did_bind; [apply did_extends|]. intros t10 st10 i H10. eapply did_bind; [apply did_extends|]. intros t11 st11 [] H11.
    apply did_ret. intros s [= <-]. cbn [sr_handle]. eexists _, _, _. eapply happened_later; [eapply happened_earlier; [exact (happened_now _ _ _ _ _ Es)|]|].
    + by etransitivity; [exact Hp2|]; etransitivity; [exact H3|]; etransitivity; [exact H4|].
    + by etransitivity; [exact H8|]; etransitivity; [exact H9|]; etransitivity; [exact H10|]. }
  specialize (Hb (set_gate n (a_metrics st) st)). destruct (run K tr (body _)) as [t1 [[st1 r]|]] eqn:E; [|done].
  intros [= <- _ <-]. exact (Hb _ _ _ E).
Qed.
Lemma stream_run_did fuel s K st tr : did K (stream_run fuel s) st tr (λ t st' e,
  (followed (sr_rec s) st st' ∧ e ≠ inl Finished) ∧ ∀ o, e = inr o → happened K tr t (handle_wait (sr_handle s)) o).
Proof.
  apply did_and.
  - apply did_ends. unfold stream_run. apply ends_stateless; [apply yield_stateless|]. intros [|]; [|apply ends_ret; split; [apply followed_refl|done]].
    eapply ends_bind; [apply stream_loop_follows, followed_refl|]. intros st' [e|] [Hf He]; [apply ends_ret; split; [done|congruence]|].
    apply ends_stateless; [apply stateless_lift|]. intros r. destruct (rv r <? 0); [by apply ends_ret|].
    apply ends_stateless; [apply stateless_lift|]. intros o. by apply ends_ret.
  - unfold stream_run. eapply did_bind; [apply did_extends|]. intros t1 st1 on Hp1. destruct on; [|by apply did_ret]. cbn [negb].
    eapply did_bind; [apply did_extends|]. intros t2 st2 [e|] Hp2; [by apply did_ret|]. apply did_call. destruct (_ <? _); [by apply did_ret|].
    apply did_lift. intros t3 o Hr. apply did_ret. intros o' [= <-]. eapply happened_earlier; [exact (happened_now _ _ _ _ _ Hr)|].
    etransitivity; [exact Hp1|]. etransitivity; [exact Hp2|]. by apply prefix_app_r.
Qed.
(** How a stream ends, in the ledger; [G]: what the output is. *)
Definition stream_closing (G : Output → Prop) (id : Z) (e : stream_end) (last : list JailOp) : Prop :=
  match e with
  | Finished => ∃ t r, last = [JFinish t id r] ∧ G r
  | Dropped => last = []
  | Panicked => last = [] ∨ ∃ t r, last = [JFinish t id r] ∧ G r
  end.
Lemma stream_body_did fuel s K st tr : did K (stream_body fuel s) st tr (λ t st' e, ∃ mid last,
  Forall (follows_row (sr_rec s)) mid ∧ stream_closing (happened K tr t (handle_wait (sr_handle s))) (sr_rec s) e last ∧
  st' = set_jails (foldl jail_step (a_jails st) (mid ++ last)) (set_gate (S (a_permits st)) (metrics_drop (a_metrics st)) st)).
Proof.
  unfold stream_body. eapply did_bind; [apply stream_run_did|]. intros t1 st1 e [[(mid & HF & ->) He] Ho].
  set (st1 := set_jails (foldl jail_step (a_jails st) mid) st).
  eapply (did_bind _ _ _ _ _ (λ t st' e, ∃ last, stream_closing (happened K tr t (handle_wait (sr_handle s))) (sr_rec s) e last ∧
    st' = set_jails (foldl jail_step (a_jails st) (mid ++ last)) st)).
  - destruct e as [e|o].
    + apply did_lift. intros t2 [] _. apply did_ret. exists []. rewrite app_nil_r. split; [by destruct e; [|done|left]|done].
    + specialize (Ho o eq_refl). unfold now_utc. eapply (did_bind _ _ _ _ _ (λ t st' _, st' = st1 ∧ t1 `prefix_of` t)).
      { apply did_call, did_ret. split; [done|by apply prefix_app_r]. }
      intros t2 ? z [-> Hp2]. apply (did_update _ (λ st0, let '(s', p) := jail_finish z (sr_rec s) o (a_jails st0) in (set_jails s' st0, p))).
      assert (∀ t3 e, t2 `prefix_of` t3 → (e = Finished ∨ e = Panicked) → did K (aret e) (set_jails (jail_step (a_jails st1) (JFinish z (sr_rec s) o)) st1) t3
        (λ t st' e, ∃ last, stream_closing (happened K tr t (handle_wait (sr_handle s))) (sr_rec s) e last ∧
           st' = set_jails (foldl jail_step (a_jails st) (mid ++ last)) st)) as Hend.
      { intros t3 e Hp3 Hcase. assert (happened K tr t3 (handle_wait (sr_handle s)) o) as Hh by (eapply happened_later; [exact Ho|by etransitivity]).
        apply did_ret. exists [JFinish z (sr_rec s) o]. split; [destruct Hcase as [-> | ->]; [by eexists _, _|right; by eexists _, _]|].
        unfold st1. simpl. by rewrite foldl_app. }
      cbn. destruct (row_panics _ _ _); [apply Hend; [done|by right]|].
      eapply did_bind; [apply did_and; [apply did_extends|apply did_ends, (yield_stateless "completed" (completed o))]|]. intros t3 ? b [Hp3 ->].
      apply Hend; [done|by left].
  - intros t2 ? e' (last & Hl & ->). unfold release.
    eapply (did_bind _ _ _ _ _ (λ t st' _, t2 `prefix_of` t ∧ st' = set_jails (foldl jail_step (a_jails st) (mid ++ last)) (set_gate (S (a_permits st)) (metrics_drop (a_metrics st)) st))).
    + apply did_and; [apply did_extends|apply did_ends]. apply ends_modify. do 2 (apply ends_stateless; [apply stateless_lift|]; intros _). by apply ends_ret.
    + intros t3 ? _ [Hp3 ->]. apply did_ret. exists mid, last. split; [done|]. split; [|done].
      destruct e'; simpl in *; [..|done|]; [destruct Hl as (z & r & -> & Hh); exists z, r; split; [done|by eapply happened_later]|].
      destruct Hl as [->|(z & r & -> & Hh)]; [by left|right; exists z, r; split; [done|by eapply happened_later]].
Qed.

(** C23: A streamed run in the ledger.  Whatever the kernel, the jail and the client
    do, when a request to stream a run is over: either it was refused and
    nothing changed; or the ledger got exactly one row, of the caller's tenant and
    with the requested configuration, then usage samples of that row, and the row was
    closed exactly if the stream ran to its end, with the very [Output] that waiting
    for the jail this request spawned returned (exit code, limits hit and usage; its
    streams are what was left in the pipes after the stream had read both to their
    end).  When the client went away first the row is left open: nothing closes it.
    In every case the permit is back and the gauge of running executions is down
    again. *)
Theorem stream_ledger_protocol (fuel : nat) (sc : TenantScope) (req : RunRequest) (c : ExecConfig) (K : kernel) (tr t : trace)
    (st st' : AppState) (o : outcome CtlError stream_end) :
  a_exec_config st = Some c → 0 ≤ m_active (a_metrics st) < 2 ^ 64 →
  run K tr (create_stream_run show_io show_error fuel sc req st) = (t, Some (st', o)) →
  match o with
  | Ok e => settled st st' ∧ ∃ h z mid last, spawned K tr t h ∧
      a_jails st' = foldl jail_step (a_jails st) (run_ops (js_next_id (a_jails st)) z (ts_tenant sc) Stream (rr_language req) None
        (config_snapshot (rr_options req) (run_memory c req) (run_timeout c req) (rr_git req)) mid last) ∧
      Forall (follows_row (js_next_id (a_jails st))) mid ∧
      stream_closing (happened K tr t (handle_wait h)) (js_next_id (a_jails st)) e last
  | _ => st' = st
  end.
Proof.
  intros Hc Hm. revert t st' o. refine (_ : did K _ st tr _). unfold create_stream_run, atry.
  eapply did_bind; [apply did_and; [apply (open_did sc req)|apply did_and; [by apply did_ends, (ends_open sc req c)|apply did_extends]]|].
  intros t1 st1 [s|e|] (Hsp & Hop & Hp1); [|by apply did_ret..]. destruct Hop as (n & Ep & Hrec & z & ->). simpl in Hrec.
  eapply did_bind; [apply did_and; [apply stream_body_did|apply did_extends]|]. intros t2 st2 e [(mid & last & HF & Hl & ->) Hp2].
  apply did_ret. rewrite Hrec in *. split.
  - exists (u64 (m_total (a_metrics st) + 1)). unfold settled, set_gate, set_jails. simpl. rewrite Ep. unfold metrics_drop, metrics_start. simpl.
    repeat f_equal. unfold u64. rewrite Zminus_mod_idemp_l, Z.add_simpl_r. by apply Z.mod_small.
  - exists (sr_handle s), z, mid, last. split.
    { destruct (Hsp s eq_refl) as (j & cmd & args & Hh). exists j, cmd, args. by eapply happened_later. }
    split; [done|]. split; [done|]. destruct e; simpl in *; [..|done|].
    + destruct Hl as (z' & r & -> & Hh). exists z', r. split; [done|]. by eapply happened_earlier.
    + destruct Hl as [->|(z' & r & -> & Hh)]; [by left|right]. exists z', r. split; [done|]. by eapply happened_earlier.
Qed.

(** A carriage return ends the stream.  [trim_nl] only removes a line's end, and
    axum's [Event::data] is documented to panic on carriage returns: if the jail
    prints a line with one inside, as progress bars do, the stream dies there, the
    client gets no further event, the jail is killed and its row in the ledger
    is left open. *)
Theorem carriage_return_ends_stream `{!SseLaws} (fuel : nat) (s : StreamRun) (K : kernel) (tr : trace) (st : AppState) :
  (∀ t ev, 0 ≤ rv (K t (EventSend ev))) →
  (∀ t, rv (K t (Select true true)) = 0 ∧ str_elem CR (trim_nl (rtext (K t (Select true true))))) →
  ∃ st', (run K tr (stream_body (S fuel) s st)).2 = Some (st', Panicked) ∧ a_jails st' = a_jails st ∧
    ∃ t, (run K tr (stream_run (S fuel) s st)) = (t, Some (st, inl Panicked)) ∧
         (run K t (handle_drop (sr_handle s))).1 `prefix_of` (run K tr (stream_body (S fuel) s st)).1.
Proof.
  intros Hev Hsel.
  assert (∃ t, run K tr (stream_run (S fuel) s st) = (t, Some (st, inl Panicked))) as [t Ht].
  { assert (∃ t1, run K tr (yield_json "started" (PStarted (h_pid (sr_handle s))) st) = (t1, Some (st, true))) as [t1 Hy].
    { unfold yield_json. destruct (sse_json _ _) as [ev|]; [|by eexists]. unfold yield_event. rewrite run_abind, run_alift. cbn.
      specialize (Hev tr ev). apply Z.leb_le in Hev. rewrite Hev. by eexists. }
    unfold stream_run. rewrite run_abind, Hy. cbn [negb stream_loop andb]. rewrite run_abind. rewrite run_abind, run_alift. cbn [sys run].
    destruct (Hsel t1) as [Hz Hcr]. rewrite Hz. cbn [Z.ltb Z.eqb Z.compare]. unfold mon_event_of. rewrite Hz. cbn.
    apply (sse_data_panics "stdout") in Hcr. rewrite Hcr. cbn. by eexists. }
  destruct (Pipe.run_total K (handle_drop (sr_handle s)) t) as [u Hu]; [apply Pipe.total_calm, Pipe.calm_drop|].
  destruct (run K t (handle_drop (sr_handle s))) as [t2 o2] eqn:Ed. simpl in Hu. subst o2.
  exists (set_gate (S (a_permits st)) (metrics_drop (a_metrics st)) st).
  assert (∃ t3, run K tr (stream_body (S fuel) s st) = (t2 ++ t3, Some (set_gate (S (a_permits st)) (metrics_drop (a_metrics st)) st, Panicked))) as [t3 Hb].
  { unfold stream_body. rewrite run_abind, Ht. rewrite run_abind, run_abind, run_alift, Ed. cbn [run aret]. rewrite run_abind. unfold release, abind, amod, alift, aret.
    cbn [pbind sys run]. eexists. rewrite <- app_assoc. reflexivity. }
  rewrite Hb. simpl. split; [done|]. split; [done|]. exists t. rewrite Ht, Ed. split; [done|]. by apply prefix_app_r.
Qed.
End protocol.

(** ** Witnesses *)
Module StreamExample.
(** An event builder that refuses carriage returns, as axum's does. *)
#[export] Instance plain_sse : Sse := {
  sse_data kind text := match split_once CR text with None => Some (kind +:+ ":" +:+ text) | Some _ => None end;
  sse_json kind p := Some (match p with PStarted pid => kind +:+ ":" +:+ pretty pid | PStats s => kind | PCompleted c _ _ _ _ _ _ _ => kind +:+ ":" +:+ pretty c end)
}.
#[export] Instance plain_sse_laws : SseLaws.
Proof.
  intros kind text. simpl. destruct (split_once CR text) as [[a b]|] eqn:E.
  - apply split_once_Some in E as [-> _]. split; [|done]. intros _. apply str_elem_app. right. by left.
  - apply split_once_None in E. by split.
Qed.
(** The client closes the connection when the first line arrives. *)
Definition leaving : kernel := λ t c, match c with EventSend e => if String.eqb e "stdout:hello" then rint (-1) else rint 0 | _ => ExecExample.K t c end.
Definition outcome_of (K : kernel) : option (AppState * outcome CtlError stream_end) :=
  (run K [] (create_stream_run ExecExample.no_text ExecExample.no_text 20 ExecExample.scope ExecExample.request MonitorExample.app)).2.
Definition state_of (K : kernel) : AppState := match outcome_of K with Some (st, _) => st | None => MonitorExample.app end.
Definition progress : kernel := λ t c, match c with Select true true => MkRet 0 0 [] ("10%" +:+ String CR ("20%" +:+ String CR (String (Ascii.ascii_of_nat 10) ""))) [] | _ => ExecExample.K t c end.
Definition stream : StreamRun := MkStream MonitorExample.jail_handle 7 "/s" "/o".
End StreamExample.
Import (hints) StreamExample.
Lemma stream_ledger_protocol_witness :
  (∃ t mid, a_jails (StreamExample.state_of StreamExample.leaving) = foldl jail_step jails_new
     (run_ops 0 t "acme" Stream "js" None (config_snapshot (rr_options ExecExample.request) 0 1 None) mid [])) ∧
  jr_status <$> js_rows (a_jails (StreamExample.state_of StreamExample.leaving)) = [Running] ∧
  jr_status <$> js_rows (a_jails (StreamExample.state_of ExecExample.K)) = [Completed].
Proof.
  split; [|split; vm_compute; reflexivity].
  destruct (stream_ledger_protocol ExecExample.no_text ExecExample.no_text 20 ExecExample.scope ExecExample.request exec_default
    StreamExample.leaving [] (run StreamExample.leaving [] (create_stream_run ExecExample.no_text ExecExample.no_text 20 ExecExample.scope ExecExample.request MonitorExample.app)).1
    MonitorExample.app (StreamExample.state_of StreamExample.leaving) (Ok Dropped)) as (_ & h & t & mid & last & _ & Hj & _ & Hl);
    [reflexivity|vm_compute; split; [discriminate|reflexivity]|vm_compute; reflexivity|].
  simpl in Hl. subst last. exists t, mid. exact Hj.
Defined.
Lemma carriage_return_ends_stream_witness :
  ∃ st', (run StreamExample.progress [] (stream_body 1 StreamExample.stream MonitorExample.app)).2 = Some (st', Panicked) ∧ a_jails st' = jails_new.
Proof.
  destruct (carriage_return_ends_stream 0 StreamExample.stream StreamExample.progress [] MonitorExample.app) as (st' & H1 & H2 & _).
  - intros t ev. simpl. lia.
  - intros t. split; [reflexivity|]. right; right; right; left; reflexivity.
  - exists st'. split; [exact H1|exact H2].
Defined.
