(* ===== verification/ForkRoutes.v ===== *)
(** * Forking a run

    Models [agentjail-ctl/src/routes/fork.rs]: [create_fork_run] starts a parent
    jail, lets it work, clones its output once per child while the parent is
    frozen, and runs parent and children side by side.

    The orchestrator ([ForkOrch]) outlives a failing run, since the handler uses it
    to close the rows that were left open; the run is an action that threads it
    ([fact]).  The joined futures are a list of task states; one wake-up of the
    task is a [Select], whose answer names the child it is for (or, negative, the
    parent) and the event, as in [Monitor]. *)

From S2P Require Import Prelude Text Tenant Provider Ctl Jails Sessions Snapshots Sys Order Netlink Cgroup Config Isolation Child Run SnapshotStore Git Monitor ExecRoutes.
From S2P Require Workspaces.
Import Workspaces(GitSpec, ExecOptions, config_snapshot).
Local Open Scope Z_scope.

(** ** Requests and responses *)
Record ForkChild := MkForkChild { fc_code : string }.
Record ForkRequest := MkForkReq {
  fq_parent_code : string; fq_child_code : option string; fq_children : list ForkChild; fq_language : string;
  fq_fork_after_ms : option Z; fq_timeout_secs : option Z; fq_memory_mb : option Z; fq_options : ExecOptions; fq_git : option GitSpec }.
Record ForkMeta := MkForkMeta {
  fm_clone_ms : Z; fm_files_cloned : Z; fm_files_cow : Z; fm_bytes_cloned : Z; fm_method : string; fm_was_frozen : bool }.
Record ForkResponse := MkForkResponse {
  fr_parent : ExecResponse; fr_child : ExecResponse; fr_children : list ExecResponse; fr_fork : ForkMeta; fr_forks : list ForkMeta }.
(** [format!("{:?}", method).to_lowercase()] *)
Definition method_text (m : CloneMethod) : string := match m with Reflink => "reflink" | CloneCopy => "copy" | Mixed => "mixed" end.
(** Clone durations are in microseconds. *)
Definition fork_meta (f : ForkInfo) : ForkMeta :=
  MkForkMeta (u64_sat (clone_duration f / 1000)) (files_cloned f) (files_cow f) (bytes_cloned f) (method_text (clone_method f)) (was_frozen f).

(** ** [ForkOrch] *)
Record ForkPlan := MkPlan { fp_children : list ForkChild; fp_timeout : Z; fp_memory : Z; fp_fork_after : Z }.
Record ForkOrch := MkOrch { fo_tenant : string; fo_parent_rec : option Z; fo_child_recs : list Z; fo_finalized : gset Z }.
Definition orch_new (tenant : string) : ForkOrch := MkOrch tenant None [] ∅.
Definition too_long (code : string) : bool := 1024 * 1024 <? Z.of_nat (str_len code).
Definition validate (req : ForkRequest) (c : ExecConfig) : outcome CtlError ForkPlan :=
  let children := match fq_children req with
                  | [] => (λ code, [MkForkChild code]) <$> fq_child_code req
                  | l => Some l
                  end in
  match children with
  | None => Err (BadRequest "children or child_code is required")
  | Some children =>
      if (16 <? length children)%nat then Err (BadRequest "at most 16 children per fork")
      else if too_long (fq_parent_code req) || existsb (λ ch, too_long (fc_code ch)) children then Err (BadRequest "code exceeds 1 MB")
      else Ok (MkPlan children (clamp_timeout (default (default_timeout_secs c) (fq_timeout_secs req)))
                 (Z.min (default (default_memory_mb c) (fq_memory_mb req)) 8192) (Z.min (default 1500 (fq_fork_after_ms req)) 30000))
  end.

(** Actions that also thread the orchestrator. *)
Definition fact (A : Type) : Type := ForkOrch → act (ForkOrch * outcome CtlError A).
Definition flift {A} (m : act (outcome CtlError A)) : fact A := λ o, let+ r := m in aret (o, r).
Definition fbind {A B} (m : fact A) (f : A → fact B) : fact B := λ o,
  let+ '(o, r) := m o in
  match r with Ok a => f a o | Err e => aret (o, Err e) | Panic => aret (o, Panic) end.
Notation "'fork+' x ':=' m 'in' k" := (fbind m (λ x, k)) (at level 10, x binder, m at level 100, k at level 200) : act_scope.
(** Work after [m] when it did not succeed: the guards of an early return. *)
Definition on_error {A} (m : fact A) (undo : act unit) : fact A := λ o,
  let+ '(o, r) := m o in
  if is_ok r then aret (o, r) else let+ _ := undo in aret (o, r).

Definition finalize (id : Z) (o : ForkOrch) : ForkOrch := MkOrch (fo_tenant o) (fo_parent_rec o) (fo_child_recs o) ({[id]} ∪ fo_finalized o).
Definition finish_row (id : Z) (out : Output) : fact unit := λ o,
  let+ t := now_utc in
  let+ panicked := (λ st, let '(s, p) := jail_finish t id out (a_jails st) in Ret (set_jails s st, p)) in
  aret (if panicked : bool then (o, Panic) else (finalize id o, Ok tt)).
Definition error_row (id : Z) (msg : string) : fact unit := λ o,
  let+ t := now_utc in
  let+ _ := amod (λ st, set_jails (jail_error t id msg (a_jails st)) st) in
  aret (finalize id o, Ok tt).
Definition orch_rows (o : ForkOrch) : list Z := match fo_parent_rec o with Some p => [p] | None => [] end ++ fo_child_recs o.
Fixpoint fail_rows (ids : list Z) (msg : string) : act unit :=
  match ids with
  | [] => aret tt
  | id :: ids =>
      let+ t := now_utc in
      let+ _ := amod (λ st, set_jails (jail_error t id msg (a_jails st)) st) in
      fail_rows ids msg
  end.
Definition fail_stragglers (msg : string) (o : ForkOrch) : act unit :=
  fail_rows (filter (λ id, id ∉ fo_finalized o) (orch_rows o)) msg.
(** [jails.start] and [attach_config]. *)
Definition start_row (label : string) (parent : option Z) : fact Z := λ o,
  let+ t := now_utc in
  let+ id := (λ st, let '(id, s) := jail_start t (fo_tenant o) Jails.Fork label None parent (a_jails st) in Ret (set_jails s st, id)) in
  aret (o, Ok id).
Definition attach_row (id : Z) (config : JailConfigSnapshot) : fact unit :=
  flift (let+ _ := amod (λ st, set_jails (jail_attach_config id config (a_jails st)) st) in aret (Ok tt)).
Definition set_parent (id : Z) : fact unit := λ o, aret (MkOrch (fo_tenant o) (Some id) (fo_child_recs o) (fo_finalized o), Ok tt).
Definition push_child (id : Z) : fact unit := λ o, aret (MkOrch (fo_tenant o) (fo_parent_rec o) (fo_child_recs o ++ [id]) (fo_finalized o), Ok tt).

Section fork.
Context `{DebugFmt} `{Target} `{Seccompiler} (show_io : Z → string) (show_error : JailError → string).

(** ** Guards *)
Definition fork_permit {R} (body : fact R) : fact R := λ o st,
  match a_permits st with
  | O => Ret (st, (o, Err (BadRequest "too many concurrent executions")))
  | S n =>
      let* '(st, r) := body o (set_gate n (metrics_start (a_metrics st)) st) in
      Ret (set_gate (S (a_permits st)) (metrics_drop (a_metrics st)) st, r)
  end.
Definition remove_dir (d : string) : act unit := let+ _ := alift (sys (RemoveDirAll d)) in aret tt.
Fixpoint remove_dirs (ds : list string) : act unit :=
  match ds with [] => aret tt | d :: ds => let+ _ := remove_dir d in remove_dirs ds end.
(** A temporary directory whose guard is dropped on an early return; the success
    path drops it by name. *)
Definition fork_tempdir {R} (body : string → fact R) : fact R := λ o,
  let+ d := alift (sys MkTempDir) in
  if negb (ok d) then aret (o, Err (IoErr (show_io (rerr d)))) else on_error (body (rtext d)) (remove_dir (rtext d)) o.

(** ** The steps of a run *)
Definition child_file (i : nat) (filename : string) : string := "child_" +:+ pretty (N.of_nat i) +:+ "_" +:+ filename.
Fixpoint write_children (src filename : string) (i : nat) (children : list ForkChild) : prog (outcome CtlError unit) :=
  match children with
  | [] => pok tt
  | c :: rest => let! _ := ctl_io show_io (WriteFile (path_join src (child_file i filename)) (fc_code c)) in write_children src filename (S i) rest
  end.
(** The parent works; its sampler ticks. *)
Fixpoint nap (fuel : nat) (rec_id : Z) (h : JailHandle) : act (outcome CtlError unit) :=
  match fuel with
  | O => λ _, Halt
  | S f =>
      let+ r := alift (sys (Select false false)) in
      if rv r =? 5 then let+ _ := stats_tick rec_id h in nap f rec_id h else aret (Ok tt)
  end.
(** One clone of the parent's output per child; on an error the directories made so
    far are removed. *)
Fixpoint clone_children (fuel : nat) (jail : Jail) (h : JailHandle) (n : nat) (outs : list string) (jails : list Jail) (metas : list ForkMeta)
    : act (outcome CtlError (list string * list Jail * list ForkMeta)) :=
  match n with
  | O => aret (Ok (outs, jails, metas))
  | S n =>
      let+ d := alift (sys MkTempDir) in
      if negb (ok d) then let+ _ := remove_dirs outs in aret (Err (IoErr (show_io (rerr d)))) else
      let+ r := alift (ctl_jail show_error (live_fork fuel jail (Some h) (rtext d))) in
      match r with
      | Ok (j, info) => clone_children fuel jail h n (outs ++ [rtext d]) (jails ++ [j]) (metas ++ [fork_meta info])
      | Err e => let+ _ := remove_dir (rtext d) in let+ _ := remove_dirs outs in aret (Err e)
      | Panic => let+ _ := remove_dir (rtext d) in let+ _ := remove_dirs outs in aret Panic
      end
  end.
Definition child_label (language : string) (total i : nat) : string :=
  if (total =? 1)%nat then language +:+ " · child" else language +:+ " · child " +:+ pretty (N.of_nat i).
Fixpoint record_children (language : string) (total i n : nat) (parent_rec : Z) (config : JailConfigSnapshot) : fact unit :=
  match n with
  | O => λ o, aret (o, Ok tt)
  | S n =>
      fork+ id := start_row (child_label language total i) (Some parent_rec) in
      fork+ _ := attach_row id config in
      fork+ _ := push_child id in
      record_children language total (S i) n parent_rec config
  end.

(** ** The joined tasks *)
(** A child: its pipes are open, it is being waited for, or it is done. *)
Inductive ctask :=
| CDrain (h : JailHandle) (so se : string) (stdout_done stderr_done : bool)
| CWait (h : JailHandle) (so se : string)
| CDone (r : JailError + Output).
Definition drained (h : JailHandle) (so se : string) (od ed : bool) : ctask := if od && ed then CWait h so se else CDrain h so se od ed.
(** The first poll of each child runs up to its first wait.  [None]: a panic. *)
Fixpoint start_children (cmd filename : string) (i : nat) (jails : list Jail) (started : list ctask) : prog (option (list ctask)) :=
  match jails with
  | [] => Ret (Some started)
  | j :: rest =>
      let* r := spawn show_error j cmd ["/workspace/" +:+ child_file i filename]%string in
      match r with
      | Ok h => start_children cmd filename (S i) rest (started ++ [CDrain h "" "" false false])
      | Err e => start_children cmd filename (S i) rest (started ++ [CDone (inl e)])
      | Panic => Ret None
      end
  end.
Definition child_event (rec_id : Z) (t : ctask) (r : ret) : act (option ctask) :=
  match t with
  | CDrain h so se od ed =>
      match mon_event_of od ed r with
      | OutLine l => match push_capped so l with
                     | Some so => aret (Some (CDrain h so se od ed))
                     | None => let+ _ := alift (handle_drop h) in aret None
                     end
      | OutEof => aret (Some (drained h so se true ed))
      | ErrLine l => match push_capped se l with
                     | Some se => aret (Some (CDrain h so se od ed))
                     | None => let+ _ := alift (handle_drop h) in aret None
                     end
      | ErrEof => aret (Some (drained h so se od true))
      | FlushTick => let+ _ := flush rec_id so se in aret (Some t)
      | StatsTick => let+ _ := stats_tick rec_id h in aret (Some t)
      | Nothing => aret (Some t)
      end
  | CWait h so se =>
      match mon_event_of true true r with
      | FlushTick => let+ _ := flush rec_id so se in aret (Some t)
      | StatsTick => let+ _ := stats_tick rec_id h in aret (Some t)
      | _ =>
          let+ o := alift (handle_wait h) in
          let+ panicked := (λ st, let '(s, p) := jail_tail rec_id so se (a_jails st) in Ret (set_jails s st, p)) in
          aret (if panicked : bool then None else Some (CDone (inr (merge_output so se o))))
      end
  | CDone _ => aret (Some t)
  end.
Definition drop_task (t : ctask) : prog unit := match t with CDrain h _ _ _ _ | CWait h _ _ => handle_drop h | CDone _ => Ret tt end.
Fixpoint results (ts : list ctask) : option (list (JailError + Output)) :=
  match ts with
  | [] => Some []
  | CDone r :: ts => rs ← results ts; Some (r :: rs)
  | _ => None
  end.
(** [tokio::join!] of the parent's wait and the children.  When a child panics the
    other futures are dropped, and the jails they own with them. *)
Fixpoint join_loop (fuel : nat) (parent_rec : Z) (ph : JailHandle) (p : option Output) (recs : list Z) (ts : list ctask)
    : act (outcome CtlError (Output * list (JailError + Output))) :=
  match fuel with
  | O => λ _, Halt
  | S f =>
      match p, results ts with
      | Some o, Some rs => aret (Ok (o, rs))
      | _, _ =>
          let+ r := alift (sys (Select true true)) in
          let who := nth 0 (rbytes r) (-1) in
          if who <? 0 then
            if rv r =? 5 then let+ _ := stats_tick parent_rec ph in join_loop f parent_rec ph p recs ts
            else match p with
                 | Some _ => join_loop f parent_rec ph p recs ts
                 | None => let+ o := alift (handle_wait ph) in join_loop f parent_rec ph (Some o) recs ts
                 end
          else
            let i := Z.to_nat who in
            match ts !! i, recs !! i with
            | Some t, Some rec_id =>
                let+ t' := child_event rec_id t r in
                match t' with
                | Some t' => join_loop f parent_rec ph p recs (<[i := t']> ts)
                | None =>
                    let+ _ := alift (match p with None => handle_drop ph | Some _ => Ret tt end) in
                    let+ _ := alift (for_all_do drop_task (delete i ts)) in
                    aret Panic
                end
            | _, _ => join_loop f parent_rec ph p recs ts
            end
      end
  end.
(** Rows are closed in order; the first error ends the run. *)
Fixpoint collect (recs : list Z) (rs : list (JailError + Output)) (outputs : list Output) : fact (list Output) :=
  match recs, rs with
  | id :: recs, r :: rs =>
      match r with
      | inr out => fork+ _ := finish_row id out in collect recs rs (outputs ++ [out])
      | inl e => fork+ _ := error_row id (show_error e) in λ o, aret (o, Err (JailErr (show_error e)))
      end
  | _, _ => λ o, aret (o, Ok outputs)
  end.
Definition respond (parent : Output) (children : list Output) (metas : list ForkMeta) : outcome CtlError ForkResponse :=
  let all := output_to_response <$> children in
  match all, metas with
  | c :: _, m :: _ => Ok (MkForkResponse (output_to_response parent) c all m metas)
  | _, _ => Panic
  end.
Definition child_recs : fact (list Z) := λ o, aret (o, Ok (fo_child_recs o)).
(** From the spawned parent on.  The parent's [wait] does not fail (see [Run]), so
    its row is always finished. *)
Definition fork_from (fuel : nat) (plan : ForkPlan) (language filename cmd src pout : string) (config : JailConfigSnapshot)
    (jail : Jail) (parent_rec : Z) (h : JailHandle) : fact ForkResponse :=
  fork+ '(outs, jails, metas) := on_error (
    fork+ _ := flift (let+ _ := alift (sys (SleepUs (1000 * fp_fork_after plan))) in nap fuel parent_rec h) in
    flift (clone_children fuel jail h (length (fp_children plan)) [] [] [])) (alift (handle_drop h)) in
  on_error (
    fork+ _ := record_children language (length (fp_children plan)) 0 (length (fp_children plan)) parent_rec config in
    fork+ recs := child_recs in
    fork+ '(parent_out, child_ress) := flift (
      let+ ts := alift (start_children cmd filename 0 jails []) in
      match ts with
      | None => let+ _ := alift (handle_drop h) in aret Panic
      | Some ts => join_loop fuel parent_rec h None recs ts
      end) in
    fork+ _ := finish_row parent_rec parent_out in
    fork+ outputs := collect recs child_ress [] in
    flift (let+ _ := remove_dirs (src :: pout :: outs) in aret (respond parent_out outputs metas))) (remove_dirs outs).
Definition fork_run (fuel : nat) (req : ForkRequest) : fact ForkResponse :=
  fork+ exec_cfg := flift exec_enabled in
  fork+ plan := flift (lift_result (validate req exec_cfg)) in
  fork_permit (
    fork+ '(filename, cmd) := flift (lift_result (language_runtime (fq_language req))) in
    fork_tempdir (λ src, fork_tempdir (λ pout,
      fork+ _ := flift (alift (match fq_git req with Some g => git_clone show_io g src | None => pok tt end)) in
      fork+ _ := flift (alift (ctl_io show_io (WriteFile (path_join src filename) (fq_parent_code req)))) in
      fork+ _ := flift (alift (write_children src filename 0 (fp_children plan))) in
      fork+ config := flift (alift (jail_config src pout (fp_memory plan) (fp_timeout plan) [PATH_ENV] (fq_options req) false [])) in
      fork+ jail := flift (new_jail show_error config) in
      fork+ parent_rec := start_row (fq_language req +:+ " · parent") None in
      fork+ _ := set_parent parent_rec in
      let run_config := config_snapshot (fq_options req) (fp_memory plan) (fp_timeout plan) (fq_git req) in
      fork+ _ := attach_row parent_rec run_config in
      fork+ h := flift (alift (ctl_jail show_error (spawn show_error jail cmd ["/workspace/" +:+ filename]%string))) in
      fork_from fuel plan (fq_language req) filename cmd src pout run_config jail parent_rec h))).
Definition create_fork_run (fuel : nat) (sc : TenantScope) (req : ForkRequest) : act (outcome CtlError ForkResponse) :=
  let+ '(orch, r) := fork_run fuel req (orch_new (ts_tenant sc)) in
  match r with
  | Ok resp => aret (Ok resp)
  | Err e => let+ _ := fail_stragglers (ctl_display e) orch in aret (Err e)
  | Panic => aret Panic
  end.
End fork.

(** ** Rows that are started and rows that are closed *)
Definition starts (op : JailOp) : bool := match op with JStart _ _ _ _ _ _ => true | _ => false end.
Definition closes (op : JailOp) : option Z := match op with JFinish _ id _ | JError _ id _ => Some id | _ => None end.
Definition links (op : JailOp) : option (option Z) := match op with JStart _ _ _ _ _ p => Some p | _ => None end.
(** The ids the ledger gives to the rows [ops] start, from store [s] on. *)
Fixpoint started (s : InMemoryJailStore) (ops : list JailOp) : list Z :=
  match ops with
  | [] => []
  | op :: ops => (if starts op then [js_next_id s] else []) ++ started (jail_step s op) ops
  end.
Definition closed (ops : list JailOp) : list Z := omap closes ops.
Definition parents (ops : list JailOp) : list (option Z) := omap links ops.
Lemma started_app s a b : started s (a ++ b) = started s a ++ started (foldl jail_step s a) b.
Proof. revert s. induction a as [|op a IH]; intros s; [done|]. simpl. by rewrite IH, app_assoc. Qed.
Lemma started_snoc s a op : started s (a ++ [op]) = started s a ++ (if starts op then [js_next_id (foldl jail_step s a)] else []).
Proof. rewrite started_app. simpl. by rewrite app_nil_r. Qed.
Lemma closed_snoc a op : closed (a ++ [op]) = closed a ++ match closes op with Some id => [id] | None => [] end.
Proof. unfold closed. rewrite omap_app. simpl. by destruct (closes op). Qed.
Lemma parents_snoc a op : parents (a ++ [op]) = parents a ++ match links op with Some p => [p] | None => [] end.
Proof. unfold parents. rewrite omap_app. simpl. by destruct (links op). Qed.
Lemma next_id_step s op : js_next_id (jail_step s op) = if starts op then i64_wrap (js_next_id s + 1) else js_next_id s.
Proof. by destruct op. Qed.
Lemma i64_wrap_add a : i64_wrap (i64_wrap a + 1) = i64_wrap (a + 1).
Proof. unfold i64_wrap. f_equal. replace ((a + 2 ^ 63) mod 2 ^ 64 - 2 ^ 63 + 1 + 2 ^ 63) with ((a + 2 ^ 63) mod 2 ^ 64 + 1) by lia.
  rewrite Zplus_mod_idemp_l. f_equal. lia. Qed.
Lemma i64_wrap_inj next a b : 0 ≤ a < 2 ^ 64 → 0 ≤ b < 2 ^ 64 → i64_wrap (next + a) = i64_wrap (next + b) → a = b.
Proof.
  unfold i64_wrap. intros Ha Hb He. assert ((next + 2 ^ 63 + a) mod 2 ^ 64 = (next + 2 ^ 63 + b) mod 2 ^ 64) as Hm.
  { replace (next + 2 ^ 63 + a) with (next + a + 2 ^ 63) by lia. replace (next + 2 ^ 63 + b) with (next + b + 2 ^ 63) by lia. lia. }
  assert ((a - b) mod 2 ^ 64 = 0) as Hz.
  { replace (a - b) with ((next + 2 ^ 63 + a) - (next + 2 ^ 63 + b)) by lia. rewrite Zminus_mod, Hm, Z.sub_diag. done. }
  apply Z.mod_divide in Hz as [k Hk]; [|done]. nia.
Qed.
(** Ids are given out one after the other. *)
Lemma started_lookup ops : ∀ s next i id, js_next_id s = i64_wrap next → started s ops !! i = Some id → id = i64_wrap (next + Z.of_nat i).
Proof.
  induction ops as [|op ops IH]; intros s next i id Hs; [done|]. simpl. pose proof (next_id_step s op) as Hn. destruct (starts op); simpl.
  - destruct i as [|i]; [intros [= <-]; by rewrite Z.add_0_r|]. simpl. intros Hi. rewrite Hs, i64_wrap_add in Hn.
    rewrite (IH _ (next + 1) i id Hn Hi). f_equal. lia.
  - intros Hi. apply (IH (jail_step s op) next i id); [congruence|done].
Qed.
Lemma started_NoDup s ops : I64_MIN ≤ js_next_id s ≤ I64_MAX → (length (started s ops) ≤ 17)%nat → NoDup (started s ops).
Proof.
  intros Hr Hl. apply NoDup_alt. intros i j id Hi Hj. pose proof (lookup_lt_Some _ _ _ Hi). pose proof (lookup_lt_Some _ _ _ Hj).
  assert (js_next_id s = i64_wrap (js_next_id s)) as Hw by (by rewrite i64_wrap_id).
  pose proof (started_lookup ops s _ i id Hw Hi) as Ei. pose proof (started_lookup ops s _ j id Hw Hj) as Ej.
  rewrite Ei in Ej. apply i64_wrap_inj in Ej; lia.
Qed.

(** ** The rows of a fork run *)
Section protocol.
Context `{DebugFmt} `{Target} `{Seccompiler} (show_io : Z → string) (show_error : JailError → string).

(** What a fork run does to the ledger: rows of the caller's tenant, all with one
    configuration, the children linked to the first row; nothing to other rows. *)
Definition fork_op (tenant : string) (config : JailConfigSnapshot) (rows : list Z) (op : JailOp) : Prop :=
  match op with
  | JStart _ t k _ se _ => t = tenant ∧ k = Jails.Fork ∧ se = None
  | JAttach id c => id ∈ rows ∧ c = config
  | JFinish _ id _ | JError _ id _ | JSample id _ | JTail id _ _ => id ∈ rows
  end.
Definition linked (ps : list (option Z)) (first : Z) : Prop :=
  match ps with [] => True | p :: ps => p = None ∧ Forall (λ q, q = Some first) ps end.
Lemma fork_op_mono tenant config rows rows' op : rows ⊆ rows' → fork_op tenant config rows op → fork_op tenant config rows' op.
Proof. intros Hs. destruct op; simpl; set_solver. Qed.

Context (tenant : string) (config : JailConfigSnapshot) (base : AppState).
Abbreviation s0 := (a_jails base).
(** The log of the run so far agrees with the orchestrator. *)
Record finv (o : ForkOrch) (st : AppState) (ops : list JailOp) : Prop := {
  fi_state : st = set_jails (foldl jail_step s0 ops) base;
  fi_tenant : fo_tenant o = tenant;
  fi_rows : started s0 ops = orch_rows o;
  fi_fin : fo_finalized o = list_to_set (closed ops);
  fi_nodup : NoDup (closed ops);
  fi_sub : closed ops ⊆ orch_rows o;
  fi_ops : Forall (fork_op tenant config (orch_rows o)) ops;
  fi_links : linked (parents ops) (js_next_id s0)
}.
Lemma set_jails_jails s a : a_jails (set_jails s a) = s.
Proof. done. Qed.
(** An operation on a known row that neither starts nor closes one. *)
Lemma finv_plain o st ops op :
  finv o st ops → starts op = false → closes op = None → fork_op tenant config (orch_rows o) op →
  finv o (set_jails (jail_step (a_jails st) op) st) (ops ++ [op]).
Proof.
  intros [Hst Ht Hr Hf Hn Hs Ho Hl] Hstart Hclose Hop. split; [|done|..].
  - by rewrite Hst, foldl_app.
  - by rewrite started_snoc, Hstart, app_nil_r.
  - by rewrite closed_snoc, Hclose, app_nil_r.
  - by rewrite closed_snoc, Hclose, app_nil_r.
  - by rewrite closed_snoc, Hclose, app_nil_r.
  - apply Forall_app. split; [done|]. by constructor.
  - rewrite parents_snoc. by destruct op; simpl in *; rewrite ?app_nil_r.
Qed.
Lemma finv_followed o st st' ops rec :
  finv o st ops → rec ∈ orch_rows o → followed rec st st' → ∃ mid, Forall (follows_row rec) mid ∧ finv o st' (ops ++ mid).
Proof.
  intros Hi Hrec (mid & HF & ->). exists mid. split; [done|]. revert st ops Hi. induction mid as [|op mid IH]; intros st ops Hi.
  { rewrite app_nil_r. simpl. by rewrite set_jails_id. }
  apply Forall_cons in HF as [Hop HF]. specialize (IH HF (set_jails (jail_step (a_jails st) op) st) (ops ++ [op])).
  rewrite <- app_assoc in IH. apply IH. apply finv_plain; [done|by destruct op..|]. destruct op; simpl in *; try done; by subst.
Qed.
Lemma closed_mid rec mid : Forall (follows_row rec) mid → closed mid = [].
Proof. induction 1 as [|op mid Hop _ IH]; [done|]. unfold closed in *. simpl. by destruct op. Qed.
(** Closing a row that is open. *)
Lemma finv_close o st ops op id :
  finv o st ops → closes op = Some id → id ∈ orch_rows o → id ∉ closed ops →
  finv (finalize id o) (set_jails (jail_step (a_jails st) op) st) (ops ++ [op]).
Proof.
  intros [Hst Ht Hr Hf Hn Hs Ho Hl] Hc Hid Hnc. assert (starts op = false) as Hstart by (by destruct op).
  split; [|done|..]; rewrite ?closed_snoc, ?Hc.
  - by rewrite Hst, foldl_app.
  - by rewrite started_snoc, Hstart, app_nil_r.
  - simpl. rewrite Hf, list_to_set_app_L. simpl. set_solver.
  - apply NoDup_app. split; [done|]. split; [|apply NoDup_singleton]. set_solver.
  - change (orch_rows (finalize id o)) with (orch_rows o). set_solver.
  - apply Forall_app. split; [done|]. constructor; [|done]. by destruct op; simplify_eq/=.
  - rewrite parents_snoc. by destruct op; simpl in *; rewrite ?app_nil_r.
Qed.
(** Starting a row; [o'] is the orchestrator that knows it. *)
Lemma finv_start o o' st ops t label p :
  finv o st ops → fo_tenant o' = tenant → fo_finalized o' = fo_finalized o → orch_rows o' = orch_rows o ++ [js_next_id (a_jails st)] →
  p = match orch_rows o with [] => None | _ => Some (js_next_id s0) end →
  finv o' (set_jails (jail_step (a_jails st) (JStart t tenant Jails.Fork label None p)) st) (ops ++ [JStart t tenant Jails.Fork label None p]).
Proof.
  intros [Hst Ht Hr Hf Hn Hs Ho Hl] Ht' Hf' Ho' Hp. split; [|done|..]; rewrite ?closed_snoc, ?app_nil_r; simpl; rewrite ?app_nil_r; try done.
  - by rewrite Hst, foldl_app.
  - rewrite started_snoc, Ho', Hr, Hst. done.
  - by rewrite Hf'.
  - rewrite Ho'. set_solver.
  - apply Forall_app. split; [|by repeat constructor]. eapply Forall_impl; [done|]. intros op. apply fork_op_mono. rewrite Ho'. set_solver.
  - rewrite parents_snoc. simpl. assert (length (parents ops) = length (orch_rows o)) as Hlen.
    { rewrite <- Hr. clear. generalize s0 as s. induction ops as [|op ops IH]; intros s; [done|]. specialize (IH (jail_step s op)).
      unfold parents in *. destruct op; cbn [omap list_omap links started starts app length] in *; rewrite <- IH; done. }
    destruct (parents ops) as [|q qs], (orch_rows o) as [|r rs]; simpl in *; try lia; subst p; [done|].
    destruct Hl as [-> Hl]. split; [done|]. apply Forall_app. split; [done|]. by constructor.
Qed.

(** After a step: an error keeps the invariant, for the stragglers. *)
Definition inv (o : ForkOrch) (st : AppState) : Prop := (length (orch_rows o) ≤ 17)%nat ∧ ∃ ops, finv o st ops.
Definition after {A} (G : AppState → ForkOrch → A → Prop) (st : AppState) (p : ForkOrch * outcome CtlError A) : Prop :=
  match p.2 with Ok a => G st p.1 a | Err _ => inv p.1 st | Panic => True end.
Lemma after_bind {A B} (m : fact A) (f : A → fact B) o st G G' :
  ends (m o) st (after G) → (∀ st' o' a, G st' o' a → ends (f a o') st' (after G')) → ends (fbind m f o) st (after G').
Proof.
  intros Hm Hf. unfold fbind. eapply ends_bind; [exact Hm|]. intros st' [o' [a|e|]] Ha; [by apply Hf|by apply ends_ret..].
Qed.
Lemma after_lift {A} (m : act (outcome CtlError A)) o st (Q : AppState → A → Prop) :
  inv o st → ends m st (λ st' r, match r with Ok a => Q st' a | Err _ => inv o st' | Panic => True end) →
  ends (flift m o) st (after (λ st' o' a, o' = o ∧ Q st' a)).
Proof. intros Hi Hm. unfold flift. eapply ends_bind; [exact Hm|]. intros st' [a|e|] Ha; by apply ends_ret. Qed.
Lemma after_stateless {A} (m : act (outcome CtlError A)) o st :
  inv o st → stateless m → ends (flift m o) st (after (λ st' o' _, o' = o ∧ st' = st)).
Proof. intros Hi Hm. apply after_lift; [done|]. eapply ends_mono; [apply Hm|]. by intros st' [a|e|] ->. Qed.
Lemma after_undo {A} (m : fact A) undo o st G : stateless undo → ends (m o) st (after G) → ends (on_error m undo o) st (after G).
Proof.
  intros Hu Hm. unfold on_error. eapply ends_bind; [exact Hm|]. intros st' [o' r] Ha. destruct (is_ok r) eqn:E; [by apply ends_ret|].
  apply ends_stateless; [done|]. intros _. by apply ends_ret.
Qed.
Lemma after_tempdir {R} (body : string → fact R) o st G :
  inv o st → (∀ d, ends (body d o) st (after G)) → ends (fork_tempdir show_io body o) st (after G).
Proof.
  intros Hi Hb. unfold fork_tempdir. apply ends_stateless; [apply stateless_lift|]. intros d. destruct (negb (ok d)); [by apply ends_ret|].
  apply after_undo; [unfold remove_dir; auto with stateless|apply Hb].
Qed.
Lemma remove_dirs_stateless ds : stateless (remove_dirs ds).
Proof. induction ds as [|d ds IH]; simpl; unfold remove_dir; auto with stateless. Qed.
Lemma clone_children_stateless fuel jail h n outs jails metas : stateless (clone_children show_io show_error fuel jail h n outs jails metas).
Proof.
  revert outs jails metas. induction n as [|n IH]; intros; simpl; [auto with stateless|]. apply stateless_bind; [auto with stateless|]. intros d.
  destruct (negb (ok d)); [apply stateless_bind; [apply remove_dirs_stateless|auto with stateless]|]. apply stateless_bind; [auto with stateless|].
  intros [[j info]|e|]; [apply IH|..]; (apply stateless_bind; [unfold remove_dir; auto with stateless|intros _]; apply stateless_bind; [apply remove_dirs_stateless|auto with stateless]).
Qed.
Lemma clone_children_length fuel jail h n outs jails metas st :
  ends (clone_children show_io show_error fuel jail h n outs jails metas) st
    (λ _ r, ∀ outs' jails' metas', r = Ok (outs', jails', metas') → length jails' = (length jails + n)%nat ∧ length metas' = (length metas + n)%nat).
Proof.
  revert outs jails metas st. induction n as [|n IH]; intros; simpl.
  { apply ends_ret. intros ??? [= <- <- <-]. lia. }
  apply ends_stateless; [apply stateless_lift|]. intros d.
  destruct (negb (ok d)); [apply ends_stateless; [apply remove_dirs_stateless|]; intros _; by apply ends_ret|]. apply ends_stateless; [apply stateless_lift|].
  intros [[j info]|e|].
  - eapply ends_mono; [apply IH|]. cbv beta. intros st' r Hr outs' jails' metas' ->. destruct (Hr _ _ _ eq_refl) as [Hj Hm]. rewrite length_app in Hj, Hm. simpl in *. lia.
  - apply ends_stateless; [unfold remove_dir; auto with stateless|]. intros _. apply ends_stateless; [apply remove_dirs_stateless|]. intros _. by apply ends_ret.
  - apply ends_stateless; [unfold remove_dir; auto with stateless|]. intros _. apply ends_stateless; [apply remove_dirs_stateless|]. intros _. by apply ends_ret.
Qed.
Lemma ends_and {A} (m : act A) st (Q R : AppState → A → Prop) : ends m st Q → ends m st R → ends m st (λ st' a, Q st' a ∧ R st' a).
Proof. intros HQ HR K tr st' a Hr. split; [by eapply HQ|by eapply HR]. Qed.
Lemma nap_follows fuel rec h st0 st : followed rec st0 st → ends (nap fuel rec h) st (λ st' _, followed rec st0 st').
Proof.
  revert st. induction fuel as [|fuel IH]; intros st Hf; [apply ends_halt|]. cbn [nap]. apply ends_stateless; [apply stateless_lift|]. intros r.
  destruct (rv r =? 5); [|by apply ends_ret]. eapply ends_bind; [by apply stats_follows|]. intros st' [] Hf'. by apply IH.
Qed.
Lemma inv_followed o st st' rec : inv o st → rec ∈ orch_rows o → followed rec st st' → inv o st'.
Proof. intros [Hl [ops Hi]] Hr Hf. split; [done|]. destruct (finv_followed _ _ _ _ _ Hi Hr Hf) as (mid & _ & Hi'). by eexists. Qed.
(** ** The join *)
Lemma child_event_follows rec t r st0 st : followed rec st0 st → ends (child_event rec t r) st (λ st' _, followed rec st0 st').
Proof.
  intros Hf. destruct t as [h so se od ed|h so se|res]; cbn [child_event]; [|..|by apply ends_ret].
  - destruct (mon_event_of od ed r) as [l| |l| | | |]; try (by apply ends_ret).
    + destruct (push_capped so l); [by apply ends_ret|]. apply ends_stateless; [apply stateless_lift|]. intros _. by apply ends_ret.
    + destruct (push_capped se l); [by apply ends_ret|]. apply ends_stateless; [apply stateless_lift|]. intros _. by apply ends_ret.
    + eapply ends_bind; [by apply flush_follows|]. intros st' [] Hf'. by apply ends_ret.
    + eapply ends_bind; [by apply stats_follows|]. intros st' [] Hf'. by apply ends_ret.
  - assert (ends (let+ o := alift (handle_wait h) in
        let+ panicked := (λ st, let '(s, p) := jail_tail rec so se (a_jails st) in Ret (set_jails s st, p)) in
        aret (if panicked : bool then None else Some (CDone (inr (merge_output so se o))))) st (λ st' _, followed rec st0 st')) as Hw.
    { apply ends_stateless; [apply stateless_lift|]. intros o. apply (ends_update (λ st1, let '(s, p) := jail_tail rec so se (a_jails st1) in (set_jails s st1, p))).
      apply ends_ret. by apply (followed_step rec st0 st (JTail rec so se)). }
    destruct (mon_event_of true true r); try exact Hw.
    + eapply ends_bind; [by apply flush_follows|]. intros st' [] Hf'. by apply ends_ret.
    + eapply ends_bind; [by apply stats_follows|]. intros st' [] Hf'. by apply ends_ret.
Qed.
Lemma results_length ts rs : results ts = Some rs → length rs = length ts.
Proof.
  revert rs. induction ts as [|t ts IH]; intros rs; simpl; [by intros [= <-]|]. destruct t; try done. intros (rs' & Hr & [= <-])%bind_Some. simpl. by rewrite (IH rs').
Qed.
Definition joined (o : ForkOrch) (n : nat) (st : AppState) (r : outcome CtlError (Output * list (JailError + Output))) : Prop :=
  inv o st ∧ ∀ out rs, r = Ok (out, rs) → length rs = n.
Lemma join_loop_ends fuel o parent_rec ph recs : ∀ p ts st,
  inv o st → parent_rec ∈ orch_rows o → recs ⊆ orch_rows o →
  ends (join_loop fuel parent_rec ph p recs ts) st (joined o (length ts)).
Proof.
  induction fuel as [|fuel IH]; intros p ts st Hi Hp Hrecs; [apply ends_halt|]. cbn [join_loop].
  assert (∀ st' p', inv o st' → ends (join_loop fuel parent_rec ph p' recs ts) st' (joined o (length ts))) as Hgo
    by (intros; by apply IH).
  assert (∀ body : act (outcome CtlError (Output * list (JailError + Output))), ends body st (joined o (length ts)) →
    ends (match p, results ts with Some o', Some rs => aret (Ok (o', rs)) | _, _ => body end) st (joined o (length ts))) as Hcase.
  { intros body Hb. destruct p as [out|]; [|done]. destruct (results ts) as [rs|] eqn:Er; [|done]. apply ends_ret. split; [done|].
    intros ?? [= <- <-]. by apply results_length. }
  apply Hcase. apply ends_stateless; [apply stateless_lift|]. intros r. destruct (_ <? 0).
  - destruct (rv r =? 5).
    + eapply ends_bind; [apply stats_follows, followed_refl|]. intros st' [] Hf. apply Hgo. by eapply inv_followed.
    + destruct p as [out|]; [by apply Hgo|]. apply ends_stateless; [apply stateless_lift|]. intros out. by apply Hgo.
  - destruct (ts !! _) as [t|] eqn:Et; [|by apply Hgo]. destruct (recs !! _) as [rec|] eqn:Erec; [|by apply Hgo].
    assert (rec ∈ orch_rows o) as Hrec by (apply Hrecs; by eapply list_elem_of_lookup_2).
    eapply ends_bind; [apply child_event_follows, followed_refl|]. intros st' [t'|] Hf; pose proof (inv_followed _ _ _ _ Hi Hrec Hf).
    + eapply ends_mono; [by apply IH|]. cbv beta. intros st2 r2 [Hi2 Hlen]. split; [done|]. intros out rs Hr. rewrite (Hlen out rs Hr). apply length_insert.
    + apply ends_stateless; [apply stateless_lift|]. intros _. apply ends_stateless; [apply stateless_lift|]. intros _. by apply ends_ret.
Qed.

(** ** Opening and closing rows *)
Lemma ends_start_row {B} label p (f : Z → fact B) o st Q :
  (∀ t, ends (f (js_next_id (a_jails st)) o) (set_jails (jail_step (a_jails st) (JStart t (fo_tenant o) Jails.Fork label None p)) st) Q) →
  ends (fbind (start_row label p) f o) st Q.
Proof. intros Hf K tr st' b Hr. by apply (Hf (rv (K tr NowUtc)) K (tr ++ [(NowUtc, K tr NowUtc)])). Qed.
Lemma record_children_ends language total i n parent_rec o st :
  parent_rec = js_next_id s0 → fo_parent_rec o = Some parent_rec → (length (orch_rows o) + n ≤ 17)%nat → inv o st →
  ends (record_children language total i n parent_rec config o) st (after (λ st' o' _,
    inv o' st' ∧ fo_parent_rec o' = fo_parent_rec o ∧ fo_finalized o' = fo_finalized o ∧ length (fo_child_recs o') = (length (fo_child_recs o) + n)%nat)).
Proof.
  intros Hp. revert i o st. induction n as [|n IH]; intros i o st Hpar Hn Hi; cbn [record_children].
  { apply ends_ret. simpl. by rewrite Nat.add_0_r. }
  apply ends_start_row. intros t. set (op := JStart _ _ _ _ _ _). set (st1 := set_jails _ st). set (id := js_next_id (a_jails st)).
  set (o1 := MkOrch (fo_tenant o) (fo_parent_rec o) (fo_child_recs o ++ [id]) (fo_finalized o)).
  assert (orch_rows o1 = orch_rows o ++ [id]) as Hrows1 by (unfold orch_rows; simpl; by rewrite app_assoc).
  assert (length (orch_rows o1) = S (length (orch_rows o))) as Hlen1 by (rewrite Hrows1, length_app; simpl; lia).
  assert (inv o1 (set_jails (jail_step (a_jails st1) (JAttach id config)) st1)) as Hi1.
  { split; [lia|]. destruct Hi as [_ [ops Hi]]. eexists. apply finv_plain; [|done|done|split; [rewrite Hrows1; set_solver|done]].
    pose proof (fi_tenant _ _ _ Hi) as Ht. unfold st1, op. rewrite Ht. eapply (finv_start o); [done|done|done|done|]. unfold orch_rows. by rewrite Hpar, Hp. }
  intros K tr st' r Hr. specialize (IH (S i) o1 _ Hpar ltac:(lia) Hi1 K tr st' r Hr). destruct r as [o' [u|e|]]; [|done..].
  destruct IH as (Hi2 & Hp2 & Hf2 & Hl). do 3 (split; [done|]). simpl in *. rewrite Hl. simpl. rewrite length_app. simpl. lia.
Qed.
Definition closing_rows (o : ForkOrch) (st : AppState) (cl : list Z) : Prop :=
  (length (orch_rows o) ≤ 17)%nat ∧ NoDup (orch_rows o) ∧ ∃ ops, finv o st ops ∧ closed ops = cl.
Lemma closing_rows_inv o st cl : closing_rows o st cl → inv o st.
Proof. intros (Hl & _ & ops & Hi & _). split; [done|by exists ops]. Qed.
Lemma close_row o st cl op id :
  closing_rows o st cl → closes op = Some id → id ∈ orch_rows o → id ∉ cl →
  closing_rows (finalize id o) (set_jails (jail_step (a_jails st) op) st) (cl ++ [id]).
Proof.
  intros (Hl & Hn & ops & Hi & <-) Hc Hid Hncl. split; [done|]. split; [done|]. exists (ops ++ [op]). split; [by apply finv_close|].
  by rewrite closed_snoc, Hc.
Qed.
Lemma finish_row_ends id out o st cl :
  closing_rows o st cl → id ∈ orch_rows o → id ∉ cl →
  ends (finish_row id out o) st (after (λ st' o' _, o' = finalize id o ∧ closing_rows o' st' (cl ++ [id]))).
Proof.
  intros Hc Hid Hn. unfold finish_row. apply ends_stateless; [intros ?; apply ends_now|]. intros t.
  apply (ends_update (λ st1, let '(s, p) := jail_finish t id out (a_jails st1) in (set_jails s st1, p))).
  cbn. destruct (row_panics _ _ _); [by apply ends_ret|]. apply ends_ret. split; [done|]. by apply (close_row o st cl (JFinish t id out)).
Qed.
Lemma error_row_ends id msg o st cl :
  closing_rows o st cl → id ∈ orch_rows o → id ∉ cl →
  ends (error_row id msg o) st (after (λ st' o' _, o' = finalize id o ∧ closing_rows o' st' (cl ++ [id]))).
Proof.
  intros Hc Hid Hn. unfold error_row. apply ends_stateless; [intros ?; apply ends_now|]. intros t. apply ends_modify, ends_ret.
  split; [done|]. by apply (close_row o st cl (JError t id msg)).
Qed.
Lemma collect_ends recs : ∀ rs outputs o st cl,
  closing_rows o st cl → cl ++ recs ≡ₚ orch_rows o → length rs = length recs →
  ends (collect show_error recs rs outputs o) st (after (λ st' o' outs,
    orch_rows o' = orch_rows o ∧ (∃ cl', closing_rows o' st' cl' ∧ cl' ≡ₚ orch_rows o) ∧ length outs = (length outputs + length recs)%nat)).
Proof.
  induction recs as [|id recs IH]; intros rs outputs o st cl Hc Hperm Hlen; destruct rs as [|r rs]; simpl in Hlen; try lia; cbn [collect].
  { apply ends_ret. simpl. split; [done|]. split; [|lia]. exists cl. by rewrite app_nil_r in Hperm. }
  assert (id ∈ orch_rows o) as Hid by (rewrite <- Hperm; set_solver).
  assert (id ∉ cl) as Hncl. { pose proof Hc as (_ & Hn & _). rewrite <- Hperm in Hn. apply NoDup_app in Hn as (_ & Hd & _). intros Hin. apply (Hd id Hin). by left. }
  destruct r as [e|out].
  - eapply after_bind; [by apply (error_row_ends _ _ _ _ cl)|]. intros st' o' [] [-> Hc']. apply ends_ret. by eapply closing_rows_inv.
  - eapply after_bind; [by apply (finish_row_ends _ _ _ _ cl)|]. intros st' o' [] [-> Hc']. eapply ends_mono; [apply (IH rs _ _ _ (cl ++ [id])); [done| |lia]|].
    + by rewrite <- app_assoc.
    + cbv beta. intros st2 [o2 [outs|e|]] Ha; [|done..]. destruct Ha as (Hr & Hcl & Hlo). split; [done|]. split; [done|]. rewrite Hlo, length_app. simpl. lia.
Qed.
Lemma fail_rows_ends ids msg : ∀ o st cl,
  closing_rows o st cl → NoDup ids → ids ⊆ orch_rows o → (∀ id, id ∈ ids → id ∉ cl) →
  ends (fail_rows ids msg) st (λ st' _, ∃ o', closing_rows o' st' (cl ++ ids) ∧ orch_rows o' = orch_rows o).
Proof.
  induction ids as [|id ids IH]; intros o st cl Hc Hn Hsub Hd; cbn [fail_rows].
  { apply ends_ret. exists o. by rewrite app_nil_r. }
  apply ends_stateless; [intros ?; apply ends_now|]. intros t. apply ends_modify. apply NoDup_cons in Hn as [Hnid Hn].
  pose proof (close_row o st cl (JError t id msg) id Hc eq_refl ltac:(set_solver) ltac:(set_solver)) as Hc'.
  eapply ends_mono; [apply (IH _ _ _ Hc'); [done|set_solver|set_solver]|]. intros st' _ (o' & Ho & Hr). exists o'. by rewrite <- app_assoc in Ho.
Qed.
Lemma stragglers_perm (l c : list Z) : NoDup l → NoDup c → c ⊆ l → c ++ filter (λ id, id ∉ (list_to_set c : gset Z)) l ≡ₚ l.
Proof.
  intros Hl Hc Hsub. apply NoDup_Permutation; [|done|].
  - apply NoDup_app. split; [done|]. split; [|by apply NoDup_filter]. intros x Hx [Hn _]%list_elem_of_filter. set_solver.
  - intros x. rewrite elem_of_app, list_elem_of_filter. destruct (decide (x ∈ c)); set_solver.
Qed.

(** ** The run *)
Context (Hrange : I64_MIN ≤ js_next_id s0 ≤ I64_MAX).
Lemma inv_closing o st : inv o st → ∃ cl, closing_rows o st cl ∧ fo_finalized o = list_to_set cl ∧ NoDup cl ∧ cl ⊆ orch_rows o.
Proof.
  intros [Hl [ops Hi]]. exists (closed ops). pose proof Hi as [_ _ Hr Hf Hn Hs _ _]. split; [|done]. split; [done|]. split; [|by exists ops].
  rewrite <- Hr. apply started_NoDup; [done|]. by rewrite Hr.
Qed.
Lemma inv_fresh o st : inv o st → fo_finalized o = ∅ → closing_rows o st [].
Proof.
  intros (cl & Hc & Hf & _ & _)%inv_closing He. replace [] with cl; [done|]. destruct cl as [|x cl]; [done|]. set_solver.
Qed.
Lemma start_children_length cmd filename jails : ∀ i done K tr ts,
  (run K tr (start_children show_error cmd filename i jails done)).2 = Some (Some ts) → length ts = (length done + length jails)%nat.
Proof.
  induction jails as [|j jails IH]; intros i done K tr ts; cbn [start_children]; [simpl; intros [= <-]; lia|]. rewrite run_bind.
  destruct (run K tr (spawn show_error _ _ _)) as [tr' [[h|e|]|]]; [|..|done|done]; (intros Hr%IH; rewrite Hr, length_app; simpl; lia).
Qed.
Lemma fork_body_ends fuel plan language filename cmd src pout outs jails metas parent_rec h o st :
  parent_rec = js_next_id s0 → fo_parent_rec o = Some parent_rec → fo_child_recs o = [] → fo_finalized o = ∅ → inv o st →
  length jails = length (fp_children plan) → (length (fp_children plan) ≤ 16)%nat →
  ends ((fork+ _ := record_children language (length (fp_children plan)) 0 (length (fp_children plan)) parent_rec config in
    fork+ recs := child_recs in
    fork+ '(parent_out, child_ress) := flift (
      let+ ts := alift (start_children show_error cmd filename 0 jails []) in
      match ts with
      | None => let+ _ := alift (handle_drop h) in aret Panic
      | Some ts => join_loop fuel parent_rec h None recs ts
      end) in
    fork+ _ := finish_row parent_rec parent_out in
    fork+ outputs := collect show_error recs child_ress [] in
    flift (let+ _ := remove_dirs (src :: pout :: outs) in aret (respond parent_out outputs metas))) o) st
  (after (λ st' o' resp, (∃ cl, closing_rows o' st' cl ∧ cl ≡ₚ orch_rows o') ∧
     length (orch_rows o') = S (length (fr_children resp)) ∧ length (fr_children resp) = length (fp_children plan))).
Proof.
  intros Hp Hpar Hch Hfin Hi Hj Hn.
  assert (orch_rows o = [parent_rec]) as Hrows by (unfold orch_rows; by rewrite Hpar, Hch).
  eapply after_bind; [apply record_children_ends; [done|done|rewrite Hrows; simpl; lia|done]|].
  intros st1 o1 [] (Hi1 & Hpar1 & Hfin1 & Hlen1). rewrite Hch in Hlen1. simpl in Hlen1. rewrite Hpar in Hpar1. rewrite Hfin in Hfin1.
  assert (orch_rows o1 = parent_rec :: fo_child_recs o1) as Hrows1 by (unfold orch_rows; by rewrite Hpar1).
  eapply (after_bind _ _ _ _ (λ st' o' recs, st' = st1 ∧ o' = o1 ∧ recs = fo_child_recs o1)); [by apply ends_ret|]. intros ? ? recs (-> & -> & ->).
  eapply (after_bind _ _ _ _ (λ st' o' x, o' = o1 ∧ (inv o1 st' ∧ length x.2 = length (fo_child_recs o1)))).
  { apply after_lift; [done|].
    eapply (ends_bind _ _ _ (λ st' r, st' = st1 ∧ ∀ ts, r = Some ts → length ts = length jails)).
    { intros K tr st' r. rewrite run_alift. destruct (run K tr _) as [t [r'|]] eqn:E; [|done]. intros [= <- <-]. split; [done|]. intros ts ->.
      apply (start_children_length cmd filename jails 0 [] K tr). by rewrite E. }
    intros ? [ts|] [-> Hts]; [|apply ends_stateless; [apply stateless_lift|]; intros _; by apply ends_ret].
    eapply ends_mono; [apply (join_loop_ends fuel o1); [done|rewrite Hrows1; set_solver|rewrite Hrows1; set_solver]|].
    intros st2 r [Hi2 Hr]. destruct r as [[out rs]|e|]; [|done..]. split; [done|]. simpl. rewrite (Hr out rs eq_refl), (Hts ts eq_refl). lia. }
  intros st2 ? [out rs] [-> [Hi2 Hrs]]. simpl in Hrs.
  eapply after_bind; [apply (finish_row_ends _ _ _ _ []); [by apply inv_fresh|rewrite Hrows1; set_solver|set_solver]|].
  intros st3 o3 [] [-> Hc3].
  eapply after_bind; [apply (collect_ends _ _ _ _ _ ([] ++ [parent_rec])); [done| |done]|].
  { change (orch_rows (finalize parent_rec o1)) with (orch_rows o1). by rewrite Hrows1. }
  intros st4 o4 outputs (Hr4 & (cl & Hcl & Hperm) & Hlo). change (orch_rows (finalize parent_rec o1)) with (orch_rows o1) in Hr4, Hperm.
  unfold flift. eapply ends_bind; [apply (ends_stateless _ _ _ (λ st' r, st' = st4 ∧ r = respond out outputs metas)); [apply remove_dirs_stateless|]; intros _; by apply ends_ret|].
  intros ? r [-> ->]. apply ends_ret. unfold after, respond. simpl. destruct (output_to_response <$> outputs) as [|x xs] eqn:Eo; [done|]. destruct metas as [|m ms]; [done|].
  simpl. assert (length (x :: xs) = length outputs) as Hx by (rewrite <- Eo; apply length_fmap). simpl in Hx, Hlo.
  split; [exists cl; by rewrite Hr4|]. rewrite Hr4, Hrows1. simpl. lia.
Qed.
Definition run_done (n : nat) (st : AppState) (o : ForkOrch) (resp : ForkResponse) : Prop :=
  (∃ cl, closing_rows o st cl ∧ cl ≡ₚ orch_rows o) ∧ length (orch_rows o) = S (length (fr_children resp)) ∧ length (fr_children resp) = n.
Lemma fork_from_ends fuel plan language filename cmd src pout jail parent_rec h o st :
  parent_rec = js_next_id s0 → fo_parent_rec o = Some parent_rec → fo_child_recs o = [] → fo_finalized o = ∅ → inv o st →
  (length (fp_children plan) ≤ 16)%nat →
  ends (fork_from show_io show_error fuel plan language filename cmd src pout config jail parent_rec h o) st (after (run_done (length (fp_children plan)))).
Proof.
  intros Hp Hpar Hch Hfin Hi Hn. assert (parent_rec ∈ orch_rows o) as Hin by (unfold orch_rows; rewrite Hpar; set_solver). unfold fork_from.
  eapply (after_bind _ _ _ _ (λ st' o' x, o' = o ∧ (inv o st' ∧ length x.1.2 = length (fp_children plan)))).
  - apply after_undo; [apply stateless_lift|]. eapply (after_bind _ _ _ _ (λ st' o' _, o' = o ∧ inv o st')).
    + apply after_lift; [done|]. apply ends_stateless; [apply stateless_lift|]. intros _. eapply ends_mono; [apply nap_follows, followed_refl|].
      cbv beta. intros st' [u|e|] Hf; [by eapply inv_followed|by eapply inv_followed|done].
    + intros st1 ? [] [-> Hi1]. apply after_lift; [done|].
      eapply ends_mono; [apply ends_and; [apply clone_children_length|apply clone_children_stateless]|]. cbv beta.
      intros st2 [[[outs jails] metas]|e|] [Hl ->]; [|done..]. split; [done|]. simpl. destruct (Hl _ _ _ eq_refl) as [-> _]. done.
  - intros st1 ? [[outs jails] metas] [-> [Hi1 Hj]]. apply after_undo; [apply remove_dirs_stateless|]. by apply fork_body_ends.
Qed.
(** From the parent's row on. *)
Lemma fork_started_ends fuel plan language filename cmd src pout jail o st :
  o = orch_new tenant → st = base → (length (fp_children plan) ≤ 16)%nat →
  ends ((fork+ parent_rec := start_row (language +:+ " · parent") None in
    fork+ _ := set_parent parent_rec in
    fork+ _ := attach_row parent_rec config in
    fork+ h := flift (alift (ctl_jail show_error (spawn show_error jail cmd ["/workspace/" +:+ filename]%string))) in
    fork_from show_io show_error fuel plan language filename cmd src pout config jail parent_rec h) o) st (after (run_done (length (fp_children plan)))).
Proof.
  intros -> -> Hn. apply ends_start_row. intros t. set (op := JStart _ _ _ _ _ _). set (st1 := set_jails _ base). set (id := js_next_id s0).
  set (o1 := MkOrch tenant (Some id) [] ∅). assert (finv (orch_new tenant) base []) as Hi0.
  { split; simpl; first [done | by rewrite set_jails_id | constructor]. }
  assert (finv o1 (set_jails (jail_step (a_jails st1) (JAttach id config)) st1) (([] ++ [op]) ++ [JAttach id config])) as Hi1.
  { apply finv_plain; [|done|done|split; [set_solver|done]]. by apply (finv_start (orch_new tenant) o1 base [] t (language +:+ " · parent") None). }
  assert (∀ A (f : unit → fact A) Q, ends (f tt o1) (set_jails (jail_step (a_jails st1) (JAttach id config)) st1) Q →
    ends ((fork+ _ := set_parent id in fork+ u := attach_row id config in f u) (orch_new tenant)) st1 Q) as Hstep.
  { intros A f Q Hf K tr st' b Hr. by apply (Hf K tr). }
  apply Hstep. assert (inv o1 (set_jails (jail_step (a_jails st1) (JAttach id config)) st1)) as Hinv by (split; [simpl; lia|by eexists]).
  eapply after_bind; [apply after_stateless; [done|apply stateless_lift]|]. intros ? ? h [-> ->]. by apply fork_from_ends.
Qed.
End protocol.
Definition fork_memory (c : ExecConfig) (req : ForkRequest) : Z := Z.min (default (default_memory_mb c) (fq_memory_mb req)) 8192.
Definition fork_timeout (c : ExecConfig) (req : ForkRequest) : Z := clamp_timeout (default (default_timeout_secs c) (fq_timeout_secs req)).
Lemma validate_ok req c plan : validate req c = Ok plan →
  (1 ≤ length (fp_children plan) ≤ 16)%nat ∧ fp_memory plan = fork_memory c req ∧ fp_timeout plan = fork_timeout c req ∧ 0 ≤ 30000 - fp_fork_after plan.
Proof.
  unfold validate. set (children := match fq_children req with [] => _ | _ => _ end).
  assert (∀ l, children = Some l → (1 ≤ length l)%nat) as Hc.
  { intros l. unfold children. destruct (fq_children req); [|intros [= <-]; simpl; lia]. destruct (fq_child_code req); [|done]. intros [= <-]. simpl. lia. }
  destruct children as [l|]; [|done]. specialize (Hc l eq_refl). destruct (Nat.ltb_spec 16 (length l)); [done|]. destruct (_ || _); [done|]. intros [= <-]. simpl.
  unfold fork_memory, fork_timeout. repeat split; lia.
Qed.

(** ** The whole request *)
Section request.
Context `{DebugFmt} `{Target} `{Seccompiler} (show_io : Z → string) (show_error : JailError → string).
(** The answer to a fork run and what it did to the ledger. *)
Definition fork_recorded (tenant : string) (config : JailConfigSnapshot) (s s' : InMemoryJailStore) (o : outcome CtlError ForkResponse) : Prop :=
  ∃ ops, s' = foldl jail_step s ops ∧
    Forall (fork_op tenant config (started s ops)) ops ∧ linked (parents ops) (js_next_id s) ∧
    NoDup (started s ops) ∧ (length (started s ops) ≤ 17)%nat ∧ closed ops ≡ₚ started s ops ∧
    ∀ resp, o = Ok resp → length (started s ops) = S (length (fr_children resp)) ∧ (1 ≤ length (fr_children resp))%nat.
Lemma recorded_closing tenant config base o' st' cl (o : outcome CtlError ForkResponse) :
  closing_rows tenant config base o' st' cl → cl ≡ₚ orch_rows o' →
  (∀ resp, o = Ok resp → length (orch_rows o') = S (length (fr_children resp)) ∧ (1 ≤ length (fr_children resp))%nat) →
  fork_recorded tenant config (a_jails base) (a_jails st') o.
Proof.
  intros (Hl & Hn & ops & Hi & <-) Hperm Hresp. exists ops. pose proof Hi as [Hst Ht Hr Hf Hnd Hs Ho Hlinks]. rewrite Hr. by rewrite Hst.
Qed.
Lemma recorded_none tenant config s (o : outcome CtlError ForkResponse) : (∀ r, o ≠ Ok r) → fork_recorded tenant config s s o.
Proof.
  intros Ho. exists []. split; [done|]. split; [constructor|]. split; [done|]. split; [constructor|]. split; [simpl; lia|]. split; [done|].
  intros r Hr. by destruct (Ho r).
Qed.
Lemma finv_rebase tenant config base base' o st ops :
  a_jails base' = a_jails base → finv tenant config base o st ops → finv tenant config base' o (set_jails (a_jails st) base') ops.
Proof.
  intros Hb [Hst Ht Hr Hf Hnd Hs Ho Hl]. split; rewrite ?Hb; try done. by rewrite Hst.
Qed.
(** The state with the permit back and the gauge down. *)
Definition released_gate (st : AppState) (total : Z) : AppState := set_gate (a_permits st) (MkMetrics (m_active (a_metrics st)) total) st.
Lemma released_gate_id st : released_gate st (m_total (a_metrics st)) = st.
Proof. by destruct st as [? ? []]. Qed.
Definition run_over (tenant : string) (config : JailConfigSnapshot) (st st' : AppState) (p : ForkOrch * outcome CtlError ForkResponse) : Prop :=
  ∃ total, let base := released_gate st total in
    match p.2 with
    | Ok resp => ∃ n, (1 ≤ n)%nat ∧ run_done tenant config base n st' p.1 resp
    | Err _ => inv tenant config base p.1 st'
    | Panic => True
    end.
Lemma inv_new tenant config st : inv tenant config st (orch_new tenant) st.
Proof. split; [simpl; lia|]. exists []. split; simpl; first [done | by rewrite set_jails_id | constructor]. Qed.
Lemma permit_over tenant config st body n :
  0 ≤ m_active (a_metrics st) < 2 ^ 64 → (1 ≤ n)%nat →
  (∀ st1, a_jails st1 = a_jails st → ends (body (orch_new tenant)) st1 (after tenant config st1 (run_done tenant config st1 n))) →
  ends (fork_permit body (orch_new tenant)) st (run_over tenant config st).
Proof.
  intros Hm Hn Hb. unfold fork_permit, ends. destruct (a_permits st) as [|k] eqn:Ep.
  { intros K tr st' p [= <- <-]. exists (m_total (a_metrics st)). rewrite released_gate_id. apply inv_new. }
  intros K tr st' p. rewrite run_bind. set (st1 := set_gate k _ st). specialize (Hb st1 eq_refl K tr).
  destruct (run K tr (body _ st1)) as [tr' [[st2 q]|]]; [|done]. specialize (Hb _ _ eq_refl). intros [= <- <-].
  exists (u64 (m_total (a_metrics st) + 1)). set (base := released_gate st _).
  assert (∀ o ops, finv tenant config st1 o st2 ops → finv tenant config base o (set_gate (S (a_permits st2)) (metrics_drop (a_metrics st2)) st2) ops) as Hre.
  { intros o ops Hi. pose proof (fi_state _ _ _ _ _ _ Hi) as Hst. apply (finv_rebase _ _ _ base) in Hi; [|done].
    replace (set_gate _ _ st2) with (set_jails (a_jails st2) base); [done|]. rewrite Hst. unfold base, released_gate, set_gate, set_jails. simpl. rewrite Ep.
    unfold metrics_drop, metrics_start. simpl. repeat f_equal. unfold u64. rewrite Zminus_mod_idemp_l, Z.add_simpl_r. symmetry. by apply Z.mod_small. }
  destruct q as [o [resp|e|]]; simpl in *; [|..|done].
  - exists n. split; [done|]. destruct Hb as [(cl & (Hl & Hnd & ops & Hi & Hc) & Hperm) Hlen]. split; [|done]. exists cl. split; [|done]. split; [done|]. split; [done|].
    exists ops. split; [by apply Hre|done].
  - destruct Hb as [Hl [ops Hi]]. split; [done|]. exists ops. by apply Hre.
Qed.
Lemma fork_run_over fuel req tenant c st :
  a_exec_config st = Some c → 0 ≤ m_active (a_metrics st) < 2 ^ 64 → I64_MIN ≤ js_next_id (a_jails st) ≤ I64_MAX →
  ends (fork_run show_io show_error fuel req (orch_new tenant)) st
    (run_over tenant (config_snapshot (fq_options req) (fork_memory c req) (fork_timeout c req) (fq_git req)) st).
Proof.
  intros Hc Hm Hr. set (config := config_snapshot _ _ _ _).
  assert (∀ e, run_over tenant config st st (orch_new tenant, Err e)) as Hrefuse.
  { intros e. exists (m_total (a_metrics st)). rewrite released_gate_id. apply inv_new. }
  unfold fork_run, fbind at 1. eapply (ends_bind _ _ _ (λ st' p, st' = st ∧ p = (orch_new tenant, Ok c))).
  { intros K tr st' p [= <- <-]. by rewrite Hc. }
  intros ? ? [-> ->]. unfold fbind at 1. eapply (ends_bind _ _ _ (λ st' p, st' = st ∧ p = (orch_new tenant, validate req c))).
  { by intros K tr st' p [= <- <-]. }
  intros ? ? [-> ->]. destruct (validate req c) as [plan|e|] eqn:Ev; [|by apply ends_ret|apply ends_ret; by exists 0].
  destruct (validate_ok _ _ _ Ev) as (Hn & Hmem & Htime & _). apply (permit_over _ _ _ _ (length (fp_children plan))); [done|lia|]. intros st1 Hj1.
  assert (inv tenant config st1 (orch_new tenant) st1) as Hi by apply inv_new.
  eapply after_bind; [apply after_stateless; [done|apply stateless_ret]|]. intros ? ? [filename cmd] [-> ->].
  do 2 (apply after_tempdir; [done|]; intros ?).
  do 5 (eapply after_bind; [apply after_stateless; [done|apply stateless_lift]|]; intros ? ? ? [-> ->]).
  cbv zeta. rewrite Hmem, Htime. fold config. apply fork_started_ends; [by rewrite Hj1|done|done|lia].
Qed.

(** C17: A fork run in the ledger.  Whatever the kernel, the jails and the schedule of
    the joined tasks do, when a fork request answers (and does not panic): the
    ledger got at most one row for the parent and one for each of at most 16
    children, all of the caller's tenant and with the configuration asked for,
    the children linked to the parent's row; no other row was touched; and every row
    that was started was closed, exactly once, whether the run succeeded or
    failed half way.  On success there is a row for the parent and for every
    child that was answered.  The permit and the gauge are as before. *)
Theorem fork_ledger_protocol (fuel : nat) (sc : TenantScope) (req : ForkRequest) (c : ExecConfig) (K : kernel) (tr : trace)
    (st st' : AppState) (o : outcome CtlError ForkResponse) :
  a_exec_config st = Some c → 0 ≤ m_active (a_metrics st) < 2 ^ 64 → I64_MIN ≤ js_next_id (a_jails st) ≤ I64_MAX →
  (run K tr (create_fork_run show_io show_error fuel sc req st)).2 = Some (st', o) → o ≠ Panic →
  settled st st' ∧
  fork_recorded (ts_tenant sc) (config_snapshot (fq_options req) (fork_memory c req) (fork_timeout c req) (fq_git req)) (a_jails st) (a_jails st') o.
Proof.
  intros Hc Hm Hr. revert K tr st' o. set (tenant := ts_tenant sc). set (config := config_snapshot _ _ _ _).
  refine (_ : ends _ _ (λ st' o, o ≠ Panic → settled st st' ∧ fork_recorded tenant config (a_jails st) (a_jails st') o)).
  assert (∀ total o' st' cl (o : outcome CtlError ForkResponse), closing_rows tenant config (released_gate st total) o' st' cl → cl ≡ₚ orch_rows o' →
    (∀ resp, o = Ok resp → length (orch_rows o') = S (length (fr_children resp)) ∧ (1 ≤ length (fr_children resp))%nat) →
    settled st st' ∧ fork_recorded tenant config (a_jails st) (a_jails st') o) as Hfinal.
  { intros total o' st' cl o Hcl Hperm Hresp. split; [|by eapply (recorded_closing _ _ (released_gate st total))].
    destruct Hcl as (_ & _ & ops & Hi & _). exists total. rewrite (fi_state _ _ _ _ _ _ Hi) at 1. by rewrite (fi_state _ _ _ _ _ _ Hi). }
  unfold create_fork_run. eapply ends_bind; [by apply (fork_run_over fuel req tenant c)|]. intros st1 [o1 r] [total Ho]. simpl in Ho. destruct r as [resp|e|].
  - apply ends_ret. intros _. destruct Ho as (n & Hn & (cl & Hcl & Hperm) & Hl & Hnn). eapply (Hfinal total o1); [exact Hcl|done|]. intros ? [= <-]. lia.
  - destruct (inv_closing tenant config (released_gate st total) Hr o1 st1 Ho) as (cl & Hcl & Hf & Hnd & Hsub).
    pose proof Hcl as (_ & Hrows & _). eapply ends_bind.
    + unfold fail_stragglers. rewrite Hf. eapply (fail_rows_ends show_io); [exact Hcl|by apply NoDup_filter|..].
      * intros x [_ Hx]%list_elem_of_filter. done.
      * intros x [Hx _]%list_elem_of_filter. set_solver.
    + intros st2 [] (o2 & Hcl2 & Hr2). apply ends_ret. intros _. eapply (Hfinal total o2); [exact Hcl2| |done]. rewrite Hr2. by apply stragglers_perm.
  - by apply ends_ret.
Qed.
End request.

(** ** Witnesses *)
Module ForkExample.
(** Every call succeeds, freezes are confirmed; the parent ends first, then the
    first child and the second. *)
Definition wakeups : list (Z * Z) := [(-1, 9); (0, 1); (0, 3); (0, 9); (1, 1); (1, 3); (1, 9)].
Definition woken (e : event) : bool := match e.1 with Select true true => true | _ => false end.
Definition K : kernel := λ t c,
  match c with
  | Select true true => let '(who, v) := nth (length (List.filter woken t)) wakeups (-1, 9) in MkRet v 0 [who] "" []
  | ReadFile p => if ends_with "cgroup.events" p then MkRet 0 0 [] ("frozen 1" +:+ String (Ascii.ascii_of_nat 10) "") [] else rint 0
  | _ => ExecExample.K t c
  end.
(** The second clone fails: no room for its directory. *)
Definition full : kernel := λ t c,
  match c with
  | MkTempDir => if (length (List.filter (λ e, match e.1 with MkTempDir => true | _ => false end) t) <? 3)%nat then K t c else rfail 28
  | _ => K t c
  end.
Definition request : ForkRequest :=
  MkForkReq "1" None [MkForkChild "2"; MkForkChild "3"] "js" None None None (Workspaces.MkOpts None None None None) None.
Definition outcome_of (K : kernel) : option (AppState * outcome CtlError ForkResponse) :=
  (run K [] (create_fork_run ExecExample.no_text ExecExample.no_text 20 ExecExample.scope request MonitorExample.app)).2.
Definition state_of (K : kernel) : AppState := match outcome_of K with Some (st, _) => st | None => MonitorExample.app end.
Definition answer_of (K : kernel) : outcome CtlError ForkResponse := match outcome_of K with Some (_, o) => o | None => Panic end.
End ForkExample.
Lemma fork_ledger_protocol_witness :
  (* two children, all three rows completed *)
  (jr_status <$> js_rows (a_jails (ForkExample.state_of ForkExample.K)) = [Completed; Completed; Completed] ∧
   fork_recorded "acme" (config_snapshot (fq_options ForkExample.request) 512 300 None) jails_new
     (a_jails (ForkExample.state_of ForkExample.K)) (ForkExample.answer_of ForkExample.K)) ∧
  (* a failing clone: the parent's row is closed *)
  (jr_status <$> js_rows (a_jails (ForkExample.state_of ForkExample.full)) = [Error] ∧
   fork_recorded "acme" (config_snapshot (fq_options ForkExample.request) 512 300 None) jails_new
     (a_jails (ForkExample.state_of ForkExample.full)) (ForkExample.answer_of ForkExample.full)).
Proof.
  split; (split; [vm_compute; reflexivity|]).
  - apply (fork_ledger_protocol ExecExample.no_text ExecExample.no_text 20 ExecExample.scope ForkExample.request exec_default ForkExample.K []
      MonitorExample.app (ForkExample.state_of ForkExample.K) (ForkExample.answer_of ForkExample.K));
      [reflexivity|vm_compute; split; [discriminate|reflexivity]|vm_compute; split; discriminate|vm_compute; reflexivity|vm_compute; discriminate].
  - apply (fork_ledger_protocol ExecExample.no_text ExecExample.no_text 20 ExecExample.scope ForkExample.request exec_default ForkExample.full []
      MonitorExample.app (ForkExample.state_of ForkExample.full) (ForkExample.answer_of ForkExample.full));
      [reflexivity|vm_compute; split; [discriminate|reflexivity]|vm_compute; split; discriminate|vm_compute; reflexivity|vm_compute; discriminate].
Defined.
