(* ===== verification/Sql.v ===== *)
(** * What the Postgres stores use of SQL

    The schema that the files of [agentjail-ctl/migrations] build, as a record of
    finite maps; statements as functions on it; the connection pool; and [LIKE]
    patterns with the escaping of the [db] modules.  The database is a service:
    every statement may be refused, or take effect while its reply is lost
    ([Fault]), and [now()] is the server's own clock.  From PostgreSQL's
    documentation: a statement is atomic, a unique or foreign-key violation makes
    it fail, [text] and [jsonb] cannot hold the character zero, a sequence does not
    take back a number, timestamps have a resolution of a microsecond. *)

From S2P Require Import Prelude Text.
Local Open Scope rust_scope.

(** ** JSON values ([serde_json::Value], [jsonb]) *)
Inductive json :=
| JNull
| JBool (b : bool)
| JNum (z : Z)
| JString (s : string)
| JArray (l : list json)
| JObject (l : list (string * json)).

(** [serde_json::to_value]/[from_value] of a type that derives both traits. *)
Class Serde (A : Type) := {
  to_value : A → outcome string json;
  from_value : json → outcome string A;
  serde_roundtrip a v : to_value a = Ok v → from_value v = Ok a
}.

Definition NUL : ascii := byte_of 0.
Definition text_ok (s : string) : bool := str_forallb (λ c, negb (Ascii.eqb c NUL)) s.
Fixpoint json_ok (v : json) : bool :=
  match v with
  | JNull | JBool _ | JNum _ => true
  | JString s => text_ok s
  | JArray l => forallb json_ok l
  | JObject l => forallb (λ kv, text_ok kv.1 && json_ok kv.2) l
  end.

(** [a @> b] on [jsonb]: scalars by equality, every element of an array and every
    field of an object on the right is contained in one on the left. *)
Fixpoint json_contains (a b : json) : bool :=
  match b with
  | JArray bs => match a with
                 | JArray xs => forallb (λ y, existsb (λ x, json_contains x y) xs) bs
                 | _ => false
                 end
  | JObject bs => match a with
                  | JObject xs => forallb (λ ky, existsb (λ kx, String.eqb kx.1 ky.1 && json_contains kx.2 ky.2) xs) bs
                  | _ => false
                  end
  | JNull => match a with JNull => true | _ => false end
  | JBool y => match a with JBool x => Bool.eqb x y | _ => false end
  | JNum y => match a with JNum x => (x =? y)%Z | _ => false end
  | JString y => match a with JString x => String.eqb x y | _ => false end
  end.

(** ** Time

    [OffsetDateTime::from_unix_timestamp_nanos], which refuses years past 9999, and
    the rounding of a time to what a [timestamptz] can hold. *)
Class TimeCrates := {
  from_unix_nanos : Z → option Z;
  from_unix_nanos_exact z t : from_unix_nanos z = Some t → t = z;
  to_micros : Z → Z;
  to_micros_near z : (Z.abs (to_micros z - z) < 1000)%Z
}.
#[export] Instance time_ref : TimeCrates.
Proof.
  refine {| from_unix_nanos z := if (Z.abs z <? 253402300800 * 10 ^ 9)%Z then Some z else None;
            to_micros z := (z / 1000 * 1000)%Z |}.
  - intros z t. destruct (_ <? _)%Z; congruence.
  - intros z. pose proof (Z.div_mod z 1000 ltac:(lia)). pose proof (Z.mod_pos_bound z 1000 ltac:(lia)). lia.
Defined.

(** ** The schema *)
Record CredRow := MkCredRow {
  cd_secret : string; cd_fingerprint : string; cd_added_at : Z; cd_updated_at : Z }.
Record AuditDbRow := MkAuditRow {
  ad_at : Z; ad_session_id : string; ad_service : string; ad_method : string; ad_path : string;
  ad_status : Z; ad_reject_reason : option string; ad_upstream_ms : option Z }.
Record JailRow := MkJailRow {
  jw_tenant_id : string; jw_kind : string; jw_started_at : Z; jw_ended_at : option Z; jw_status : string;
  jw_session_id : option string; jw_label : string; jw_parent_id : option Z; jw_exit_code : option Z;
  jw_duration_ms : option Z; jw_timed_out : option bool; jw_oom_killed : option bool;
  jw_memory_peak_bytes : option Z; jw_memory_current_bytes : option Z; jw_cpu_usage_usec : option Z;
  jw_io_read_bytes : option Z; jw_io_write_bytes : option Z; jw_pids_current : option Z;
  jw_stdout : option string; jw_stderr : option string; jw_error : option string; jw_config_json : option json }.
Record WsRow := MkWsRow {
  wr_tenant_id : string; wr_created_at : Z; wr_deleted_at : option Z; wr_source_dir : string; wr_output_dir : string;
  wr_config : json; wr_git_repo : option string; wr_git_ref : option string; wr_label : option string;
  wr_domains : json; wr_last_exec_at : option Z; wr_paused_at : option Z; wr_auto_snapshot : option string }.
Record SnapRow := MkSnapRow {
  sr_tenant_id : string; sr_workspace_id : option string; sr_name : option string; sr_created_at : Z;
  sr_path : string; sr_size_bytes : Z }.
Record SessRow := MkSessRow {
  se_tenant_id : string; se_created_at : Z; se_expires_at : option Z; se_services : json; se_env : json }.
Record TokRow := MkTokRow {
  tk_session_id : string; tk_tenant_id : string; tk_service : string; tk_scope : json; tk_expires_at : option Z }.

Record Db := MkDb {
  db_credentials : gmap (string * string) CredRow;
  db_audit_log : gmap Z AuditDbRow;
  db_audit_seq : Z;
  db_jails : gmap Z JailRow;
  db_jails_seq : Z;
  db_workspaces : gmap string WsRow;
  db_snapshots : gmap string SnapRow;
  db_sessions : gmap string SessRow;
  db_tokens : gmap (list ascii) TokRow
}.
(** Sequences of a [bigserial] column start at 1. *)
Definition db_empty : Db := MkDb ∅ ∅ 1 ∅ 1 ∅ ∅ ∅ ∅.

Definition with_credentials (f : gmap (string * string) CredRow → gmap (string * string) CredRow) (d : Db) : Db :=
  MkDb (f (db_credentials d)) (db_audit_log d) (db_audit_seq d) (db_jails d) (db_jails_seq d) (db_workspaces d)
    (db_snapshots d) (db_sessions d) (db_tokens d).
Definition with_audit (f : gmap Z AuditDbRow → gmap Z AuditDbRow) (seq : Z) (d : Db) : Db :=
  MkDb (db_credentials d) (f (db_audit_log d)) seq (db_jails d) (db_jails_seq d) (db_workspaces d)
    (db_snapshots d) (db_sessions d) (db_tokens d).
Definition with_jails (f : gmap Z JailRow → gmap Z JailRow) (seq : Z) (d : Db) : Db :=
  MkDb (db_credentials d) (db_audit_log d) (db_audit_seq d) (f (db_jails d)) seq (db_workspaces d)
    (db_snapshots d) (db_sessions d) (db_tokens d).
Definition with_workspaces (f : gmap string WsRow → gmap string WsRow) (d : Db) : Db :=
  MkDb (db_credentials d) (db_audit_log d) (db_audit_seq d) (db_jails d) (db_jails_seq d) (f (db_workspaces d))
    (db_snapshots d) (db_sessions d) (db_tokens d).
Definition with_snapshots (f : gmap string SnapRow → gmap string SnapRow) (d : Db) : Db :=
  MkDb (db_credentials d) (db_audit_log d) (db_audit_seq d) (db_jails d) (db_jails_seq d) (db_workspaces d)
    (f (db_snapshots d)) (db_sessions d) (db_tokens d).
Definition with_sessions (f : gmap string SessRow → gmap string SessRow) (d : Db) : Db :=
  MkDb (db_credentials d) (db_audit_log d) (db_audit_seq d) (db_jails d) (db_jails_seq d) (db_workspaces d)
    (db_snapshots d) (f (db_sessions d)) (db_tokens d).
Definition with_tokens (f : gmap (list ascii) TokRow → gmap (list ascii) TokRow) (d : Db) : Db :=
  MkDb (db_credentials d) (db_audit_log d) (db_audit_seq d) (db_jails d) (db_jails_seq d) (db_workspaces d)
    (db_snapshots d) (db_sessions d) (f (db_tokens d)).

(** The foreign keys of the schema: [phantom_tokens.session_id],
    [snapshots.workspace_id], [workspaces.auto_snapshot], [jails.parent_id]. *)
Definition refers {A} (o : option string) (m : gmap string A) : bool :=
  match o with None => true | Some k => bool_decide (is_Some (m !! k)) end.
Definition refers_id {A} (o : option Z) (m : gmap Z A) : bool :=
  match o with None => true | Some k => bool_decide (is_Some (m !! k)) end.

(** [ON DELETE CASCADE] and [ON DELETE SET NULL] *)
Definition cascade_sessions (d : Db) : Db :=
  with_tokens (filter (λ kv, is_Some (db_sessions d !! tk_session_id kv.2))) d.
Definition null_auto_snapshot (gone : string → bool) (w : WsRow) : WsRow :=
  match wr_auto_snapshot w with
  | Some s => if gone s
              then MkWsRow (wr_tenant_id w) (wr_created_at w) (wr_deleted_at w) (wr_source_dir w) (wr_output_dir w)
                     (wr_config w) (wr_git_repo w) (wr_git_ref w) (wr_label w) (wr_domains w) (wr_last_exec_at w)
                     (wr_paused_at w) None
              else w
  | None => w
  end.
Definition null_snapshots (d : Db) : Db :=
  with_workspaces (fmap (null_auto_snapshot (λ s, negb (bool_decide (is_Some (db_snapshots d !! s)))))) d.

(** ** Statements and the pool *)
Inductive SqlErr := UniqueViolation | ForeignKeyViolation | BadText | BadOffset | Unavailable.
#[export] Instance SqlErr_eq_dec : EqDecision SqlErr.
Proof. solve_decision. Defined.

(** [now()] and the tables, to a result and the tables. *)
Definition stmt (A : Type) : Type := Z → Db → outcome SqlErr A * Db.

Inductive Fault := Fine | Refused | LostReply.
Record Pool := MkPool { pl_db : Db; pl_n : nat; pl_fault : nat → Fault; pl_now : nat → Z }.

(** [sqlx::query(..).bind(..)..execute(&pool)]: the text and JSON parameters are
    checked by the server before it runs the statement. *)
Definition run_stmt {A} (texts : list string) (jsons : list json) (s : stmt A) (p : Pool) : outcome SqlErr A * Pool :=
  let p' db := MkPool db (S (pl_n p)) (pl_fault p) (pl_now p) in
  match pl_fault p (pl_n p) with
  | Refused => (Err Unavailable, p' (pl_db p))
  | f =>
      if negb (forallb text_ok texts && forallb json_ok jsons) then (Err BadText, p' (pl_db p)) else
      let (r, db) := s (pl_now p (pl_n p)) (pl_db p) in
      (match f with LostReply => Err Unavailable | _ => r end, p' db)
  end.
Definition opt_text (o : option string) : list string := match o with Some s => [s] | None => [] end.
Definition opt_json (o : option json) : list json := match o with Some s => [s] | None => [] end.

(** [.ok().flatten()], [.unwrap_or_default()], [.unwrap_or(0)] *)
Definition ok_flat {E A} (o : outcome E (option A)) : option A := match o with Ok a => a | _ => None end.
Definition ok_list {E A} (o : outcome E (list A)) : list A := match o with Ok a => a | _ => [] end.
Definition ok_count {E} (o : outcome E Z) : Z := match o with Ok a => a | _ => 0%Z end.

(** A query changes nothing. *)
Definition select {A} (f : Z → Db → A) : stmt A := λ now d, (Ok (f now d), d).
(** [LIMIT l OFFSET o], both [bigint]; a negative one is an error. *)
Definition select_page {A} (limit offset : Z) (f : Z → Db → list A) : stmt (list A) := λ now d,
  (if (limit <? 0)%Z || (offset <? 0)%Z then Err BadOffset
   else Ok (take (Z.to_nat limit) (drop (Z.to_nat offset) (f now d))), d).

(** ** [LIKE]

    [%] matches any sequence of characters, [_] any single character, the backslash
    makes the next character a literal.  A pattern that ends in a lone backslash is
    an error in PostgreSQL and matches nothing here; the patterns of the code end in
    [%].  Strings are UTF-8: one character is a byte and the continuation bytes
    after it. *)
Definition PERCENT : ascii := "%".
Definition UNDERSCORE : ascii := "_".
Definition BACKSLASH : ascii := byte_of 92.
Fixpoint skip_cont (s : string) : string :=
  match s with String c s' => if is_cont c then skip_cont s' else s | EmptyString => s end.
Definition literal (c : ascii) (k : string → bool) (s : string) : bool :=
  match s with String d s' => Ascii.eqb d c && k s' | EmptyString => false end.
Fixpoint any_suffix (k : string → bool) (s : string) : bool :=
  k s || match s with EmptyString => false | String _ s' => any_suffix k s' end.
Fixpoint like (p s : string) : bool :=
  match p with
  | EmptyString => str_is_empty s
  | String c p' =>
      if Ascii.eqb c PERCENT then any_suffix (like p') s
      else if Ascii.eqb c UNDERSCORE then
        match s with String _ s' => like p' (skip_cont s') | EmptyString => false end
      else if Ascii.eqb c BACKSLASH then
        match p' with String d p'' => literal d (like p'') s | EmptyString => false end
      else literal c (like p') s
  end.

(** [ILIKE] folds the case of both sides the way the database's locale does; ASCII
    letters fold as usual. *)
Class PgLower := {
  pg_lower : string → string;
  pg_lower_ascii s : is_ascii s = true → pg_lower s = str_ascii_lower s
}.
#[export] Instance pg_lower_ref : PgLower.
Proof. refine {| pg_lower := str_ascii_lower |}. done. Defined.
Definition ilike `{PgLower} (p s : string) : bool := like (pg_lower p) (pg_lower s).
(** A comparison with [NULL] does not hold. *)
Definition ilike_opt `{PgLower} (p : string) (o : option string) : bool :=
  match o with Some s => ilike p s | None => false end.

(** [s.replace(c, "\\c")] for a single character *)
Fixpoint escape_char (c : ascii) (s : string) : string :=
  match s with
  | EmptyString => EmptyString
  | String a s' => if Ascii.eqb a c then String BACKSLASH (String c (escape_char c s')) else String a (escape_char c s')
  end.
(** [n.replace('\\', "\\\\").replace('%', "\\%").replace('_', "\\_")] *)
Definition escape_like (n : string) : string :=
  escape_char UNDERSCORE (escape_char PERCENT (escape_char BACKSLASH n)).
Definition wrap_percent (s : string) : string := "%" +:+ s +:+ "%".

(** ** Lemmas: patterns *)
Definition meta (c : ascii) : bool := Ascii.eqb c PERCENT || Ascii.eqb c UNDERSCORE || Ascii.eqb c BACKSLASH.

Lemma escape_like_cons a n :
  escape_like (String a n) =
  if meta a then String BACKSLASH (String a (escape_like n)) else String a (escape_like n).
Proof. by destruct a as [[] [] [] [] [] [] [] []]. Qed.
Lemma any_suffix_ext k k' s : (∀ t, k t = k' t) → any_suffix k s = any_suffix k' s.
Proof. intros He. induction s as [|c s IH]; simpl; rewrite He; [done|]. by rewrite IH. Qed.
Lemma any_suffix_contains n s : any_suffix (starts_with n) s = str_contains n s.
Proof. induction s as [|c s IH]; simpl; [done|]. by rewrite IH. Qed.
Lemma any_suffix_all s : any_suffix str_is_empty s = true.
Proof. induction s as [|c s IH]; simpl; [done|]. by rewrite IH. Qed.

Lemma like_plain a p s : meta a = false → like (String a p) s = literal a (like p) s.
Proof. unfold meta. intros [[Hp Hu]%orb_false_iff Hb]%orb_false_iff. cbn [like]. by rewrite Hp, Hu, Hb. Qed.
Lemma literal_prefix a n p s : (∀ t, like p t = starts_with n t) → literal a (like p) s = starts_with (String a n) s.
Proof. intros He. destruct s as [|c s]; [done|]. simpl. rewrite He, Ascii.eqb_sym. by destruct (Ascii.eqb a c). Qed.
(** An escaped needle is a literal prefix. *)
Lemma like_escaped n s : like (escape_like n +:+ "%") s = starts_with n s.
Proof.
  revert s. induction n as [|a n IH]; intros s.
  { change (any_suffix str_is_empty s = true). apply any_suffix_all. }
  rewrite escape_like_cons. destruct (meta a) eqn:Hm; rewrite !app_cons.
  - change (literal a (like (escape_like n +:+ "%")) s = starts_with (String a n) s). by apply literal_prefix.
  - rewrite like_plain by done. by apply literal_prefix.
Qed.
Lemma like_substring n s : like (wrap_percent (escape_like n)) s = str_contains n s.
Proof.
  unfold wrap_percent. change ("%" +:+ escape_like n +:+ "%") with (String PERCENT (escape_like n +:+ "%")).
  cbn [like]. change (Ascii.eqb PERCENT PERCENT) with true. cbn iota.
  rewrite (any_suffix_ext _ (starts_with n)) by (intros t; apply like_escaped). apply any_suffix_contains.
Qed.

Lemma lower_meta a : meta (to_ascii_lower a) = meta a ∧ (meta a = true → to_ascii_lower a = a).
Proof. by destruct a as [[] [] [] [] [] [] [] []]. Qed.
Lemma lower_app a b : str_ascii_lower (a +:+ b) = str_ascii_lower a +:+ str_ascii_lower b.
Proof. induction a as [|x a IH]; [by rewrite !app_nil_l'|]. rewrite app_cons. simpl. by rewrite IH, app_cons. Qed.
Lemma lower_escape n : str_ascii_lower (escape_like n) = escape_like (str_ascii_lower n).
Proof.
  induction n as [|a n IH]; [done|]. simpl. rewrite !escape_like_cons. destruct (lower_meta a) as [-> Hm].
  destruct (meta a); simpl; rewrite IH; [|done]. by rewrite Hm.
Qed.
Lemma ascii_escape n : is_ascii n = true → is_ascii (escape_like n) = true.
Proof.
  unfold is_ascii. induction n as [|a n IH]; [done|]. simpl. intros [Ha Hn]%andb_true_iff. rewrite escape_like_cons.
  destruct (meta a); simpl; rewrite Ha; by rewrite IH.
Qed.
Lemma ascii_app a b : is_ascii (a +:+ b) = is_ascii a && is_ascii b.
Proof.
  unfold is_ascii. induction a as [|x a IH]; [by rewrite app_nil_l'|]. rewrite app_cons. simpl. rewrite IH. by rewrite andb_assoc.
Qed.
(** With escaping, [ILIKE '%needle%'] is the case-insensitive substring test. *)
Lemma ilike_substring `{PgLower} n s : is_ascii n = true → is_ascii s = true →
  ilike (wrap_percent (escape_like n)) s = str_contains (str_ascii_lower n) (str_ascii_lower s).
Proof.
  intros Hn Hs. unfold ilike. rewrite !pg_lower_ascii; [|done|].
  - unfold wrap_percent. rewrite !lower_app, lower_escape. apply like_substring.
  - unfold wrap_percent. rewrite !ascii_app, ascii_escape by done. done.
Qed.

(** Without wild cards and backslashes, escaping [%] alone is enough. *)
Lemma escape_percent_only n : str_forallb (λ c, negb (Ascii.eqb c UNDERSCORE || Ascii.eqb c BACKSLASH)) n = true →
  escape_char PERCENT n = escape_like n.
Proof.
  induction n as [|a n IH]; [done|]. simpl. intros [Ha Hn]%andb_true_iff. rewrite escape_like_cons, IH by done.
  unfold meta. apply negb_true_iff, orb_false_iff in Ha as [-> ->]. rewrite !orb_false_r.
  by destruct (Ascii.eqb_spec a PERCENT) as [->|].
Qed.

(** ** Encodings used to evaluate the model *)
Definition json_field (k : string) (v : json) : option json :=
  match v with JObject l => snd <$> List.find (λ kv, String.eqb kv.1 k) l | _ => None end.
Definition json_get {A} (v : json) (k : string) (dec : json → option A) : option A := json_field k v ≫= dec.
Definition json_str (v : json) : option string := match v with JString s => Some s | _ => None end.
Definition json_int (v : json) : option Z := match v with JNum z => Some z | _ => None end.
Definition json_list {A} (f : json → option A) (v : json) : option (list A) :=
  match v with JArray l => mapM f l | _ => None end.
Definition serde_of {A} (enc : A → json) (dec : json → option A) (Hrt : ∀ a, dec (enc a) = Some a) : Serde A.
Proof.
  refine {| to_value a := Ok (enc a); from_value v := ok_or (dec v) "unexpected value" |}.
  intros a v [= <-]. by rewrite Hrt.
Defined.
Lemma json_list_map {A} (enc : A → json) (dec : json → option A) l :
  (∀ a, dec (enc a) = Some a) → json_list dec (JArray (enc <$> l)) = Some l.
Proof. intros Hrt. simpl. by apply mapM_fmap_Some. Qed.
Definition strings_enc (l : list string) : json := JArray (JString <$> l).
Lemma strings_rt l : json_list json_str (strings_enc l) = Some l.
Proof. by apply json_list_map. Qed.
(** [NULL] for [None] *)
Definition json_opt {A} (enc : A → json) (o : option A) : json := match o with Some a => enc a | None => JNull end.
Definition opt_dec {A} (dec : json → option A) (v : json) : option (option A) :=
  match v with JNull => Some None | _ => Some <$> dec v end.

Definition calm_pool (d : Db) : Pool := MkPool d 0 (λ _, Fine) (λ n, 10 ^ 9 * Z.of_nat n)%Z.
