(* ===== verification/PgTokens.v ===== *)
(** * Postgres: sessions and phantom tokens

    Models [agentjail-ctl/src/db/sessions_pg.rs] and [db/tokens_pg.rs]: every trait
    method and both sweeps, each with the SQL statement it sends; and, from
    [agentjail-server/src/main.rs], which stores the server runs on when a database
    is configured.  [PgTokenStore] is an instance of [TokenStore], so the cache, the
    session routes and the proxy run on it unchanged. *)

From S2P Require Import Prelude Text Keys Token LruCache Tenant Provider PhantomProxy Ctl Sessions Sql.
Local Open Scope rust_scope.

(** ** [tokens_pg.rs] *)
Section tokens.
Context `{TimeCrates} `{Serde Scope}.

(** [Duration::from_nanos(t.unix_timestamp_nanos().max(0) as u64)] after the epoch *)
Definition system_time_from (t : Z) : Z := u64 (Z.max t 0).
Definition offset_from (t : Z) : Z := default 0%Z (from_unix_nanos (if (t <? 0)%Z then 0 else t)%Z).

Definition pg_parse_service (s : string) : option ServiceId :=
  if String.eqb s "openai" then Some OpenAi
  else if String.eqb s "anthropic" then Some Anthropic
  else if String.eqb s "github" then Some GitHub
  else if String.eqb s "stripe" then Some Stripe
  else None.

Definition row_to_token (r : TokRow) : option TokenRecord :=
  match from_value (tk_scope r) with
  | Ok sc =>
      svc ← pg_parse_service (tk_service r);
      Some (MkRecord (tk_session_id r) (tk_tenant_id r) svc sc (system_time_from <$> tk_expires_at r))
  | _ => None
  end.

(** [INSERT .. ON CONFLICT (token_hash) DO NOTHING] *)
Definition insert_token (hash : list ascii) (r : TokRow) : stmt unit := λ _ d,
  if bool_decide (is_Some (db_tokens d !! hash)) then (Ok tt, d)
  else if refers (Some (tk_session_id r)) (db_sessions d) then (Ok tt, with_tokens (<[hash := r]>) d)
  else (Err ForeignKeyViolation, d).
(** [expires_at IS NULL OR expires_at > now()] *)
Definition unexpired (now : Z) (e : option Z) : bool := match e with None => true | Some t => (now <? t)%Z end.
Definition select_token (hash : list ascii) : stmt (option TokRow) := select (λ now d,
  r ← db_tokens d !! hash; if unexpired now (tk_expires_at r) then Some r else None).
Definition delete_token (hash : list ascii) : stmt unit := λ _ d, (Ok tt, with_tokens (delete hash) d).
Definition delete_session_tokens (sess : string) : stmt unit := λ _ d,
  (Ok tt, with_tokens (filter (λ kv, tk_session_id kv.2 ≠ sess)) d).

Definition pg_issue (clk : nat → Z) (rnd : list ascii) (sess tenant : string) (svc : ServiceId) (sc : Scope)
    (ttl : option Z) (p : Pool) : option (PhantomToken * Pool) :=
  let token := token_generate rnd in
  exp ← resolve_ttl (clk 0) ttl;
  let expires_at := (λ e, to_micros (offset_from e)) <$> exp in
  let scope_json := match to_value sc with Ok v => v | _ => JNull end in
  let row := MkTokRow sess tenant (service_name svc) scope_json expires_at in
  Some (token, (run_stmt [sess; tenant; service_name svc] [scope_json] (insert_token (tok_bytes token) row) p).2).
Definition pg_lookup (clk : nat → Z) (token : PhantomToken) (p : Pool) : option TokenRecord * Pool :=
  let (o, p) := run_stmt [] [] (select_token (tok_bytes token)) p in
  (ok_flat o ≫= row_to_token, p).
Definition pg_revoke (token : PhantomToken) (p : Pool) : Pool := (run_stmt [] [] (delete_token (tok_bytes token)) p).2.
Definition pg_revoke_session (sess : string) (p : Pool) : Pool := (run_stmt [sess] [] (delete_session_tokens sess) p).2.

#[export] Instance PgTokenStore : TokenStore Pool := {|
  ts_issue := pg_issue;
  ts_lookup := pg_lookup;
  ts_revoke := pg_revoke;
  ts_revoke_session := pg_revoke_session |}.

(** [expires_at IS NOT NULL AND expires_at <= now()] *)
Definition lapsed (now : Z) (e : option Z) : bool := match e with None => false | Some t => (t <=? now)%Z end.
Definition delete_lapsed_tokens : stmt Z := λ now d,
  (Ok (Z.of_nat (size (filter (λ kv, lapsed now (tk_expires_at kv.2) = true) (db_tokens d)))),
   with_tokens (filter (λ kv, lapsed now (tk_expires_at kv.2) = false)) d).
Definition sweep_expired_tokens (p : Pool) : Z * Pool :=
  let (o, p) := run_stmt [] [] delete_lapsed_tokens p in (ok_count o, p).
End tokens.

(** ** [sessions_pg.rs] *)
Section sessions.
Context `{TimeCrates} `{Serde (list ServiceId)} `{Serde (gmap string string)} `{HashIter} (show_sql : SqlErr → string).

Definition row_to_session (id : string) (r : SessRow) : option Session :=
  match from_value (se_services r), from_value (se_env r) with
  | Ok services, Ok env => Some (MkSession id (se_tenant_id r) (se_created_at r) (se_expires_at r) services env)
  | _, _ => None
  end.

Definition insert_session (id : string) (r : SessRow) : stmt unit := λ _ d,
  if bool_decide (is_Some (db_sessions d !! id)) then (Err UniqueViolation, d)
  else (Ok tt, with_sessions (<[id := r]>) d).
Definition select_session (id : string) : stmt (option SessRow) := select (λ now d,
  r ← db_sessions d !! id; if unexpired now (se_expires_at r) then Some r else None).
(** [ORDER BY created_at DESC] *)
Definition sess_row_newest (a b : string * SessRow) : bool := (se_created_at b.2 <=? se_created_at a.2)%Z.
Definition select_sessions (tenant : option string) : stmt (list (string * SessRow)) := select (λ now d,
  sort_by sess_row_newest
    (filter (λ kr, tenant_matches tenant (se_tenant_id kr.2) && unexpired now (se_expires_at kr.2) = true)
       (hash_iter (db_sessions d)))).
(** [DELETE .. RETURNING], with the cascade into [phantom_tokens] *)
Definition delete_session_row (id : string) : stmt (option SessRow) := λ _ d,
  (Ok (db_sessions d !! id), cascade_sessions (with_sessions (delete id) d)).
Definition delete_lapsed_sessions : stmt Z := λ now d,
  (Ok (Z.of_nat (size (filter (λ kv, lapsed now (se_expires_at kv.2) = true) (db_sessions d)))),
   cascade_sessions (with_sessions (filter (λ kv, lapsed now (se_expires_at kv.2) = false)) d)).

Definition pg_sess_insert (s : Session) (p : Pool) : Pool * outcome CtlError unit :=
  match to_value (s_services s) with
  | Err e => (p, Err (Internal ("session.services encode: " +:+ e)))
  | Panic => (p, Panic)
  | Ok services_json =>
  match to_value (s_env s) with
  | Err e => (p, Err (Internal ("session.env encode: " +:+ e)))
  | Panic => (p, Panic)
  | Ok env_json =>
      let row := MkSessRow (s_tenant_id s) (to_micros (s_created_at s)) (to_micros <$> s_expires_at s) services_json env_json in
      let (r, p) := run_stmt [s_id s; s_tenant_id s] [services_json; env_json] (insert_session (s_id s) row) p in
      (p, match r with
          | Ok _ => Ok tt
          | Err UniqueViolation => Err (Conflict ("session " +:+ s_id s +:+ " already exists"))
          | Err e => Err (Internal ("session insert: " +:+ show_sql e))
          | Panic => Panic
          end)
  end end.
Definition pg_sess_get (id : string) (p : Pool) : option Session * Pool :=
  let (o, p) := run_stmt [id] [] (select_session id) p in
  (ok_flat o ≫= row_to_session id, p).
Definition pg_sess_list (tenant : option string) (p : Pool) : list Session * Pool :=
  let (o, p) := run_stmt (opt_text tenant) [] (select_sessions tenant) p in
  (omap (λ kr, row_to_session kr.1 kr.2) (ok_list o), p).
Definition pg_sess_remove (id : string) (p : Pool) : option Session * Pool :=
  let (o, p) := run_stmt [id] [] (delete_session_row id) p in
  (ok_flat o ≫= row_to_session id, p).

Definition sweep_expired_sessions (p : Pool) : Z * Pool :=
  let (o, p) := run_stmt [] [] delete_lapsed_sessions p in (ok_count o, p).

(** The background sweeper of [with_postgres]: one tick. *)
Definition sweep_tick (p : Pool) : Pool := (sweep_expired_tokens (sweep_expired_sessions p).2).2.
End sessions.

(** ** The stores of the running server

    [main] with a database: the token store is the cache over [PgTokenStore], the
    sessions are kept in memory. *)
Section server.
Context {H V B : Type} `{HttpCrate H V} `{TimeCrates} `{Serde Scope} `{HexEncode} `{HashIter} `{HexCrate}.
Context (odt_add : Z → Z → option Z).
Context (send : UpRequest H B → outcome string (UpResponse H B)) (mfb : string → outcome string string).

Definition SrvState : Type := SessState (LruTokenCache Pool) InMemorySessionStore.
Definition server_stores (cap : nat) (base : string) (keys : InMemoryKeyStore) (p : Pool) : SrvState :=
  MkSS (lru_new p cap) keys sess_new base.

(** What clients make the server do to its tokens; a restart keeps the database. *)
Inductive SrvOp :=
| SCreate (d : Draw) (sc : TenantScope) (req : CreateSessionRequest)
| SDelete (sc : TenantScope) (id : string)
| SProxy (clk : nat → Z) (req : Request H B) (reg : gmap ServiceId (Provider H))
| SRestart (cap : nat) (base : string) (keys : InMemoryKeyStore).
Definition proxy_of (reg : gmap ServiceId (Provider H)) (st : SrvState)
    : PhantomProxy H (LruTokenCache Pool) InMemoryKeyStore unit := MkProxy reg (st_tokens st) (st_keys st) tt.
Definition srv_step (st : SrvState) (op : SrvOp) : SrvState :=
  match op with
  | SCreate d sc req => (create_session odt_add d sc req st).1
  | SDelete sc id => (delete_session sc id st).1
  | SProxy clk req reg =>
      MkSS (px_tokens (handle send mfb clk req (proxy_of reg st)).1.2) (st_keys st) (st_sessions st) (st_proxy_base_url st)
  | SRestart cap base keys => server_stores cap base keys (cache_inner (st_tokens st))
  end.

(** ** Lemmas *)
Lemma run_stmt_inv {A} (P : Db → Prop) texts jsons (s : stmt A) p :
  (∀ now, P (pl_db p) → P (s now (pl_db p)).2) → P (pl_db p) → P (pl_db (run_stmt texts jsons s p).2).
Proof.
  intros Hs Hp. unfold run_stmt. destruct (pl_fault p (pl_n p)); [|done|];
    (case_match; [done|]); specialize (Hs (pl_now p (pl_n p)) Hp); destruct (s _ _); done.
Qed.
Lemma run_stmt_fine {A} texts jsons (s : stmt A) p :
  pl_fault p (pl_n p) = Fine → forallb text_ok texts = true → forallb json_ok jsons = true →
  run_stmt texts jsons s p
  = ((s (pl_now p (pl_n p)) (pl_db p)).1, MkPool (s (pl_now p (pl_n p)) (pl_db p)).2 (S (pl_n p)) (pl_fault p) (pl_now p)).
Proof. intros Hf Ht Hj. unfold run_stmt. rewrite Hf, Ht, Hj. simpl. by destruct (s _ _). Qed.
(** What a query answers comes from the tables. *)
Lemma run_select_ok {A} texts jsons (f : Z → Db → A) p r p' :
  run_stmt texts jsons (select f) p = (Ok r, p') → r = f (pl_now p (pl_n p)) (pl_db p).
Proof.
  unfold run_stmt, select. destruct (pl_fault p (pl_n p)); [|congruence|]; (case_match; [congruence|]); simpl; congruence.
Qed.

(** No session row, no token row, nothing cached. *)
Definition barren (s : LruTokenCache Pool) : Prop :=
  db_sessions (pl_db (cache_inner s)) = ∅ ∧ db_tokens (pl_db (cache_inner s)) = ∅ ∧ lru_map (cache s) = ∅.
Definition bare (d : Db) : Prop := db_sessions d = ∅ ∧ db_tokens d = ∅.

Lemma bare_issue clk rnd sess ten svc sc ttl p tok p' :
  bare (pl_db p) → pg_issue clk rnd sess ten svc sc ttl p = Some (tok, p') → bare (pl_db p').
Proof.
  intros Hb. unfold pg_issue. destruct (resolve_ttl _ _) as [e|]; simpl; [|done]. intros [= _ <-].
  apply (run_stmt_inv bare); [|done]. intros now [Hs Ht]. unfold insert_token. rewrite Ht, lookup_empty.
  rewrite bool_decide_false by (by intros [? ?]). simpl. rewrite Hs, lookup_empty.
  rewrite bool_decide_false by (by intros [? ?]). done.
Qed.
Lemma bare_lookup clk tok p : bare (pl_db p) → (pg_lookup clk tok p).1 = None ∧ bare (pl_db (pg_lookup clk tok p).2).
Proof.
  intros Hb. unfold pg_lookup.
  pose proof (run_stmt_inv bare [] [] (select_token (tok_bytes tok)) p (λ _ H, H) Hb) as Hp.
  destruct (run_stmt _ _ _ p) as [o p'] eqn:E. simpl in *. split; [|done].
  destruct o as [r|e|]; [|done..]. apply run_select_ok in E as ->. destruct Hb as [_ Ht]. simpl. by rewrite Ht.
Qed.
Lemma bare_revoke_session sess p : bare (pl_db p) → bare (pl_db (pg_revoke_session sess p)).
Proof.
  intros Hb. apply (run_stmt_inv bare); [|done]. intros now [Hs Ht]. split; [done|]. simpl. by rewrite Ht, map_filter_empty.
Qed.

Lemma barren_lookup clk tok s : barren s → (ts_lookup clk tok s).1 = None ∧ barren (ts_lookup clk tok s).2.
Proof.
  intros (Hs & Ht & Hc). simpl. unfold lru_lookup. rewrite Hc, lookup_empty. simpl.
  destruct (bare_lookup clk tok (cache_inner s)) as [Hn [Hb1 Hb2]]; [done|].
  destruct (pg_lookup clk tok (cache_inner s)) as [o i]. simpl in *. subst o. done.
Qed.
Lemma barren_issue clk rnd sess ten svc sc ttl s tok s' :
  barren s → ts_issue clk rnd sess ten svc sc ttl s = Some (tok, s') → barren s'.
Proof.
  intros (Hs & Ht & Hc). simpl. unfold lru_issue. simpl.
  destruct (pg_issue clk rnd sess ten svc sc ttl (cache_inner s)) as [[tok' i]|] eqn:E; simpl; [|done].
  assert (bare (pl_db i)) as Hi by (by eapply bare_issue).
  destruct (bare_lookup (λ n, clk (S n)) tok' i Hi) as [Hn [Hb1 Hb2]].
  destruct (pg_lookup _ tok' i) as [o i']. simpl in *. subst o. intros [= _ <-]. done.
Qed.
Lemma barren_issue_loop d req id ten base svcs : ∀ i env s,
  barren s → barren (issue_loop d req id ten base i svcs env s).1.
Proof.
  induction svcs as [|svc svcs IH]; intros i env s Hb; [done|]. cbn [issue_loop].
  destruct (ts_issue _ _ _ _ _ _ _ s) as [[tok s']|] eqn:E; [|done]. apply IH. by eapply barren_issue.
Qed.
Lemma barren_create d sc req st :
  barren (st_tokens st) → barren (st_tokens (create_session odt_add d sc req st).1).
Proof.
  intros Hb. unfold create_session. destruct (rq_services req) as [|v vs]; [done|].
  destruct (check_keys _ _ _); [|done..]. case_match; [|done]. destruct (check_scopes _ _); [|done..].
  pose proof (barren_issue_loop d req (new_session_id (d_id d)) (ts_tenant sc) (st_proxy_base_url st) (v :: vs) 0 ∅
                (st_tokens st) Hb) as Hl.
  destruct (issue_loop _ _ _ _ _ _ _ _ _) as [toks [env|]]; [|done]. simpl in Hl.
  destruct (ss_insert _ _) as [ss r]. by destruct r.
Qed.
Lemma barren_delete sc id st : barren (st_tokens st) → barren (st_tokens (delete_session sc id st).1).
Proof.
  intros Hb. unfold delete_session. case_match; [done|]. destruct (ss_remove id _) as [[s|] ss]; [|done].
  destruct Hb as (Hs & Ht & Hc). simpl.
  destruct (bare_revoke_session (s_id s) (cache_inner (st_tokens st)) (conj Hs Ht)). split; [done|]. split; [done|].
  simpl. by rewrite Hc, map_filter_empty.
Qed.
Lemma barren_handle clk req reg st :
  barren (st_tokens st) →
  barren (px_tokens (handle send mfb clk req (proxy_of reg st)).1.2) ∧
  (handle send mfb clk req (proxy_of reg st)).2 = [] ∧
  ∃ status msg, (handle send mfb clk req (proxy_of reg st)).1.1 = Some (text_response status msg) ∧
    (status = 401 ∨ status = 404)%Z.
Proof.
  intros Hb. unfold handle. destruct (split_service_path _) as [[seg path]|]; [|eauto 10].
  destruct (extract_phantom _) as [tok|]; [|eauto 10].
  destruct (barren_lookup clk tok (st_tokens st) Hb) as [Hn Hb'].
  change (px_tokens (proxy_of reg st)) with (st_tokens st).
  destruct (ts_lookup clk tok (st_tokens st)) as [o s']. simpl in Hn, Hb'. subst o. simpl. eauto 10.
Qed.
Lemma barren_step st op : barren (st_tokens st) → barren (st_tokens (srv_step st op)).
Proof.
  destruct op as [d sc req|sc id|clk req reg|cap base keys]; intros Hb.
  - by apply barren_create.
  - by apply barren_delete.
  - by apply barren_handle.
  - destruct Hb as (Hs & Ht & _). done.
Qed.
End server.

(** Foreign key [phantom_tokens.session_id] *)
Definition tokens_referenced (d : Db) : Prop :=
  map_Forall (λ _ r, is_Some (db_sessions d !! tk_session_id r)) (db_tokens d).

(** C12: With a database, no phantom token works.  The server keeps sessions in
    memory, so the [sessions] table stays empty and every [INSERT] into
    [phantom_tokens] violates its foreign key, which [issue] ignores.  Start the
    server on any database whose [sessions] table is empty and whose token rows keep
    their foreign key, and let clients create
    and delete sessions, send proxy requests and restart it in any order, with any
    pattern of failing statements: whatever request reaches the proxy afterwards,
    with whatever token, is answered 401 or 404 and nothing is sent upstream. *)
Theorem postgres_tokens_never_resolve {H V B : Type} `{HttpCrate H V} `{TimeCrates} `{Serde Scope} `{HexEncode}
    `{HashIter} `{HexCrate} (odt_add : Z → Z → option Z)
    (send : UpRequest H B → outcome string (UpResponse H B)) (mfb : string → outcome string string)
    (cap : nat) (base : string) (keys : InMemoryKeyStore) (p : Pool) (ops : list SrvOp)
    (clk : nat → Z) (req : Request H B) (reg : gmap ServiceId (Provider H)) :
  db_sessions (pl_db p) = ∅ → tokens_referenced (pl_db p) →
  ∃ status msg px',
    handle send mfb clk req (proxy_of reg (foldl (srv_step odt_add send mfb) (server_stores cap base keys p) ops))
    = (Some (text_response status msg), px', []) ∧ (status = 401 ∨ status = 404)%Z.
Proof.
  intros Hs Hr.
  assert (db_tokens (pl_db p) = ∅) as Ht.
  { apply map_eq. intros k. rewrite lookup_empty. destruct (db_tokens (pl_db p) !! k) as [r|] eqn:E; [|done].
    apply Hr in E as [x Hx]. by rewrite Hs, lookup_empty in Hx. }
  assert (∀ st, barren (st_tokens st) → barren (st_tokens (foldl (srv_step odt_add send mfb) st ops))) as Hall.
  { induction ops as [|op ops IH]; intros st Hb; [done|]. simpl. apply IH, barren_step, Hb. }
  destruct (barren_handle send mfb clk req reg _ (Hall (server_stores cap base keys p) (conj Hs (conj Ht eq_refl))))
    as (_ & Hsent & status & msg & Hresp & Hst).
  exists status, msg. destruct (handle _ _ _ _ _) as [[resp px'] sent]. simpl in Hresp, Hsent. subst. eauto.
Qed.

(** ** What the token table means

    The records a look-up can find at the server time [now]. *)
Section view.
Context `{TimeCrates} `{Serde Scope}.

Definition token_view (now : Z) (d : Db) : gmap (list ascii) TokenRecord :=
  omap (λ r, if unexpired now (tk_expires_at r) then row_to_token r else None) (db_tokens d).

Lemma lookup_token_view now d k :
  token_view now d !! k = r ← db_tokens d !! k; if unexpired now (tk_expires_at r) then row_to_token r else None.
Proof. unfold token_view. by rewrite lookup_omap. Qed.
Lemma service_name_parses svc : pg_parse_service (service_name svc) = Some svc.
Proof. by destruct svc. Qed.
Lemma service_name_text svc : text_ok (service_name svc) = true.
Proof. by destruct svc. Qed.
Lemma row_to_token_session r t : row_to_token r = Some t → session_id t = tk_session_id r.
Proof.
  unfold row_to_token. destruct (from_value _); [|done..]. destruct (pg_parse_service _); simpl; [|done]. by intros [= <-].
Qed.

(** Dropping the rows of a session drops its records. *)
Lemma view_filter_session now sess d (P : list ascii * TokRow → Prop) `{∀ x, Decision (P x)} :
  (∀ k r, db_tokens d !! k = Some r → P (k, r) ↔ tk_session_id r ≠ sess) →
  token_view now (with_tokens (filter P) d) = abs_revoke_session sess (token_view now d).
Proof.
  intros HP. apply map_eq. intros k. unfold abs_revoke_session. rewrite map_lookup_filter, !lookup_token_view.
  simpl. rewrite map_lookup_filter. destruct (db_tokens d !! k) as [r|] eqn:E; simpl; [|done].
  destruct (unexpired now (tk_expires_at r)) eqn:Hu; simpl.
  - destruct (row_to_token r) as [t|] eqn:Ht; simpl.
    + apply row_to_token_session in Ht as Hs. destruct (decide (tk_session_id r = sess)) as [He|Hne].
      * rewrite option_guard_False by (rewrite (HP _ _ E); naive_solver). simpl.
        by rewrite option_guard_False by (simpl; rewrite Hs; naive_solver).
      * rewrite option_guard_True by (by apply (HP _ _ E)). simpl. rewrite Hu, Ht.
        by rewrite option_guard_True by (simpl; by rewrite Hs).
    + case_guard; simpl; [by rewrite Hu, Ht|done].
  - case_guard; simpl; [by rewrite Hu|done].
Qed.
Lemma view_with_sessions now f d : token_view now (with_sessions f d) = token_view now d.
Proof. done. Qed.
End view.

(** C30: The token table refines the store's map.  When a statement goes through:
    a look-up finds exactly the unexpired record of the token; issuing adds exactly
    one record, with the expiry to the microsecond, if the session has a row, and
    otherwise adds nothing; revoking a token removes it; revoking a session, or
    deleting its row (through the cascade), removes exactly its tokens; the sweep
    of expired tokens changes no look-up from then on. *)
Theorem pg_tokens_refine `{TimeCrates} `{Serde Scope} `{Serde (list ServiceId)} `{Serde (gmap string string)} (p : Pool) :
  pl_fault p (pl_n p) = Fine →
  (∀ clk tok, (pg_lookup clk tok p).1 = token_view (pl_now p (pl_n p)) (pl_db p) !! tok_bytes tok) ∧
  (∀ clk rnd sess ten svc sc ttl v exp,
     text_ok sess = true → text_ok ten = true → to_value sc = Ok v → json_ok v = true →
     resolve_ttl (clk 0) ttl = Some exp → db_tokens (pl_db p) !! rnd = None →
     let stored := (λ e, to_micros (offset_from e)) <$> exp in
     ∃ p', pg_issue clk rnd sess ten svc sc ttl p = Some (MkToken rnd, p') ∧
       ∀ now, token_view now (pl_db p') =
         if refers (Some sess) (db_sessions (pl_db p)) && unexpired now stored
         then <[rnd := MkRecord sess ten svc sc (system_time_from <$> stored)]> (token_view now (pl_db p))
         else token_view now (pl_db p)) ∧
  (∀ tok now, token_view now (pl_db (pg_revoke tok p)) = delete (tok_bytes tok) (token_view now (pl_db p))) ∧
  (∀ sess now, text_ok sess = true →
     token_view now (pl_db (pg_revoke_session sess p)) = abs_revoke_session sess (token_view now (pl_db p)) ∧
     (tokens_referenced (pl_db p) →
      token_view now (pl_db (pg_sess_remove sess p).2) = abs_revoke_session sess (token_view now (pl_db p)))) ∧
  (∀ now, (pl_now p (pl_n p) ≤ now)%Z →
     token_view now (pl_db (sweep_expired_tokens p).2) = token_view now (pl_db p)).
Proof.
  intros Hf. refine (conj _ (conj _ (conj _ (conj _ _)))).
  - intros clk tok. unfold pg_lookup. rewrite run_stmt_fine by done. simpl. rewrite lookup_token_view.
    destruct (db_tokens _ !! _) as [r|]; simpl; [|done]. by case_match.
  - intros clk rnd sess ten svc sc ttl v exp Hs Ht Hv Hj He Hn stored. unfold pg_issue. rewrite He, Hv. cbn [mbind option_bind].
    eexists. split; [done|]. intros now.
    rewrite run_stmt_fine; [|done|by simpl; rewrite Hs, Ht, service_name_text|by simpl; rewrite Hj].
    cbn [pl_db snd token_generate tok_bytes]. unfold insert_token. rewrite Hn, bool_decide_false by (by intros [? ?]).
    destruct (refers _ _); [|done]. cbn [snd fst]. apply map_eq. intros k.
    destruct (unexpired now stored) eqn:Hu; simpl; rewrite ?lookup_insert, !lookup_token_view; simpl; rewrite lookup_insert;
      case_decide; simplify_eq; simpl; [|done| |done].
    + fold stored. rewrite Hu. unfold row_to_token. simpl. by rewrite (serde_roundtrip _ _ Hv), service_name_parses.
    + fold stored. by rewrite Hu, Hn.
  - intros tok now. unfold pg_revoke. rewrite run_stmt_fine by done. simpl. apply map_eq. intros k.
    rewrite lookup_delete, !lookup_token_view. simpl. rewrite lookup_delete. by case_decide.
  - intros sess now Ht. split.
    + unfold pg_revoke_session. rewrite run_stmt_fine by (simpl; by rewrite ?Ht). simpl. by apply view_filter_session.
    + intros Hr. unfold pg_sess_remove. rewrite run_stmt_fine by (simpl; by rewrite ?Ht). simpl.
      unfold cascade_sessions. rewrite view_filter_session with (sess := sess); [done|].
      intros k r Hk. simpl in *. rewrite lookup_delete_is_Some. pose proof (Hr k r Hk) as Hk'. simpl in Hk'. naive_solver.
  - intros now Hle. unfold sweep_expired_tokens. rewrite run_stmt_fine by done. simpl. apply map_eq. intros k.
    rewrite !lookup_token_view. simpl. rewrite map_lookup_filter. destruct (db_tokens _ !! k) as [r|]; simpl; [|done].
    case_guard as Hl; simpl; [done|]. apply not_false_iff_true in Hl. unfold lapsed in Hl. unfold unexpired.
    destruct (tk_expires_at r) as [t|]; [|done]. destruct (Z.ltb_spec now t); [|done]. apply Z.leb_le in Hl. lia.
Qed.

(** ** Witnesses *)
Definition scope_enc (s : Scope) : json :=
  JObject [("allowed_paths", JArray ((λ g, JObject [("pattern", JString (pattern g))]) <$> allowed_paths s))].
Definition glob_dec (v : json) : option PathGlob := MkGlob <$> (json_field "pattern" v ≫= json_str).
Definition scope_dec (v : json) : option Scope := MkScope <$> (json_field "allowed_paths" v ≫= json_list glob_dec).
Lemma scope_rt s : scope_dec (scope_enc s) = Some s.
Proof.
  destruct s as [gs]. unfold scope_dec, scope_enc. simpl.
  rewrite (mapM_fmap_Some glob_dec (λ g, JObject [("pattern", JString (pattern g))])); [done|]. by intros [].
Qed.
Definition service_enc (v : ServiceId) : json := JString (service_name v).
Definition services_dec : json → option (list ServiceId) := json_list (λ v, json_str v ≫= pg_parse_service).
Lemma services_rt l : services_dec (JArray (service_enc <$> l)) = Some l.
Proof. apply json_list_map. intros v. apply service_name_parses. Qed.
Definition env_enc (m : gmap string string) : json := JObject ((λ kv, (kv.1, JString kv.2)) <$> map_to_list m).
Definition env_dec (v : json) : option (gmap string string) :=
  match v with JObject l => list_to_map <$> mapM (λ kv, pair kv.1 <$> json_str kv.2) l | _ => None end.
Lemma env_rt m : env_dec (env_enc m) = Some m.
Proof.
  unfold env_dec, env_enc. rewrite (mapM_fmap_Some _ (λ kv : string * string, (kv.1, JString kv.2))) by (by intros []).
  simpl. by rewrite list_to_map_to_list.
Qed.
#[export] Instance scope_serde : Serde Scope := serde_of scope_enc scope_dec scope_rt.
#[export] Instance services_serde : Serde (list ServiceId) := serde_of (λ l, JArray (service_enc <$> l)) services_dec services_rt.
#[export] Instance env_serde : Serde (gmap string string) := serde_of env_enc env_dec env_rt.

Definition demo_pool : Pool := calm_pool db_empty.
Definition demo_srv : SrvState := server_stores 10 "http://proxy" demo_keys demo_pool.
Definition demo_srv_ops : list (SrvOp (H := list_headers) (B := unit)) := [SCreate demo_draw demo_op demo_csr].
(** The session was created and its token is the one presented. *)
Definition demo_srv_req : Request list_headers unit :=
  MkRequest "POST" "/v1/openai/v1/chat/completions" None
    [(AUTHORIZATION, MkHV ("Bearer " +:+ token_display (MkToken (d_tok demo_draw 0))) false)] tt.
Lemma postgres_tokens_never_resolve_witness :
  is_ok (create_session demo_add demo_draw demo_op demo_csr demo_srv).2 = true ∧
  ∃ status msg px',
    handle demo_send Ok (λ _, 5%Z) demo_srv_req
      (proxy_of demo_registry (foldl (srv_step demo_add demo_send Ok) demo_srv demo_srv_ops))
    = (Some (text_response status msg), px', []) ∧ (status = 401 ∨ status = 404)%Z.
Proof.
  split; [vm_compute; reflexivity|].
  apply (postgres_tokens_never_resolve demo_add demo_send Ok 10 "http://proxy" demo_keys demo_pool demo_srv_ops).
  - reflexivity.
  - apply map_Forall_empty.
Defined.

Definition demo_sess_db : Db :=
  with_sessions (<["sess_1" := MkSessRow "acme" 0 None (JArray []) (JObject [])]>) db_empty.
Lemma pg_tokens_refine_witness :
  ∃ p', pg_issue (λ _, 0%Z) demo_bytes "sess_1" "acme" OpenAi scope_any (Some (60 * 10 ^ 9)%Z) (calm_pool demo_sess_db)
        = Some (MkToken demo_bytes, p') ∧
    token_view 1 (pl_db p') !! demo_bytes = Some (MkRecord "sess_1" "acme" OpenAi scope_any (Some (60 * 10 ^ 9)%Z)).
Proof.
  destruct (pg_tokens_refine (calm_pool demo_sess_db)) as (_ & Hi & _); [reflexivity|].
  destruct (Hi (λ _, 0%Z) demo_bytes "sess_1" "acme" OpenAi scope_any (Some (60 * 10 ^ 9)%Z) (scope_enc scope_any)
              (Some (60 * 10 ^ 9)%Z)) as (p' & Hp & Hv); [reflexivity..|].
  exists p'. split; [exact Hp|]. rewrite Hv. vm_compute. reflexivity.
Defined.
