(* ===== verification/PgLedger.v ===== *)
(** * Postgres: the jail ledger and the audit log

    Models [agentjail-ctl/src/db/jails_pg.rs] and [db/audit_pg.rs]: every trait
    method with the SQL statement it sends, the conversions between [u64] and
    [bigint], and the search of [page] with its [ILIKE] pattern.  A failed write is
    ignored by the code; [start] returns [i64::MIN] then.  The last component of
    [pg_jail_finish] and [pg_jail_tail] is the panic of [truncate]. *)

From S2P Require Import Prelude Text Keys Token Provider PhantomProxy Tenant Ctl Sessions AuditLog Jails Sql PgTokens.
Local Open Scope rust_scope.

(** [x as i64], [x as u64], [x as u16] *)
Definition as_i64 (x : Z) : Z := i64_wrap x.
Definition as_u64 (x : Z) : Z := u64 x.
Definition as_u16 (x : Z) : Z := (x mod 2 ^ 16)%Z.

(** ** [jails_pg.rs] *)
Section jails.
Context `{Serde JailConfigSnapshot} `{HashIter}.

Definition row_to_jail (id : Z) (r : JailRow) : JailRecord :=
  MkJail id (jw_tenant_id r) (kind_from_str_or_run (jw_kind r)) (jw_started_at r) (jw_ended_at r)
    (status_from_str_or_error (jw_status r)) (jw_session_id r) (jw_label r) (jw_parent_id r) (jw_exit_code r)
    (as_u64 <$> jw_duration_ms r) (jw_timed_out r) (jw_oom_killed r)
    (as_u64 <$> jw_memory_peak_bytes r) (as_u64 <$> jw_memory_current_bytes r) (as_u64 <$> jw_cpu_usage_usec r)
    (as_u64 <$> jw_io_read_bytes r) (as_u64 <$> jw_io_write_bytes r) (as_u64 <$> jw_pids_current r)
    (jw_stdout r) (jw_stderr r) (jw_error r)
    (v ← jw_config_json r; match from_value v with Ok c => Some c | _ => None end).

(** [INSERT INTO jails .. RETURNING id]; the sequence keeps counting when the
    foreign key [parent_id] makes the statement fail. *)
Definition insert_jail (tenant kind label : string) (session : option string) (parent : option Z) : stmt Z := λ now d,
  let id := db_jails_seq d in
  let row := MkJailRow tenant kind now None "running" session label parent None None None None None None None None
               None None None None None None in
  if refers_id parent (<[id := row]> (db_jails d))
  then (Ok id, with_jails (<[id := row]>) (id + 1) d)
  else (Err ForeignKeyViolation, with_jails (λ m, m) (id + 1) d).
(** [UPDATE jails SET .. WHERE id = $1 [AND status = 'running']] *)
Definition update_jail (id : Z) (running_only : bool) (f : Z → JailRow → JailRow) : stmt unit := λ now d,
  (Ok tt, with_jails (alter (λ r, if running_only && negb (String.eqb (jw_status r) "running") then r else f now r) id)
            (db_jails_seq d) d).

Definition row_completed (code dur : Z) (timed oom : bool) (st : option ResourceStats) (so se : string)
    (now : Z) (r : JailRow) : JailRow :=
  let col f := (λ s, as_i64 (f s)) <$> st in
  MkJailRow (jw_tenant_id r) (jw_kind r) (jw_started_at r) (Some now) "completed" (jw_session_id r) (jw_label r)
    (jw_parent_id r) (Some code) (Some dur) (Some timed) (Some oom)
    (col memory_peak_bytes) (col memory_current_bytes) (col cpu_usage_usec) (col io_read_bytes) (col io_write_bytes)
    (col pids_current) (Some so) (Some se) (jw_error r) (jw_config_json r).
Definition row_sampled (s : ResourceStats) (_ : Z) (r : JailRow) : JailRow :=
  let col f := Some (as_i64 (f s)) in
  MkJailRow (jw_tenant_id r) (jw_kind r) (jw_started_at r) (jw_ended_at r) (jw_status r) (jw_session_id r) (jw_label r)
    (jw_parent_id r) (jw_exit_code r) (jw_duration_ms r) (jw_timed_out r) (jw_oom_killed r)
    (col memory_peak_bytes) (col memory_current_bytes) (col cpu_usage_usec) (col io_read_bytes) (col io_write_bytes)
    (col pids_current) (jw_stdout r) (jw_stderr r) (jw_error r) (jw_config_json r).
Definition row_errored (msg : string) (now : Z) (r : JailRow) : JailRow :=
  MkJailRow (jw_tenant_id r) (jw_kind r) (jw_started_at r) (Some now) "error" (jw_session_id r) (jw_label r)
    (jw_parent_id r) (jw_exit_code r) (jw_duration_ms r) (jw_timed_out r) (jw_oom_killed r)
    (jw_memory_peak_bytes r) (jw_memory_current_bytes r) (jw_cpu_usage_usec r) (jw_io_read_bytes r)
    (jw_io_write_bytes r) (jw_pids_current r) (jw_stdout r) (jw_stderr r) (Some msg) (jw_config_json r).
Definition row_configured (v : json) (_ : Z) (r : JailRow) : JailRow :=
  MkJailRow (jw_tenant_id r) (jw_kind r) (jw_started_at r) (jw_ended_at r) (jw_status r) (jw_session_id r) (jw_label r)
    (jw_parent_id r) (jw_exit_code r) (jw_duration_ms r) (jw_timed_out r) (jw_oom_killed r)
    (jw_memory_peak_bytes r) (jw_memory_current_bytes r) (jw_cpu_usage_usec r) (jw_io_read_bytes r)
    (jw_io_write_bytes r) (jw_pids_current r) (jw_stdout r) (jw_stderr r) (jw_error r) (Some v).
Definition row_tailed (so se : string) (_ : Z) (r : JailRow) : JailRow :=
  MkJailRow (jw_tenant_id r) (jw_kind r) (jw_started_at r) (jw_ended_at r) (jw_status r) (jw_session_id r) (jw_label r)
    (jw_parent_id r) (jw_exit_code r) (jw_duration_ms r) (jw_timed_out r) (jw_oom_killed r)
    (jw_memory_peak_bytes r) (jw_memory_current_bytes r) (jw_cpu_usage_usec r) (jw_io_read_bytes r)
    (jw_io_write_bytes r) (jw_pids_current r) (Some so) (Some se) (jw_error r) (jw_config_json r).

Definition pg_jail_start (tenant : string) (kind : JailKind) (label : string) (session : option string)
    (parent : option Z) (p : Pool) : Z * Pool :=
  let (r, p) := run_stmt ([tenant; kind_as_str kind; label] ++ opt_text session) []
                  (insert_jail tenant (kind_as_str kind) label session parent) p in
  (match r with Ok id => id | _ => I64_MIN end, p).
Definition pg_jail_finish (id : Z) (o : Output) (p : Pool) : Pool * bool :=
  let duration_ms := Z.min (out_duration o / 10 ^ 6) I64_MAX in
  match truncate (from_utf8_lossy (out_stdout o)) OUTPUT_CAP with
  | None => (p, true)
  | Some so =>
  match truncate (from_utf8_lossy (out_stderr o)) OUTPUT_CAP with
  | None => (p, true)
  | Some se =>
      ((run_stmt [so; se] [] (update_jail id false
          (row_completed (out_exit_code o) duration_ms (out_timed_out o) (out_oom_killed o) (out_stats o) so se)) p).2, false)
  end end.
Definition pg_jail_sample_stats (id : Z) (s : ResourceStats) (p : Pool) : Pool :=
  (run_stmt [] [] (update_jail id true (row_sampled s)) p).2.
Definition pg_jail_error (id : Z) (msg : string) (p : Pool) : Pool :=
  (run_stmt [msg] [] (update_jail id false (row_errored msg)) p).2.
Definition pg_jail_attach_config (id : Z) (c : JailConfigSnapshot) (p : Pool) : Pool :=
  match to_value c with
  | Ok v => (run_stmt [] [v] (update_jail id false (row_configured v)) p).2
  | _ => p
  end.
Definition pg_jail_tail (id : Z) (stdout stderr : string) (p : Pool) : Pool * bool :=
  match truncate stdout OUTPUT_CAP with
  | None => (p, true)
  | Some so =>
  match truncate stderr OUTPUT_CAP with
  | None => (p, true)
  | Some se => ((run_stmt [so; se] [] (update_jail id true (row_tailed so se)) p).2, false)
  end end.
Definition pg_jail_get (id : Z) (p : Pool) : option JailRecord * Pool :=
  let (o, p) := run_stmt [] [] (select (λ _ d, db_jails d !! id)) p in
  (row_to_jail id <$> ok_flat o, p).

(** [ORDER BY id DESC] *)
Definition jail_row_newest (a b : Z * JailRow) : bool := (b.1 <=? a.1)%Z.
Definition jails_newest (where_ : JailRow → bool) (d : Db) : list (Z * JailRow) :=
  sort_by jail_row_newest (filter (λ kr, where_ kr.2 = true) (hash_iter (db_jails d))).
Definition count_jails (where_ : JailRow → bool) (d : Db) : Z := Z.of_nat (length (jails_newest where_ d)).
Definition jail_rows (l : list (Z * JailRow)) : list JailRecord := (λ kr, row_to_jail kr.1 kr.2) <$> l.

Definition pg_jail_recent (limit : nat) (status : option JailStatus) (p : Pool) : (list JailRecord * Z) * Pool :=
  let limit := Z.of_nat (Nat.min limit (Z.to_nat 1000)) in
  let where_ r := match status with Some s => String.eqb (jw_status r) (status_as_str s) | None => true end in
  let (rows, p) := run_stmt (opt_text (status_as_str <$> status)) [] (select_page limit 0 (λ _, jails_newest where_)) p in
  let (total, p) := run_stmt [] [] (select (λ _, count_jails (λ _, true))) p in
  ((jail_rows (ok_list rows), as_u64 (ok_count total)), p).

Definition jail_where `{PgLower} (q : JailQuery) (r : JailRow) : bool :=
  match jq_tenant q with Some t => String.eqb (jw_tenant_id r) t | None => true end
  && match jq_status q with Some s => String.eqb (jw_status r) (status_as_str s) | None => true end
  && match jq_kind q with Some k => String.eqb (jw_kind r) (kind_as_str k) | None => true end
  && match jq_q q with
     | Some n =>
         if str_is_empty (trim n) then true else
         let pat := wrap_percent (escape_char PERCENT n) in
         ilike pat (jw_label r) || ilike_opt pat (jw_session_id r) || ilike_opt pat (jw_error r)
     | None => true
     end.
(** The bound parameters. *)
Definition jail_args (q : JailQuery) : list string :=
  opt_text (jq_tenant q) ++ opt_text (status_as_str <$> jq_status q) ++ opt_text (kind_as_str <$> jq_kind q)
  ++ match jq_q q with
     | Some n => if str_is_empty (trim n) then [] else [wrap_percent (escape_char PERCENT n)]
     | None => []
     end.
Definition pg_jail_page `{PgLower} (q : JailQuery) (p : Pool) : (list JailRecord * Z) * Pool :=
  let limit := Z.of_nat (clamp 1 500 (jq_limit q)) in
  let offset := as_i64 (Z.of_nat (jq_offset q)) in
  let (rows, p) := run_stmt (jail_args q) [] (select_page limit offset (λ _, jails_newest (jail_where q))) p in
  let (total, p) := run_stmt (jail_args q) [] (select (λ _, count_jails (jail_where q))) p in
  ((jail_rows (ok_list rows), as_u64 (ok_count total)), p).
End jails.

(** ** [audit_pg.rs] *)
Section audit.
Context `{TimeCrates} `{HashIter}.

Definition row_to_audit (id : Z) (r : AuditDbRow) : AuditRow :=
  MkRow (as_u64 id) (ad_at r) (ad_session_id r) (ad_service r) (ad_method r) (ad_path r) (as_u16 (ad_status r))
    (ad_reject_reason r) (as_u64 <$> ad_upstream_ms r).
Definition insert_audit (r : AuditDbRow) : stmt unit := λ _ d,
  (Ok tt, with_audit (<[db_audit_seq d := r]>) (db_audit_seq d + 1) d).
Definition audit_row_newest (a b : Z * AuditDbRow) : bool := (b.1 <=? a.1)%Z.

Definition pg_audit_push (row : AuditRow) (p : Pool) : Pool :=
  (run_stmt ([ar_session_id row; ar_service row; ar_method row; ar_path row] ++ opt_text (ar_reject_reason row)) []
     (insert_audit (MkAuditRow (to_micros (ar_at row)) (ar_session_id row) (ar_service row) (ar_method row) (ar_path row)
        (ar_status row) (ar_reject_reason row) (as_i64 <$> ar_upstream_ms row))) p).2.
Definition pg_audit_recent (limit : nat) (p : Pool) : list AuditRow * Pool :=
  let limit := Z.of_nat (Nat.min limit (Z.to_nat 1000)) in
  let (rows, p) := run_stmt [] [] (select_page limit 0 (λ _ d, sort_by audit_row_newest (hash_iter (db_audit_log d)))) p in
  ((λ kr, row_to_audit kr.1 kr.2) <$> ok_list rows, p).
Definition pg_audit_total (p : Pool) : Z * Pool :=
  let (total, p) := run_stmt [] [] (select (λ _ d, Z.of_nat (size (db_audit_log d)))) p in
  (as_u64 (ok_count total), p).
End audit.

(** ** The ledger as the table keeps it

    A map from ids to records, updated with the record functions of [Jails] but for
    two differences to the in-memory store: a sample or a tail counts only while the
    row is running, and an [Output] without usage clears what was sampled. *)
Definition is_running (r : JailRecord) : bool := bool_decide (jr_status r = Running).
Definition while_running (f : JailRecord → JailRecord) (r : JailRecord) : JailRecord := if is_running r then f r else r.
Definition clear_stats (r : JailRecord) : JailRecord :=
  MkJail (jr_id r) (jr_tenant_id r) (jr_kind r) (jr_started_at r) (jr_ended_at r) (jr_status r)
    (jr_session_id r) (jr_label r) (jr_parent_id r) (jr_exit_code r) (jr_duration_ms r)
    (jr_timed_out r) (jr_oom_killed r) None None None None None None
    (jr_stdout r) (jr_stderr r) (jr_error r) (jr_config r).
Definition book_finish (now : Z) (o : Output) (r : JailRecord) : JailRecord := (finish_record now o (clear_stats r)).1.
Definition book_step (now next : Z) (op : JailOp) (m : gmap Z JailRecord) : gmap Z JailRecord :=
  match op with
  | JStart _ t k l se pa =>
      let r := new_running now next t k l se pa in if refers_id pa (<[next := r]> m) then <[next := r]> m else m
  | JFinish _ id o => alter (book_finish now o) id m
  | JSample id s => alter (while_running (set_stats s)) id m
  | JAttach id c => alter (set_config c) id m
  | JError _ id msg => alter (set_error now msg) id m
  | JTail id so se => alter (while_running (λ r, (store_output so se r).1)) id m
  end.
Definition is_start (op : JailOp) : bool := match op with JStart _ _ _ _ _ _ => true | _ => false end.
Fixpoint book_run (clk : nat → Z) (n : nat) (next : Z) (ops : list JailOp) (m : gmap Z JailRecord) : gmap Z JailRecord :=
  match ops with
  | [] => m
  | op :: ops' => book_run clk (S n) (if is_start op then next + 1 else next)%Z ops' (book_step (clk n) next op m)
  end.

Section ledger.
Context `{Serde JailConfigSnapshot}.

Definition pg_jail_step (p : Pool) (op : JailOp) : Pool :=
  match op with
  | JStart _ t k l se pa => (pg_jail_start t k l se pa p).2
  | JFinish _ id o => (pg_jail_finish id o p).1
  | JSample id s => pg_jail_sample_stats id s p
  | JAttach id c => pg_jail_attach_config id c p
  | JError _ id msg => pg_jail_error id msg p
  | JTail id so se => (pg_jail_tail id so se p).1
  end.

(** Values that fit the columns. *)
Definition fits_u64 (x : Z) : Prop := (0 ≤ x < 2 ^ 64)%Z.
Definition stats_fit (s : ResourceStats) : Prop :=
  fits_u64 (memory_peak_bytes s) ∧ fits_u64 (memory_current_bytes s) ∧ fits_u64 (cpu_usage_usec s) ∧
  fits_u64 (io_read_bytes s) ∧ fits_u64 (io_write_bytes s) ∧ fits_u64 (pids_current s).
Definition text_fits (s : string) : Prop := ∃ t, truncate s OUTPUT_CAP = Some t ∧ text_ok t = true.
Definition op_fits (op : JailOp) : Prop :=
  match op with
  | JStart _ t k l se pa => forallb text_ok ([t; l] ++ opt_text se) = true
  | JFinish _ id o =>
      (∀ s, out_stats o = Some s → stats_fit s) ∧ (0 ≤ out_duration o / 10 ^ 6 ≤ I64_MAX)%Z ∧
      text_fits (from_utf8_lossy (out_stdout o)) ∧ text_fits (from_utf8_lossy (out_stderr o))
  | JSample id s => stats_fit s
  | JAttach id c => ∃ v, to_value c = Ok v ∧ json_ok v = true
  | JError _ id msg => text_ok msg = true
  | JTail id so se => text_fits so ∧ text_fits se
  end.

Definition book_view (d : Db) : gmap Z JailRecord := map_imap (λ id r, Some (row_to_jail id r)) (db_jails d).

Lemma lookup_book_view d id : book_view d !! id = row_to_jail id <$> db_jails d !! id.
Proof. unfold book_view. rewrite map_lookup_imap. by destruct (db_jails d !! id). Qed.
Lemma u64_i64 x : fits_u64 x → as_u64 (as_i64 x) = x.
Proof.
  unfold fits_u64, as_u64, as_i64, u64, i64_wrap. intros Hx.
  rewrite Zminus_mod_idemp_l. replace (x + 2 ^ 63 - 2 ^ 63)%Z with x by lia. by apply Z.mod_small.
Qed.
Lemma kind_roundtrip k : kind_from_str_or_run (kind_as_str k) = k.
Proof. by destruct k. Qed.
Lemma kind_text k : text_ok (kind_as_str k) = true.
Proof. by destruct k. Qed.
Lemma running_iff r id : is_running (row_to_jail id r) = String.eqb (jw_status r) "running".
Proof.
  unfold is_running. simpl. unfold status_from_str_or_error. destruct (String.eqb_spec (jw_status r) "running"); [done|].
  by destruct (String.eqb (jw_status r) "completed").
Qed.
Lemma refers_book pa id row d :
  refers_id pa (<[id := row]> (db_jails d)) = refers_id pa (<[id := row_to_jail id row]> (book_view d)).
Proof.
  destruct pa as [k|]; [|done]. simpl. apply bool_decide_ext. rewrite !lookup_insert_is_Some, lookup_book_view, fmap_is_Some. done.
Qed.

(** An [UPDATE] is an update of the map when it commutes with decoding. *)
Lemma book_update id only f g d now :
  (∀ r, row_to_jail id (f now r) = g (row_to_jail id r)) →
  book_view (update_jail id only f now d).2 = alter (if only then while_running g else g) id (book_view d).
Proof.
  intros Hc. apply map_eq. intros k. rewrite lookup_alter, !lookup_book_view. simpl. rewrite lookup_alter. case_decide as Hk; [subst k|done].
  destruct (db_jails d !! id) as [r|]; simpl; [|done]. f_equal. destruct only; simpl; [|done].
  unfold while_running. rewrite running_iff. by destruct (String.eqb (jw_status r) "running"); simpl.
Qed.
Lemma stats_cols (s : ResourceStats) : stats_fit s →
  as_u64 (as_i64 (memory_peak_bytes s)) = memory_peak_bytes s ∧ as_u64 (as_i64 (memory_current_bytes s)) = memory_current_bytes s ∧
  as_u64 (as_i64 (cpu_usage_usec s)) = cpu_usage_usec s ∧ as_u64 (as_i64 (io_read_bytes s)) = io_read_bytes s ∧
  as_u64 (as_i64 (io_write_bytes s)) = io_write_bytes s ∧ as_u64 (as_i64 (pids_current s)) = pids_current s.
Proof. intros (?&?&?&?&?&?). by rewrite !u64_i64. Qed.
Lemma dur_col d : (0 ≤ d ≤ I64_MAX)%Z → as_u64 (Z.min d I64_MAX) = u64_sat d.
Proof.
  unfold I64_MAX, as_u64, u64, u64_sat, U64_MAX. intros Hd. rewrite !Z.min_l, Z.mod_small; [done|lia|lia|lia].
Qed.
Lemma completed_row id now o so se r :
  (∀ s, out_stats o = Some s → stats_fit s) → (0 ≤ out_duration o / 10 ^ 6 ≤ I64_MAX)%Z →
  truncate (from_utf8_lossy (out_stdout o)) OUTPUT_CAP = Some so → truncate (from_utf8_lossy (out_stderr o)) OUTPUT_CAP = Some se →
  row_to_jail id (row_completed (out_exit_code o) (Z.min (out_duration o / 10 ^ 6) I64_MAX) (out_timed_out o)
                    (out_oom_killed o) (out_stats o) so se now r)
  = book_finish now o (row_to_jail id r).
Proof.
  intros Hf Hd Hso Hse. unfold book_finish, finish_record, store_output. rewrite Hso, Hse. pose proof (dur_col _ Hd) as H7.
  destruct (out_stats o) as [s|]; unfold row_to_jail, row_completed; cbn -[Z.div Z.min Z.pow as_u64 as_i64 u64_sat]; [|by rewrite H7].
  destruct (stats_cols s (Hf s eq_refl)) as (H1 & H2 & H3 & H4 & H5 & H6). rewrite H1, H2, H3, H4, H5, H6, H7. reflexivity.
Qed.

Lemma book_step_ok p op :
  pl_fault p (pl_n p) = Fine → op_fits op →
  book_view (pl_db (pg_jail_step p op)) = book_step (pl_now p (pl_n p)) (db_jails_seq (pl_db p)) op (book_view (pl_db p)) ∧
  db_jails_seq (pl_db (pg_jail_step p op)) = (if is_start op then db_jails_seq (pl_db p) + 1 else db_jails_seq (pl_db p))%Z ∧
  pl_n (pg_jail_step p op) = S (pl_n p) ∧ pl_fault (pg_jail_step p op) = pl_fault p ∧ pl_now (pg_jail_step p op) = pl_now p.
Proof.
  intros Hf. destruct op as [nw t k l se pa|nw id o|id s|id c|nw id msg|id so se]; cbn [pg_jail_step op_fits book_step is_start].
  - simpl. intros Hok. unfold pg_jail_start. rewrite run_stmt_fine; [|done| |done].
    2: { simpl. rewrite kind_text. by rewrite (andb_comm (text_ok l)), <- ?andb_assoc in *. }
    cbn [snd pl_db pl_n pl_fault pl_now fst]. unfold insert_jail. rewrite refers_book.
    match goal with |- context [row_to_jail ?i ?row] => change (row_to_jail i row) with (new_running (pl_now p (pl_n p)) i t (kind_from_str_or_run (kind_as_str k)) l se pa) end.
    rewrite kind_roundtrip. case_match; split_and!; try done. apply map_eq. intros j. rewrite lookup_insert, !lookup_book_view. simpl.
    rewrite lookup_insert. case_decide; [subst j|done]. simpl. unfold row_to_jail. simpl. by rewrite kind_roundtrip.
  - intros (Hst & Hd & (so & Hso & Hto) & (se & Hse & Hte)). unfold pg_jail_finish. rewrite Hso, Hse.
    rewrite run_stmt_fine; [|done|by simpl; rewrite Hto, Hte|done]. split_and!; try done.
    apply (book_update id false). intros r. by eapply completed_row.
  - intros Hst. unfold pg_jail_sample_stats. rewrite run_stmt_fine by done. split_and!; try done.
    apply (book_update id true). intros r. unfold row_to_jail, row_sampled. simpl.
    destruct (stats_cols s Hst) as (H1 & H2 & H3 & H4 & H5 & H6). by rewrite H1, H2, H3, H4, H5, H6.
  - intros (v & Hv & Hj). unfold pg_jail_attach_config. rewrite Hv. rewrite run_stmt_fine; [|done|done|by simpl; rewrite Hj].
    split_and!; try done. apply (book_update id false). intros r. unfold row_to_jail, row_configured. simpl. by rewrite (serde_roundtrip _ _ Hv).
  - intros Ht. unfold pg_jail_error. rewrite run_stmt_fine; [|done|by simpl; rewrite Ht|done]. split_and!; try done.
    by apply (book_update id false).
  - intros ((so' & Hso & Hto) & (se' & Hse & Hte)). unfold pg_jail_tail. rewrite Hso, Hse.
    rewrite run_stmt_fine; [|done|by simpl; rewrite Hto, Hte|done]. split_and!; try done.
    apply (book_update id true). intros r. unfold store_output. by rewrite Hso, Hse.
Qed.
End ledger.

Lemma pg_start_id `{Serde JailConfigSnapshot} t k l se pa p :
  pl_fault p (pl_n p) = Fine → op_fits (JStart 0 t k l se pa) →
  (pg_jail_start t k l se pa p).1 = if refers_id pa (<[db_jails_seq (pl_db p) := tt]> (const tt <$> book_view (pl_db p))) then db_jails_seq (pl_db p) else I64_MIN.
Proof.
  intros Hf Hok. simpl in Hok. unfold pg_jail_start. rewrite run_stmt_fine; [|done| |done].
  2: { simpl. rewrite kind_text. by rewrite (andb_comm (text_ok l)), <- ?andb_assoc in *. }
  cbn [fst snd]. unfold insert_jail.
  match goal with |- context [refers_id pa (<[_ := ?row]> (db_jails _))] => set (x := row) end.
  assert (refers_id pa (<[db_jails_seq (pl_db p) := x]> (db_jails (pl_db p))) =
          refers_id pa (<[db_jails_seq (pl_db p) := tt]> (const tt <$> book_view (pl_db p)))) as ->; [|by destruct (refers_id pa (<[_ := tt]> _))].
  destruct pa as [i|]; [|done]. simpl. apply bool_decide_ext. by rewrite !lookup_insert_is_Some, lookup_fmap, lookup_book_view, !fmap_is_Some.
Qed.
Lemma pg_get_book `{Serde JailConfigSnapshot} id p : pl_fault p (pl_n p) = Fine → (pg_jail_get id p).1 = book_view (pl_db p) !! id.
Proof. intros Hf. unfold pg_jail_get. rewrite run_stmt_fine by done. simpl. by rewrite lookup_book_view. Qed.
Lemma pg_ledger_runs `{Serde JailConfigSnapshot} p ops : (∀ n, pl_fault p n = Fine) → Forall op_fits ops →
  let p' := foldl pg_jail_step p ops in
  book_view (pl_db p') = book_run (pl_now p) (pl_n p) (db_jails_seq (pl_db p)) ops (book_view (pl_db p)) ∧
  db_jails_seq (pl_db p') = (db_jails_seq (pl_db p) + Z.of_nat (length (filter (λ op, is_start op = true) ops)))%Z ∧ pl_fault p' = pl_fault p.
Proof.
  intros Hf Hops. revert p Hf. induction Hops as [|op ops Hop Hops IH]; intros p Hf; [simpl; split_and!; [done|lia|done]|]. cbn [foldl book_run].
  destruct (book_step_ok p op (Hf _) Hop) as (Hv & Hq & Hn & Hfl & Hnow).
  destruct (IH (pg_jail_step p op)) as (Hv' & Hq' & Hf'); [intros n; by rewrite Hfl|]. cbn zeta.
  rewrite Hv', Hv, Hq, Hn, Hnow, Hq', Hf', filter_cons. split_and!; [done| |done]. rewrite Hq. case_decide as Hd; rewrite ?Hd; [simpl; lia|].
  by destruct (is_start op).
Qed.

(** C29: What the Postgres ledger keeps.  When every statement goes through and every
    value fits its column (texts without the character zero, outputs that can be cut at
    the cap, numbers of 64 bits), any sequence of ledger calls leaves the table, decoded, in exactly
    the state of a map updated with the record functions of the in-memory store:
    [start] files a new running record under the next number of the sequence and
    returns it (or files nothing and returns [i64::MIN], when its parent does not
    exist), [finish], [error] and [attach_config] update the record of that id, and
    [sample_stats] and [tail] update it while it is running.  An output without usage
    figures, as jails without a cgroup have, erases the figures sampled before, where
    the in-memory store keeps them.  Reading a record gives the one in the map. *)
Theorem pg_ledger_refines `{Serde JailConfigSnapshot} (p : Pool) (ops : list JailOp) :
  (∀ n, pl_fault p n = Fine) → Forall op_fits ops →
  let p' := foldl pg_jail_step p ops in
  let book := book_run (pl_now p) (pl_n p) (db_jails_seq (pl_db p)) ops (book_view (pl_db p)) in
  let next := (db_jails_seq (pl_db p) + Z.of_nat (length (filter (λ op, is_start op = true) ops)))%Z in
  book_view (pl_db p') = book ∧ (∀ id, (pg_jail_get id p').1 = book !! id) ∧
  ∀ t k l se pa, op_fits (JStart 0 t k l se pa) →
    (pg_jail_start t k l se pa p').1 = match pa with Some i => if decide (i = next ∨ i ∈ dom book) then next else I64_MIN | None => next end.
Proof.
  intros Hf Hops p' book next. destruct (pg_ledger_runs p ops Hf Hops) as (Hv & Hq & Hfl). fold p' in Hv, Hq, Hfl. fold book in Hv. fold next in Hq.
  split; [done|]. split; [intros id; by rewrite pg_get_book, Hv by (by rewrite Hfl)|].
  intros t k l se pa Hok. rewrite pg_start_id, Hv, Hq by (by rewrite ?Hfl). unfold refers_id. destruct pa as [i|]; [|done].
  case_bool_decide as Hi; case_decide as Hd; try done; exfalso.
  - apply Hd. rewrite lookup_insert_is_Some', lookup_fmap, fmap_is_Some in Hi. rewrite elem_of_dom. naive_solver.
  - apply Hi. rewrite lookup_insert_is_Some', lookup_fmap, fmap_is_Some. destruct Hd as [->|Hx%elem_of_dom]; auto.
Qed.
(** The two stores differ on an output without usage figures: the in-memory [finish]
    keeps what was sampled, the [UPDATE] writes [NULL] over it. *)
Theorem finish_without_usage_differs `{Serde JailConfigSnapshot} (p : Pool) (id t0 : Z) (o : Output) (r : JailRow) (bytes : Z) :
  pl_fault p (pl_n p) = Fine → op_fits (JFinish t0 id o) → out_stats o = None →
  db_jails (pl_db p) !! id = Some r → jw_memory_peak_bytes r = Some bytes →
  (∃ rec, book_view (pl_db (pg_jail_finish id o p).1) !! id = Some rec ∧ jr_memory_peak_bytes rec = None) ∧
  jr_memory_peak_bytes (finish_record (pl_now p (pl_n p)) o (row_to_jail id r)).1 = Some (as_u64 bytes).
Proof.
  intros Hf Hok Hs Hr Hb. destruct (book_step_ok p (JFinish t0 id o) Hf Hok) as (Hv & _). cbn [pg_jail_step book_step] in Hv.
  rewrite Hv, lookup_alter_eq, lookup_book_view, Hr. destruct Hok as (_ & _ & (so & Hso & _) & (se & Hse & _)).
  unfold book_finish, finish_record, store_output. rewrite Hs, Hso, Hse. cbn. rewrite Hb. split; [by eexists|done].
Qed.

(** A jail that prints a zero byte never finishes.  If the text to be stored
    of either stream contains the character zero, which [text] columns refuse and
    lossy decoding keeps, the [UPDATE] of [finish] fails and the code ignores it:
    whatever else happens, the table is unchanged and the code goes on as after
    a success, so a jail that has ended is still listed as running. *)
Theorem nul_output_stays_running `{Serde JailConfigSnapshot} (id : Z) (o : Output) (p : Pool) (so se : string) (r : JailRow) :
  truncate (from_utf8_lossy (out_stdout o)) OUTPUT_CAP = Some so →
  truncate (from_utf8_lossy (out_stderr o)) OUTPUT_CAP = Some se →
  text_ok so && text_ok se = false → db_jails (pl_db p) !! id = Some r → jw_status r = "running" →
  let p' := (pg_jail_finish id o p).1 in
  (pg_jail_finish id o p).2 = false ∧ pl_db p' = pl_db p ∧
  (pl_fault p' (pl_n p') = Fine →
   ∃ rec, (pg_jail_get id p').1 = Some rec ∧ jr_status rec = Running ∧ jr_ended_at rec = jw_ended_at r).
Proof.
  intros Hso Hse Hbad Hr Hst p'. unfold p', pg_jail_finish. rewrite Hso, Hse. cbn [fst snd]. split; [done|].
  set (q := (run_stmt _ _ _ p).2). assert (pl_db q = pl_db p) as Hdb.
  { unfold q, run_stmt. cbn [forallb]. rewrite !andb_true_r, Hbad. by destruct (pl_fault p (pl_n p)). }
  split; [done|]. intros Hf. unfold pg_jail_get. rewrite run_stmt_fine by done. simpl. rewrite Hdb, Hr. simpl.
  eexists. split; [done|]. simpl. by rewrite Hst.
Qed.

(** ** Searching *)
Lemma jail_row_newest_total a b : jail_row_newest a b = true ∨ jail_row_newest b a = true.
Proof. unfold jail_row_newest. rewrite !Z.leb_le. lia. Qed.
Lemma jail_row_newest_trans a b c : jail_row_newest a b = true → jail_row_newest b c = true → jail_row_newest a c = true.
Proof. unfold jail_row_newest. rewrite !Z.leb_le. lia. Qed.

Definition plain_char_like (c : ascii) : bool := negb (Ascii.eqb c UNDERSCORE || Ascii.eqb c BACKSLASH).
(** A needle of plain ASCII characters, not blank. *)
Definition needle_plain (n : string) : Prop :=
  is_ascii n = true ∧ str_is_empty (trim n) = false ∧ str_forallb plain_char_like n = true.
Definition query_plain (q : JailQuery) : Prop := match jq_q q with Some n => needle_plain n | None => True end.
(** What the store writes: known status and kind texts; ASCII where one searches. *)
Definition row_searchable (r : JailRow) : Prop :=
  (∃ s, jw_status r = status_as_str s) ∧ (∃ k, jw_kind r = kind_as_str k) ∧ is_ascii (jw_label r) = true ∧
  is_ascii (default "" (jw_session_id r)) = true ∧ is_ascii (default "" (jw_error r)) = true.

Lemma status_eqb s s' : String.eqb (status_as_str s) (status_as_str s') = bool_decide (status_from_str_or_error (status_as_str s) = s').
Proof. by destruct s, s'. Qed.
Lemma kind_eqb k k' : String.eqb (kind_as_str k) (kind_as_str k') = matches_kind (kind_from_str_or_run (kind_as_str k)) k'.
Proof. by destruct k, k'. Qed.
Lemma needle_nonempty n : needle_plain n → str_contains (str_ascii_lower n) "" = false.
Proof. intros (_ & Hn & _). destruct n; [done|]. done. Qed.
Lemma ilike_plain `{PgLower} `{Lowercase} n s : needle_plain n → is_ascii s = true →
  ilike (wrap_percent (escape_char PERCENT n)) s = str_contains (to_lowercase n) (to_lowercase s).
Proof.
  intros (Ha & _ & Hp) Hs. rewrite escape_percent_only by done. rewrite ilike_substring by done.
  by rewrite !to_lowercase_ascii.
Qed.
Lemma ilike_opt_plain `{PgLower} `{Lowercase} n o : needle_plain n → is_ascii (default "" o) = true →
  ilike_opt (wrap_percent (escape_char PERCENT n)) o = str_contains (to_lowercase n) (to_lowercase (default "" o)).
Proof.
  intros Hn Ho. destruct o as [s|]; simpl in *; [by apply ilike_plain|].
  rewrite !to_lowercase_ascii by (by destruct Hn). by rewrite needle_nonempty.
Qed.
Lemma where_matches `{Serde JailConfigSnapshot} `{PgLower} `{Lowercase} q id r :
  query_plain q → row_searchable r → jail_where q r = jail_matches q (row_to_jail id r).
Proof.
  intros Hq ([s Hs] & [k Hk] & Hl & Hse & He). unfold jail_where, jail_matches, query_plain in *. simpl. rewrite Hs, Hk.
  f_equal; [f_equal; [f_equal|]|].
  - destruct (jq_status q) as [s'|]; [apply status_eqb|done].
  - destruct (jq_kind q) as [k'|]; [apply kind_eqb|done].
  - destruct (jq_q q) as [n|]; [|done]. simpl. destruct Hq as (Ha & Hb & Hp) eqn:Hq'. rewrite Hb.
    by rewrite ilike_plain, !ilike_opt_plain.
Qed.
Lemma jails_newest_filter `{HashIter} w d : jails_newest w d = filter (λ kr, w kr.2 = true) (jails_newest (λ _, true) d).
Proof.
  unfold jails_newest. rewrite filter_sort_by by (apply jail_row_newest_total || apply jail_row_newest_trans).
  f_equal. rewrite list_filter_filter. apply list_filter_iff. naive_solver.
Qed.

(** The rows of the table, newest first, as records. *)
Definition all_rows `{Serde JailConfigSnapshot} `{HashIter} (d : Db) : list JailRecord := jail_rows (jails_newest (λ _, true) d).

Lemma jails_where_rows `{Serde JailConfigSnapshot} `{HashIter} `{PgLower} `{Lowercase} q d :
  query_plain q → map_Forall (λ _ r, row_searchable r) (db_jails d) →
  jail_rows (jails_newest (jail_where q) d) = filter (λ r, jail_matches q r = true) (all_rows d).
Proof.
  intros Hq Hd. unfold all_rows, jail_rows. rewrite jails_newest_filter.
  assert (Forall (λ kr, row_searchable kr.2) (jails_newest (λ _, true) d)) as Hf.
  { apply Forall_forall. intros [k r]. unfold jails_newest. rewrite elem_of_sort_by.
    intros [_ Hk%elem_of_hash_iter]%list_elem_of_filter. by apply Hd in Hk. }
  induction Hf as [|[k r] l Hr _ IH]; [done|]. rewrite filter_cons, fmap_cons, filter_cons. simpl in *.
  rewrite (where_matches q k r Hq Hr). case_decide; simpl; [by f_equal|done].
Qed.

(** Searching the Postgres ledger gives what the in-memory ledger would give.
    For a needle of ASCII characters without underscores and backslashes, and rows
    as the store writes them, [page] answers exactly as the in-memory store that
    holds the same records: the same page, newest first, and the same total. *)
Theorem pg_page_agrees `{Serde JailConfigSnapshot} `{HashIter} `{PgLower} `{Lowercase} (q : JailQuery) (p : Pool)
    (next : Z) (cap : nat) :
  (∀ n, pl_fault p n = Fine) → forallb text_ok (jail_args q) = true → query_plain q →
  map_Forall (λ _ r, row_searchable r) (db_jails (pl_db p)) →
  (Z.of_nat (jq_offset q) ≤ I64_MAX)%Z → (Z.of_nat (size (db_jails (pl_db p))) < 2 ^ 64)%Z →
  (pg_jail_page q p).1 = jail_page q (MkJS (reverse (all_rows (pl_db p))) next cap) ∧
  StronglySorted (λ a b, jr_id b ≤ jr_id a)%Z (all_rows (pl_db p)) ∧
  (∀ r, r ∈ all_rows (pl_db p) ↔ book_view (pl_db p) !! jr_id r = Some r).
Proof.
  intros Hf Ht Hq Hd Ho Hsz. split; [|split].
  - unfold pg_jail_page. rewrite (run_stmt_fine _ _ _ p) by done.
    cbn [pl_db pl_n pl_fault pl_now fst snd]. unfold select_page. cbn [fst snd].
    rewrite run_stmt_fine by (simpl; done). unfold as_i64. rewrite i64_wrap_id by (unfold I64_MIN; lia).
    destruct (Z.ltb_spec (Z.of_nat (clamp 1 500 (jq_limit q))) 0); [lia|].
    destruct (Z.ltb_spec (Z.of_nat (jq_offset q)) 0); [lia|].
    cbn [pl_db fst snd orb ok_list ok_count select]. unfold jail_page. cbn [js_rows]. rewrite reverse_involutive.
    rewrite <- jails_where_rows by done. rewrite !Nat2Z.id. unfold page, jail_rows, count_jails.
    rewrite fmap_take, fmap_drop, length_fmap. f_equal.
    unfold as_u64, u64. rewrite Z.mod_small; [done|]. split; [lia|].
    eapply Z.le_lt_trans; [|exact Hsz]. apply inj_le. unfold jails_newest. rewrite length_sort_by.
    etrans; [apply length_filter|]. by rewrite hash_iter_perm, length_map_to_list.
  - unfold all_rows, jail_rows. pose proof (sort_by_sorted jail_row_newest jail_row_newest_total jail_row_newest_trans
      (filter (λ kr, true = true) (hash_iter (db_jails (pl_db p))))) as Hs. unfold jails_newest.
    induction Hs as [|[k r] l Hs IH Hall]; simpl; [constructor|]. constructor; [exact IH|].
    apply Forall_fmap. eapply Forall_impl; [exact Hall|]. intros [k' r'] Hle%Is_true_true. apply Z.leb_le in Hle. exact Hle.
  - intros r. rewrite lookup_book_view. unfold all_rows, jail_rows. rewrite list_elem_of_fmap. unfold jails_newest.
    setoid_rewrite elem_of_sort_by. setoid_rewrite list_elem_of_filter. split.
    + intros ([k x] & -> & _ & Hk%elem_of_hash_iter). simpl in *. by rewrite Hk.
    + intros (x & Hx & Hr)%fmap_Some. exists (jr_id r, x). rewrite elem_of_hash_iter. done.
Qed.

(** An underscore is still a wild card.  [page] escapes the percent sign
    only: a search for an underscore finds a run whose label, session and error
    contain none, which the in-memory store does not. *)
Theorem underscore_is_wildcard `{Serde JailConfigSnapshot} `{PgLower} `{Lowercase} :
  let q := MkJQ None 50 0 None None (Some "_") in
  let r := MkJailRow "acme" "run" 0 None "running" None "build" None None None None None None None None None None None
             None None None None in
  jail_where q r = true ∧ jail_matches q (row_to_jail 1 r) = false.
Proof.
  cbn zeta. unfold jail_where, jail_matches. simpl. unfold ilike. rewrite !pg_lower_ascii by done.
  rewrite !to_lowercase_ascii by done. split; vm_compute; reflexivity.
Qed.

(** ** The audit log *)
Section audit_facts.
Context `{TimeCrates} `{HashIter}.

(** A row with the numbers its columns can hold. *)
Definition audit_fits (r : AuditRow) : Prop :=
  (0 ≤ ar_status r < 2 ^ 16)%Z ∧ match ar_upstream_ms r with Some m => fits_u64 m | None => True end ∧
  forallb text_ok ([ar_session_id r; ar_service r; ar_method r; ar_path r] ++ opt_text (ar_reject_reason r)) = true.
Definition stored_audit (id : Z) (r : AuditRow) : AuditRow :=
  MkRow id (to_micros (ar_at r)) (ar_session_id r) (ar_service r) (ar_method r) (ar_path r) (ar_status r)
    (ar_reject_reason r) (ar_upstream_ms r).
Definition audit_view (d : Db) : gmap Z AuditRow := map_imap (λ id r, Some (row_to_audit id r)) (db_audit_log d).
Lemma lookup_audit_view d id : audit_view d !! id = row_to_audit id <$> db_audit_log d !! id.
Proof. unfold audit_view. rewrite map_lookup_imap. by destruct (db_audit_log d !! id). Qed.
Lemma push_audit p r :
  pl_fault p (pl_n p) = Fine → audit_fits r → fits_u64 (db_audit_seq (pl_db p)) →
  let p' := pg_audit_push r p in
  audit_view (pl_db p') = <[db_audit_seq (pl_db p) := stored_audit (db_audit_seq (pl_db p)) r]> (audit_view (pl_db p)) ∧
  db_audit_seq (pl_db p') = (db_audit_seq (pl_db p) + 1)%Z ∧ pl_fault p' = pl_fault p ∧ pl_n p' = S (pl_n p).
Proof.
  intros Hf (Hst & Hms & Ht) Hseq. unfold pg_audit_push. rewrite run_stmt_fine by done. simpl. split; [|done].
  apply map_eq. intros k. rewrite lookup_insert, !lookup_audit_view. simpl. rewrite lookup_insert. case_decide; [subst k|done].
  simpl. f_equal. unfold row_to_audit, stored_audit. simpl. f_equal.
  - unfold as_u64, u64. by apply Z.mod_small.
  - unfold as_u16. by apply Z.mod_small.
  - destruct (ar_upstream_ms r) as [m|]; simpl; [|done]. by rewrite u64_i64.
Qed.
End audit_facts.

(** ** Witnesses *)
Definition jcs_enc (c : JailConfigSnapshot) : json :=
  JObject [("network_mode", JString (jc_network_mode c)); ("network_domains", strings_enc (jc_network_domains c));
           ("seccomp", JString (jc_seccomp c)); ("memory_mb", JNum (jc_memory_mb c)); ("timeout_secs", JNum (jc_timeout_secs c));
           ("cpu_percent", JNum (jc_cpu_percent c)); ("max_pids", JNum (jc_max_pids c));
           ("git_repo", json_opt JString (jc_git_repo c)); ("git_ref", json_opt JString (jc_git_ref c))].
Definition jcs_dec (v : json) : option JailConfigSnapshot :=
  mode ← json_get v "network_mode" json_str; domains ← json_get v "network_domains" (json_list json_str);
  sec ← json_get v "seccomp" json_str; mem ← json_get v "memory_mb" json_int; tmo ← json_get v "timeout_secs" json_int;
  cpu ← json_get v "cpu_percent" json_int; pids ← json_get v "max_pids" json_int;
  repo ← json_get v "git_repo" (opt_dec json_str); ref ← json_get v "git_ref" (opt_dec json_str);
  Some (MkJCS mode domains sec mem tmo cpu pids repo ref).
Lemma jcs_rt c : jcs_dec (jcs_enc c) = Some c.
Proof.
  destruct c as [m ds s a b c d r f]. unfold jcs_dec, jcs_enc. cbn -[json_list strings_enc]. rewrite strings_rt.
  by destruct r, f.
Qed.
#[export] Instance jcs_serde : Serde JailConfigSnapshot := serde_of jcs_enc jcs_dec jcs_rt.

Definition demo_stats : ResourceStats := MkStats 100 50 7 false 1 2 3.
Definition demo_out (so : string) : Output := MkOutput so "" 0 5000000 false false (Some demo_stats).
Definition demo_jail_ops : list JailOp :=
  [JStart 0 "acme" Run "build" None None; JTail 1 "half" ""; JFinish 0 1 (demo_out "done"); JTail 1 "late" ""].
Lemma short_fits s : truncate s OUTPUT_CAP = Some s → text_ok s = true → text_fits s.
Proof. by exists s. Qed.
Lemma demo_jail_ops_fit : Forall op_fits demo_jail_ops.
Proof.
  assert (stats_fit demo_stats) as Hs by (repeat split; vm_compute; discriminate || reflexivity).
  apply Forall_cons. split; [reflexivity|]. apply Forall_cons. split.
  { split; apply short_fits; vm_compute; reflexivity. }
  apply Forall_cons. split.
  { split; [by intros ? [= <-]|]. split; [split; vm_compute; discriminate|]. split; apply short_fits; vm_compute; reflexivity. }
  apply Forall_cons. split; [|by apply Forall_nil]. split; apply short_fits; vm_compute; reflexivity.
Qed.
Lemma pg_ledger_refines_witness :
  ∃ r, book_view (pl_db (foldl pg_jail_step (calm_pool db_empty) demo_jail_ops)) !! 1%Z = Some r ∧
    jr_status r = Completed ∧ jr_stdout r = Some "done" ∧ jr_memory_peak_bytes r = Some 100%Z.
Proof.
  destruct (pg_ledger_refines (calm_pool db_empty) demo_jail_ops) as [Hv _]; [reflexivity|exact demo_jail_ops_fit|]. rewrite Hv.
  eexists. split; [vm_compute; reflexivity|]. repeat split.
Defined.

Definition demo_nul : string := String "a" (String NUL "b").
Lemma nul_output_stays_running_witness :
  ∃ rec, (pg_jail_get 1 (pg_jail_finish 1 (demo_out demo_nul) (foldl pg_jail_step (calm_pool db_empty) (take 1 demo_jail_ops))).1).1
         = Some rec ∧ jr_status rec = Running ∧ jr_ended_at rec = None.
Proof.
  destruct (nul_output_stays_running 1 (demo_out demo_nul) (foldl pg_jail_step (calm_pool db_empty) (take 1 demo_jail_ops))
    demo_nul "" (MkJailRow "acme" "run" 0 None "running" None "build" None None None None None None None None None None
                   None None None None None)) as (_ & _ & Hg);
    [vm_compute; reflexivity..|]. apply Hg. vm_compute. reflexivity.
Defined.

Lemma pg_page_agrees_witness :
  (pg_jail_page (MkJQ (Some "acme") 50 0 (Some Running) None (Some "BUI"))
     (foldl pg_jail_step (calm_pool db_empty) (take 1 demo_jail_ops))).1.2 = 1%Z.
Proof.
  destruct (pg_page_agrees (MkJQ (Some "acme") 50 0 (Some Running) None (Some "BUI"))
     (foldl pg_jail_step (calm_pool db_empty) (take 1 demo_jail_ops)) 2 10) as [Hp _].
  - reflexivity.
  - vm_compute. reflexivity.
  - repeat split.
  - apply map_Forall_insert_2; [|apply map_Forall_empty].
    repeat split; [exists Running; reflexivity|exists Run; reflexivity].
  - vm_compute. discriminate.
  - vm_compute. reflexivity.
  - rewrite Hp. vm_compute. reflexivity.
Defined.
Definition no_usage : Output := MkOutput "" "" 0 0 false false None.
Definition sampled_pool : Pool := foldl pg_jail_step (calm_pool db_empty) (take 1 demo_jail_ops ++ [JSample 1 demo_stats]).
Lemma finish_without_usage_differs_witness :
  ∃ rec, book_view (pl_db (pg_jail_finish 1 no_usage sampled_pool).1) !! 1%Z = Some rec ∧ jr_memory_peak_bytes rec = None.
Proof.
  refine (proj1 (finish_without_usage_differs sampled_pool 1 0 no_usage
    (MkJailRow "acme" "run" 0 None "running" None "build" None None None None None (Some 100%Z) (Some 50%Z) (Some 7%Z) (Some 1%Z) (Some 2%Z) (Some 3%Z) None None None None)
    100 _ _ _ _ _)); [reflexivity| |reflexivity|vm_compute; reflexivity|reflexivity].
  split; [by intros ?|]. split; [split; vm_compute; discriminate|]. split; apply short_fits; vm_compute; reflexivity.
Defined.
