(* ===== verification/PgStores.v ===== *)
(** * Postgres: credentials, snapshots, workspaces

    Models [agentjail-ctl/src/db/credentials_pg.rs] (with [rehydrate_keystore]),
    [db/snapshots_pg.rs] and [db/workspaces_pg.rs]: every trait method with the SQL
    statement it sends.  [PgCredentialStore] is an instance of [CredentialStore], so
    the credential routes run on it unchanged.  The snapshot and workspace stores
    share the database and its foreign keys in both directions. *)

From S2P Require Import Prelude Text Keys Token Tenant Provider Ctl Jails Sessions Credentials Workspaces Snapshots Sql PgTokens PgLedger.
From S2P Require SnapshotStore Monitor WorkspaceOps.
Local Open Scope rust_scope.

(** ** [credentials_pg.rs] *)
Section credentials.
Context `{HashIter}.

Definition row_to_cred (key : string * string) (r : CredRow) : option CredentialRecord :=
  svc ← pg_parse_service key.2;
  Some (MkCred key.1 svc (cd_added_at r) (cd_updated_at r) (cd_fingerprint r)).

(** [INSERT .. ON CONFLICT (tenant_id, service) DO UPDATE] *)
Definition upsert_cred (key : string * string) (secret fp : string) : stmt unit := λ now d,
  let added := match db_credentials d !! key with Some r => cd_added_at r | None => now end in
  (Ok tt, with_credentials (<[key := MkCredRow secret fp added now]>) d).
Definition delete_cred (key : string * string) : stmt (option CredRow) := λ _ d,
  (Ok (db_credentials d !! key), with_credentials (delete key) d).
(** [ORDER BY tenant_id, service] *)
Definition cred_row_le (a b : (string * string) * CredRow) : bool :=
  match String.compare a.1.1 b.1.1 with Lt => true | Gt => false | Eq => String.leb a.1.2 b.1.2 end.
Definition select_creds (tenant : option string) : stmt (list ((string * string) * CredRow)) := select (λ _ d,
  sort_by cred_row_le (filter (λ kr, tenant_matches tenant kr.1.1 = true) (hash_iter (db_credentials d)))).

(** The metadata-only path stores nothing. *)
Definition pg_cred_upsert (_ : CredentialRecord) (p : Pool) : Pool := p.
Definition pg_cred_upsert_with_secret (rec : CredentialRecord) (secret : string) (p : Pool) : Pool :=
  (run_stmt [cr_tenant_id rec; service_name (cr_service rec); secret; cr_fingerprint rec] []
     (upsert_cred (cr_tenant_id rec, service_name (cr_service rec)) secret (cr_fingerprint rec)) p).2.
Definition pg_cred_remove (tenant : string) (svc : ServiceId) (p : Pool) : option CredentialRecord * Pool :=
  let key := (tenant, service_name svc) in
  let (o, p) := run_stmt [tenant; service_name svc] [] (delete_cred key) p in
  (ok_flat o ≫= row_to_cred key, p).
Definition pg_cred_list (tenant : option string) (p : Pool) : list CredentialRecord * Pool :=
  let (rows, p) := run_stmt (opt_text tenant) [] (select_creds tenant) p in
  (omap (λ kr, row_to_cred kr.1 kr.2) (ok_list rows), p).
Definition pg_cred_get (tenant : string) (svc : ServiceId) (p : Pool) : option CredentialRecord * Pool :=
  let key := (tenant, service_name svc) in
  let (o, p) := run_stmt [tenant; service_name svc] [] (select (λ _ d, db_credentials d !! key)) p in
  (ok_flat o ≫= row_to_cred key, p).

#[export] Instance PgCredentialStore : CredentialStore Pool := {|
  cst_upsert_with_secret := pg_cred_upsert_with_secret;
  cst_remove := pg_cred_remove;
  cst_list := pg_cred_list;
  cst_get := pg_cred_get |}.

(** [SELECT tenant_id, service, secret FROM credentials], in any order *)
Fixpoint rehydrate_loop (rows : list ((string * string) * CredRow)) (keys : InMemoryKeyStore) (loaded : nat)
    : InMemoryKeyStore * nat :=
  match rows with
  | [] => (keys, loaded)
  | ((tenant, svc_str), r) :: rest =>
      match pg_parse_service svc_str with
      | Some svc => rehydrate_loop rest (keys_set tenant svc (MkSecret (cd_secret r)) keys) (loaded + 1)
      | None => rehydrate_loop rest keys loaded
      end
  end.
Definition rehydrate_keystore (keys : InMemoryKeyStore) (p : Pool) : InMemoryKeyStore * outcome SqlErr nat * Pool :=
  let (rows, p) := run_stmt [] [] (select (λ _ d, hash_iter (db_credentials d))) p in
  match rows with
  | Ok rows => let (keys, n) := rehydrate_loop rows keys 0 in (keys, Ok n, p)
  | Err e => (keys, Err e, p)
  | Panic => (keys, Panic, p)
  end.
End credentials.

(** ** [snapshots_pg.rs] *)
Section snapshots.
Context `{TimeCrates} `{HashIter} `{PgLower} (show_sql : SqlErr → string).

Definition row_to_snap (id : string) (r : SnapRow) : SnapshotRecord :=
  MkSnap id (sr_tenant_id r) (sr_workspace_id r) (sr_name r) (sr_created_at r) (sr_path r) (as_u64 (sr_size_bytes r)).

(** Foreign key [snapshots.workspace_id] *)
Definition insert_snap (id : string) (r : SnapRow) : stmt unit := λ _ d,
  if bool_decide (is_Some (db_snapshots d !! id)) then (Err UniqueViolation, d)
  else if refers (sr_workspace_id r) (db_workspaces d) then (Ok tt, with_snapshots (<[id := r]>) d)
  else (Err ForeignKeyViolation, d).
(** [DELETE .. RETURNING]; [workspaces.auto_snapshot] is [ON DELETE SET NULL] *)
Definition delete_snap (id : string) : stmt (option SnapRow) := λ _ d,
  (Ok (db_snapshots d !! id), null_snapshots (with_snapshots (delete id) d)).

Definition pg_snap_insert (s : SnapshotRecord) (p : Pool) : Pool * outcome CtlError unit :=
  let row := MkSnapRow (sn_tenant_id s) (sn_workspace_id s) (sn_name s) (to_micros (sn_created_at s))
               (from_utf8_lossy (sn_path s)) (as_i64 (sn_size_bytes s)) in
  let (r, p) := run_stmt ([sn_id s; sn_tenant_id s] ++ opt_text (sn_workspace_id s) ++ opt_text (sn_name s)
                          ++ [from_utf8_lossy (sn_path s)]) [] (insert_snap (sn_id s) row) p in
  (p, match r with
      | Ok _ => Ok tt
      | Err UniqueViolation => Err (Conflict ("snapshot " +:+ sn_id s +:+ " already exists"))
      | Err e => Err (Internal ("snapshot insert: " +:+ show_sql e))
      | Panic => Panic
      end).
Definition pg_snap_get (id : string) (p : Pool) : option SnapshotRecord * Pool :=
  let (o, p) := run_stmt [id] [] (select (λ _ d, db_snapshots d !! id)) p in
  (row_to_snap id <$> ok_flat o, p).
Definition pg_needle (q : option string) : option string := s ← trim <$> q; if str_is_empty s then None else Some s.
Definition snap_where (tenant workspace_id needle : option string) (kr : string * SnapRow) : bool :=
  tenant_matches tenant (sr_tenant_id kr.2)
  && match workspace_id with Some w => opt_eqb (sr_workspace_id kr.2) (Some w) | None => true end
  && match needle with
     | Some n => let pat := wrap_percent (escape_like n) in
                 ilike pat kr.1 || ilike_opt pat (sr_name kr.2) || ilike_opt pat (sr_workspace_id kr.2)
     | None => true
     end.
Definition snap_row_newest (a b : string * SnapRow) : bool := (sr_created_at b.2 <=? sr_created_at a.2)%Z.
Definition snaps_newest (w : string * SnapRow → bool) (d : Db) : list (string * SnapRow) :=
  sort_by snap_row_newest (filter (λ kr, w kr = true) (hash_iter (db_snapshots d))).
Definition pg_snap_list (tenant workspace_id : option string) (limit offset : nat) (q : option string) (p : Pool)
    : (list SnapshotRecord * Z) * Pool :=
  let needle := pg_needle q in
  let w := snap_where tenant workspace_id needle in
  let args := opt_text tenant ++ opt_text workspace_id ++ opt_text ((λ n, wrap_percent (escape_like n)) <$> needle) in
  let (total, p) := run_stmt args [] (select (λ _ d, Z.of_nat (length (snaps_newest w d)))) p in
  let (rows, p) := run_stmt args [] (select_page (Z.of_nat (clamp 1 500 limit)) (as_i64 (Z.of_nat offset))
                     (λ _, snaps_newest w)) p in
  (((λ kr, row_to_snap kr.1 kr.2) <$> ok_list rows, as_u64 (ok_count total)), p).
Definition pg_snap_remove (id : string) (p : Pool) : option SnapshotRecord * Pool :=
  let (o, p) := run_stmt [id] [] (delete_snap id) p in
  (row_to_snap id <$> ok_flat o, p).
End snapshots.

(** ** [workspaces_pg.rs] *)
Section workspaces.
Context `{TimeCrates} `{Serde WorkspaceSpec} `{Serde (list WorkspaceDomain)} `{HashIter} `{PgLower} (show_sql : SqlErr → string).

Definition row_to_workspace (id : string) (r : WsRow) : outcome CtlError Workspace :=
  let? config := omap_err (λ e, Internal ("workspace.config decode: " +:+ e)) (from_value (wr_config r)) in
  let domains := match from_value (wr_domains r) with Ok ds => ds | _ => [] end in
  Ok (MkWs id (wr_tenant_id r) (wr_created_at r) (wr_deleted_at r) (wr_source_dir r) (wr_output_dir r) config
        (wr_git_repo r) (wr_git_ref r) (wr_label r) domains (wr_last_exec_at r) (wr_paused_at r) (wr_auto_snapshot r)).
Definition ws_of_row (id : string) (r : WsRow) : option Workspace :=
  match row_to_workspace id r with Ok w => Some w | _ => None end.

Definition insert_ws (id : string) (r : WsRow) : stmt unit := λ _ d,
  if bool_decide (is_Some (db_workspaces d !! id)) then (Err UniqueViolation, d)
  else (Ok tt, with_workspaces (<[id := r]>) d).
Definition row_live (r : WsRow) : bool := match wr_deleted_at r with None => true | Some _ => false end.
Definition live_row (id : string) (d : Db) : option WsRow :=
  r ← db_workspaces d !! id; if row_live r then Some r else None.
(** [UPDATE workspaces SET .. WHERE id = $1 AND deleted_at IS NULL RETURNING ..]; an
    [auto_snapshot] that is set must exist. *)
Definition update_ws (id : string) (f : Z → WsRow → WsRow) : stmt (option WsRow) := λ now d,
  match live_row id d with
  | None => (Ok None, d)
  | Some r =>
      if refers (wr_auto_snapshot (f now r)) (db_snapshots d)
      then (Ok (Some (f now r)), with_workspaces (<[id := f now r]>) d)
      else (Err ForeignKeyViolation, d)
  end.

Definition row_deleted (now : Z) (r : WsRow) : WsRow :=
  MkWsRow (wr_tenant_id r) (wr_created_at r) (Some now) (wr_source_dir r) (wr_output_dir r) (wr_config r) (wr_git_repo r)
    (wr_git_ref r) (wr_label r) (wr_domains r) (wr_last_exec_at r) (wr_paused_at r) (wr_auto_snapshot r).
Definition row_labelled (l : option string) (_ : Z) (r : WsRow) : WsRow :=
  MkWsRow (wr_tenant_id r) (wr_created_at r) (wr_deleted_at r) (wr_source_dir r) (wr_output_dir r) (wr_config r) (wr_git_repo r)
    (wr_git_ref r) l (wr_domains r) (wr_last_exec_at r) (wr_paused_at r) (wr_auto_snapshot r).
Definition row_touched (now : Z) (r : WsRow) : WsRow :=
  MkWsRow (wr_tenant_id r) (wr_created_at r) (wr_deleted_at r) (wr_source_dir r) (wr_output_dir r) (wr_config r) (wr_git_repo r)
    (wr_git_ref r) (wr_label r) (wr_domains r) (Some now) (wr_paused_at r) (wr_auto_snapshot r).
Definition row_pause (t : option Z) (snap : option string) (r : WsRow) : WsRow :=
  MkWsRow (wr_tenant_id r) (wr_created_at r) (wr_deleted_at r) (wr_source_dir r) (wr_output_dir r) (wr_config r) (wr_git_repo r)
    (wr_git_ref r) (wr_label r) (wr_domains r) (wr_last_exec_at r) t snap.

Definition pg_ws_insert (ws : Workspace) (p : Pool) : Pool * outcome CtlError unit :=
  match (let? c := omap_err (λ e, Internal ("workspace.config encode: " +:+ e)) (to_value (w_config ws)) in
         let? ds := omap_err (λ e, Internal ("workspace.domains encode: " +:+ e)) (to_value (w_domains ws)) in
         Ok (c, ds)) with
  | Err e => (p, Err e)
  | Panic => (p, Panic)
  | Ok (c, ds) =>
      let src := from_utf8_lossy (w_source_dir ws) in
      let out := from_utf8_lossy (w_output_dir ws) in
      let row := MkWsRow (w_tenant_id ws) (to_micros (w_created_at ws)) (to_micros <$> w_deleted_at ws) src out c
                   (w_git_repo ws) (w_git_ref ws) (w_label ws) ds None None None in
      let (r, p) := run_stmt ([w_id ws; w_tenant_id ws; src; out] ++ opt_text (w_git_repo ws) ++ opt_text (w_git_ref ws)
                              ++ opt_text (w_label ws)) [c; ds] (insert_ws (w_id ws) row) p in
      (p, match r with
          | Ok _ => Ok tt
          | Err UniqueViolation => Err (Conflict ("workspace " +:+ w_id ws +:+ " already exists"))
          | Err e => Err (Internal ("workspace insert: " +:+ show_sql e))
          | Panic => Panic
          end)
  end.
Definition pg_ws_get (id : string) (p : Pool) : option Workspace * Pool :=
  let (o, p) := run_stmt [id] [] (select (λ _, live_row id)) p in
  (ok_flat o ≫= ws_of_row id, p).

(** [WHERE deleted_at IS NULL AND domains @> $1 LIMIT 1]: the first row of a scan *)
Definition domain_needle (host : string) : json := JArray [JObject [("domain", JString (str_ascii_lower host))]].
Definition select_domain (needle : json) : stmt (option (string * WsRow)) := select (λ _ d,
  List.find (λ kr, row_live kr.2 && json_contains (wr_domains kr.2) needle) (hash_iter (db_workspaces d))).
Definition pg_ws_by_domain (host : string) (p : Pool) : option (Workspace * WorkspaceDomain) * Pool :=
  let needle := domain_needle host in
  let (o, p) := run_stmt [] [needle] (select_domain needle) p in
  (kr ← ok_flat o; ws ← ws_of_row kr.1 kr.2;
   dom ← List.find (λ d, eq_ignore_ascii_case (wd_domain d) (str_ascii_lower host)) (w_domains ws);
   Some (ws, dom), p).

Definition ws_where (tenant needle : option string) (kr : string * WsRow) : bool :=
  row_live kr.2 && tenant_matches tenant (wr_tenant_id kr.2)
  && match needle with
     | Some n => let pat := wrap_percent (escape_like n) in
                 ilike pat kr.1 || ilike_opt pat (wr_label kr.2) || ilike_opt pat (wr_git_repo kr.2)
     | None => true
     end.
Definition ws_row_newest (a b : string * WsRow) : bool := (wr_created_at b.2 <=? wr_created_at a.2)%Z.
Definition wss_newest (w : string * WsRow → bool) (d : Db) : list (string * WsRow) :=
  sort_by ws_row_newest (filter (λ kr, w kr = true) (hash_iter (db_workspaces d))).
Definition pg_ws_list (tenant : option string) (limit offset : nat) (q : option string) (p : Pool)
    : (list Workspace * Z) * Pool :=
  let needle := pg_needle q in
  let w := ws_where tenant needle in
  let args := opt_text tenant ++ opt_text ((λ n, wrap_percent (escape_like n)) <$> needle) in
  let (total, p) := run_stmt args [] (select (λ _ d, Z.of_nat (length (wss_newest w d)))) p in
  let (rows, p) := run_stmt args [] (select_page (Z.of_nat (clamp 1 500 limit)) (as_i64 (Z.of_nat offset))
                     (λ _, wss_newest w)) p in
  ((omap (λ kr, ws_of_row kr.1 kr.2) (ok_list rows), as_u64 (ok_count total)), p).

Definition pg_ws_mark_deleted (id : string) (p : Pool) : option Workspace * Pool :=
  let (o, p) := run_stmt [id] [] (update_ws id row_deleted) p in (ok_flat o ≫= ws_of_row id, p).
Definition pg_ws_set_label (id : string) (label : option string) (p : Pool) : option Workspace * Pool :=
  let (o, p) := run_stmt ([id] ++ opt_text label) [] (update_ws id (row_labelled label)) p in (ok_flat o ≫= ws_of_row id, p).
Definition pg_ws_touch (id : string) (p : Pool) : Pool := (run_stmt [id] [] (update_ws id row_touched) p).2.
Definition pg_ws_mark_paused (id snap : string) (p : Pool) : Pool :=
  (run_stmt [id; snap] [] (update_ws id (λ now, row_pause (Some now) (Some snap))) p).2.
(** The row before the update supplies the answer. *)
Definition resume_ws (id : string) : stmt (option (option string)) := λ _ d,
  match live_row id d with
  | None => (Ok None, d)
  | Some r => (Ok (Some (wr_auto_snapshot r)), with_workspaces (<[id := row_pause None None r]>) d)
  end.
Definition pg_ws_mark_resumed (id : string) (p : Pool) : option string * Pool :=
  let (o, p) := run_stmt [id] [] (resume_ws id) p in (mjoin (ok_flat o), p).
End workspaces.

(** ** Keys survive a restart *)
Section restart.
Context `{HashIter}.

(** Rows as the store writes them: named after a service. *)
Definition creds_named (d : Db) : Prop := map_Forall (λ k _, ∃ v, k.2 = service_name v) (db_credentials d).
Definition cred_row (st : CredState Pool) (t : string) (v : ServiceId) : option CredRow :=
  db_credentials (pl_db (cs_creds st)) !! (t, service_name v).
(** The proxy's keys: what the table says, and without a row what [seed] says unless
    the row is [gone]. *)
Definition persisted (seed : string → ServiceId → option SecretString) (gone : string → ServiceId → Prop) (st : CredState Pool) : Prop :=
  poisoned (cs_keys st) = false ∧
  (∀ t v, match cred_row st t v with
          | Some r => keys_get t v (cs_keys st) = Some (MkSecret (cd_secret r))
          | None => (gone t v → keys_get t v (cs_keys st) = None) ∧ (¬ gone t v → keys_get t v (cs_keys st) = seed t v)
          end) ∧
  creds_named (pl_db (cs_creds st)) ∧ ∀ n, pl_fault (cs_creds st) n = Fine.
(** The call deletes the stored key of [t] for [v]. *)
Definition deletes (st : CredState Pool) (op : CredOp) (t : string) (v : ServiceId) : Prop :=
  match op with
  | CPut _ _ _ _ _ => False
  | CDelete sc q w => target_tenant sc q = Ok t ∧ parse_service w = Ok v ∧ is_Some (cred_row st t v)
  end.
(** One of the calls does. *)
Fixpoint deleted_in (st : CredState Pool) (ops : list CredOp) (t : string) (v : ServiceId) : Prop :=
  match ops with
  | [] => False
  | op :: ops' => deletes st op t v ∨ deleted_in (cred_step st op) ops' t v
  end.
Definition cred_op_fits (op : CredOp) : Prop :=
  match op with
  | CPut _ sc q _ secret => text_ok secret = true ∧ ∀ t, target_tenant sc q = Ok t → text_ok t = true
  | CDelete sc q _ => ∀ t, target_tenant sc q = Ok t → text_ok t = true
  end.

Lemma service_name_inj v w : service_name v = service_name w → v = w.
Proof. intros E. apply (f_equal pg_parse_service) in E. rewrite !service_name_parses in E. by injection E. Qed.
Lemma hex_digit_text x : (0 ≤ x < 16)%Z → negb (Ascii.eqb (hex_digit x) NUL) = true.
Proof. revert x. apply nibble_ind. repeat constructor. Qed.
Lemma fingerprint_text s : text_ok (fingerprint s) = true.
Proof.
  unfold fingerprint. generalize 16%nat. intros k. generalize (fnv FNV_OFFSET s). intros h. induction k as [|k IH]; [done|].
  simpl. unfold text_ok in *. simpl. rewrite hex_digit_text by (apply Z.mod_pos_bound; lia). exact IH.
Qed.

Lemma persisted_put seed gone now sc q v s st :
  persisted seed gone st → cred_op_fits (CPut now sc q v s) → persisted seed gone (put_credential now sc q v s st).1.
Proof.
  intros (Hp & Hk & Hw & Hf) [Hs Ht]. unfold put_credential. destruct (target_tenant sc q) as [t| |] eqn:Et; [|done..].
  destruct (str_is_empty (trim s)); [done|]. cbn [cst_get cst_upsert_with_secret PgCredentialStore].
  specialize (Ht t eq_refl). unfold pg_cred_get, pg_cred_upsert_with_secret.
  rewrite run_stmt_fine; [|done|by simpl; rewrite Ht, service_name_text|done]. cbn [fst snd pl_db pl_n pl_fault pl_now select cr_tenant_id cr_service cr_fingerprint].
  rewrite run_stmt_fine; [|apply Hf|cbn [forallb]; rewrite Ht, service_name_text, Hs, fingerprint_text; reflexivity|done].
  unfold persisted, cred_row, creds_named. cbn [cs_keys cs_creds pl_db snd fst upsert_cred with_credentials db_credentials pl_fault]. split.
  { unfold keys_set. by rewrite keys_write_poisoned. }
  split; [|split; [|exact Hf]].
  - intros t' v'. rewrite keys_get_set by done. rewrite lookup_insert.
    destruct (decide ((t, v) = (t', v'))) as [E|Hne].
    + injection E as <- <-. by rewrite decide_True.
    + rewrite decide_False; [apply Hk|]. intros [= <- E%service_name_inj]. by subst.
  - apply map_Forall_insert_2; [by exists v|exact Hw].
Qed.
Lemma persisted_delete seed gone sc q w st :
  persisted seed gone st → cred_op_fits (CDelete sc q w) →
  persisted seed (λ t v, gone t v ∨ deletes st (CDelete sc q w) t v) (delete_credential sc q w st).1.
Proof.
  intros (Hp & Hk & Hw & Hf) Ht.
  assert ((∀ t v, ¬ deletes st (CDelete sc q w) t v) → persisted seed (λ t v, gone t v ∨ deletes st (CDelete sc q w) t v) st) as Hsame.
  { intros Hno. split; [done|]. split; [|done]. intros t v. specialize (Hk t v). specialize (Hno t v). destruct (cred_row st t v); [done|]. tauto. }
  unfold delete_credential. destruct (target_tenant sc q) as [t| |] eqn:Et; cbn [obind]; [|apply Hsame; intros ? ? (? & _); congruence..].
  destruct (parse_service w) as [v| |] eqn:Ev; cbn [obind]; [|apply Hsame; intros ? ? (_ & ? & _); congruence..]. specialize (Ht t Et).
  cbn [cst_remove PgCredentialStore]. unfold pg_cred_remove.
  rewrite run_stmt_fine; [|done|by simpl; rewrite Ht, service_name_text|done]. cbn [fst snd delete_cred ok_flat].
  assert (∀ t' v', (t, service_name v) = (t', service_name v') ↔ (t, v) = (t', v')) as Hiff.
  { intros t' v'. split; [intros [= <- E%service_name_inj]; by subst|congruence]. }
  destruct (db_credentials (pl_db (cs_creds st)) !! (t, service_name v)) as [r|] eqn:Er.
  - simpl. unfold row_to_cred. simpl. rewrite service_name_parses. simpl. unfold persisted, cred_row, creds_named. simpl. split; [unfold keys_unset; by rewrite keys_write_poisoned|].
    split; [|split; [by apply map_Forall_delete|exact Hf]]. intros t' v'. rewrite keys_get_unset, lookup_delete by done.
    destruct (decide ((t, v) = (t', v'))) as [E|Hne].
    + injection E as <- <-. rewrite decide_True by done. split; [done|]. intros Hno. destruct Hno. right. split; [done|]. split; [done|]. unfold cred_row. by rewrite Er.
    + rewrite decide_False by (by rewrite Hiff). specialize (Hk t' v'). unfold cred_row in Hk. destruct (db_credentials _ !! (t', service_name v')); [done|].
      rewrite Et, Ev. split; [intros [?|([= <-] & [= <-] & _)]; [by apply Hk|done]|]. intros Hno. apply Hk. tauto.
  - simpl. assert (persisted seed (λ t v, gone t v ∨ deletes st (CDelete sc q w) t v) st) as Hst.
    { apply Hsame. intros t' v' (E1 & E2 & Hr). rewrite Et in E1. rewrite Ev in E2. injection E1 as <-. injection E2 as <-. unfold cred_row in Hr. rewrite Er in Hr. by destruct Hr. }
    destruct Hst as (? & Hk' & Hw' & ?). unfold persisted, cred_row, creds_named in *. simpl in *. by rewrite delete_id.
Qed.

Lemma parse_name s v : pg_parse_service s = Some v → s = service_name v.
Proof.
  unfold pg_parse_service. intros E. repeat case_match; simplify_eq;
    match goal with H : String.eqb _ _ = true |- _ => apply String.eqb_eq in H as -> end; done.
Qed.
Lemma rehydrate_skip rows : ∀ keys n t v, poisoned keys = false → (∀ r, ((t, service_name v), r) ∉ rows) →
  keys_get t v (rehydrate_loop rows keys n).1 = keys_get t v keys.
Proof.
  induction rows as [|[[t' s'] r'] rows IH]; intros keys n t v Hp Hno; [done|]. simpl.
  destruct (pg_parse_service s') as [v'|] eqn:Ev; [|apply IH; [done|intros r Hr; apply (Hno r); by right]].
  rewrite IH; [|unfold keys_set; by rewrite keys_write_poisoned|intros r Hr; apply (Hno r); by right].
  rewrite keys_get_set by done. rewrite decide_False; [done|]. intros [= -> ->]. apply (Hno r').
  apply parse_name in Ev as ->. by left.
Qed.
(** Loading the rows one by one. *)
Lemma rehydrate_loop_get rows : ∀ keys n,
  poisoned keys = false → NoDup rows.*1 → Forall (λ kr, ∃ v, kr.1.2 = service_name v) rows →
  (rehydrate_loop rows keys n).2 = (n + length rows)%nat ∧
  ∀ t v r, ((t, service_name v), r) ∈ rows → keys_get t v (rehydrate_loop rows keys n).1 = Some (MkSecret (cd_secret r)).
Proof.
  induction rows as [|[[t' s'] r'] rows IH]; intros keys n Hp Hnd Hall.
  { split; [simpl; lia|]. by intros t v r Hr%elem_of_nil. }
  apply NoDup_cons in Hnd as [Hni Hnd]. apply Forall_cons in Hall as [[v' Hv'] Hall]. simpl in *. subst s'.
  assert (poisoned (keys_set t' v' (MkSecret (cd_secret r')) keys) = false) as Hp' by (unfold keys_set; by rewrite keys_write_poisoned).
  rewrite service_name_parses. destruct (IH (keys_set t' v' (MkSecret (cd_secret r')) keys) (n + 1)%nat) as (H2 & H3); [done..|].
  split; [lia|]. intros t v r [E|Hr]%elem_of_cons; [|by apply H3]. injection E as -> Ev ->.
  apply service_name_inj in Ev as ->. rewrite rehydrate_skip; [by rewrite keys_get_set, decide_True|done|].
  intros x Hx. apply Hni. apply list_elem_of_fmap. by exists ((t', service_name v'), x).
Qed.
Lemma cred_run_persisted seed ops : ∀ st gone, persisted seed gone st → Forall cred_op_fits ops →
  persisted seed (λ t v, gone t v ∨ deleted_in st ops t v) (foldl cred_step st ops).
Proof.
  assert (∀ g g' st, (∀ t v, g t v ↔ g' t v) → persisted seed g st → persisted seed g' st) as Hext.
  { intros g g' st Hg (? & Hk & ?). split; [done|]. split; [|done]. intros t v. specialize (Hk t v). destruct (cred_row st t v); [done|]. by rewrite <- !Hg. }
  induction ops as [|op ops IH]; intros st gone Hp Hall; [eapply Hext; [|exact Hp]; simpl; tauto|].
  apply Forall_cons in Hall as [Hop Hall]. cbn [foldl deleted_in].
  assert (persisted seed (λ t v, gone t v ∨ deletes st op t v) (cred_step st op)) as Hp'.
  { destruct op; [|by apply persisted_delete]. eapply Hext; [|by apply persisted_put]. simpl. tauto. }
  eapply Hext; [|exact (IH _ _ Hp' Hall)]. intros t v. simpl. tauto.
Qed.
Lemma rehydrate_poisoned rows : ∀ keys n, poisoned (rehydrate_loop rows keys n).1 = poisoned keys.
Proof.
  induction rows as [|[[t s] r] rows IH]; intros keys n; [done|]. simpl. destruct (pg_parse_service s); [|apply IH].
  rewrite IH. unfold keys_set. by rewrite keys_write_poisoned.
Qed.
(** Loading the table over the keys there are. *)
Lemma rehydrate_persisted keys0 p :
  poisoned keys0 = false → (∀ n, pl_fault p n = Fine) → creds_named (pl_db p) →
  ∃ keys p', rehydrate_keystore keys0 p = (keys, Ok (size (db_credentials (pl_db p))), p') ∧ pl_db p' = pl_db p ∧
    persisted (λ t v, keys_get t v keys0) (λ _ _, False) (MkCS p' keys).
Proof.
  intros Hp Hf Hw. unfold rehydrate_keystore. rewrite run_stmt_fine by done. cbn [fst snd select]. set (m := db_credentials (pl_db p)) in *.
  destruct (rehydrate_loop_get (hash_iter m) keys0 0) as [Hn Hg]; [done|apply NoDup_hash_iter| |].
  { apply Forall_forall. intros [k r] Hkr%elem_of_hash_iter. by apply Hw in Hkr. }
  pose proof (rehydrate_skip (hash_iter m) keys0 0) as Hs. pose proof (rehydrate_poisoned (hash_iter m) keys0 0) as Hpo.
  destruct (rehydrate_loop (hash_iter m) keys0 0) as [keys n]. simpl in Hn, Hg, Hs, Hpo. subst n.
  eexists _, _. split; [by rewrite hash_iter_perm, length_map_to_list|]. split; [done|]. split; [simpl; congruence|]. split; [|done].
  intros t v. unfold cred_row. cbn [cs_keys cs_creds pl_db]. fold m. destruct (m !! (t, service_name v)) as [r|] eqn:E.
  - apply elem_of_hash_iter in E. by rewrite (Hg _ _ _ E).
  - split; [done|]. intros _. apply Hs; [done|]. intros r Hr%elem_of_hash_iter. congruence.
Qed.
End restart.

(** A secret that was not saved is acknowledged.  If the statement that
    stores a new credential is refused, or the secret contains the character zero,
    the caller still gets the record, the proxy uses the secret, and a restart
    loses it. *)
Theorem unsaved_secret_acknowledged `{HashIter} (now : Z) (sc : TenantScope) (t : string) (v : ServiceId) (secret : string)
    (st : CredState Pool) :
  target_tenant sc None = Ok t → str_is_empty (trim secret) = false → poisoned (cs_keys st) = false →
  db_credentials (pl_db (cs_creds st)) = ∅ →
  pl_fault (cs_creds st) (S (pl_n (cs_creds st))) = Refused ∨ text_ok secret = false →
  let st' := (put_credential now sc None v secret st).1 in
  is_ok (put_credential now sc None v secret st).2 = true ∧ keys_get t v (cs_keys st') = Some (MkSecret secret) ∧
  db_credentials (pl_db (cs_creds st')) = ∅.
Proof.
  intros Ht Hs Hp Hd Hbad. unfold put_credential. rewrite Ht, Hs. cbn [cst_get cst_upsert_with_secret PgCredentialStore].
  unfold pg_cred_get.
  match goal with |- context [run_stmt ?a ?b ?c (cs_creds st)] =>
    assert (pl_db (run_stmt a b c (cs_creds st)).2 = pl_db (cs_creds st) ∧
            pl_n (run_stmt a b c (cs_creds st)).2 = S (pl_n (cs_creds st)) ∧
            pl_fault (run_stmt a b c (cs_creds st)).2 = pl_fault (cs_creds st)) as (Hdb & Hn & Hfl)
      by (unfold run_stmt; destruct (pl_fault (cs_creds st) (pl_n (cs_creds st))); [by case_match|done|by case_match]);
    destruct (run_stmt a b c (cs_creds st)) as [o p] end.
  cbn [snd fst is_ok cs_keys cs_creds] in *. split; [done|]. split; [by rewrite keys_get_set, decide_True|].
  unfold pg_cred_upsert_with_secret, run_stmt. rewrite Hn, Hfl. destruct Hbad as [->|Hbad]; [by rewrite Hdb|].
  cbn [forallb]. rewrite Hbad. rewrite !andb_false_r. by destruct (pl_fault _ _); simpl; rewrite Hdb.
Qed.

(** ** Searching workspaces and snapshots *)
Section search.
Context `{Serde WorkspaceSpec} `{Serde (list WorkspaceDomain)} `{PgLower} `{Lowercase}.

Lemma needles_agree q : match q with Some s => is_ascii (trim s) = true | None => True end →
  ws_needle q = str_ascii_lower <$> pg_needle q ∧ match pg_needle q with Some n => is_ascii n = true | None => True end.
Proof.
  destruct q as [s|]; [|done]. unfold ws_needle, pg_needle. simpl. intros Ha. rewrite to_lowercase_ascii by done.
  by destruct (trim s).
Qed.
Lemma ilike_lower n s : is_ascii n = true → is_ascii s = true →
  ilike (wrap_percent (escape_like n)) s = str_contains (str_ascii_lower n) (to_lowercase s).
Proof. intros Hn Hs. rewrite to_lowercase_ascii by done. by apply ilike_substring. Qed.
Lemma ilike_opt_lower n o : is_ascii n = true → is_ascii (default "" o) = true →
  ilike_opt (wrap_percent (escape_like n)) o
  = match o with Some s => str_contains (str_ascii_lower n) (to_lowercase s) | None => false end.
Proof. intros Hn Ho. destruct o as [s|]; [|done]. by apply ilike_lower. Qed.
End search.

(** Searching finds the same rows in both stores.  For every ASCII needle,
    wild cards and backslashes included, the condition that [list] sends to
    Postgres with its escaped [ILIKE] patterns holds of a row with ASCII texts
    exactly when the in-memory store's predicate holds of the record the row
    decodes to; for workspaces and for snapshots. *)
Theorem pg_search_agrees `{Serde WorkspaceSpec} `{Serde (list WorkspaceDomain)} `{PgLower} `{Lowercase}
    (tenant wid q : option string) (id : string) (r : WsRow) (w : Workspace) (s : SnapRow) :
  match q with Some n => is_ascii (trim n) = true | None => True end → is_ascii id = true →
  (ws_of_row id r = Some w → is_ascii (default "" (wr_label r)) = true → is_ascii (default "" (wr_git_repo r)) = true →
   ws_where tenant (pg_needle q) (id, r)
   = is_live w && tenant_matches tenant (w_tenant_id w) && ws_matches (ws_needle q) w) ∧
  (is_ascii (default "" (sr_name s)) = true → is_ascii (default "" (sr_workspace_id s)) = true →
   snap_where tenant wid (pg_needle q) (id, s)
   = tenant_matches tenant (sn_tenant_id (row_to_snap id s))
     && match wid with Some x => opt_eqb (sn_workspace_id (row_to_snap id s)) (Some x) | None => true end
     && snap_matches (ws_needle q) (row_to_snap id s)).
Proof.
  intros Hq Hid. destruct (needles_agree q Hq) as [-> Hn]. split.
  - unfold ws_of_row, row_to_workspace. destruct (from_value (wr_config r)) as [c|e|]; simpl; [|done..]. intros [= <-] Hl Hg.
    unfold ws_where, ws_matches, is_live, row_live. simpl. destruct (pg_needle q) as [n|]; [|done]. simpl.
    by rewrite ilike_lower, !ilike_opt_lower.
  - intros Hnm Hw. unfold snap_where, snap_matches. simpl. destruct (pg_needle q) as [n|]; [|done]. simpl.
    by rewrite ilike_lower, !ilike_opt_lower.
Qed.

Definition domains_enc (ds : list WorkspaceDomain) : json :=
  JArray ((λ d, JObject [("domain", JString (wd_domain d)); ("backend_url", json_opt JString (wd_backend_url d));
                         ("vm_port", json_opt JNum (wd_vm_port d))]) <$> ds).
Lemma domains_contain ds host :
  json_contains (domains_enc ds) (domain_needle host) = existsb (λ d, String.eqb (wd_domain d) (str_ascii_lower host)) ds.
Proof.
  unfold domains_enc, domain_needle. cbn [json_contains forallb]. rewrite andb_true_r.
  induction ds as [|d ds IH]; [done|]. cbn [fmap list_fmap existsb json_contains forallb]. rewrite andb_true_r, orb_false_r.
  f_equal. done.
Qed.

(** A row as the store writes it. *)
Definition row_decodes `{Serde WorkspaceSpec} `{Serde (list WorkspaceDomain)} (r : WsRow) (ds : list WorkspaceDomain) : Prop :=
  (∃ c : WorkspaceSpec, from_value (wr_config r) = Ok c) ∧ to_value ds = Ok (wr_domains r).

(** A domain stored with a capital letter is unreachable with a database.
    [create_workspace] stores domains as they were sent.  The Postgres look-up
    finds a workspace exactly when some live row lists the lower-cased host letter
    by letter, so a host whose domain was stored with a capital letter is never
    found; the in-memory look-up ignores the case and finds it. *)
Theorem pg_by_domain_case_sensitive `{Serde WorkspaceSpec} `{Serde (list WorkspaceDomain)} `{HashIter}
    (host : string) (p : Pool) (ds : string → list WorkspaceDomain) (s : InMemoryWorkspaceStore) (w : Workspace) (d : WorkspaceDomain) :
  (∀ l v, to_value l = Ok v →
     json_contains v (domain_needle host) = existsb (λ d, String.eqb (wd_domain d) (str_ascii_lower host)) l) →
  pl_fault p (pl_n p) = Fine → text_ok (str_ascii_lower host) = true →
  map_Forall (λ id r, row_decodes r (ds id)) (db_workspaces (pl_db p)) →
  (is_Some (pg_ws_by_domain host p).1 ↔
   ∃ id r d, db_workspaces (pl_db p) !! id = Some r ∧ row_live r = true ∧ d ∈ ds id ∧ wd_domain d = str_ascii_lower host) ∧
  (poisoned s = false → inner s !! w_id w = Some w → is_live w = true → d ∈ w_domains w →
   eq_ignore_ascii_case (wd_domain d) (str_ascii_lower host) = true → is_Some (ws_by_domain host s)).
Proof.
  intros Henc Hf Ht Hrows. split.
  - unfold pg_ws_by_domain. rewrite run_stmt_fine; [|done|done|by simpl; rewrite Ht]. cbn [fst snd select_domain select ok_flat].
    assert (∀ id r, db_workspaces (pl_db p) !! id = Some r → json_contains (wr_domains r) (domain_needle host) = true ↔
              ∃ d, d ∈ ds id ∧ wd_domain d = str_ascii_lower host) as Hc.
    { intros id r Hr. apply Hrows in Hr as [_ Hv]. rewrite (Henc _ _ Hv), existsb_exists. setoid_rewrite String.eqb_eq.
      by setoid_rewrite <- list_elem_of_In. }
    destruct (List.find _ _) as [[id r]|] eqn:Ef.
    + apply find_Some_iff in Ef as [Hin [Hl Hj]%andb_true_iff]. apply elem_of_hash_iter in Hin. simpl in Hl, Hj.
      apply (Hc _ _ Hin) in Hj as (d0 & Hd & Heq). pose proof (Hrows _ _ Hin) as [[c Hcfg] Hv].
      split; [intros _; naive_solver|]. intros _. simpl. unfold ws_of_row, row_to_workspace. rewrite Hcfg. simpl.
      rewrite (serde_roundtrip _ _ Hv).
      destruct (find_is_Some (λ d, eq_ignore_ascii_case (wd_domain d) (str_ascii_lower host)) (ds id) d0 Hd) as [y ->]; [|done].
      unfold eq_ignore_ascii_case. rewrite Heq. apply String.eqb_refl.
    + split; [by intros [? ?]|]. intros (id & r & d0 & Hr & Hl & Hd & Heq). exfalso.
      destruct (find_is_Some (λ kr, row_live kr.2 && json_contains (wr_domains kr.2) (domain_needle host))
                  (hash_iter (db_workspaces (pl_db p))) (id, r)) as [y Hy]; [by apply elem_of_hash_iter| |congruence].
      simpl. rewrite Hl. apply (Hc _ _ Hr). naive_solver.
  - intros Hp Hw Hl Hd Heq. unfold ws_by_domain, lock_read. rewrite Hp. simpl.
    destruct (find_is_Some (λ wd, eq_ignore_ascii_case (wd_domain wd.2) (str_ascii_lower host))
                (mbind domain_pairs (hash_iter (inner s)).*2) (w, d)) as [y ->]; [|done|done].
    apply list_elem_of_bind. exists w. split.
    + unfold domain_pairs. rewrite Hl. apply list_elem_of_fmap. naive_solver.
    + apply list_elem_of_fmap. exists (w_id w, w). by rewrite elem_of_hash_iter.
Qed.

(** ** The workspace table as a map of workspaces *)
Definition on_live (f : Workspace → Workspace) (w : Workspace) : Workspace := if is_live w then f w else w.
(** What the row of a new workspace decodes to. *)
Definition stored_ws `{TimeCrates} (w : Workspace) : Workspace :=
  MkWs (w_id w) (w_tenant_id w) (to_micros (w_created_at w)) (to_micros <$> w_deleted_at w) (w_source_dir w)
    (w_output_dir w) (w_config w) (w_git_repo w) (w_git_ref w) (w_label w) (w_domains w) None None None.
Definition ws_book_step `{TimeCrates} (now : Z) (snaps : gmap string SnapRow) (op : WsOp) (m : gmap string Workspace)
    : gmap string Workspace :=
  match op with
  | WInsert w => if bool_decide (is_Some (m !! w_id w)) then m else <[w_id w := stored_ws w]> m
  | WDelete _ id => alter (on_live (set_deleted_at (Some now))) id m
  | WLabel id l => alter (on_live (Workspaces.set_label l)) id m
  | WTouch _ id => alter (on_live (set_last_exec (Some now))) id m
  | WPause _ id snap => if refers (Some snap) snaps then alter (on_live (set_pause (Some now) (Some snap))) id m else m
  | WResume id => alter (on_live (set_pause None None)) id m
  end.
Fixpoint ws_book_run `{TimeCrates} (clk : nat → Z) (n : nat) (snaps : gmap string SnapRow) (ops : list WsOp)
    (m : gmap string Workspace) : gmap string Workspace :=
  match ops with
  | [] => m
  | op :: ops' => ws_book_run clk (S n) snaps ops' (ws_book_step (clk n) snaps op m)
  end.

Section ws_refine.
Context `{TimeCrates} `{Serde WorkspaceSpec} `{Serde (list WorkspaceDomain)} (show_sql : SqlErr → string).

Definition pg_ws_step (p : Pool) (op : WsOp) : Pool :=
  match op with
  | WInsert w => (pg_ws_insert show_sql w p).1
  | WDelete _ id => (pg_ws_mark_deleted id p).2
  | WLabel id l => (pg_ws_set_label id l p).2
  | WTouch _ id => pg_ws_touch id p
  | WPause _ id snap => pg_ws_mark_paused id snap p
  | WResume id => (pg_ws_mark_resumed id p).2
  end.
Definition ws_op_fits (op : WsOp) : Prop :=
  match op with
  | WInsert w =>
      (∃ c ds, to_value (w_config w) = Ok c ∧ to_value (w_domains w) = Ok ds ∧ json_ok c = true ∧ json_ok ds = true) ∧
      from_utf8_lossy (w_source_dir w) = w_source_dir w ∧ from_utf8_lossy (w_output_dir w) = w_output_dir w ∧
      forallb text_ok ([w_id w; w_tenant_id w; w_source_dir w; w_output_dir w] ++ opt_text (w_git_repo w)
                       ++ opt_text (w_git_ref w) ++ opt_text (w_label w)) = true
  | WDelete _ id | WTouch _ id | WResume id => text_ok id = true
  | WLabel id l => forallb text_ok ([id] ++ opt_text l) = true
  | WPause _ id snap => text_ok id && text_ok snap = true
  end.

Definition ws_view (d : Db) : gmap string Workspace := map_imap ws_of_row (db_workspaces d).
(** Every row decodes, and refers to snapshots that exist. *)
Definition ws_rows_ok (d : Db) : Prop :=
  map_Forall (λ id r, is_Some (ws_of_row id r) ∧ refers (wr_auto_snapshot r) (db_snapshots d) = true) (db_workspaces d).

Lemma lookup_ws_view d id : ws_view d !! id = db_workspaces d !! id ≫= ws_of_row id.
Proof. unfold ws_view. by rewrite map_lookup_imap. Qed.
(** A change of a row's life-cycle columns. *)
Definition same_core (r r' : WsRow) : Prop := wr_config r' = wr_config r ∧ wr_domains r' = wr_domains r.

Lemma ws_of_row_live id r w : ws_of_row id r = Some w → is_live w = row_live r.
Proof. unfold ws_of_row, row_to_workspace. destruct (from_value _); simpl; [|done..]. by intros [= <-]. Qed.

(** Writing [r'] over the live row [r]. *)
Lemma ws_view_insert id r r' g d :
  live_row id d = Some r → ws_of_row id r' = g <$> ws_of_row id r →
  ws_view (with_workspaces (<[id := r']>) d) = alter (on_live g) id (ws_view d).
Proof.
  unfold live_row. intros (x & Hx & Hl)%bind_Some Hg. destruct (row_live x) eqn:El; [|done]. injection Hl as ->.
  apply map_eq. intros k. rewrite lookup_alter, !lookup_ws_view. simpl. rewrite lookup_insert.
  case_decide as Hk; [subst k|done]. rewrite Hx. simpl. rewrite Hg. destruct (ws_of_row id r) as [w|] eqn:Ew; [|done].
  simpl. unfold on_live. apply ws_of_row_live in Ew. by rewrite Ew, El.
Qed.
(** No live row: nothing to do. *)
Lemma ws_view_skip id g d : live_row id d = None → alter (on_live g) id (ws_view d) = ws_view d.
Proof.
  intros Hn. apply map_eq. intros k. rewrite lookup_alter, !lookup_ws_view. case_decide; [subst k|done].
  unfold live_row in Hn. destruct (db_workspaces d !! id) as [r|] eqn:E; simpl; [|done]. simpl in Hn.
  destruct (ws_of_row id r) as [w|] eqn:Ew; [|done]. simpl. unfold on_live. apply ws_of_row_live in Ew. rewrite Ew.
  by destruct (row_live r).
Qed.
Lemma rows_ok_insert id r d : ws_rows_ok d → is_Some (ws_of_row id r) → refers (wr_auto_snapshot r) (db_snapshots d) = true →
  ws_rows_ok (with_workspaces (<[id := r]>) d).
Proof. intros Hd Hs Hr. by apply map_Forall_insert_2. Qed.

(** One [UPDATE] whose row change is [g] on the decoded workspace. *)
Lemma update_ws_view id f g now d :
  ws_rows_ok d → (∀ r, ws_of_row id (f now r) = g <$> ws_of_row id r) →
  (∀ r, live_row id d = Some r → refers (wr_auto_snapshot (f now r)) (db_snapshots d) = true) →
  ws_view (update_ws id f now d).2 = alter (on_live g) id (ws_view d) ∧ ws_rows_ok (update_ws id f now d).2 ∧
  db_snapshots (update_ws id f now d).2 = db_snapshots d.
Proof.
  intros Hd Hg Hr. unfold update_ws. destruct (live_row id d) as [r|] eqn:E; [|simpl; by rewrite ws_view_skip].
  rewrite Hr by done. simpl. split; [by apply ws_view_insert with (r := r)|]. split; [|done].
  apply rows_ok_insert; [done| |by apply Hr]. rewrite Hg. unfold live_row in E.
  apply bind_Some in E as (x & Hx & Hl). destruct (row_live x); [|done]. injection Hl as ->.
  apply Hd in Hx as [Hx _]. by apply fmap_is_Some.
Qed.
Lemma live_refers id r d : ws_rows_ok d → live_row id d = Some r → refers (wr_auto_snapshot r) (db_snapshots d) = true.
Proof.
  intros Hd (x & Hx & Hl)%bind_Some. destruct (row_live x); [|done]. injection Hl as ->. by apply Hd in Hx as [_ ?].
Qed.
Lemma ws_of_row_same id r r' (g : Workspace → Workspace) :
  same_core r r' → (∀ c ds, MkWs id (wr_tenant_id r') (wr_created_at r') (wr_deleted_at r') (wr_source_dir r') (wr_output_dir r') c
     (wr_git_repo r') (wr_git_ref r') (wr_label r') ds (wr_last_exec_at r') (wr_paused_at r') (wr_auto_snapshot r')
   = g (MkWs id (wr_tenant_id r) (wr_created_at r) (wr_deleted_at r) (wr_source_dir r) (wr_output_dir r) c
     (wr_git_repo r) (wr_git_ref r) (wr_label r) ds (wr_last_exec_at r) (wr_paused_at r) (wr_auto_snapshot r))) →
  ws_of_row id r' = g <$> ws_of_row id r.
Proof.
  intros [Hc Hd] Hg. unfold ws_of_row, row_to_workspace. rewrite Hc, Hd. destruct (from_value (wr_config r)); simpl; [|done..].
  by rewrite Hg.
Qed.
Lemma resume_update id now d : (resume_ws id now d).2 = (update_ws id (λ _, row_pause None None) now d).2.
Proof. unfold resume_ws, update_ws. by destruct (live_row id d). Qed.

(** After a step that went through: the tables it left, and the next statement. *)
Definition stepped (p p' : Pool) (m : gmap string Workspace) : Prop :=
  ws_view (pl_db p') = m ∧ ws_rows_ok (pl_db p') ∧ db_snapshots (pl_db p') = db_snapshots (pl_db p) ∧
  pl_n p' = S (pl_n p) ∧ pl_fault p' = pl_fault p ∧ pl_now p' = pl_now p.
Lemma stepped_update {A B} texts (s : stmt A) p (k : outcome SqlErr A → B) id f g :
  pl_fault p (pl_n p) = Fine → forallb text_ok texts = true → ws_rows_ok (pl_db p) →
  (∀ now d, (s now d).2 = (update_ws id f now d).2) →
  (∀ r, ws_of_row id (f (pl_now p (pl_n p)) r) = g <$> ws_of_row id r) →
  (∀ r, live_row id (pl_db p) = Some r → refers (wr_auto_snapshot (f (pl_now p (pl_n p)) r)) (db_snapshots (pl_db p)) = true) →
  stepped p (run_stmt texts [] s p).2 (alter (on_live g) id (ws_view (pl_db p))) ∧
  stepped p (let (o, q) := run_stmt texts [] s p in (k o, q)).2 (alter (on_live g) id (ws_view (pl_db p))).
Proof.
  intros Hf Ht Hd Hs Hg Hr. rewrite run_stmt_fine by done. cbn [snd].
  destruct (update_ws_view id f g (pl_now p (pl_n p)) (pl_db p) Hd Hg Hr) as (Hv & Hok & Hsn).
  unfold stepped. cbn [pl_db pl_n pl_fault pl_now]. by rewrite Hs.
Qed.

Lemma ws_insert_stepped w p :
  pl_fault p (pl_n p) = Fine → ws_rows_ok (pl_db p) → ws_op_fits (WInsert w) →
  stepped p (pg_ws_insert show_sql w p).1
    (if bool_decide (is_Some (ws_view (pl_db p) !! w_id w)) then ws_view (pl_db p) else <[w_id w := stored_ws w]> (ws_view (pl_db p))).
Proof.
  intros Hf Hd ((c & ds & Hc & Hds & Hjc & Hjd) & Hsrc & Hout & Ht). unfold pg_ws_insert. rewrite Hc, Hds. cbn [omap_err obind].
  rewrite Hsrc, Hout. rewrite run_stmt_fine; [|done|exact Ht|by simpl; rewrite Hjc, Hjd]. cbn [fst]. unfold insert_ws.
  assert (is_Some (ws_view (pl_db p) !! w_id w) ↔ is_Some (db_workspaces (pl_db p) !! w_id w)) as Hiff.
  { rewrite lookup_ws_view. split; [intros [x (r & Hr & _)%bind_Some]; eauto|].
    intros [r Hr]. rewrite Hr. simpl. by apply Hd in Hr as [? _]. }
  case_bool_decide as Hb; rewrite (bool_decide_ext _ _ Hiff); [by rewrite bool_decide_true|].
  rewrite bool_decide_false by done. unfold stepped. cbn [pl_db pl_n pl_fault pl_now snd].
  assert (ws_of_row (w_id w) (MkWsRow (w_tenant_id w) (to_micros (w_created_at w)) (to_micros <$> w_deleted_at w) (w_source_dir w)
    (w_output_dir w) c (w_git_repo w) (w_git_ref w) (w_label w) ds None None None) = Some (stored_ws w)) as Hrow.
  { unfold ws_of_row, row_to_workspace. simpl. by rewrite (serde_roundtrip _ _ Hc), (serde_roundtrip _ _ Hds). }
  split; [|split; [|done]].
  - apply map_eq. intros k. rewrite lookup_insert, !lookup_ws_view. simpl. rewrite lookup_insert. case_decide; [subst k|done].
    simpl. exact Hrow.
  - apply rows_ok_insert; [done|by rewrite Hrow|done].
Qed.

Lemma ws_book_step_ok p op :
  pl_fault p (pl_n p) = Fine → ws_rows_ok (pl_db p) → ws_op_fits op →
  stepped p (pg_ws_step p op) (ws_book_step (pl_now p (pl_n p)) (db_snapshots (pl_db p)) op (ws_view (pl_db p))).
Proof.
  intros Hf Hd. destruct op as [w|nw id|id l|nw id|nw id snap|id]; cbn [pg_ws_step ws_book_step]; intros Ht.
  - by apply ws_insert_stepped.
  - apply (stepped_update _ _ _ _ id row_deleted); [done|by simpl; rewrite Ht|done|done| |].
    + intros r. by apply ws_of_row_same.
    + intros r Hl. by apply (live_refers id r).
  - apply (stepped_update _ _ _ _ id (row_labelled l)); [done|exact Ht|done|done| |].
    + intros r. by apply ws_of_row_same.
    + intros r Hl. by apply (live_refers id r).
  - apply (stepped_update [id] _ p (λ _, tt) id row_touched); [done|by simpl; rewrite Ht|done|done| |].
    + intros r. by apply ws_of_row_same.
    + intros r Hl. by apply (live_refers id r).
  - destruct (refers (Some snap) (db_snapshots (pl_db p))) eqn:Er.
    + apply (stepped_update [id; snap] _ p (λ _, tt) id (λ now, row_pause (Some now) (Some snap)));
        [done|by simpl in *; rewrite andb_true_r|done|done| |done]. intros r. by apply ws_of_row_same.
    + unfold pg_ws_mark_paused. rewrite run_stmt_fine; [|done|by simpl in *; rewrite andb_true_r|done]. unfold stepped. cbn [snd pl_db].
      unfold update_ws. destruct (live_row id (pl_db p)); [|done]. cbn [wr_auto_snapshot row_pause]. by rewrite Er.
  - apply (stepped_update _ _ _ _ id (λ _, row_pause None None)); [done|by simpl; rewrite Ht|done|apply resume_update| |done].
    intros r. by apply ws_of_row_same.
Qed.
Lemma pg_ws_run_ok p ops : (∀ n, pl_fault p n = Fine) → ws_rows_ok (pl_db p) → Forall ws_op_fits ops →
  let p' := foldl pg_ws_step p ops in
  ws_view (pl_db p') = ws_book_run (pl_now p) (pl_n p) (db_snapshots (pl_db p)) ops (ws_view (pl_db p)) ∧
  ws_rows_ok (pl_db p') ∧ (∀ n, pl_fault p' n = Fine) ∧ pl_now p' (pl_n p') = pl_now p (pl_n p + length ops).
Proof.
  intros Hf Hd Hops. revert p Hf Hd. induction Hops as [|op ops Hop _ IH]; intros p Hf Hd; [cbn zeta; simpl; by rewrite Nat.add_0_r|].
  cbn [foldl ws_book_run length]. destruct (ws_book_step_ok p op (Hf _) Hd Hop) as (Hv & Hd' & Hsn & Hn & Hfl & Hnow).
  destruct (IH (pg_ws_step p op)) as (Hv' & Hd'' & Hf' & Hn'); [intros n; by rewrite Hfl|done|]. cbn zeta. split_and!; [|done|done|].
  - by rewrite Hv', Hv, Hsn, Hn, Hnow.
  - rewrite Hn', Hnow, Hn. f_equal. lia.
Qed.

(** *** What the calls answer *)
Definition live_ws (o : option Workspace) : option Workspace := w ← o; if is_live w then Some w else None.
Lemma live_row_ws d id : live_row id d ≫= ws_of_row id = live_ws (ws_view d !! id).
Proof.
  rewrite lookup_ws_view. unfold live_row, live_ws. destruct (db_workspaces d !! id) as [r|]; [|done]. simpl.
  destruct (ws_of_row id r) as [w|] eqn:Ew; simpl; [apply ws_of_row_live in Ew as Hl; rewrite Hl|]; destruct (row_live r); simpl; by rewrite ?Ew.
Qed.
(** An [UPDATE .. RETURNING] answers with the row it wrote. *)
Lemma update_answer id f g now d :
  (∀ r, ws_of_row id (f now r) = g <$> ws_of_row id r) →
  (∀ r, live_row id d = Some r → refers (wr_auto_snapshot (f now r)) (db_snapshots d) = true) →
  ok_flat (update_ws id f now d).1 ≫= ws_of_row id = g <$> live_ws (ws_view d !! id).
Proof.
  intros Hg Hr. rewrite <- live_row_ws. unfold update_ws. destruct (live_row id d) as [r|] eqn:E; [|done]. rewrite Hr by done. simpl. apply Hg.
Qed.
Lemma resume_answer id now d : ws_rows_ok d → mjoin (ok_flat (resume_ws id now d).1) = live_ws (ws_view d !! id) ≫= w_auto_snapshot.
Proof.
  intros Hd. rewrite <- live_row_ws. unfold resume_ws. destruct (live_row id d) as [r|] eqn:E; [|done]. simpl.
  assert (is_Some (ws_of_row id r)) as [w Hw].
  { apply bind_Some in E as (x & Hx & Hl). destruct (row_live x); [|done]. injection Hl as ->. by apply Hd in Hx as [? _]. }
  rewrite Hw. simpl. unfold ws_of_row, row_to_workspace in Hw. destruct (from_value (wr_config r)); simpl in Hw; [|done..]. by injection Hw as <-.
Qed.
Lemma insert_answer w p : pl_fault p (pl_n p) = Fine → ws_rows_ok (pl_db p) → ws_op_fits (WInsert w) →
  (pg_ws_insert show_sql w p).2 = if bool_decide (is_Some (ws_view (pl_db p) !! w_id w))
    then Err (Conflict ("workspace " +:+ w_id w +:+ " already exists")) else Ok tt.
Proof.
  intros Hf Hd ((c & ds & Hc & Hds & Hjc & Hjd) & Hsrc & Hout & Ht). unfold pg_ws_insert. rewrite Hc, Hds. cbn [omap_err obind].
  rewrite Hsrc, Hout. rewrite run_stmt_fine; [|done|exact Ht|by simpl; rewrite Hjc, Hjd]. cbn [fst snd]. unfold insert_ws.
  rewrite (bool_decide_ext (is_Some (ws_view (pl_db p) !! w_id w)) (is_Some (db_workspaces (pl_db p) !! w_id w))); [by case_bool_decide|].
  rewrite lookup_ws_view. split; [intros [x (r & Hr & _)%bind_Some]; eauto|]. intros [r Hr]. rewrite Hr. simpl. by apply Hd in Hr as [? _].
Qed.

(** Where every element decodes, paging and decoding commute. *)
Lemma omap_page {A B} (f : A → option B) n m l : Forall (λ x, is_Some (f x)) l → omap f (take n (drop m l)) = take n (drop m (omap f l)).
Proof.
  intros Hl. revert n m. induction Hl as [|x l [y Hy] Hl IH]; intros n m; [by destruct n, m|]. simpl. rewrite Hy.
  destruct m as [|m]; [|apply IH]. destruct n as [|n]; [done|]. simpl. rewrite Hy. f_equal. specialize (IH n 0%nat). by rewrite !drop_0 in IH.
Qed.
Lemma omap_length {A B} (f : A → option B) l : Forall (λ x, is_Some (f x)) l → length (omap f l) = length l.
Proof. induction 1 as [|x l [y Hy] _ IH]; [done|]. cbn. rewrite Hy. cbn. f_equal. exact IH. Qed.
(** The live workspaces of a tenant in the table, newest first. *)
Definition listed_ws `{HashIter} `{PgLower} (tenant : option string) (d : Db) : list Workspace :=
  omap (λ kr, ws_of_row kr.1 kr.2) (wss_newest (ws_where tenant None) d).
Lemma wss_decode `{HashIter} w d : ws_rows_ok d → Forall (λ kr, is_Some (ws_of_row kr.1 kr.2)) (wss_newest w d).
Proof.
  intros Hd. apply Forall_forall. intros [k r]. unfold wss_newest. rewrite elem_of_sort_by. intros [_ Hk%elem_of_hash_iter]%list_elem_of_filter.
  by apply Hd in Hk as [? _].
Qed.
Lemma ws_of_row_core id r w : ws_of_row id r = Some w → w_id w = id ∧ w_tenant_id w = wr_tenant_id r ∧ w_created_at w = wr_created_at r.
Proof. unfold ws_of_row, row_to_workspace. destruct (from_value (wr_config r)); simpl; [|done..]. by intros [= <-]. Qed.
Lemma listed_elem `{HashIter} `{PgLower} tenant d w :
  w ∈ listed_ws tenant d ↔ ws_view d !! w_id w = Some w ∧ is_live w = true ∧ tenant_matches tenant (w_tenant_id w) = true.
Proof.
  unfold listed_ws. rewrite list_elem_of_omap, lookup_ws_view. split.
  - intros ([k r] & Hk & Hw). unfold wss_newest in Hk. rewrite elem_of_sort_by in Hk. apply list_elem_of_filter in Hk as [Hwh Hk%elem_of_hash_iter].
    simpl in Hw. destruct (ws_of_row_core _ _ _ Hw) as (Hid & Ht & _). rewrite Hid, Hk, Ht, (ws_of_row_live _ _ _ Hw). unfold ws_where in Hwh.
    simpl in Hwh. rewrite andb_true_r, andb_true_iff in Hwh. by destruct Hwh.
  - intros ((r & Hr & Hw)%bind_Some & Hl & Ht). exists (w_id w, r). split; [|done]. unfold wss_newest. rewrite elem_of_sort_by.
    apply list_elem_of_filter. split; [|by apply elem_of_hash_iter]. unfold ws_where. simpl.
    destruct (ws_of_row_core _ _ _ Hw) as (_ & Htt & _). by rewrite <- (ws_of_row_live _ _ _ Hw), Hl, <- Htt, Ht.
Qed.
Lemma ws_row_newest_total a b : ws_row_newest a b = true ∨ ws_row_newest b a = true.
Proof. unfold ws_row_newest. rewrite !Z.leb_le. lia. Qed.
Lemma ws_row_newest_trans a b c : ws_row_newest a b = true → ws_row_newest b c = true → ws_row_newest a c = true.
Proof. unfold ws_row_newest. rewrite !Z.leb_le. lia. Qed.
Lemma listed_sorted `{HashIter} `{PgLower} tenant d : StronglySorted ws_newest (listed_ws tenant d) ∧ NoDup (w_id <$> listed_ws tenant d).
Proof.
  unfold listed_ws. split.
  - pose proof (sort_by_sorted ws_row_newest ws_row_newest_total ws_row_newest_trans (filter (λ kr, ws_where tenant None kr = true) (hash_iter (db_workspaces d)))) as Hs.
    fold (wss_newest (ws_where tenant None) d) in Hs. induction Hs as [|[k r] l Hs IH Hall]; [constructor|]. simpl.
    destruct (ws_of_row k r) as [w|] eqn:Ew; [|exact IH]. constructor; [exact IH|]. apply Forall_forall. intros w' ([k' r'] & Hk & Hw')%list_elem_of_omap.
    rewrite Forall_forall in Hall. specialize (Hall _ Hk). apply Is_true_true in Hall. apply Is_true_true. unfold ws_row_newest, ws_newest in *. simpl in *.
    destruct (ws_of_row_core _ _ _ Ew) as (_ & _ & ->). by destruct (ws_of_row_core _ _ _ Hw') as (_ & _ & ->).
  - assert (NoDup (wss_newest (ws_where tenant None) d).*1) as Hn.
    { unfold wss_newest. rewrite sort_by_perm. apply NoDup_fmap_filter, NoDup_hash_iter. }
    induction (wss_newest (ws_where tenant None) d) as [|[k r] l IH]; [constructor|]. simpl in *. apply NoDup_cons in Hn as [Hk Hn].
    destruct (ws_of_row k r) as [w|] eqn:Ew; [|by apply IH]. simpl. apply NoDup_cons. split; [|by apply IH].
    destruct (ws_of_row_core _ _ _ Ew) as (-> & _). intros (w' & He & ([k' r'] & Hk' & Hw')%list_elem_of_omap)%list_elem_of_fmap.
    apply Hk. destruct (ws_of_row_core _ _ _ Hw') as (Hid & _). apply list_elem_of_fmap. exists (k', r'). split; [simpl in *; congruence|done].
Qed.
Lemma list_answer `{HashIter} `{PgLower} tenant limit offset p :
  (∀ n, pl_fault p n = Fine) → ws_rows_ok (pl_db p) → forallb text_ok (opt_text tenant) = true →
  (Z.of_nat offset ≤ I64_MAX)%Z → (Z.of_nat (size (db_workspaces (pl_db p))) < 2 ^ 64)%Z →
  (pg_ws_list tenant limit offset None p).1 = (page offset limit (listed_ws tenant (pl_db p)), Z.of_nat (length (listed_ws tenant (pl_db p)))).
Proof.
  intros Hf Hd Ht Ho Hz. unfold pg_ws_list. cbn [pg_needle fmap option_fmap option_map opt_text mbind option_bind]. rewrite app_nil_r.
  rewrite run_stmt_fine by done. cbn [fst snd pl_db pl_n pl_fault pl_now select]. rewrite run_stmt_fine by (simpl; done). cbn [fst snd pl_db ok_count].
  unfold select_page, as_i64. rewrite i64_wrap_id by (unfold I64_MIN; lia).
  destruct (Z.ltb_spec (Z.of_nat (clamp 1 500 limit)) 0); [lia|]. destruct (Z.ltb_spec (Z.of_nat offset) 0); [lia|].
  cbn [orb ok_list fst]. rewrite !Nat2Z.id, omap_page by (by apply wss_decode). unfold listed_ws, page. f_equal. rewrite omap_length by (by apply wss_decode).
  unfold as_u64, u64. apply Z.mod_small. split; [lia|]. eapply Z.le_lt_trans; [|exact Hz]. apply inj_le. unfold wss_newest. rewrite length_sort_by.
  etrans; [apply length_filter|]. by rewrite hash_iter_perm, length_map_to_list.
Qed.
End ws_refine.

(** C31: The workspace table is a map of workspaces.  When every statement goes
    through and every value fits its column, any sequence of store calls leaves
    the table, decoded, in exactly the state of a map updated with the row functions
    of the in-memory store: a new id is filed with its times to the microsecond and
    not paused, a taken id is refused as a conflict, and the other calls update the workspace
    of that id while it is live.  Pausing needs an existing snapshot.  And the calls
    answer from that map: [get] gives the workspace of an id exactly while it is
    live, [mark_resumed] the automatic snapshot the workspace had before the call,
    [mark_deleted] and [set_label] the workspace they wrote, and [list] without a
    needle the page of the live workspaces of the tenant, newest first, with their
    number. *)
Theorem pg_workspaces_refine `{TimeCrates} `{Serde WorkspaceSpec} `{Serde (list WorkspaceDomain)} `{HashIter} `{PgLower} (show_sql : SqlErr → string)
    (p : Pool) (ops : list WsOp) :
  (∀ n, pl_fault p n = Fine) → ws_rows_ok (pl_db p) → Forall ws_op_fits ops →
  let p' := foldl (pg_ws_step show_sql) p ops in
  let book := ws_book_run (pl_now p) (pl_n p) (db_snapshots (pl_db p)) ops (ws_view (pl_db p)) in
  ws_view (pl_db p') = book ∧
  (∀ id, text_ok id = true →
     (pg_ws_get id p').1 = live_ws (book !! id) ∧
     (pg_ws_mark_resumed id p').1 = live_ws (book !! id) ≫= w_auto_snapshot ∧
     (pg_ws_mark_deleted id p').1 = set_deleted_at (Some (pl_now p (pl_n p + length ops))) <$> live_ws (book !! id) ∧
     ∀ l, forallb text_ok (opt_text l) = true → (pg_ws_set_label id l p').1 = Workspaces.set_label l <$> live_ws (book !! id)) ∧
  (∀ w, ws_op_fits (WInsert w) → (pg_ws_insert show_sql w p').2 =
     if bool_decide (is_Some (book !! w_id w)) then Err (Conflict ("workspace " +:+ w_id w +:+ " already exists")) else Ok tt) ∧
  ∀ tenant limit offset, forallb text_ok (opt_text tenant) = true → (Z.of_nat offset ≤ I64_MAX)%Z → (Z.of_nat (size (db_workspaces (pl_db p'))) < 2 ^ 64)%Z →
    ∃ all, StronglySorted ws_newest all ∧ NoDup (w_id <$> all) ∧
      (∀ w, w ∈ all ↔ book !! w_id w = Some w ∧ is_live w = true ∧ tenant_matches tenant (w_tenant_id w) = true) ∧
      (pg_ws_list tenant limit offset None p').1 = (page offset limit all, Z.of_nat (length all)).
Proof.
  intros Hf Hd Hops p' book. destruct (pg_ws_run_ok show_sql p ops Hf Hd Hops) as (Hv & Hd' & Hf' & Hnow). fold p' in Hv, Hd', Hf', Hnow. fold book in Hv.
  split; [done|]. rewrite <- Hv. split; [|split].
  - intros id Ht. unfold pg_ws_get, pg_ws_mark_resumed, pg_ws_mark_deleted, pg_ws_set_label.
    rewrite !run_stmt_fine by (done || by simpl; rewrite Ht). cbn [fst snd]. split; [apply live_row_ws|]. split; [by apply resume_answer|].
    split; [rewrite Hnow; apply update_answer; [intros r; by apply ws_of_row_same|intros r Hlr; by apply (live_refers id r)]|].
    intros l Hl. rewrite run_stmt_fine by (done || by simpl; rewrite Ht). cbn [fst].
    apply update_answer; [intros r; by apply ws_of_row_same|intros r Hlr; by apply (live_refers id r)].
  - intros w Hw. by apply insert_answer.
  - intros tenant limit offset Ht Ho Hz. exists (listed_ws tenant (pl_db p')). destruct (listed_sorted tenant (pl_db p')).
    split; [done|]. split; [done|]. split; [intros w; apply listed_elem|by apply list_answer].
Qed.

(** A collected auto-snapshot is forgotten, not missed.  Deleting the
    snapshot row a paused workspace depends on, as the collector or a client may,
    nulls the workspace's reference: the row stays paused without a snapshot, and
    the next exec resumes nothing and goes on to run in the emptied directory. *)
Theorem collected_snapshot_forgotten `{TimeCrates} `{Serde WorkspaceSpec} `{Serde (list WorkspaceDomain)} `{SnapshotStore.Json}
    (show_error : Sys.JailError → string) (fuel : nat) (p : Pool) (id snap : string) (w : Workspace) (t : Z) :
  pl_fault p (pl_n p) = Fine → text_ok snap = true →
  ws_view (pl_db p) !! id = Some w → w_paused_at w = Some t → w_auto_snapshot w = Some snap →
  let w' := set_pause (Some t) None w in
  ws_view (pl_db (pg_snap_remove snap p).2) !! id = Some w' ∧
  WorkspaceOps.auto_resume show_error fuel w' = Monitor.aret (Ok tt).
Proof.
  intros Hf Ht Hw Hp Ha w'. split; [|done]. unfold pg_snap_remove. rewrite run_stmt_fine; [|done|by simpl; rewrite Ht|done].
  cbn [snd fst pl_db]. rewrite lookup_ws_view in *. unfold delete_snap, null_snapshots. cbn [snd with_workspaces db_workspaces with_snapshots db_snapshots].
  rewrite lookup_fmap. destruct (db_workspaces (pl_db p) !! id) as [r|]; [|done]. simpl in *.
  assert (wr_auto_snapshot r = Some snap ∧ wr_paused_at r = Some t) as [Hs Hpt].
  { unfold ws_of_row, row_to_workspace in Hw. destruct (from_value (wr_config r)); simpl in Hw; [|done..]. by injection Hw as <-. }
  unfold null_auto_snapshot. rewrite Hs, bool_decide_false by (rewrite lookup_delete_eq; by intros [? ?]). simpl.
  transitivity (set_pause (Some t) None <$> ws_of_row id r); [|by rewrite Hw].
  apply ws_of_row_same; [done|]. intros c ds. simpl. by rewrite Hpt.
Qed.

(** ** Witnesses *)
Definition domain_dec (v : json) : option WorkspaceDomain :=
  d ← json_get v "domain" json_str; b ← json_get v "backend_url" (opt_dec json_str); p ← json_get v "vm_port" (opt_dec json_int);
  Some (MkWD d b p).
Lemma domains_rt ds : json_list domain_dec (domains_enc ds) = Some ds.
Proof. apply json_list_map. by intros [d [b|] [p|]]. Qed.
Definition spec_enc (s : WorkspaceSpec) : json :=
  JObject [("memory_mb", JNum (sp_memory_mb s)); ("timeout_secs", JNum (sp_timeout_secs s)); ("cpu_percent", JNum (sp_cpu_percent s));
           ("max_pids", JNum (sp_max_pids s)); ("network_mode", JString (sp_network_mode s));
           ("network_domains", strings_enc (sp_network_domains s)); ("seccomp", JString (sp_seccomp s));
           ("idle_timeout_secs", JNum (sp_idle_timeout_secs s)); ("flavors", strings_enc (sp_flavors s))].
Definition spec_dec (v : json) : option WorkspaceSpec :=
  mem ← json_get v "memory_mb" json_int; tmo ← json_get v "timeout_secs" json_int; cpu ← json_get v "cpu_percent" json_int;
  pids ← json_get v "max_pids" json_int; mode ← json_get v "network_mode" json_str;
  domains ← json_get v "network_domains" (json_list json_str); sec ← json_get v "seccomp" json_str;
  idle ← json_get v "idle_timeout_secs" json_int; fl ← json_get v "flavors" (json_list json_str);
  Some (MkSpec mem tmo cpu pids mode domains sec idle fl).
Lemma spec_rt s : spec_dec (spec_enc s) = Some s.
Proof. destruct s. unfold spec_dec, spec_enc. cbn -[json_list strings_enc]. by rewrite !strings_rt. Qed.
#[export] Instance spec_serde : Serde WorkspaceSpec := serde_of spec_enc spec_dec spec_rt.
#[export] Instance domains_serde : Serde (list WorkspaceDomain) := serde_of domains_enc (json_list domain_dec) domains_rt.

Definition no_sql (e : SqlErr) : string := "sql".
Definition demo_spec : WorkspaceSpec := MkSpec 512 300 100 64 "none" [] "standard" 60 [].
Definition demo_pg_ws : Workspace :=
  MkWs "wrk_1" "acme" 5000 None "/s/src" "/s/out" demo_spec None None (Some "Blue_Fox") [MkWD "App.example" (Some "http://b") None] None None None.
Definition demo_pg_snap : SnapshotRecord := MkSnap "snap_1" "acme" (Some "wrk_1") None 6000 "/s/snap" 9.
Definition demo_ws_row : WsRow :=
  MkWsRow "acme" 5000 None "/s/src" "/s/out" (spec_enc demo_spec) None None (Some "Blue_Fox") (domains_enc (w_domains demo_pg_ws)) None None None.
Lemma pg_search_agrees_witness :
  ws_where None (pg_needle (Some " e_f ")) ("wrk_1", demo_ws_row) = true ∧ ws_where None (pg_needle (Some "e%f")) ("wrk_1", demo_ws_row) = false.
Proof.
  destruct (pg_search_agrees None None (Some " e_f ") "wrk_1" demo_ws_row demo_pg_ws (MkSnapRow "acme" None None 0 "" 0)) as [H1 _]; [reflexivity..|].
  destruct (pg_search_agrees None None (Some "e%f") "wrk_1" demo_ws_row demo_pg_ws (MkSnapRow "acme" None None 0 "" 0)) as [H2 _]; [reflexivity..|].
  rewrite H1, H2 by reflexivity. split; vm_compute; reflexivity.
Defined.

Lemma pg_by_domain_case_sensitive_witness :
  (pg_ws_by_domain "App.example" (calm_pool (with_workspaces (<["wrk_1" := demo_ws_row]>) db_empty))).1 = None ∧
  is_Some (ws_by_domain "App.example" (new_lock {["wrk_1" := demo_pg_ws]})).
Proof.
  destruct (pg_by_domain_case_sensitive "App.example" (calm_pool (with_workspaces (<["wrk_1" := demo_ws_row]>) db_empty))
     (λ _, w_domains demo_pg_ws) (new_lock {["wrk_1" := demo_pg_ws]}) demo_pg_ws (MkWD "App.example" (Some "http://b") None)) as [H1 H2].
  - intros l v Hv. injection Hv as <-. apply domains_contain.
  - reflexivity.
  - reflexivity.
  - apply map_Forall_insert_2; [|apply map_Forall_empty]. split; [exists demo_spec; reflexivity|reflexivity].
  - split.
    + apply eq_None_not_Some. intros (id & r & d & Hr & _ & Hd & Heq)%H1. apply list_elem_of_singleton in Hd as ->. discriminate.
    + apply H2; [reflexivity..|apply list_elem_of_here|reflexivity].
Defined.

Definition demo_ws_db : Db :=
  pl_db (pg_snap_insert no_sql demo_pg_snap (pg_ws_insert no_sql demo_pg_ws (calm_pool db_empty)).1).1.
Lemma demo_ws_rows_ok : ws_rows_ok demo_ws_db.
Proof. apply map_Forall_insert_2; [|apply map_Forall_empty]. split; [eexists; reflexivity|reflexivity]. Qed.
Lemma pg_workspaces_refine_witness :
  w_auto_snapshot <$> ws_view (pl_db (foldl (pg_ws_step no_sql) (calm_pool demo_ws_db)
    [WTouch 0 "wrk_1"; WPause 0 "wrk_1" "snap_1"; WPause 0 "wrk_1" "snap_7"])) !! "wrk_1" = Some (Some "snap_1") ∧
  (pg_ws_mark_resumed "wrk_1" (foldl (pg_ws_step no_sql) (calm_pool demo_ws_db)
    [WTouch 0 "wrk_1"; WPause 0 "wrk_1" "snap_1"; WPause 0 "wrk_1" "snap_7"])).1 = Some "snap_1".
Proof.
  destruct (pg_workspaces_refine no_sql (calm_pool demo_ws_db) [WTouch 0 "wrk_1"; WPause 0 "wrk_1" "snap_1"; WPause 0 "wrk_1" "snap_7"]) as (Hv & Hid & _).
  - reflexivity.
  - exact demo_ws_rows_ok.
  - repeat constructor.
  - destruct (Hid "wrk_1" eq_refl) as (_ & Hr & _). rewrite Hv, Hr. split; vm_compute; reflexivity.
Defined.
