(* ===== verification/Server.v ===== *)
(** * The server: configuration, wiring, routing, settings

    Models [agentjail-server/src/main.rs] (the environment it reads, the keys it
    seeds, the providers it registers, how it builds the control plane),
    [agentjail-ctl/src/lib.rs] ([ControlPlaneConfig::validate], [ensure_state_dir],
    [ControlPlane::with_all_stores], the route table of [router]), and the handlers
    of [routes/settings.rs] and [routes/health.rs].  The environment is a function;
    parsing and printing a [SocketAddr] are parameters; the directories the server
    asks the host to create are returned in a list.  A request is matched the way
    the router documents it: a static segment wins over a parameter. *)

From S2P Require Import Prelude Text Keys Token Tenant Provider Ctl Sessions Credentials Jails Workspaces Snapshots Sys Flavors Git Monitor.
From S2P Require PhantomProxy.
Local Open Scope rust_scope.

(** ** [main.rs]: the environment *)
Definition env_fn : Type := string → option string.
Definition nonblank (o : option string) : option string := s ← o; if str_is_empty (trim s) then None else Some s.
Definition parse_env_u64 (env : env_fn) (var : string) : option Z := s ← nonblank (env var); parse_u64 (trim s).
(** [parse::<usize>()] on a 64-bit host *)
Definition token_cache_capacity (env : env_fn) : Z :=
  default 10000%Z (n ← (s ← env "AGENTJAIL_TOKEN_CACHE_SIZE"; parse_u64 (trim s)); if (0 <? n)%Z then Some n else None).
Definition seed_if_set (env : env_fn) (service : ServiceId) (env_var : string) (keys : InMemoryKeyStore) : InMemoryKeyStore :=
  match nonblank (env env_var) with Some v => keys_set "dev" service (MkSecret v) keys | None => keys end.
(** [Stores::new_from_env], the key store *)
Definition seeded_keys (env : env_fn) : InMemoryKeyStore :=
  seed_if_set env Stripe "STRIPE_API_KEY"
    (seed_if_set env GitHub "GITHUB_TOKEN"
       (seed_if_set env Anthropic "ANTHROPIC_API_KEY"
          (seed_if_set env OpenAi "OPENAI_API_KEY" keys_new))).

Record ProviderInfo := MkPI { pi_service_id : string; pi_upstream_base : string; pi_request_prefix : string }.
(** The four providers [main] registers, with their default upstreams. *)
Definition builtin_providers {H V} `{HttpCrate H V} : list (Provider H) :=
  [OpenAiProvider "https://api.openai.com"; AnthropicProvider "https://api.anthropic.com" "2023-06-01";
   GitHubProvider "https://api.github.com"; StripeProvider "https://api.stripe.com"].
Definition registered_providers {H V} `{HttpCrate H V} : list ProviderInfo :=
  (λ p, MkPI (service_name (prov_id p)) (upstream_base p) ("/v1/" +:+ service_name (prov_id p) +:+ "/")) <$> builtin_providers.
Fixpoint register_all {H V} `{HttpCrate H V} (ps : list (Provider H)) (r : gmap ServiceId (Provider H))
    : outcome PhantomError (gmap ServiceId (Provider H)) :=
  match ps with [] => Ok r | p :: ps' => let? r := registry_register p r in register_all ps' r end.

Definition option_list {A} (o : option A) : list A := match o with Some a => [a] | None => [] end.

Section server.
Context {Addr : Type} (parse_addr : string → outcome string Addr) (show_addr : Addr → string).

(** ** [Config::from_env] *)
Record ServerConfig := MkSrvConfig {
  sc_ctl_addr : Addr; sc_proxy_addr : Addr; sc_proxy_base_url : string; sc_api_keys : list string;
  sc_state_dir : option string; sc_snapshot_pool_dir : option string; sc_snapshot_gc : SnapshotGcConfig;
  sc_idle_check_interval_secs : Z; sc_gateway_addr : option Addr }.
Definition api_key_lines (env : env_fn) : list string :=
  filter (λ s, str_is_empty s = false) (trim <$> str_split "," (default "" (env "AGENTJAIL_API_KEY"))).
Definition from_env (env : env_fn) : outcome string ServerConfig :=
  let? ctl_addr := omap_err (λ e, "parsing CTL_ADDR: " +:+ e) (parse_addr (default "127.0.0.1:7000" (env "CTL_ADDR"))) in
  let? proxy_addr := omap_err (λ e, "parsing PROXY_ADDR: " +:+ e) (parse_addr (default "127.0.0.1:8443" (env "PROXY_ADDR"))) in
  Ok (MkSrvConfig ctl_addr proxy_addr (default ("http://" +:+ show_addr proxy_addr) (env "PROXY_BASE_URL"))
        (api_key_lines env) (nonblank (env "AGENTJAIL_STATE_DIR")) (nonblank (env "AGENTJAIL_SNAPSHOT_POOL_DIR"))
        (MkGc (parse_env_u64 env "AGENTJAIL_SNAPSHOT_MAX_AGE_SECS")
              (Z.to_nat <$> parse_env_u64 env "AGENTJAIL_SNAPSHOT_MAX_COUNT")
              (default 60%Z (parse_env_u64 env "AGENTJAIL_SNAPSHOT_GC_TICK_SECS")))
        (default 30%Z (parse_env_u64 env "AGENTJAIL_IDLE_CHECK_INTERVAL_SECS"))
        (s ← nonblank (env "AGENTJAIL_GATEWAY_ADDR"); match parse_addr s with Ok a => Some a | _ => None end)).

(** ** [lib.rs]: the control plane *)
Record PlatformInfo := MkPlatform {
  pf_providers : list ProviderInfo; pf_ctl_addr : option Addr; pf_proxy_addr : option Addr; pf_gateway_addr : option Addr;
  pf_snapshot_gc : option SnapshotGcConfig; pf_idle_check_interval_secs : Z }.
Definition platform_default : PlatformInfo := MkPlatform [] None None None None 0.
Record ControlPlaneConfig (T : Type) := MkCPC {
  cc_tokens : T; cc_keys : InMemoryKeyStore; cc_proxy_base_url : string; cc_api_keys : list string;
  cc_exec : option ExecConfig; cc_state_dir : option string; cc_snapshot_pool_dir : option string;
  cc_platform : option PlatformInfo; cc_active_jail_ips : option (ActiveMap bytes) }.
Definition validate {T} (c : ControlPlaneConfig T) : outcome CtlError unit :=
  let url := cc_proxy_base_url _ c in
  if str_is_empty url then Err (ConfigErr "proxy_base_url must not be empty")
  else if negb (starts_with "http://" url || starts_with "https://" url)
  then Err (ConfigErr "proxy_base_url must start with http:// or https://")
  else if ends_with "/" url then Err (ConfigErr "proxy_base_url must not end with `/`")
  else Ok tt.
(** The root, and the directories to create. *)
Definition ensure_state_dir (temp_dir : string) (state_dir : option string) : string * list string :=
  let root := default (path_join temp_dir "agentjail-state") state_dir in
  (root, path_join root <$> ["workspaces"; "snapshots"]).

(** [AppState]: the part the run handlers use, the stores of the other routes, and
    what the settings show. *)
Record ControlPlane (T : Type) := MkCP {
  cp_app : AppState; cp_tokens : T; cp_real_keys : InMemoryKeyStore; cp_credentials : InMemoryCredentialStore;
  cp_proxy_base_url : string; cp_platform : option PlatformInfo; cp_api_keys : ApiKeys }.
(** [with_all_stores] on in-memory stores; the second component: directories to create. *)
Definition with_all_stores {T} (temp_dir : string) (c : ControlPlaneConfig T) (sessions : InMemorySessionStore)
    (credentials : InMemoryCredentialStore) (jails : InMemoryJailStore) (workspaces : InMemoryWorkspaceStore)
    (snapshots : InMemorySnapshotStore) : outcome KeyError (ControlPlane T * list string) :=
  let proxy_base_url := trim_end_matches "/" (cc_proxy_base_url _ c) in
  let max_concurrent := default 16 (Monitor.max_concurrent <$> cc_exec _ c) in
  let '(state_dir, dirs) := ensure_state_dir temp_dir (cc_state_dir _ c) in
  let dirs := dirs ++ option_list (cc_snapshot_pool_dir _ c) in
  let ips := default (new_lock ∅) (cc_active_jail_ips _ c) in
  let app := MkApp (cc_exec _ c) max_concurrent metrics_new sessions jails workspaces ∅ (new_lock ∅) ips snapshots
               state_dir (cc_snapshot_pool_dir _ c) (path_join state_dir "flavors") in
  let? keys := from_config_strings (cc_api_keys _ c) in
  Ok (MkCP _ app (cc_tokens _ c) (cc_keys _ c) credentials proxy_base_url (cc_platform _ c) keys, dirs).
Definition control_plane_new {T} (temp_dir : string) (c : ControlPlaneConfig T) : outcome KeyError (ControlPlane T * list string) :=
  with_all_stores temp_dir c sess_new creds_new jails_new wss_new snaps_new.
(** What [main] passes in. *)
Definition main_config {H V T} `{HttpCrate H V} (cfg : ServerConfig) (tokens : T) (keys : InMemoryKeyStore)
    (ips : ActiveMap bytes) : ControlPlaneConfig T :=
  MkCPC _ tokens keys (sc_proxy_base_url cfg) (sc_api_keys cfg) (Some exec_default) (sc_state_dir cfg) (sc_snapshot_pool_dir cfg)
    (Some (MkPlatform (registered_providers (H := H)) (Some (sc_ctl_addr cfg)) (Some (sc_proxy_addr cfg)) (sc_gateway_addr cfg)
             (Some (sc_snapshot_gc cfg)) (sc_idle_check_interval_secs cfg)))
    (Some ips).
End server.
Arguments MkSrvConfig {Addr}.
Arguments MkPlatform {Addr}.
Arguments MkCPC {Addr T}.
Arguments MkCP {Addr T}.
Arguments cp_app {Addr T}.
Arguments cp_credentials {Addr T}.
Arguments cp_proxy_base_url {Addr T}.
Arguments cp_platform {Addr T}.
Arguments cp_api_keys {Addr T}.

(** ** [lib.rs]: the router *)
Inductive Handler :=
| HHealthz | HStats | HPutCredential | HListCredentials | HDeleteCredential | HCreateSession | HListSessions | HGetSession
| HDeleteSession | HExecInSession | HCreateRun | HForkRun | HStreamRun | HListAudit | HGetSettings | HWhoami | HListFlavors
| HListJails | HGetJail | HCreateWorkspace | HListWorkspaces | HGetWorkspace | HPatchWorkspace | HDeleteWorkspace
| HExecInWorkspace | HForkWorkspace | HCreateSnapshot | HFromSnapshot | HListSnapshots | HGetSnapshot | HDeleteSnapshot
| HSnapshotManifest.
Record Route := MkRoute { rt_pattern : string; rt_methods : list (string * Handler); rt_guarded : bool }.

Definition public_routes : list Route := (λ r, MkRoute r.1 r.2 false) <$>
  [("/healthz", [("GET", HHealthz)]); ("/v1/stats", [("GET", HStats)])].
Definition guarded_routes : list Route := (λ r, MkRoute r.1 r.2 true) <$>
  [("/v1/credentials", [("POST", HPutCredential); ("GET", HListCredentials)]);
   ("/v1/credentials/:service", [("DELETE", HDeleteCredential)]);
   ("/v1/sessions", [("POST", HCreateSession); ("GET", HListSessions)]);
   ("/v1/sessions/:id", [("GET", HGetSession); ("DELETE", HDeleteSession)]);
   ("/v1/sessions/:id/exec", [("POST", HExecInSession)]);
   ("/v1/runs", [("POST", HCreateRun)]);
   ("/v1/runs/fork", [("POST", HForkRun)]);
   ("/v1/runs/stream", [("POST", HStreamRun)]);
   ("/v1/audit", [("GET", HListAudit)]);
   ("/v1/config", [("GET", HGetSettings)]);
   ("/v1/whoami", [("GET", HWhoami)]);
   ("/v1/flavors", [("GET", HListFlavors)]);
   ("/v1/jails", [("GET", HListJails)]);
   ("/v1/jails/:id", [("GET", HGetJail)]);
   ("/v1/workspaces", [("POST", HCreateWorkspace); ("GET", HListWorkspaces)]);
   ("/v1/workspaces/:id", [("GET", HGetWorkspace); ("PATCH", HPatchWorkspace); ("DELETE", HDeleteWorkspace)]);
   ("/v1/workspaces/:id/exec", [("POST", HExecInWorkspace)]);
   ("/v1/workspaces/:id/fork", [("POST", HForkWorkspace)]);
   ("/v1/workspaces/:id/snapshot", [("POST", HCreateSnapshot)]);
   ("/v1/workspaces/from-snapshot", [("POST", HFromSnapshot)]);
   ("/v1/snapshots", [("GET", HListSnapshots)]);
   ("/v1/snapshots/:id", [("GET", HGetSnapshot); ("DELETE", HDeleteSnapshot)]);
   ("/v1/snapshots/:id/manifest", [("GET", HSnapshotManifest)])].
Definition routes : list Route := public_routes ++ guarded_routes.

(** A segment [:x] matches any one segment that is not empty. *)
Definition segment_matches (pat seg : string) : bool :=
  if starts_with ":" pat then negb (str_is_empty seg) else String.eqb pat seg.
Fixpoint segments_match (pats segs : list string) : bool :=
  match pats, segs with
  | [], [] => true
  | p :: pats', s :: segs' => segment_matches p s && segments_match pats' segs'
  | _, _ => false
  end.
Definition find_route (path : string) : option Route :=
  match List.find (λ r, String.eqb (rt_pattern r) path) routes with
  | Some r => Some r
  | None => List.find (λ r, segments_match (str_split "/" (rt_pattern r)) (str_split "/" path)) routes
  end.
(** A [GET] route also answers [HEAD]. *)
Definition find_method (method : string) (ms : list (string * Handler)) : option Handler :=
  match snd <$> List.find (λ m, String.eqb m.1 method) ms with
  | Some h => Some h
  | None => if String.eqb method "HEAD" then snd <$> List.find (λ m, String.eqb m.1 "GET") ms else None
  end.
(** What happens to a request: a handler with the scope stamped on it, or an answer. *)
Inductive Dispatch := Handled (h : Handler) (scope : option TenantScope) | Answered (status : Z) (msg : string).
Definition dispatch {H V} `{HttpCrate H V} `{CtEq} (keys : ApiKeys) (method path : string) (headers : H) : Dispatch :=
  match find_route path with
  | None => Answered 404 ""
  | Some r =>
      let run sc := match find_method method (rt_methods r) with Some h => Handled h sc | None => Answered 405 "" end in
      if rt_guarded r then
        match require_api_key keys headers with
        | Ok sc => run (Some sc)
        | Err (status, msg) => Answered status msg
        | Panic => Answered 500 ""
        end
      else run None
  end.

(** ** [routes/settings.rs] *)
Record GcPolicy := MkGcPolicy { gp_max_age_secs : option Z; gp_max_count : option nat; gp_tick_secs : Z }.
Record SettingsResponse := MkSettings {
  st_base_url : string; st_proxy_bind : option string; st_providers : list ProviderInfo; st_ctl_bind : option string;
  st_gateway_bind : option string; st_exec : option (Z * Z * nat); st_state_dir : option string;
  st_snapshot_pool_dir : option string; st_idle_check_secs : Z; st_gc : option GcPolicy }.
Definition get_settings {Addr T} (show_addr : Addr → string) (cp : ControlPlane T) (scope : TenantScope) : SettingsResponse :=
  let p := default platform_default (cp_platform cp) in
  let admin := is_admin (ts_role scope) in
  let only {A} (o : option A) := if admin then o else None in
  MkSettings (cp_proxy_base_url cp) (only (show_addr <$> pf_proxy_addr p)) (pf_providers p) (only (show_addr <$> pf_ctl_addr p))
    (only (show_addr <$> pf_gateway_addr p))
    ((λ e, (default_memory_mb e, default_timeout_secs e, max_concurrent e)) <$> a_exec_config (cp_app cp))
    (only (Some (a_state_dir (cp_app cp)))) (only (a_pool_dir (cp_app cp)))
    (pf_idle_check_interval_secs p)
    ((λ g, MkGcPolicy (gc_max_age_secs g) (gc_max_count g) (gc_tick_secs g)) <$> pf_snapshot_gc p).
Definition whoami (scope : TenantScope) : string * string :=
  (ts_tenant scope, if is_admin (ts_role scope) then "admin" else "operator").
(** The names of the flavors the registry lists. *)
Definition list_flavors (root : string) : prog (list string) := let* fs := flavors_list root in Ret (fl_name <$> fs).

(** ** [routes/health.rs] *)
Definition healthz : string := "ok".
Record StatsView := MkStatsView { sv_active_execs : Z; sv_total_execs : Z; sv_sessions : nat; sv_credentials : nat }.
Definition stats {Addr T} `{HashIter} (cp : ControlPlane (Addr := Addr) T) : StatsView :=
  MkStatsView (m_active (a_metrics (cp_app cp))) (m_total (a_metrics (cp_app cp)))
    (length (sess_list None (a_sessions (cp_app cp)))) (length (creds_list None (cp_credentials cp))).

(** ** Theorems *)

(** The routes that need no API key. *)
Definition public_handler (h : Handler) : bool := match h with HHealthz | HStats => true | _ => false end.
Lemma find_route_in path r : find_route path = Some r → r ∈ routes.
Proof.
  unfold find_route. destruct (List.find _ _) eqn:E; [intros [= <-]|intros E']; [apply find_Some_iff in E as [? _]|apply find_Some_iff in E' as [? _]]; done.
Qed.
Lemma find_method_in method ms h : find_method method ms = Some h → ∃ m, (m, h) ∈ ms.
Proof.
  unfold find_method. destruct (List.find _ _) as [[m x]|] eqn:E; simpl.
  - intros [= <-]. apply find_Some_iff in E as [? _]. eauto.
  - destruct (String.eqb method "HEAD"); [|done]. intros ([m x] & Hf & ->)%fmap_Some. apply find_Some_iff in Hf as [? _]. eauto.
Qed.
Lemma routes_classified : Forall (λ r, Forall (λ m, public_handler m.2 = negb (rt_guarded r)) (rt_methods r)) routes.
Proof. repeat (constructor; [repeat (constructor; [reflexivity|]); constructor|]). constructor. Qed.
Lemma route_public path r method h :
  find_route path = Some r → find_method method (rt_methods r) = Some h → public_handler h = negb (rt_guarded r).
Proof.
  intros Hr%find_route_in [m Hm]%find_method_in. pose proof routes_classified as Hc. rewrite Forall_forall in Hc.
  specialize (Hc r Hr). rewrite Forall_forall in Hc. apply (Hc _ Hm).
Qed.

(** Whom a list of configured lines lets in, and as whom: with no well-formed line,
    everybody as the dev admin; otherwise who presents, in [Authorization] and perhaps
    after ["Bearer "], the token of a well-formed line, with the tenant and role of the
    first such line. *)
Definition granted {H V} `{HttpCrate H V} (lines : list string) (headers : H) (sc : TenantScope) : Prop :=
  ((∀ line k, line ∈ lines → parse_key line ≠ Ok k) ∧ sc = dev_admin) ∨
  ∃ v raw pre line post k, hm_get AUTHORIZATION headers = Some v ∧ hv_to_str v = Some raw ∧
    lines = pre ++ line :: post ∧ parse_key line = Ok k ∧ key_token k = trim (default raw (strip_prefix "Bearer " raw)) ∧
    (∀ line' k', line' ∈ pre → parse_key line' = Ok k' → key_token k' ≠ key_token k) ∧ sc = MkTS (key_tenant k) (key_role k).
Lemma parsed_keys_nil lines : parsed_keys lines = [] ↔ ∀ line k, line ∈ lines → parse_key line ≠ Ok k.
Proof.
  unfold parsed_keys. induction lines as [|l lines IH]; [split; [by intros _ ? ? ?%elem_of_nil|done]|]. cbn [omap list_omap]. split.
  - destruct (parse_key l) as [k'| |] eqn:E; [done|..]; intros Hn line k [->|Hl]%elem_of_cons; try congruence; by eapply IH.
  - intros Hno. destruct (parse_key l) as [k'| |] eqn:E; [by destruct (Hno l k'); [left|]|..]; apply IH; intros line k Hl; by apply Hno; right.
Qed.
(** A key of the parsed list, and what is before it. *)
Lemma parsed_keys_split lines pk k qk : parsed_keys lines = pk ++ k :: qk →
  ∃ pre line post, lines = pre ++ line :: post ∧ parse_key line = Ok k ∧ parsed_keys pre = pk.
Proof.
  unfold parsed_keys. revert pk. induction lines as [|l lines IH]; intros pk; [by destruct pk|]. cbn [omap list_omap]. destruct (parse_key l) as [k'| |] eqn:E.
  - destruct pk as [|a pk].
    + intros [= -> _]. by exists [], l, lines.
    + intros [= -> (pre & line & post & -> & Hl & Hp)%IH]. exists (l :: pre), line, post. split; [done|]. split; [done|]. cbn [omap list_omap]. by rewrite E, Hp.
  - intros (pre & line & post & -> & Hl & Hp)%IH. exists (l :: pre), line, post. split; [done|]. split; [done|]. cbn [omap list_omap]. by rewrite E, Hp.
  - by apply parse_key_no_panic in E.
Qed.
Lemma elem_parsed_keys lines k : k ∈ parsed_keys lines ↔ ∃ line, line ∈ lines ∧ parse_key line = Ok k.
Proof.
  unfold parsed_keys. rewrite list_elem_of_omap. split; intros (line & Hl & Hk); exists line; (split; [done|]); [|by rewrite Hk].
  destruct (parse_key line); naive_solver.
Qed.
Lemma granted_exact {H V} `{HttpCrate H V} `{CtEq} lines (headers : H) sc :
  require_api_key (MkKeys (parsed_keys lines)) headers = Ok sc ↔ granted lines headers sc.
Proof.
  unfold granted. rewrite <- parsed_keys_nil. destruct (parsed_keys lines) as [|k0 ks0] eqn:Ep.
  { split; [intros [= <-]; by left|]. intros [[_ ->]|(v & raw & pre & line & post & k & _ & _ & -> & Hk & _)]; [done|].
    rewrite parsed_keys_nil in Ep. by destruct (Ep line k); [apply elem_of_app; right; left|]. }
  rewrite <- Ep. destruct (require_api_key_exact (MkKeys (parsed_keys lines)) headers sc) as [-> _]; [by rewrite Ep|]. cbn [api_keys]. split.
  - intros (v & raw & k & pk & qk & Hv & Hraw & (pre & line & post & -> & Hl & <-)%parsed_keys_split & Hk & Hpre & ->). right.
    exists v, raw, pre, line, post, k. do 5 (split; [done|]). split; [|done]. intros line' k' Hl' Hk'. apply Hpre, elem_parsed_keys. eauto.
  - intros [[Hn _]|(v & raw & pre & line & post & k & Hv & Hraw & -> & Hl & Hk & Hpre & ->)]; [by rewrite Ep in Hn|].
    exists v, raw, k, (parsed_keys pre), (parsed_keys post). do 2 (split; [done|]). split.
    { unfold parsed_keys. rewrite omap_app. cbn [omap list_omap]. by rewrite Hl. }
    split; [done|]. split; [|done]. intros k' (line' & Hl' & Hk')%elem_parsed_keys. by eapply Hpre.
Qed.

(** C13: Who may call what.  Started from any environment, the control plane runs a
    handler for a request exactly if the route table has one for its path and method
    and, unless that is [healthz] or [stats], the configured keys grant the request a
    scope, which the handler then gets: either no entry of [AGENTJAIL_API_KEY] has the
    form [token@tenant:role] (then everybody is the dev admin) or the request's
    [Authorization] value, less ["Bearer "] and white space, is the token of a
    well-formed entry, and the scope is that of the first such entry.  A request to any
    other route that is granted no scope is answered 401.  An entry without [@] is
    never well formed, so a plain key, as the set-up scripts generate it, leaves the
    server open. *)
Theorem server_admits_iff {Addr H V T} `{HttpCrate H V} `{CtEq} (parse_addr : string → outcome string Addr)
    (show_addr : Addr → string) (env : env_fn) (temp_dir : string) (cfg : ServerConfig) (tokens : T) (keys : InMemoryKeyStore)
    (ips : ActiveMap bytes) (cp : ControlPlane T) (dirs : list string) :
  from_env parse_addr show_addr env = Ok cfg →
  control_plane_new temp_dir (main_config (H := H) cfg tokens keys ips) = Ok (cp, dirs) →
  (∀ method path (headers : H) h o, dispatch (cp_api_keys cp) method path headers = Handled h o ↔
     ∃ r, find_route path = Some r ∧ find_method method (rt_methods r) = Some h ∧
       if public_handler h then o = None else ∃ sc, o = Some sc ∧ granted (api_key_lines env) headers sc) ∧
  (∀ method path (headers : H) r, find_route path = Some r → rt_guarded r = true → (∀ sc, ¬ granted (api_key_lines env) headers sc) →
     ∃ msg, dispatch (cp_api_keys cp) method path headers = Answered 401 msg) ∧
  (∀ line, line ∈ api_key_lines env → ¬ str_elem "@" line → ∀ k, parse_key line ≠ Ok k).
Proof.
  intros Hcfg Hcp.
  assert (cp_api_keys cp = MkKeys (parsed_keys (api_key_lines env))) as ->.
  { unfold from_env in Hcfg. destruct (omap_err _ _) as [a| |]; cbn [obind] in Hcfg; [|done..].
    destruct (omap_err _ _) as [b| |]; cbn [obind] in Hcfg; [|done..]. injection Hcfg as <-.
    unfold control_plane_new, with_all_stores in Hcp. cbn [main_config cc_api_keys sc_api_keys] in Hcp.
    destruct (ensure_state_dir _ _) as [root ds]. rewrite from_config_strings_ok in Hcp. cbn [obind] in Hcp.
    by injection Hcp as <- _. }
  split; [|split].
  - intros method path headers h o. unfold dispatch. destruct (find_route path) as [r|] eqn:Er; [|naive_solver]. split.
    + intros Hd. exists r. split; [done|]. destruct (rt_guarded r) eqn:Eg.
      * destruct (require_api_key _ headers) as [sc|[st m]|] eqn:Eq; [|done..]. destruct (find_method _ _) as [h'|] eqn:Em; [|done].
        injection Hd as <- <-. split; [done|]. rewrite (route_public _ _ _ _ Er Em), Eg. exists sc. split; [done|]. by apply granted_exact in Eq.
      * destruct (find_method _ _) as [h'|] eqn:Em; [|done]. injection Hd as <- <-. split; [done|]. by rewrite (route_public _ _ _ _ Er Em), Eg.
    + intros (r' & [= <-] & Em & Ho). rewrite (route_public _ _ _ _ Er Em) in Ho. rewrite Em. destruct (rt_guarded r); cbn [negb] in Ho; [|by rewrite Ho].
      destruct Ho as (sc & -> & Hg%granted_exact). by rewrite Hg.
  - intros method path headers r Er Eg Hno. unfold dispatch. rewrite Er, Eg.
    destruct (require_api_key _ headers) as [sc|[st m]|] eqn:Eq.
    + by apply granted_exact, Hno in Eq.
    + unfold require_api_key in Eq. repeat case_match; simplify_eq; eauto.
    + unfold require_api_key in Eq. repeat case_match; simplify_eq.
  - intros line _ Hno k. unfold parse_key. destruct (str_is_empty _); [done|].
    destruct (split_once "@" (trim line)) as [[a b]|] eqn:Es; [|done]. exfalso. apply Hno.
    apply split_once_Some in Es as [Heq _]. apply trim_elem. rewrite Heq. apply str_elem_app. right. by left.
Qed.

(** Operators do not see the host.  The settings an operator gets depend
    only on the proxy URL, the providers, the limits, the idle interval and the
    collection policy: two servers that agree on those answer an operator alike,
    whatever their bind addresses and directories, and the answer has none of them;
    an administrator gets every one. *)
Theorem settings_redacted {Addr T} (show_addr : Addr → string) (cp cp' : ControlPlane (Addr := Addr) T) (sc : TenantScope) :
  let p := default platform_default (cp_platform cp) in
  let p' := default platform_default (cp_platform cp') in
  let r := get_settings show_addr cp sc in
  (is_admin (ts_role sc) = false →
   cp_proxy_base_url cp = cp_proxy_base_url cp' → a_exec_config (cp_app cp) = a_exec_config (cp_app cp') →
   pf_providers p = pf_providers p' → pf_idle_check_interval_secs p = pf_idle_check_interval_secs p' →
   pf_snapshot_gc p = pf_snapshot_gc p' →
   r = get_settings show_addr cp' sc ∧
   (st_proxy_bind r, st_ctl_bind r, st_gateway_bind r, st_state_dir r, st_snapshot_pool_dir r) = (None, None, None, None, None)) ∧
  (is_admin (ts_role sc) = true →
   (st_proxy_bind r, st_ctl_bind r, st_gateway_bind r, st_state_dir r, st_snapshot_pool_dir r)
   = (show_addr <$> pf_proxy_addr p, show_addr <$> pf_ctl_addr p, show_addr <$> pf_gateway_addr p,
      Some (a_state_dir (cp_app cp)), a_pool_dir (cp_app cp))).
Proof.
  cbv zeta. unfold get_settings. split.
  - intros Ha Hb He Hp Hi Hg. rewrite Ha, Hb, He, Hp, Hi, Hg. done.
  - intros Ha. by rewrite Ha.
Qed.

(** What the settings page lists is what the proxy serves.  Registering the
    four providers succeeds, and for each advertised entry a request below its
    prefix is routed to the provider with the advertised upstream. *)
Theorem providers_advertised {H V} `{HttpCrate H V} `{HashIter} :
  ∃ reg : gmap ServiceId (Provider H), register_all builtin_providers registry_new = Ok reg ∧
  ∀ info rest, info ∈ registered_providers (H := H) → ¬ str_elem "/" (pi_service_id info) ∧
    PhantomProxy.split_service_path (pi_request_prefix info +:+ rest) = Some (pi_service_id info, "/" +:+ rest) ∧
    ∃ id p, find_by_segment (pi_service_id info) reg = Some (id, p) ∧ upstream_base p = pi_upstream_base info ∧
            service_name id = pi_service_id info.
Proof.
  eexists. split; [reflexivity|]. intros info rest (p & -> & Hp)%list_elem_of_fmap. cbn [pi_service_id pi_request_prefix pi_upstream_base].
  assert (prov_id p ∈ [OpenAi; Anthropic; GitHub; Stripe] ∧ ∀ q, q ∈ builtin_providers (H := H) → prov_id q = prov_id p → q = p) as [Hid Hu].
  { unfold builtin_providers in *. split; [set_solver|]. intros q Hq.
    repeat (apply elem_of_cons in Hp as [->|Hp]; [repeat (apply elem_of_cons in Hq as [->|Hq]; [done|]); by apply elem_of_nil in Hq|]).
    by apply elem_of_nil in Hp. }
  split; [by destruct (prov_id p); simpl; intros Hs; repeat destruct Hs as [Hs|Hs]|].
  split; [by destruct (prov_id p)|].
  match goal with |- context [find_by_segment _ ?reg] => set (r := reg) end.
  assert (∀ id q, r !! id = Some q → q ∈ builtin_providers (H := H) ∧ prov_id q = id) as Hr.
  { intros id q. unfold r. rewrite !lookup_insert_Some. unfold registry_new. rewrite lookup_empty. unfold builtin_providers. set_solver. }
  assert (r !! prov_id p = Some p) as Hl.
  { assert (is_Some (r !! prov_id p)) as [q Hq]; [|by rewrite Hq; f_equal; apply Hr in Hq as [? ?]; apply Hu].
    unfold r. destruct (prov_id p); eexists; reflexivity. }
  unfold find_by_segment. destruct (find_is_Some (λ kv, String.eqb (service_name kv.1) (service_name (prov_id p))) (hash_iter r) (prov_id p, p))
    as [[id q] Hq]; [by apply elem_of_hash_iter|apply String.eqb_refl|]. rewrite Hq. exists id, q. split; [done|].
  apply find_Some_iff in Hq as [Hin%elem_of_hash_iter Hn%String.eqb_eq]. simpl in Hn.
  assert (id = prov_id p) as -> by (by destruct id, (prov_id p)). rewrite Hl in Hin. by injection Hin as <-.
Qed.

(** Keys from the environment belong to the dev tenant.  After start-up the
    key store holds, for each of the four services, exactly the non-blank value of
    its variable, under the tenant ["dev"] and no other. *)
Theorem seeded_keys_exact (env : env_fn) (t : string) (v : ServiceId) :
  keys_get t v (seeded_keys env) = if String.eqb t "dev" then MkSecret <$> nonblank (env (token_var v)) else None.
Proof.
  assert (∀ s var keys, poisoned keys = false → poisoned (seed_if_set env s var keys) = false ∧
    keys_get t v (seed_if_set env s var keys) = if decide (t = "dev" ∧ s = v) then
      match nonblank (env var) with Some x => Some (MkSecret x) | None => keys_get t v keys end else keys_get t v keys) as Hs.
  { intros s var keys Hp. unfold seed_if_set. destruct (nonblank (env var)) as [x|]; [|split; [done|by case_decide]].
    split; [unfold keys_set, lock_write; by rewrite Hp|]. rewrite keys_get_set by done.
    repeat case_decide; try done; naive_solver. }
  unfold seeded_keys.
  destruct (Hs OpenAi "OPENAI_API_KEY" keys_new eq_refl) as [P1 E1]. destruct (Hs Anthropic "ANTHROPIC_API_KEY" _ P1) as [P2 E2].
  destruct (Hs GitHub "GITHUB_TOKEN" _ P2) as [P3 E3]. destruct (Hs Stripe "STRIPE_API_KEY" _ P3) as [_ E4].
  rewrite E4, E3, E2, E1. change (keys_get t v keys_new) with (@None SecretString).
  destruct (String.eqb_spec t "dev") as [->|Hne]; [|by rewrite !decide_False by naive_solver].
  destruct v; repeat (rewrite decide_True by done || rewrite decide_False by (by intros [_ [=]])); cbn [token_var];
    by destruct (nonblank _).
Qed.

(** ** Witnesses *)
(** The environment that the set-up script writes. *)
Definition setup_env : env_fn := λ v,
  if String.eqb v "AGENTJAIL_API_KEY" then Some "aj_local_0123456789abcdef"
  else if String.eqb v "PROXY_BASE_URL" then Some "http://server:8443" else None.
Definition setup_config : ServerConfig (Addr := string) :=
  match from_env Ok (λ a, a) setup_env with Ok c => c | _ => MkSrvConfig "" "" "" [] None None (MkGc None None 0) 0 None end.
Definition setup_plane : ControlPlane (Addr := string) unit :=
  match control_plane_new "/tmp" (main_config (H := list_headers) setup_config tt keys_new (new_lock ∅)) with
  | Ok (cp, _) => cp
  | _ => MkCP (MkApp None 0 metrics_new sess_new jails_new wss_new ∅ (new_lock ∅) (new_lock ∅) snaps_new "" None "") tt keys_new
           creds_new "" None (MkKeys [])
  end.
Lemma server_admits_iff_witness :
  dispatch (cp_api_keys setup_plane) "POST" "/v1/runs" ([] : list_headers) = Handled HCreateRun (Some dev_admin).
Proof.
  destruct (server_admits_iff (H := list_headers) Ok (λ a, a) setup_env "/tmp" setup_config tt keys_new (new_lock ∅) setup_plane
    ["/tmp/agentjail-state/workspaces"; "/tmp/agentjail-state/snapshots"]) as (Hiff & _ & _).
  - reflexivity.
  - reflexivity.
  - apply Hiff. eexists. split; [reflexivity|]. split; [reflexivity|]. exists dev_admin. split; [reflexivity|]. left.
    split; [|reflexivity]. intros line k Hl. apply list_elem_of_singleton in Hl as ->. vm_compute. discriminate.
Defined.

Definition op_scope : TenantScope := MkTS "acme" Operator.
Lemma settings_redacted_witness : st_state_dir (get_settings (λ a, a) setup_plane op_scope) = None.
Proof.
  destruct (settings_redacted (λ a, a) setup_plane setup_plane op_scope) as [Ho _].
  destruct Ho as [_ Hn]; [reflexivity..|]. exact (f_equal (λ x, x.1.2) Hn).
Defined.
