(* ===== verification/Sweepers.v ===== *)
(** * The background sweepers on the host

    Models the parts of [agentjail-ctl/src/workspaces/idle.rs] and
    [agentjail-ctl/src/snapshots.rs] that run without a request: pausing an idle
    workspace on disk ([pause_one], [wipe_dir_contents]), the reaper's pass
    ([run_once]), the snapshot collector's pass ([gc::run_once]) with its removals,
    and the timer tasks around them.  [Idle] and [Snapshots] hold the same passes
    over the stores alone, with the engine as a parameter; here they are actions on
    the shared state and the engine's own programs, which read the clock and draw
    identifiers. *)

From S2P Require Import Prelude Text Tenant Provider Ctl Sessions Workspaces Snapshots Idle Sys Order Mount Fs SnapshotStore Pool Git Monitor ExecRoutes SnapshotRoutes WorkspaceOps.
Local Open Scope Z_scope.

Section sweepers.
Context `{HexEncode} `{Json} `{Blake3} `{HashIter} `{Lowercase} (show_error : JailError → string).
Context (odt_sub : Z → Z → option Z).

(** ** Pausing a workspace *)
(** The loop over the entries stops at the first error; the error is only the
    number, since the caller drops it. *)
Fixpoint wipe_entries (dir : string) (entries : list (option string)) : prog (outcome Z unit) :=
  match entries with
  | [] => pok tt
  | None :: _ => perr 5
  | Some name :: rest =>
      let p := path_join dir name in
      let* ft := sys (FileType p) in
      if negb (ok ft) then perr (rerr ft) else
      let* r := (if is_symlink_type ft then sys (RemoveFile p)
                 else if is_dir_type ft then sys (RemoveDirAll p)
                 else sys (RemoveFile p)) in
      if negb (ok r) then perr (rerr r) else wipe_entries dir rest
  end.
Definition wipe_dir_contents (dir : string) : prog (outcome Z unit) :=
  let* e := sys (Exists dir) in
  if negb (yes e) then pok tt else
  let* r := sys (ReadDir dir) in
  if negb (ok r) then perr (rerr r) else wipe_entries dir (rlist r).

Definition create_error {A} (o : outcome JailError A) : outcome string A :=
  omap_err (λ e, "snapshot create: " +:+ show_error e)%string o.
Definition pause_workspace (fuel : nat) (ws : Workspace) : act (outcome string unit) :=
  let+ b := random_bytes 12 in
  let snap_id := new_snapshot_id b in
  let+ snap_dir := aread (λ st, path_join (path_join (a_state_dir st) "snapshots") snap_id) in
  let+ pool := aread a_pool_dir in
  try+ snap := (let+ o := alift (match pool with
                                 | Some pool => create_incremental fuel (w_source_dir ws) snap_dir pool
                                 | None => create fuel (w_source_dir ws) snap_dir
                                 end) in aret (create_error o)) in
  let+ size := alift (match pool with
                      | Some _ => let* m := load_manifest snap_dir in
                                  (match m with Ok m => Ret (manifest_size_bytes m) | _ => snapshot_size_bytes fuel snap end)
                      | None => snapshot_size_bytes fuel snap
                      end) in
  let+ t := now_utc in
  let record := MkSnap snap_id (w_tenant_id ws) (Some (w_id ws)) (Some ("auto:" +:+ w_id ws)%string) t (SnapshotStore.sn_path snap) size in
  let+ o := insert_snapshot record in
  match o with
  | Err e => let+ _ := alift (sys (RemoveDirAll snap_dir)) in aret (Err ("snapshot insert: " +:+ ctl_display e)%string)
  | Panic => aret Panic
  | Ok _ =>
      let+ _ := alift (wipe_dir_contents (w_source_dir ws)) in
      let+ t := now_utc in
      let+ _ := amod (λ st, set_workspaces (ws_mark_paused t (w_id ws) snap_id (a_workspaces st)) st) in
      aret (Ok tt)
  end.

(** ** The reaper's pass *)
Fixpoint reap_loop (fuel : nat) (now : Z) (rows : list Workspace) (paused : nat) : act (outcome string nat) :=
  match rows with
  | [] => aret (Ok paused)
  | w :: rest =>
      match idle_due odt_sub now w with
      | None => aret Panic
      | Some false => reap_loop fuel now rest paused
      | Some true =>
          let+ o := pause_workspace fuel w in
          match o with
          | Ok _ => reap_loop fuel now rest (S paused)
          | Err _ => reap_loop fuel now rest paused
          | Panic => aret Panic
          end
      end
  end.
Definition reap_once (fuel : nat) : act (outcome string nat) :=
  let+ rows := aread (λ st, (ws_list None 500 0 None (a_workspaces st)).1) in
  let+ now := now_utc in
  reap_loop fuel now rows 0.

(** ** The collector's pass *)
Fixpoint collect_rows (rows : list SnapshotRecord) (deleted : nat) : act nat :=
  match rows with
  | [] => aret deleted
  | r :: rest =>
      let+ e := alift (sys (Exists (Snapshots.sn_path r))) in
      let+ _ := (if yes e then let+ _ := alift (sys (RemoveDirAll (Snapshots.sn_path r))) in aret tt else aret tt) in
      let+ gone := (λ st, let '(o, s) := snap_remove (sn_id r) (a_snapshots st) in Ret (set_snapshots s st, o)) in
      collect_rows rest (match gone with Some _ => S deleted | None => deleted end)
  end.
Definition collect_once (cfg : SnapshotGcConfig) : act (outcome string nat) :=
  if negb (gc_is_enabled cfg) then aret (Ok 0%nat) else
  let+ rows := aread (λ st, (snap_list None None (Z.to_nat 10000) 0 None (a_snapshots st)).1) in
  let+ old := (match gc_max_age_secs cfg with
               | None => aret (Some [])
               | Some _ => let+ now := now_utc in aret (gc_too_old odt_sub now cfg rows)
               end) in
  match old with
  | None => aret Panic
  | Some old =>
      let+ n := collect_rows (dedup_by_id (sort_by snap_id_le (old ++ gc_surplus cfg rows))) 0 in
      aret (Ok n)
  end.

(** ** The timer tasks: after [ticks] ticks; a panic ends the task. *)
Fixpoint sweep_task (pass : act (outcome string nat)) (ticks : nat) : act (outcome string unit) :=
  match ticks with
  | O => aret (Ok tt)
  | S n => let+ o := pass in match o with Panic => aret Panic | _ => sweep_task pass n end
  end.
(** Its period in seconds, and the task; [None]: not started. *)
Definition spawn_idle_sweeper (fuel : nat) (tick_secs : Z) : option (Z * (nat → act (outcome string unit))) :=
  if tick_secs =? 0 then None else Some (Z.max tick_secs 1, sweep_task (reap_once fuel)).
Definition spawn_gc_sweeper (cfg : SnapshotGcConfig) : option (Z * (nat → act (outcome string unit))) :=
  if negb (gc_is_enabled cfg) then None else Some (Z.max (gc_tick_secs cfg) 1, sweep_task (collect_once cfg)).
End sweepers.

(** ** Actions on the file system *)
Section host.
Context `{Oracle}.
Lemma fsrun_abind {A B} (m : act A) (f : A → act B) st w :
  fsrun w (abind m f st) = match fsrun w (m st) with (Some (st', a), w') => fsrun w' (f a st') | (None, w') => (None, w') end.
Proof. unfold abind. rewrite fsrun_bind. by destruct (fsrun w (m st)) as [[[st' a]|] w']. Qed.
Lemma fsrun_alift {A} (p : prog A) st w :
  fsrun w (alift p st) = match fsrun w p with (Some a, w') => (Some (st, a), w') | (None, w') => (None, w') end.
Proof. unfold alift. by rewrite fsrun_bind. Qed.
(** The next step of an action that ends. *)
Lemma fsrun_abind_Some {A B} (m : act A) (f : A → act B) st w r w' :
  fsrun w (abind m f st) = (Some r, w') → ∃ st1 a w1, fsrun w (m st) = (Some (st1, a), w1) ∧ fsrun w1 (f a st1) = (Some r, w').
Proof. rewrite fsrun_abind. destruct (fsrun w (m st)) as [[[st1 a]|] w1]; [|done]. eauto. Qed.
Lemma fsrun_alift_Some {A} (p : prog A) st w st' a w' :
  fsrun w (alift p st) = (Some (st', a), w') → st' = st ∧ fsrun w p = (Some a, w').
Proof. rewrite fsrun_alift. destruct (fsrun w p) as [[b|] w1]; [|done]. by intros [= <- <- <-]. Qed.
Lemma fsrun_atry_ok {E A B} (m : act (outcome E A)) (f : A → act (outcome E B)) st w st' b w' :
  fsrun w (atry m f st) = (Some (st', Ok b), w') →
  ∃ st1 a w1, fsrun w (m st) = (Some (st1, Ok a), w1) ∧ fsrun w1 (f a st1) = (Some (st', Ok b), w').
Proof. intros (st1 & [a|e|] & w1 & Hm & Hf)%fsrun_abind_Some; [eauto|by injection Hf..]. Qed.
Lemma fsrun_now st w st' t w' : fsrun w (now_utc st) = (Some (st', t), w') → st' = st ∧ w' = tick w.
Proof. intros (st1 & r & w1 & [-> [= <- <-]]%fsrun_alift_Some & [= <- <- <-])%fsrun_abind_Some. done. Qed.

(** ** Wiping touches only the directory, however far it gets *)
Definition within (l : loc) (w w' : fs) : Prop := wf w' ∧ same_outside l w w' ∧ tree w' !! l = Some EDir.
Lemma within_tick l w w' : within l w w' → within l w (tick w').
Proof. intros (Hw & Hs & Hd). split; [by apply wf_tick|]. split; [by apply same_tick|done]. Qed.
Lemma within_refl l w : wf w → tree w !! l = Some EDir → within l w w.
Proof. intros Hw Hd. split; [done|]. split; [apply same_refl|done]. Qed.
Lemma within_remove l n w0 w : within l w0 w → within l w0 (set_tree w (remove_below (l ++ [n]) (tree w))).
Proof.
  intros (Hw & Hs & Hd). split; [apply wf_remove; [done|by destruct l]|]. split.
  - eapply same_trans; [done|]. eapply same_weaken; [|apply same_remove]. by apply prefix_app_r.
  - simpl. rewrite remove_below_lookup, decide_False; [done|]. intros Hu%prefix_length. rewrite length_app in Hu. simpl in Hu. lia.
Qed.
Lemma exec_remove_within c l n p w0 w r w' :
  c = RemoveFile p ∨ c = RemoveDirAll p → names p (l ++ [n]) → within l w0 w → fs_exec c w = (r, w') → within l w0 w'.
Proof.
  intros Hc Hp Hin Hx. destruct (Hin) as (Hw & _ & Hd).
  assert (w' = w ∨ w' = set_tree w (remove_below (l ++ [n]) (tree w))) as [-> | ->]; [|done|by apply within_remove].
  destruct Hc as [-> | ->]; revert Hx; cbn [fs_exec]; (destruct (ok _); cbn [negb]; [|intros [= <- <-]; by left]);
    rewrite (resolve_names w false p (l ++ [n])) by (done || by apply placed_join); cbn [mbind option_bind];
    destruct (tree w !! (l ++ [n])) as [e|] eqn:He; cbn [mbind option_bind]; try (intros [= <- <-]; by left).
  - destruct e; intros [= <- <-]; [by left|..]; right; rewrite delete_leaf by (done || by rewrite He); done.
  - intros [= <- <-]. by right.
Qed.
Lemma exec_look_tick c l w0 w r w' : looks c → within l w0 w → fs_exec c w = (r, w') → within l w0 (tick w').
Proof. intros Hl Hin ->%looks_same; [by apply within_tick|done]. Qed.
Lemma wipe_entries_within dir l w0 entries w o w' :
  names dir l → (∀ n, Some n ∈ entries → plain n) → within l w0 w →
  fsrun w (wipe_entries dir entries) = (o, w') → within l w0 w'.
Proof.
  intros Hp. revert w. induction entries as [|[n|] rest IH]; intros w Hpl Hin; [by intros [= <- <-]| |by intros [= <- <-]].
  assert (names (path_join dir n) (l ++ [n])) as Hn by (apply names_join; [done|]; apply Hpl; by left).
  cbn [wipe_entries sys pbind fsrun waits opens]. destruct (fs_exec (FileType _) w) as [ft w1] eqn:Ef.
  apply (exec_look_tick _ l w0) in Ef; [|done..]. destruct (ok ft); cbn [negb]; [|by intros [= <- <-]].
  rewrite fsrun_bind. destruct (fsrun (tick w1) _) as [[r|] w2] eqn:Er; cycle 1.
  { exfalso. revert Er. destruct (is_symlink_type ft), (is_dir_type ft); cbn [sys fsrun waits opens]; case_match; done. }
  assert (within l w0 w2) as Hin2.
  { revert Er. destruct (is_symlink_type ft), (is_dir_type ft); cbn [sys fsrun waits opens]; destruct (fs_exec _ (tick w1)) as [r1 w3] eqn:Ex;
      intros [= <- <-]; apply within_tick; (eapply (exec_remove_within _ l n (path_join dir n)); [|done|exact Ef|exact Ex]; auto). }
  destruct (ok r); cbn [negb]; [|by intros [= <- <-]]. apply IH; [|done]. intros m Hm. apply Hpl. by right.
Qed.
Lemma listing_elem n l m : Some m ∈ listing n l → m ∈ l.
Proof.
  destruct (listing_law n l) as (l' & Hl & [->|[k ->]]); intros Hm; rewrite <- Hl.
  - apply list_elem_of_fmap in Hm as (x & [= ->] & Hx). done.
  - apply elem_of_app in Hm as [(x & [= ->] & Hx)%list_elem_of_fmap|Hm%list_elem_of_singleton]; [|done].
    by eapply elem_of_take in Hx as (i & Hi%list_elem_of_lookup_2 & _).
Qed.
Lemma wipe_within dir l w o w' :
  wf w → names dir l → tree w !! l = Some EDir → fsrun w (wipe_dir_contents dir) = (o, w') → within l w w'.
Proof.
  intros Hw Hp Hd. unfold wipe_dir_contents. cbn [sys pbind fsrun waits opens]. destruct (fs_exec (Exists dir) w) as [e w1] eqn:Ee.
  apply looks_same in Ee as ->; [|done]. assert (within l w (tick w)) as Hin by (by apply within_tick, within_refl).
  destruct (yes e); cbn [negb]; [|by intros [= <- <-]]. cbn [pbind fsrun waits opens].
  destruct (fs_exec (ReadDir dir) (tick w)) as [r w2] eqn:Er. destruct (ok r) eqn:Eo; cbn [negb].
  - apply (exec_readdir _ _ l) in Er as [-> Hls]; [|by apply wf_tick|done..]. apply wipe_entries_within; [done| |by apply within_tick].
    rewrite Hls. intros n [e' He]%listing_elem%elem_of_children. by eapply (wf_plain w).
  - apply looks_same in Er as ->; [|done]. intros [= <- <-]. by apply within_tick.
Qed.
End host.

(** ** Pausing and resuming *)
Section idle.
Context `{HexEncode} `{Json} `{Blake3} `{Oracle} (show_error : JailError → string).
Lemma snapshot_id_plain b : plain (new_snapshot_id b).
Proof.
  unfold new_snapshot_id. rewrite hex_encode_spec. split; [|done]. apply no_slash_split. rewrite str_elem_app.
  intros [Hs|(n & Hn & Hr)%str_elem_hex]; [simpl in Hs; naive_solver|]. destruct (hex_digit_range n Hr) as (_ & _ & ?). congruence.
Qed.
(** The identifier the next draw gives. *)
Definition drawn_id (w : fs) : string := new_snapshot_id (byte_of <$> take 12 (rbytes (answer (steps w) (Getrandom 12)))).

(** A host without a pool on which [ws], a stored row with its source directory at
    [dt ++ [nt]], is about to be paused; [d] is the directory of the snapshots, and
    the identifier that is drawn is new. *)
Record idle_host (w : fs) (st : AppState) (ws : Workspace) (dt : loc) (nt : string) (d : loc) : Prop := {
  ih_wf : wf w;
  ih_pool : a_pool_dir st = None;
  ih_rows : poisoned (a_workspaces st) = false ∧ poisoned (a_snapshots st) = false;
  ih_row : inner (a_workspaces st) !! w_id ws = Some ws;
  ih_source : names (w_source_dir ws) (dt ++ [nt]) ∧ tree w !! (dt ++ [nt]) = Some EDir;
  ih_snaps : names (path_join (a_state_dir st) "snapshots") d ∧ tree w !! d = Some EDir;
  ih_new : vacant w (d ++ [drawn_id w]);
  ih_apart : apart (dt ++ [nt]) (d ++ [drawn_id w])
}.
(** What a successful pause leaves behind. *)
Record paused_as (w : fs) (st : AppState) (ws : Workspace) (l ls : loc) (snap_dir : string) (w' : fs) (st' : AppState) (t : Z) (snap : SnapshotRecord) : Prop := {
  pa_wf : wf w';
  pa_copy rel : view w' (ls ++ rel) = view w (l ++ rel);
  pa_dir : tree w' !! l = Some EDir;
  pa_snap : sn_id snap = drawn_id w ∧ Snapshots.sn_path snap = snap_dir ∧ sn_tenant_id snap = w_tenant_id ws ∧ sn_workspace_id snap = Some (w_id ws);
  pa_state : st' = set_workspaces (lock_write (alter (set_pause (Some t) (Some (drawn_id w))) (w_id ws)) (a_workspaces st))
                     (set_snapshots (lock_write (<[drawn_id w := snap]>) (a_snapshots st)) st)
}.
Lemma same_files_wf w w' : wf w → same_files w w' → wf w'.
Proof. intros [H1' H2' H3' H4'] (Ht & Hn & Hi). split; rewrite ?Ht, ?Hn, ?Hi; auto. Qed.
Lemma size_looks fuel s : only looks (snapshot_size_bytes fuel s).
Proof. apply only_bind; [apply dir_size_looks|]. by intros [| |]. Qed.
Lemma random_drawn w st st' b w' : fsrun w (random_bytes 12 st) = (Some (st', b), w') → st' = st ∧ new_snapshot_id b = drawn_id w ∧ w' = tick w.
Proof. intros (st1 & r & w1 & [-> [= <- <-]]%fsrun_alift_Some & [= <- <- <-])%fsrun_abind_Some. done. Qed.

Lemma pause_ok fuel w st ws dt nt d w' st' u :
  idle_host w st ws dt nt d → fsrun w (pause_workspace show_error fuel ws st) = (Some (st', Ok u), w') →
  ∃ t snap, paused_as w st ws (dt ++ [nt]) (d ++ [drawn_id w]) (path_join (path_join (a_state_dir st) "snapshots") (drawn_id w)) w' st' t snap.
Proof.
  intros [Hw Hpool [Hpw Hps] Hrow [Hsn Hsd] [Hdn Hdd] Hnew Hap]. unfold pause_workspace.
  intros (st1 & b & w1 & (-> & Hb & ->)%random_drawn & Hr)%fsrun_abind_Some. rewrite Hb in Hr.
  apply fsrun_abind_Some in Hr as (? & ? & ? & [= <- <- <-] & Hr). apply fsrun_abind_Some in Hr as (? & ? & ? & [= <- <- <-] & Hr). rewrite Hpool in Hr.
  set (snap_dir := path_join _ (drawn_id w)) in *.
  assert (names snap_dir (d ++ [drawn_id w])) as Hsnd by (apply names_join; [done|apply snapshot_id_plain]).
  apply fsrun_atry_ok in Hr as (st1 & snap & w1 & (? & o & w2 & [-> Hc]%fsrun_alift_Some & [= <- Ho <-])%fsrun_abind_Some & Hr).
  destruct o as [s|e|]; [|done..]. injection Ho as ->.
  apply (create_ok fuel (tick w) _ snap_dir (dt ++ [nt]) d (drawn_id w)) in Hc as [-> Hcp]; [|by apply wf_tick|done..].
  pose proof (copied_view _ _ _ _ Hcp) as Hcv. destruct Hcp as (Hw2 & Hs2 & _). apply same_untick in Hs2.
  apply fsrun_abind_Some in Hr as (? & size & w3 & [-> Hz]%fsrun_alift_Some & Hr). apply fsrun_looks in Hz; [|apply size_looks].
  apply fsrun_abind_Some in Hr as (? & t & w4 & [-> ->]%fsrun_now & Hr). cbn [SnapshotStore.sn_path] in Hr.
  set (record := MkSnap _ _ _ _ _ _ _) in Hr. apply fsrun_abind_Some in Hr as (st5 & oi & w5 & Hi & Hr).
  assert (oi = Ok tt ∧ st5 = set_snapshots (lock_write (<[drawn_id w := record]>) (a_snapshots st)) st ∧ w5 = tick w3) as (-> & -> & ->).
  { revert Hi. unfold insert_snapshot, snap_insert, lock_read. rewrite Hps. case_bool_decide; [|by intros [= <- <- <-]].
    intros [= <- <- <-]. exfalso. cbn iota in Hr. apply fsrun_abind_Some in Hr as (? & ? & ? & _ & [=]). }
  assert (wf (tick w3) ∧ tree (tick w3) !! (dt ++ [nt]) = Some EDir) as [Hw3 Hd3].
  { split; [by apply wf_tick, (same_files_wf w2)|]. destruct Hz as (Ht & _). simpl. rewrite Ht, (so_tree _ _ _ Hs2); [done|apply Hap]. }
  apply fsrun_abind_Some in Hr as (? & ? & w6 & [-> Hwipe]%fsrun_alift_Some & Hr).
  apply (wipe_within _ (dt ++ [nt])) in Hwipe as (Hw6 & Hs6 & Hd6); [|done..].
  apply fsrun_abind_Some in Hr as (? & t' & w7 & [-> ->]%fsrun_now & Hr).
  apply fsrun_abind_Some in Hr as (? & ? & w8 & [= <- _ <-] & [= <- _ <-]). exists t', record. split; [by apply wf_tick| |done|done|done].
  intros rel. change (view (tick w6) ((d ++ [drawn_id w]) ++ rel)) with (view w6 ((d ++ [drawn_id w]) ++ rel)).
  rewrite (same_view _ _ _ _ Hw3 Hs6); [|apply (apart_below (d ++ [drawn_id w])); [by apply apart_sym|by apply prefix_app_r]].
  change (view (tick w3) ((d ++ [drawn_id w]) ++ rel)) with (view w3 ((d ++ [drawn_id w]) ++ rel)). by rewrite (same_files_view _ _ _ Hz), Hcv.
Qed.
(** A resume that succeeds gives the source directory the snapshot's contents and
    the row back its unpaused form. *)
Lemma resume_ok fuel w st ws dt nt ls snap t w' st' u :
  wf w → a_pool_dir st = None → poisoned (a_workspaces st) = false → poisoned (a_snapshots st) = false →
  inner (a_snapshots st) !! sn_id snap = Some snap → names (Snapshots.sn_path snap) ls → tree w !! ls = Some EDir →
  names (w_source_dir ws) (dt ++ [nt]) → tree w !! dt = Some EDir →
  tree w !! (dt ++ [nt]) = None ∨ tree w !! (dt ++ [nt]) = Some EDir → apart ls (dt ++ [nt]) →
  fsrun w (auto_resume show_error fuel (set_pause (Some t) (Some (sn_id snap)) ws) st) = (Some (st', Ok u), w') →
  copied id w ls (dt ++ [nt]) w' ∧ st' = set_workspaces (lock_write (alter (set_pause None None) (w_id ws)) (a_workspaces st)) st.
Proof.
  intros Hw Hpool Hpw Hps Hsnap Hsn Hls Ht Hdt Hx Hap. unfold auto_resume. cbn [w_paused_at w_auto_snapshot set_pause w_source_dir w_id].
  intros Hr. apply fsrun_abind_Some in Hr as (? & ? & ? & [= <- <- <-] & Hr).
  unfold snap_get, lock_read in Hr. rewrite Hps in Hr. cbn [mbind option_bind] in Hr. rewrite Hsnap in Hr.
  apply fsrun_abind_Some in Hr as (? & ? & ? & [= <- <- <-] & Hr). rewrite Hpool in Hr.
  apply fsrun_atry_ok in Hr as (st1 & v & w1 & [-> Hc]%fsrun_alift_Some & Hr).
  apply fsrun_abind_Some in Hr as (? & ? & w2 & [= <- _ <-] & [= <- _ <-]). split; [|done].
  by apply (restore_classic_ok show_error fuel w (Snapshots.sn_path snap) (w_source_dir ws) ls dt nt v).
Qed.

(** C35: Pausing and resuming a workspace.  On a server without an object pool, whose
    snapshots lie outside the workspace, the reaper draws a new identifier: it captures the source directory of an
    idle workspace, stores the snapshot's row, empties the directory (as far as the
    system lets it) and marks the row paused.  If afterwards the snapshot's row and
    directory are left alone, an exec's automatic resume that succeeds leaves in the
    source directory exactly the regular files and directories, with their contents
    and modes, that were there before the pause (links and special files are not
    captured and are gone), touches nothing outside it, and clears the pause of the
    row.  If the snapshot's row is gone by then, the resume succeeds all the same, and
    leaves both the emptied directory and the pause as they are.  This holds on every
    file system, for every order of directory listings and every failing call. *)
Theorem idle_pause_resume_roundtrip (fuel : nat) (w w1 : fs) (st st1 : AppState) (ws : Workspace) (dt d : loc) (nt : string) :
  idle_host w st ws dt nt d →
  fsrun w (pause_workspace show_error fuel ws st) = (Some (st1, Ok tt), w1) →
  ∃ t snap, let ws1 := set_pause (Some t) (Some (sn_id snap)) ws in
    inner (a_workspaces st1) !! w_id ws = Some ws1 ∧ inner (a_snapshots st1) !! sn_id snap = Some snap ∧
    sn_tenant_id snap = w_tenant_id ws ∧ wf w1 ∧ tree w1 !! (dt ++ [nt]) = Some EDir ∧
    (∀ fuel' w2 st2, snap_get (sn_id snap) (a_snapshots st2) = None →
       fsrun w2 (auto_resume show_error fuel' ws1 st2) = (Some (st2, Ok tt), w2)) ∧
    ∀ fuel' w2 st2 w3 st3 u,
      wf w2 → (∀ rel, view w2 ((d ++ [sn_id snap]) ++ rel) = view w1 ((d ++ [sn_id snap]) ++ rel)) → tree w2 !! dt = Some EDir →
      tree w2 !! (dt ++ [nt]) = None ∨ tree w2 !! (dt ++ [nt]) = Some EDir →
      a_pool_dir st2 = None → poisoned (a_workspaces st2) = false → poisoned (a_snapshots st2) = false →
      inner (a_workspaces st2) !! w_id ws = Some ws1 → inner (a_snapshots st2) !! sn_id snap = Some snap →
      fsrun w2 (auto_resume show_error fuel' ws1 st2) = (Some (st3, Ok u), w3) →
      (∀ rel, view w3 ((dt ++ [nt]) ++ rel) = view w ((dt ++ [nt]) ++ rel)) ∧ same_outside (dt ++ [nt]) w2 w3 ∧
      inner (a_workspaces st3) !! w_id ws = Some (set_pause None None ws).
Proof.
  intros Hi Hr. destruct (pause_ok _ _ _ _ _ _ _ _ _ _ Hi Hr) as (t & snap & [Hw1 Hcopy Hdir (Hid & Hpath & Hten & _) ->]).
  destruct Hi as [Hw Hpool [Hpw Hps] Hrow [Hsn Hsd] [Hdn Hdd] Hnew Hap]. exists t, snap. cbn zeta. rewrite Hid.
  split; [simpl; unfold lock_write; rewrite Hpw; simpl; by rewrite lookup_alter_eq, Hrow|].
  split; [simpl; unfold lock_write; rewrite Hps; simpl; by rewrite lookup_insert_eq|].
  split; [done|]. split; [done|]. split; [done|]. split.
  { intros fuel' w2 st2 Hno. unfold auto_resume. cbn [w_paused_at w_auto_snapshot set_pause]. rewrite fsrun_abind. cbn [aread fsrun]. by rewrite Hno. }
  intros fuel' w2 st2 w3 st3 u Hw2 Hkeep Hdt Hx Hpool2 Hpw2 Hps2 Hrow2 Hsnap2 Hr2.
  assert (names (Snapshots.sn_path snap) (d ++ [drawn_id w])) as Hnp by (rewrite Hpath; apply names_join; [done|apply snapshot_id_plain]).
  assert (tree w2 !! (d ++ [drawn_id w]) = Some EDir) as Hls.
  { specialize (Hkeep []). specialize (Hcopy []). rewrite !app_nil_r in *. rewrite Hcopy in Hkeep. unfold view in Hkeep. rewrite Hsd in Hkeep.
    destruct (tree w2 !! (d ++ [drawn_id w])) as [[|i| | |]|]; try done. by destruct (nodes w2 !! i). }
  rewrite <- Hid in Hr2, Hsnap2.
  apply (resume_ok fuel' w2 st2 ws dt nt (d ++ [drawn_id w]) snap t) in Hr2 as [Hcp ->]; [|try done..|by apply apart_sym].
  pose proof (copied_view _ _ _ _ Hcp) as Hcv. destruct Hcp as (_ & Hs3 & _).
  split; [intros rel; by rewrite Hcv, Hkeep, Hcopy|]. split; [done|].
  simpl. unfold lock_write. rewrite Hpw2. simpl. by rewrite lookup_alter_eq, Hrow2.
Qed.
End idle.

(** ** The collector on the host *)
Section gc.
Context `{HashIter} `{Lowercase} (odt_sub : Z → Z → option Z).
(** The calls a pass may make for the paths [ps]. *)
Definition sweep_call (ps : list string) (c : syscall) : Prop := c = NowUtc ∨ ∃ p, p ∈ ps ∧ (c = Exists p ∨ c = RemoveDirAll p).
(** The directory [p] was looked for among the calls [u], and removed if it was there. *)
Definition swept (u : trace) (p : string) : Prop :=
  ∃ x, (Exists p, x) ∈ u ∧ (yes x = true → ∃ y, (RemoveDirAll p, y) ∈ u).
Lemma swept_sub u u' p : u ⊆ u' → swept u p → swept u' p.
Proof. intros Hu (x & Hx & Hr). exists x. split; [by apply Hu|]. intros [y Hy]%Hr. exists y. by apply Hu. Qed.
Abbreviation every_path := (λ _ : string, true).
Lemma gc_loop_paths rows s n removed : (gc_loop every_path rows s n removed).2 = removed ++ (Snapshots.sn_path <$> rows).
Proof.
  revert s n removed. induction rows as [|r rows IH]; intros s n removed; [by rewrite app_nil_r|]. cbn [gc_loop].
  destruct (snap_remove (sn_id r) s). rewrite IH, <- app_assoc. done.
Qed.
(** The calls for the rows: only on their directories, and each of those is swept. *)
Definition sweeps (rows : list SnapshotRecord) (u : trace) : Prop :=
  (∀ c x, (c, x) ∈ u → sweep_call (Snapshots.sn_path <$> rows) c) ∧ ∀ r, r ∈ rows → swept u (Snapshots.sn_path r).
Lemma sweeps_cons r rows u v :
  (∀ c x, (c, x) ∈ u → c = Exists (Snapshots.sn_path r) ∨ c = RemoveDirAll (Snapshots.sn_path r)) → swept u (Snapshots.sn_path r) →
  sweeps rows v → sweeps (r :: rows) (u ++ v).
Proof.
  intros Hu Hs [Hv Hr]. split.
  - intros c x [Hc|Hc]%elem_of_app; [right; exists (Snapshots.sn_path r); split; [by left|by eapply Hu]|].
    destruct (Hv c x Hc) as [?|(p & Hp & ?)]; [by left|right; exists p; split; [by right|done]].
  - intros r' [->|Hr']%elem_of_cons; [eapply swept_sub; [|done]|eapply swept_sub; [|by apply Hr]]; intros y Hy; apply elem_of_app; auto.
Qed.
Lemma collect_rows_run K rows tr deleted removed st :
  ∃ u, run K tr (collect_rows rows deleted st) =
         (tr ++ u, Some (set_snapshots (gc_loop every_path rows (a_snapshots st) deleted removed).1.1 st,
                         (gc_loop every_path rows (a_snapshots st) deleted removed).1.2)) ∧ sweeps rows u.
Proof.
  revert tr deleted removed st. induction rows as [|r rows IH]; intros tr deleted removed st.
  { exists []. rewrite app_nil_r. split; [by destruct st|]. split; [by intros c x Hc%elem_of_nil|by intros r Hr%elem_of_nil]. }
  cbn [collect_rows gc_loop]. rewrite run_abind. cbn [alift sys pbind run]. set (e := K tr _). set (p := Snapshots.sn_path r) in *.
  rewrite run_abind.
  assert (∃ u, run K (tr ++ [(Exists p, e)]) ((if yes e then let+ _ := alift (sys (RemoveDirAll p)) in aret tt else aret tt) st) = (tr ++ u, Some (st, tt)) ∧
    (∀ c x, (c, x) ∈ u → c = Exists p ∨ c = RemoveDirAll p) ∧ swept u p) as (u & -> & Hu & Hs).
  { destruct (yes e) eqn:Ey.
    - eexists ([(Exists p, e)] ++ [_]). rewrite app_assoc. split; [reflexivity|]. split; [set_solver|]. exists e. split; [set_solver|]. intros _. eexists. apply elem_of_app. right. by left.
    - exists [(Exists p, e)]. split; [done|]. split; [set_solver|]. exists e. split; [set_solver|congruence]. }
  rewrite run_abind. cbn [run]. destruct (snap_remove (sn_id r) (a_snapshots st)) as [o s1] eqn:E. cbn [run].
  destruct (IH (tr ++ u) (match o with Some _ => S deleted | None => deleted end) (removed ++ [p]) (set_snapshots s1 st)) as (v & -> & Hv).
  exists (u ++ v). rewrite <- app_assoc. split; [|by apply sweeps_cons]. cbn [a_snapshots set_snapshots].
  replace (match o with Some _ => (deleted + 1)%nat | None => deleted end) with (match o with Some _ => S deleted | None => deleted end)
    by (destruct o; [lia|done]). done.
Qed.

(** The clock a pass reads is the answer to its first call. *)
Definition sweep_clock (K : kernel) (tr : trace) : Z := rv (K tr NowUtc).
(** A pass on the host is the pass over the store, with the removals as calls. *)
Lemma collect_run K tr cfg st : gc_is_enabled cfg = true →
  ∃ u, match gc_run_once odt_sub every_path (sweep_clock K tr) cfg (a_snapshots st) with
  | None => run K tr (collect_once odt_sub cfg st) = (tr ++ u, Some (st, Panic)) ∧ ∀ c x, (c, x) ∈ u → c = NowUtc
  | Some (s, deleted, paths) => run K tr (collect_once odt_sub cfg st) = (tr ++ u, Some (set_snapshots s st, Ok deleted)) ∧
      (∀ c x, (c, x) ∈ u → sweep_call paths c) ∧ ∀ p, p ∈ paths → swept u p
  end.
Proof.
  intros Hen. unfold collect_once, gc_run_once. rewrite Hen. cbn [negb].
  set (rows := (snap_list None None (Z.to_nat 10000) 0 None (a_snapshots st)).1).
  assert (snap_list None None (Z.to_nat 10000) 0 None (a_snapshots st) = (rows, (snap_list None None (Z.to_nat 10000) 0 None (a_snapshots st)).2)) as ->
    by apply surjective_pairing.
  assert (∃ t1, (∀ (f : list SnapshotRecord → option (list SnapshotRecord) → act (outcome string nat)),
    run K tr (abind (aread (λ st, (snap_list None None (Z.to_nat 10000) 0 None (a_snapshots st)).1))
       (λ rows, abind (match gc_max_age_secs cfg with None => aret (Some []) | Some _ => let+ now := now_utc in aret (gc_too_old odt_sub now cfg rows) end) (f rows)) st)
    = run K (tr ++ t1) (f rows (gc_too_old odt_sub (sweep_clock K tr) cfg rows) st)) ∧ ∀ c x, (c, x) ∈ t1 → c = NowUtc) as (t1 & Hrun & Ht1).
  { unfold gc_too_old. destruct (gc_max_age_secs cfg) as [a|].
    - eexists [_]. split; [intros f; reflexivity|]. intros c x [= -> _]%list_elem_of_singleton. done.
    - exists []. rewrite app_nil_r. split; [done|]. by intros c r Hc%elem_of_nil. }
  rewrite (Hrun (λ rows old, match old with
    | None => aret Panic
    | Some old => let+ n := collect_rows (dedup_by_id (sort_by snap_id_le (old ++ gc_surplus cfg rows))) 0 in aret (Ok n) end)). clear Hrun.
  destruct (gc_too_old odt_sub _ cfg rows) as [old|]; cbn [mbind option_bind]; [|by exists t1].
  set (doomed := dedup_by_id _). pose proof (gc_loop_paths doomed (a_snapshots st) 0 []) as Hp.
  destruct (collect_rows_run K doomed (tr ++ t1) 0 [] st) as (u & Hr & Hu & Hs).
  rewrite run_abind. exists (t1 ++ u). destruct (gc_loop every_path doomed (a_snapshots st) 0 []) as [[s n] paths]. cbn [fst snd] in *. subst paths.
  rewrite Hr, app_assoc. split; [done|]. split.
  - intros c x [Hc|Hc]%elem_of_app; [left; by eapply Ht1|by eapply Hu].
  - intros p (r & -> & Hr')%list_elem_of_fmap. eapply swept_sub; [|by apply Hs]. intros y Hy. apply elem_of_app. by right.
Qed.

(** Does the pass panic when it subtracts the age limit from the time? *)
Definition cutoff_panics (now : Z) (cfg : SnapshotGcConfig) : bool :=
  match gc_max_age_secs cfg with Some secs => bool_decide (odt_sub now (i64_wrap secs * 10 ^ 9) = None) | None => false end.
Lemma gc_panics_iff now cfg s : gc_is_enabled cfg = true →
  cutoff_panics now cfg = bool_decide (gc_run_once odt_sub every_path now cfg s = None).
Proof.
  intros Hen. unfold cutoff_panics, gc_run_once, gc_too_old. rewrite Hen. cbn [negb]. destruct (snap_list None None _ 0 None s) as [rows k].
  destruct (gc_max_age_secs cfg) as [secs|]; cbn [mbind option_bind]; [|by rewrite bool_decide_false].
  destruct (odt_sub now _); cbn [mbind option_bind]; [by rewrite !bool_decide_false|done].
Qed.
Lemma gc_keeps_iff now cfg i r : gc_keeps odt_sub now cfg i r = true ↔
  (∀ m, gc_max_count cfg = Some m → (i < m)%nat) ∧
  ∀ secs cutoff, gc_max_age_secs cfg = Some secs → odt_sub now (i64_wrap secs * 10 ^ 9) = Some cutoff → cutoff ≤ sn_created_at r.
Proof.
  unfold gc_keeps. rewrite andb_true_iff. apply Morphisms_Prop.and_iff_morphism.
  - destruct (gc_max_count cfg) as [m|]; [|by split]. rewrite Nat.ltb_lt. split; [by intros ? ? [= <-]|by intros Hm; apply Hm].
  - destruct (gc_max_age_secs cfg) as [secs|]; [|by split]. destruct (odt_sub now _) as [cut|] eqn:Eo.
    + rewrite Z.leb_le. split; [by intros ? ? ? [= <-]; rewrite Eo; intros [= <-]|by intros Hc; apply (Hc secs)].
    + split; [|done]. intros _ ? ? [= <-]. by rewrite Eo.
Qed.

(** C19: The collector keeps to its policy.  On every kernel a pass ends.  Let [all]
    be the rows of the store, newest first.  The pass panics exactly if subtracting the
    age limit from the time, the clock's answer to the pass, does; then it changed
    nothing.  Otherwise the row at position [i] stays exactly if it lies beyond the
    newest 500, which the pass never sees, or the policy keeps it: [i] is below the
    count cap, and it was not created before the cut-off; the number
    reported is the number of rows that went.  The directory of every row that
    went was looked for and, if it was there, its removal was asked for; no other call
    is made besides reading the clock, and of the state nothing but the snapshots'
    rows changes. *)
Theorem gc_sweep_exact (K : kernel) (tr : trace) (cfg : SnapshotGcConfig) (st : AppState) :
  snaps_ok (a_snapshots st) → gc_is_enabled cfg = true →
  let now := sweep_clock K tr in let before := inner (a_snapshots st) in
  ∃ u all, StronglySorted snap_newest all ∧ NoDup (sn_id <$> all) ∧ (∀ r, r ∈ all ↔ before !! sn_id r = Some r) ∧
  if cutoff_panics now cfg
  then run K tr (collect_once odt_sub cfg st) = (tr ++ u, Some (st, Panic)) ∧ ∀ c x, (c, x) ∈ u → c = NowUtc
  else ∃ s n, run K tr (collect_once odt_sub cfg st) = (tr ++ u, Some (set_snapshots s st, Ok n)) ∧
    (∀ i r, all !! i = Some r → inner s !! sn_id r = Some r ↔ (500 ≤ i)%nat ∨
       ((∀ m, gc_max_count cfg = Some m → (i < m)%nat) ∧
        ∀ secs cutoff, gc_max_age_secs cfg = Some secs → odt_sub now (i64_wrap secs * 10 ^ 9) = Some cutoff → cutoff ≤ sn_created_at r)) ∧
    (∀ id r, inner s !! id = Some r → before !! id = Some r) ∧
    (n + size (inner s) = size before)%nat ∧
    (∀ r, before !! sn_id r = Some r → inner s !! sn_id r = None → swept u (Snapshots.sn_path r)) ∧
    (∀ c x, (c, x) ∈ u → c = NowUtc ∨ ∃ r, before !! sn_id r = Some r ∧ inner s !! sn_id r = None ∧
       (c = Exists (Snapshots.sn_path r) ∨ c = RemoveDirAll (Snapshots.sn_path r))).
Proof.
  intros Hok Hen now before. destruct (collect_run K tr cfg st Hen) as (u & Hu). exists u. fold now in Hu. rewrite (gc_panics_iff now cfg (a_snapshots st) Hen).
  destruct (gc_run_once odt_sub every_path now cfg (a_snapshots st)) as [[[s n] paths]|] eqn:Eg.
  - destruct (gc_exact _ _ _ _ _ _ _ _ Hok Hen Eg) as (all & Hsort & Hnd & Hall & Hrow & Hsub & Hn & Hpaths). destruct Hu as (Hr & Hc & Hs).
    exists all. do 3 (split; [done|]). rewrite bool_decide_false by done. exists s, n. split; [done|].
    split.
    { intros i r Hi. rewrite (Hrow i r Hi), <- (gc_keeps_iff now cfg i r). destruct (Nat.leb_spec 500 i) as [?|?]; cbn [orb]; [tauto|].
      destruct (gc_keeps _ _ _ _ _); split; [by right|done|done|by intros [?|?]; [lia|]]. }
    do 2 (split; [done|]). split; [intros r Hb Hg; apply Hs, Hpaths; by exists r|].
    intros c x [?|(p & (r & Hb & <- & Hg & _)%Hpaths & Hpc)]%Hc; [by left|right]. by exists r.
  - destruct (snap_list_all (a_snapshots st) Hok) as (all & _ & Hsort & Hnd & Hall). exists all. do 3 (split; [done|]). by rewrite bool_decide_true.
Qed.
End gc.

(** The removal of a directory may fail; the collector drops the error and deletes
    the row all the same, so that nothing refers to the directory any more. *)
Theorem gc_forgets_undeleted `{Oracle} (w : fs) (r : SnapshotRecord) (deleted : nat) (st : AppState) :
  (∀ n, ok (answer n (RemoveDirAll (Snapshots.sn_path r))) = false) →
  poisoned (a_snapshots st) = false → inner (a_snapshots st) !! sn_id r = Some r →
  ∃ st' w', fsrun w (collect_rows [r] deleted st) = (Some (st', S deleted), w') ∧
    inner (a_snapshots st') !! sn_id r = None ∧ tree w' = tree w.
Proof.
  intros Hno Hp Hr. cbn [collect_rows]. rewrite fsrun_abind. cbn [alift sys pbind fsrun waits opens].
  destruct (fs_exec (Exists _) w) as [e w1] eqn:Ee. apply looks_same in Ee as ->; [|done]. rewrite fsrun_abind.
  assert (∃ w2, fsrun (tick w) ((if yes e then let+ _ := alift (sys (RemoveDirAll (Snapshots.sn_path r))) in aret tt else aret tt) st)
    = (Some (st, tt), w2) ∧ tree w2 = tree w) as (w2 & -> & Ht).
  { destruct (yes e); [|by exists (tick w)]. rewrite fsrun_abind. cbn [alift sys pbind fsrun fs_exec waits opens]. rewrite Hno. cbn [negb]. by eexists. }
  rewrite fsrun_abind. cbn [fsrun waits opens]. unfold snap_remove, lock_read, lock_write. rewrite Hp. cbn [mbind option_bind fsrun waits opens]. rewrite Hr.
  eexists _, w2. split; [reflexivity|]. split; [cbn; by rewrite lookup_delete_eq|done].
Qed.

(** ** An idle workspace *)
Module SweepExample.
#[local] Existing Instance SnapExample.json_ref.
#[local] Existing Instance SnapExample.hash_ref.
Definition host : fs := build
  [([], EDir); (["state"], EDir); (["state"; "snapshots"], EDir); (["w"], EDir); (["w"; "x"], EFile 0)] [(0%N, MkNode "hello" 420 1)].
Definition ws : Workspace := MkWs "wrk_1" "acme" 1 None "/w" "/o" default_workspace_spec None None None [] None None None.
Definition app : AppState := set_workspaces (new_lock {[ "wrk_1" := ws ]}) MonitorExample.app.
Definition paused : option (AppState * outcome string unit) * fs := fsrun host (pause_workspace SnapExample.no_text 5 ws app).
Definition paused_app : AppState := match paused.1 with Some (st, _) => st | None => app end.
Definition resumed : option (AppState * outcome CtlError unit) * fs :=
  fsrun paused.2 (auto_resume SnapExample.no_text 5 (set_pause (Some 0) (Some (drawn_id host)) ws) paused_app).
(** Two snapshots and a collector that keeps one. *)
Definition keep_one : SnapshotGcConfig := MkGc (Some 60) (Some 1%nat) 60.
Definition full_app : AppState := set_snapshots demo_snaps MonitorExample.app.
Definition collector : kernel := λ _ c, match c with Exists _ => rint 1 | NowUtc => rint 5 | _ => rint 0 end.
Definition resumed_app : AppState := match resumed.1 with Some (st, _) => st | None => app end.
Lemma paused_run : fsrun host (pause_workspace SnapExample.no_text 5 ws app) = (Some (paused_app, Ok tt), paused.2).
Proof. by vm_compute. Qed.
Lemma resumed_run : fsrun paused.2 (auto_resume SnapExample.no_text 5 (set_pause (Some 0) (Some (drawn_id host)) ws) paused_app) = (Some (resumed_app, Ok tt), resumed.2).
Proof. by vm_compute. Qed.
Lemma host_idle : idle_host host app ws [] "w" ["state"; "snapshots"]%string.
Proof.
  assert (wf host) as Hw by (by apply wf_check_ok; vm_compute).
  split; try done; try (by split; [by apply (bool_decide_unpack _); vm_compute|by vm_compute]).
  - split; [by left|]. intros rel Hrel. apply wf_below; [done|by vm_compute|done].
  - by apply (bool_decide_unpack _); vm_compute.
Qed.
End SweepExample.
#[local] Existing Instance SnapExample.json_ref.
#[local] Existing Instance SnapExample.hash_ref.
Lemma idle_pause_resume_roundtrip_witness :
  view SweepExample.paused.2 ["w"; "x"]%string = None ∧
  ∀ rel, view SweepExample.resumed.2 (["w"%string] ++ rel) = view SweepExample.host (["w"%string] ++ rel).
Proof.
  split; [by vm_compute|].
  destruct (idle_pause_resume_roundtrip SnapExample.no_text 5 SweepExample.host SweepExample.paused.2 SweepExample.app SweepExample.paused_app
    SweepExample.ws [] ["state"; "snapshots"]%string "w" SweepExample.host_idle SweepExample.paused_run) as (t & snap & Hrow & Hsnap & _ & Hw & Hd & _ & Hres).
  assert (t = 0 ∧ sn_id snap = drawn_id SweepExample.host) as [-> Hid].
  { assert ((λ r, (w_paused_at r, w_auto_snapshot r)) <$> inner (a_workspaces SweepExample.paused_app) !! w_id SweepExample.ws =
      Some (Some 0, Some (drawn_id SweepExample.host))) as Hp by (by vm_compute). rewrite Hrow in Hp. 
    change (Some (Some t, Some (sn_id snap)) = Some (Some 0, Some (drawn_id SweepExample.host))) in Hp. injection Hp as Ht Hs. exact (conj Ht Hs). }
  rewrite Hid in *.
  destruct (Hres 5%nat SweepExample.paused.2 SweepExample.paused_app SweepExample.resumed.2 SweepExample.resumed_app tt) as [Hv _];
    [exact Hw|done|by vm_compute|right; exact Hd|by vm_compute|by vm_compute|by vm_compute|exact Hrow|exact Hsnap|exact SweepExample.resumed_run|exact Hv].
Defined.
Lemma gc_sweep_exact_witness :
  (∃ u s n, run SweepExample.collector [] (collect_once demo_sub SweepExample.keep_one SweepExample.full_app) = (u, Some (set_snapshots s SweepExample.full_app, Ok n)) ∧
     (n + size (inner s) = 2)%nat ∧ (inner s !! "snap_1"%string = None → swept u "/snap/snap_1")) ∧
  ((λ r, match r with Some (st, o) => (sn_created_at <$> inner (a_snapshots st) !! "snap_1"%string, sn_created_at <$> inner (a_snapshots st) !! "snap_2"%string, o) | None => (None, None, Panic) end)
     (run SweepExample.collector [] (collect_once demo_sub SweepExample.keep_one SweepExample.full_app)).2) = (None, Some 2, Ok 1%nat).
Proof.
  split; [|vm_compute; reflexivity].
  destruct (gc_sweep_exact demo_sub SweepExample.collector [] SweepExample.keep_one SweepExample.full_app demo_snaps_ok eq_refl)
    as (u & all & _ & _ & _ & s & n & Hr & _ & _ & Hn & Hs & _).
  exists u, s, n. split; [exact Hr|]. split; [exact Hn|]. intros Hg. apply (Hs (demo_snap "snap_1" 1)); [reflexivity|exact Hg].
Defined.
