(* ===== verification/EndToEnd.v ===== *)
(** * The life of a session, from the control plane to the proxy

    [Sessions] issues phantom tokens and tells the client, in environment variables,
    which token to present and where; [PhantomProxy] serves the requests made with
    them.  This file puts the two together on shared stores, against the interfaces
    [TokenStore] and [SessionStore], and proves what a session is for: the client
    that follows the variables reaches its service with the tenant's real key, within
    the scope it asked for, until the session expires or is deleted.  It models no
    code of its own beyond what a client does with the variables. *)

From S2P Require Import Prelude Keys Token LruCache Provider PhantomProxy Tenant Ctl Sessions Server.

(** ** What a client does *)
(** It appends [p] to the base URL; this is what the proxy makes of the path. *)
Definition client_path (svc : ServiceId) (p : string) : string := base_path svc +:+ "/" +:+ p.
Definition upstream_of (svc : ServiceId) (p : string) : string :=
  match svc with OpenAi => "/v1/" +:+ p | _ => "/" +:+ p end.
(** It presents the token as a bearer token or in [x-api-key]. *)
Definition presents {H V} `{HttpCrate H V} (raw : string) (headers : H) : Prop :=
  (∃ v, hm_get AUTHORIZATION headers = Some v ∧ hv_to_str v = Some ("Bearer " +:+ raw)) ∨
  (hm_get AUTHORIZATION headers = None ∧ ∃ v, hm_get X_API_KEY headers = Some v ∧ hv_to_str v = Some raw).
(** What becomes of a request in scope, given what the client library does: one
    request, to the provider's base followed by the path and the query, with the
    method and the body of the client's and the tenant's key among the headers; the
    answer is the upstream's, or 502 with the library's error.  Where the key is no
    header value or the method is not one, nothing is sent. *)
Definition served {H V B} `{HttpCrate H V} (send : UpRequest H B → outcome string (UpResponse H B)) (mfb : string → outcome string string)
    (prov : Provider H) (secret : SecretString) (rq : Request H B) (up : string) (resp : option (Response H B)) (sent : list (UpRequest H B)) : Prop :=
  match inject_auth prov (strip_client_headers prov (req_headers rq)) secret, mfb (req_method rq) with
  | Ok h, Ok m =>
      ∃ u, sent = [u] ∧ up_method u = m ∧ up_body u = req_body rq ∧ up_headers u = h ∧ (builtin prov → carries_key secret (up_headers u)) ∧
        up_url u = upstream_base prov +:+ up +:+ match req_query rq with Some q => "?" +:+ q | None => "" end ∧
        match send u with
        | Ok a => ∃ hs, resp = Some (MkResp (default 502%Z (status_from_u16 (upr_status a))) hs (Stream (upr_body a))) ∧
                    ∀ n, hm_get_all n hs = if is_hop_by_hop n then [] else option_list (last (hm_get_all n (upr_headers a)))
        | Err e => resp = Some (text_response 502 ("upstream: " +:+ e))
        | Panic => resp = None
        end
  | Panic, _ | Ok _, Panic => sent = [] ∧ resp = None
  | _, _ => sent = [] ∧ ∃ e, resp = Some (text_response 502 ("upstream: " +:+ e))
  end.
(** What the client gets for the outcome of a forwarded request. *)
Definition relayed {H V B} `{HttpCrate H V} (o : outcome string (Forwarded (H := H) (B := B))) : option (Response H B) :=
  match o with Ok f => Some (fw_response f) | Err e => Some (text_response 502 ("upstream: " +:+ e)) | Panic => None end.
Lemma forward_served {H V B} `{HttpCrate H V} (send : UpRequest H B → outcome string (UpResponse H B)) mfb prov secret rq up :
  served send mfb prov secret rq up (relayed (forward send mfb prov secret rq up (req_method rq)).2) (forward send mfb prov secret rq up (req_method rq)).1.
Proof.
  unfold served, forward. destruct (inject_auth prov _ secret) as [h|e|] eqn:Ei; simpl; [|destruct (mfb (req_method rq)); eauto|done].
  destruct (mfb (req_method rq)) as [m|e|]; simpl; [|eauto|done]. eexists. split; [done|]. cbn [up_method up_body up_headers up_url].
  do 3 (split; [done|]). split; [intros Hb; by apply (builtin_headers prov _ _ _ Hb) in Ei as [? _]|]. split; [done|].
  destruct (send _) as [a|e|]; simpl; [|done..]. eexists. split; [done|]. intros n. apply copy_headers_get_all.
Qed.

Lemma client_path_split svc p : split_service_path (client_path svc p) = Some (service_name svc, upstream_of svc p).
Proof. by destruct svc. Qed.
Lemma token_parse_bearer `{HexCrate} t : token_wf t → token_parse ("Bearer " +:+ token_display t) = Some t.
Proof.
  intros Hwf. destruct (token_roundtrip t [] [] [] Hwf) as [_ Hb]; [constructor..|]. simpl in Hb.
  by rewrite !app_nil_l', str_app_nil_r in Hb.
Qed.
Lemma presents_extract {H V} `{HttpCrate H V} `{HexCrate} t (headers : H) :
  token_wf t → presents (token_display t) headers → extract_phantom headers = Some t.
Proof.
  intros Hwf Hp. unfold extract_phantom. destruct Hp as [(v & -> & Hv)|(-> & v & -> & Hv)]; cbn [mbind option_bind]; rewrite Hv; cbn [mbind option_bind].
  - by rewrite token_parse_bearer.
  - by apply token_parse_display.
Qed.
Lemma segment_found {H V} `{HttpCrate H V} `{HashIter} (reg : gmap ServiceId (Provider H)) svc p :
  reg !! svc = Some p → find_by_segment (service_name svc) reg = Some (svc, p).
Proof.
  intros Hl. unfold find_by_segment. destruct (find_is_Some (λ kv, String.eqb (service_name kv.1) (service_name svc)) (hash_iter reg) (svc, p))
    as [[id q] Hq]; [by apply elem_of_hash_iter|apply String.eqb_refl|]. rewrite Hq.
  apply find_Some_iff in Hq as [Hin%elem_of_hash_iter Hn%String.eqb_eq]. simpl in Hn.
  assert (id = svc) as -> by (by destruct id, svc). congruence.
Qed.

(** ** The proxy's answer to a token it knows *)
Section proxy.
Context {H V : Type} `{HttpCrate H V} `{HexCrate} `{HashIter} {T A B : Type} `{TokenStoreLaws T} `{AuditSink A}.
Context (send : UpRequest H B → outcome string (UpResponse H B)) (mfb : string → outcome string string).
Lemma handle_dead clk rq svc p tok reg (tokens : T) (keys : InMemoryKeyStore) (audit : A) :
  ts_ok tokens → req_path rq = client_path svc p → extract_phantom (req_headers rq) = Some tok →
  ts_view tokens !! tok_bytes tok ≫= live_at (clk 0) = None →
  ∃ px', handle send mfb clk rq (MkProxy reg tokens keys audit) = (Some (text_response 401 "unknown phantom token"), px', []).
Proof.
  intros Hok Hp Ht Hd. unfold handle. rewrite Hp, client_path_split, Ht. cbn [px_tokens].
  destruct (law_lookup clk tok tokens Hok) as [Hl _]. rewrite Hd in Hl. destruct (ts_lookup clk tok tokens) as [o tokens']. simpl in Hl. subst o. eauto.
Qed.
Lemma handle_live clk rq svc p tok r prov secret reg (tokens : T) (keys : InMemoryKeyStore) (audit : A) :
  ts_ok tokens → req_path rq = client_path svc p → extract_phantom (req_headers rq) = Some tok →
  ts_view tokens !! tok_bytes tok = Some r → is_expired r (clk 0) = false → service r = svc → reg !! svc = Some prov →
  keys_get (tenant_id r) svc keys = Some secret →
  ∃ resp px' sent, handle send mfb clk rq (MkProxy reg tokens keys audit) = (resp, px', sent) ∧
    if allows_path (scope r) (upstream_of svc p) then served send mfb prov secret rq (upstream_of svc p) resp sent
    else resp = Some (text_response 403 "path not in scope") ∧ sent = [].
Proof.
  intros Hok Hp Ht Hv He Hs Hreg Hk. unfold handle. rewrite Hp, client_path_split, Ht. cbn [px_tokens].
  destruct (law_lookup clk tok tokens Hok) as [Hl _]. rewrite Hv in Hl. cbn [mbind option_bind] in Hl. unfold live_at in Hl. rewrite He in Hl.
  destruct (ts_lookup clk tok tokens) as [o tokens']. simpl in Hl. subst o. cbn [px_registry px_keys px_tokens px_audit].
  rewrite (segment_found reg svc prov) by done. rewrite Hs, bool_decide_true by done. cbn [negb].
  destruct (allows_path (scope r) (upstream_of svc p)); cbn [negb]; [|by do 3 eexists]. cbn [ks_get InMemoryKeyStore_KeyStore]. rewrite Hk.
  pose proof (forward_served send mfb prov secret rq (upstream_of svc p)) as Hf.
  destruct (forward send mfb prov secret rq (upstream_of svc p) (req_method rq)) as [sent [f|e|]]; simpl in Hf; by do 3 eexists.
Qed.
Lemma handle_wrong_service clk rq svc svc' p tok r prov reg (tokens : T) (keys : InMemoryKeyStore) (audit : A) :
  ts_ok tokens → req_path rq = client_path svc' p → extract_phantom (req_headers rq) = Some tok →
  ts_view tokens !! tok_bytes tok = Some r → is_expired r (clk 0) = false → service r = svc → svc' ≠ svc → reg !! svc' = Some prov →
  ∃ px', handle send mfb clk rq (MkProxy reg tokens keys audit) = (Some (text_response 403 "token not valid for this service"), px', []).
Proof.
  intros Hok Hp Ht Hv He Hs Hne Hreg. unfold handle. rewrite Hp, client_path_split, Ht. cbn [px_tokens].
  destruct (law_lookup clk tok tokens Hok) as [Hl _]. rewrite Hv in Hl. cbn [mbind option_bind] in Hl. unfold live_at in Hl. rewrite He in Hl.
  destruct (ts_lookup clk tok tokens) as [o tokens']. simpl in Hl. subst o. cbn [px_registry px_keys px_tokens px_audit].
  rewrite (segment_found reg svc' prov) by done. rewrite bool_decide_false by congruence. cbn [negb]. eauto.
Qed.
End proxy.

(** ** Sessions *)
Section sessions.
Context {H V : Type} `{HttpCrate H V} `{HexCrate} `{HexEncode} `{HashIter} {T S A B : Type} `{TokenStoreLaws T} `{SessionStoreLaws S} `{AuditSink A}.
Context (odt_add : Z → Z → option Z) (send : UpRequest H B → outcome string (UpResponse H B)) (mfb : string → outcome string string).

(** The caller can always delete the session it made. *)
Lemma delete_own d sc req (st st1 : SessState T S) v :
  ts_ok (st_tokens st) → ss_ok (st_sessions st) → create_session odt_add d sc req st = (st1, Ok v) →
  ∃ st2, delete_session sc (sv_id v) st1 = (st2, Ok tt) ∧ st_tokens st2 = ts_revoke_session (sv_id v) (st_tokens st1).
Proof.
  intros Hok Hsok Hc. destruct (create_session_cases _ _ _ _ _ _ _ Hc) as [[-> Hne]|(tokens & o & ex & _ & _ & _ & _ & _ & _ & _ & Ho)]; [by destruct (Hne v)|].
  destruct o as [env|]; [|by destruct Ho]. destruct Ho as [Hst Hr]. set (s := MkSession _ _ _ _ _ _) in *.
  destruct (law_ss_insert s (st_sessions st) Hsok) as [Hsok' Hins]. rewrite <- Hst in Hsok', Hins.
  destruct (ss_view (st_sessions st) !! s_id s) eqn:Hid; destruct Hins as [Hview Hres]; rewrite Hres in Hr; simpl in Hr; [done|]. injection Hr as ->.
  unfold delete_session. rewrite (law_ss_get _ _ Hsok'). cbn [sv_id session_view]. rewrite Hview, lookup_insert_eq.
  assert (can_see sc (s_tenant_id s) = true) as -> by (unfold can_see; cbn; rewrite String.eqb_refl; apply orb_true_r). cbn [negb].
  destruct (law_ss_remove (s_id s) _ Hsok') as (_ & Hr1 & _). rewrite Hview, lookup_insert_eq in Hr1.
  destruct (ss_remove (s_id s) (st_sessions st1)) as [o sessions]. simpl in Hr1. subst o. by eexists.
Qed.

(** A resolved time to live is the reading of the clock plus its length. *)
Lemma resolved_expiry (now : Z) (ttl exp : option Z) : resolve_ttl now ttl = Some exp → exp = (λ d, now + d)%Z <$> ttl.
Proof.
  destruct ttl as [x|]; simpl; [|by intros [= <-]]. unfold systime_add. destruct (_ <=? _)%Z; simpl; [by intros [= <-]|done].
Qed.

(** C2: A session works end to end, on token and session stores that keep the laws
    [TokenStoreLaws] and [SessionStoreLaws] (the in-memory ones; not the Postgres
    token store, see [postgres_tokens_never_resolve]).  After a successful
    [create_session] whose random tokens are distinct and 32 bytes long, a client that
    presents the token of a requested service's variable and asks for a path below its
    base-URL variable is served as follows, whatever else is in the stores.  The token
    expires the requested time to live after the clock reading of its issue, or never.
    While it has not expired, a path in the requested scope makes exactly one request,
    to the provider's base URL followed by that path and the query, with the client's
    method and body and, for the shipped providers, the tenant's real key as its only
    credential, and the client gets the upstream's status, headers and body, or 502
    with the error; when the key cannot be a header value or the method is none,
    nothing is sent.  A path outside the scope and another service's path are answered
    403 with nothing sent.  Once the token has expired, and once the caller has deleted
    the session, which it always can, the answer is 401 and nothing is sent. *)
Theorem session_end_to_end (d : Draw) (sc : TenantScope) (csr : CreateSessionRequest) (st st1 : SessState T S) (v : SessionView)
    (svc : ServiceId) (reg : gmap ServiceId (Provider H)) (prov : Provider H) (secret : SecretString) :
  ts_ok (st_tokens st) → ss_ok (st_sessions st) →
  NoDup (d_tok d <$> seq 0 (length (rq_services csr))) → (∀ j, length (d_tok d j) = 32) →
  create_session odt_add d sc csr st = (st1, Ok v) → svc ∈ rq_services csr →
  keys_get (ts_tenant sc) svc (st_keys st) = Some secret → reg !! svc = Some prov →
  ∃ raw r st2,
    sv_env v !! token_var svc = Some raw ∧ sv_env v !! base_var svc = Some (st_proxy_base_url st +:+ base_path svc) ∧
    delete_session sc (sv_id v) st1 = (st2, Ok tt) ∧ (∃ j, expires_at r = (λ secs, d_clk d j 0 + secs * 10 ^ 9)%Z <$> rq_ttl_secs csr) ∧
    ∀ (clk : nat → Z) (rq : Request H B) (p : string) (audit : A) (keys : InMemoryKeyStore),
      presents raw (req_headers rq) →
      let up := upstream_of svc p in
      (req_path rq = client_path svc p → is_expired r (clk 0) = false → ∃ resp px' sent,
         handle send mfb clk rq (MkProxy reg (st_tokens st1) (st_keys st1) audit) = (resp, px', sent) ∧
         if allows_path (path_scope csr svc) up then served send mfb prov secret rq up resp sent
         else resp = Some (text_response 403 "path not in scope") ∧ sent = []) ∧
      (∀ svc' prov', req_path rq = client_path svc' p → is_expired r (clk 0) = false → svc' ≠ svc → reg !! svc' = Some prov' → ∃ px',
         handle send mfb clk rq (MkProxy reg (st_tokens st1) keys audit) = (Some (text_response 403 "token not valid for this service"), px', [])) ∧
      (∀ svc', req_path rq = client_path svc' p → is_expired r (clk 0) = true → ∃ px',
         handle send mfb clk rq (MkProxy reg (st_tokens st1) keys audit) = (Some (text_response 401 "unknown phantom token"), px', [])) ∧
      (∀ svc', req_path rq = client_path svc' p → ∃ px',
         handle send mfb clk rq (MkProxy reg (st_tokens st2) keys audit) = (Some (text_response 401 "unknown phantom token"), px', [])).
Proof.
  intros Hok Hsok Hnd Hlen Hc Hin Hkey Hreg.
  destruct (create_session_env _ _ _ _ _ _ _ _ Hok Hnd Hc Hin) as (_ & Hkeys & Hok1 & Hb & j & r & He & Hr & Hv).
  destruct (delete_own _ _ _ _ _ _ Hok Hsok Hc) as (st2 & Hdel & Htok2).
  exists (token_display (MkToken (d_tok d j))), r, st2. do 3 (split; [done|]). destruct Hr as (exp & Hexp & Hr).
  split; [exists j; rewrite Hr; apply resolved_expiry in Hexp as ->; unfold req_ttl; by destruct (rq_ttl_secs csr)|].
  intros clk rq p audit keys Hpr. apply presents_extract in Hpr; [|apply Hlen]. cbv zeta.
  assert (service r = svc ∧ tenant_id r = ts_tenant sc ∧ scope r = path_scope csr svc ∧ session_id r = sv_id v) as (Hsvc & Hten & Hscope & Hsess) by (by rewrite Hr).
  split; [|split; [|split]].
  - intros Hp Hx. rewrite <- Hscope. eapply handle_live; try done. by rewrite Hten, Hkeys.
  - intros svc' prov' Hp Hx Hne Hreg'. by eapply handle_wrong_service.
  - intros svc' Hp Hx. eapply handle_dead; [done..|]. cbn [tok_bytes]. rewrite Hv. simpl. unfold live_at. by rewrite Hx.
  - intros svc' Hp. rewrite Htok2. destruct (law_revoke_session (sv_id v) (st_tokens st1) Hok1) as [Hok2 Hv2].
    eapply handle_dead; [done..|]. rewrite Hv2. cbn [tok_bytes]. unfold abs_revoke_session.
    rewrite map_lookup_filter, Hv. cbn [mbind option_bind]. rewrite option_guard_False by (by intros Hf; apply Hf). done.
Qed.
End sessions.

(** ** A session for one service *)
Definition life_csr : CreateSessionRequest := MkCSR [OpenAi] None {[OpenAi := ["/v1/*"]]}.
Definition life : SessState InMemoryTokenStore InMemorySessionStore * outcome CtlError SessionView :=
  create_session demo_add demo_draw demo_op life_csr demo_ss.
Definition life_view : SessionView := match life.2 with Ok v => v | _ => MkSV "" 0 None [] ∅ end.
Definition life_req : Request list_headers unit :=
  MkRequest "POST" "/v1/openai/v1/chat/completions" (Some "n=1")
    [(AUTHORIZATION, MkHV ("Bearer " +:+ token_display (MkToken (d_tok demo_draw 0))) false)] tt.
Definition life_gone : SessState InMemoryTokenStore InMemorySessionStore := (delete_session demo_op (sv_id life_view) life.1).1.
Lemma life_ok : create_session demo_add demo_draw demo_op life_csr demo_ss = (life.1, Ok life_view).
Proof. change (life = (life.1, Ok life_view)). assert (life.2 = Ok life_view) as <- by reflexivity. apply surjective_pairing. Qed.
Lemma session_end_to_end_witness :
  (∃ resp px' sent, handle demo_send Ok (λ _, 5%Z) life_req (MkProxy demo_registry (st_tokens life.1) (st_keys life.1) ([] : list AuditEntry)) = (resp, px', sent) ∧
    served demo_send Ok (OpenAiProvider "https://api.openai.com") (MkSecret "sk-real") life_req "/v1/chat/completions" resp sent ∧ sent = [demo_up]) ∧
  (∃ px', handle demo_send Ok (λ _, 5%Z) life_req (MkProxy demo_registry (st_tokens life_gone) (st_keys life.1) ([] : list AuditEntry))
    = (Some (text_response 401 "unknown phantom token"), px', [])).
Proof.
  destruct (session_end_to_end (A := list AuditEntry) demo_add demo_send Ok demo_draw demo_op life_csr demo_ss life.1 life_view OpenAi demo_registry
    (OpenAiProvider "https://api.openai.com") (MkSecret "sk-real")) as (raw & r & st2 & Hraw & _ & Hdel & [j Httl] & Hall);
    [reflexivity|split; [reflexivity|apply map_Forall_empty]|apply demo_draw_fresh|intros j; reflexivity|exact life_ok|apply list_elem_of_here|reflexivity|reflexivity|].
  assert (raw = token_display (MkToken (d_tok demo_draw 0))) as -> by (vm_compute in Hraw; by injection Hraw as <-).
  destruct (Hall (λ _, 5%Z) life_req "chat/completions" [] (st_keys life.1)) as (Hlive & _ & _ & Hgone).
  { left. eexists. split; reflexivity. }
  assert (is_expired r 5 = false) as Hx by (unfold is_expired; by rewrite Httl).
  split.
  - destruct (Hlive eq_refl Hx) as (resp & px' & sent & Hh & Hs). exists resp, px', sent. split; [exact Hh|]. split; [exact Hs|].
    apply (f_equal snd) in Hh. cbn [snd] in Hh. rewrite <- Hh. vm_compute. reflexivity.
  - destruct (Hgone OpenAi eq_refl) as (px' & Hh). exists px'. rewrite <- Hh. unfold life_gone. by rewrite Hdel.
Defined.
