(* ===== verification/Lifecycle.v ===== *)
(** * Building, starting and stopping the listeners

    Models the code that puts the parts together at run time: the phantom proxy's
    builder and router ([agentjail-phantom/src/proxy.rs]), the accept loop of the
    allow-list proxy ([run_proxy] of [agentjail/src/proxy.rs], started by
    [spawn_allowlist_proxy] of [veth.rs]), and [main] of
    [agentjail-server/src/main.rs]: what it starts and in which order, with every
    early return, and how it shuts down.

    Binding an address, connecting to the database and building an HTTP client are
    answers of the record [Host]; what the started tasks serve is modelled elsewhere.
    Shutting down is a step relation, since the tasks end by themselves or when they
    are told to, in any order. *)

From S2P Require Import Prelude Text Keys Token LruCache Provider PhantomProxy Tenant Ctl Credentials Sessions AuditLog Jails Workspaces Snapshots EgressProxy Sys Netlink Monitor Sql PgTokens PgStores Server Sweepers.

(** ** [PhantomProxyBuilder] *)
Section builder.
Context {H V : Type} `{HttpCrate H V} {T K A : Type} (no_audit : A).
Record PhantomProxyBuilder := MkBuilder {
  b_registry : gmap ServiceId (Provider H);
  b_tokens : option T;
  b_keys : option K;
  b_audit : A;
  b_upstream_timeout : Z
}.
(** [DEFAULT_UPSTREAM_TIMEOUT], in seconds *)
Definition DEFAULT_UPSTREAM_TIMEOUT : Z := 120.
Definition proxy_builder : PhantomProxyBuilder := MkBuilder registry_new None None no_audit DEFAULT_UPSTREAM_TIMEOUT.
Definition with_provider (p : Provider H) (b : PhantomProxyBuilder) : outcome PhantomError PhantomProxyBuilder :=
  (let? r := registry_register p (b_registry b) in
   Ok (MkBuilder r (b_tokens b) (b_keys b) (b_audit b) (b_upstream_timeout b)))%rust.
Definition builder_tokens (t : T) (b : PhantomProxyBuilder) : PhantomProxyBuilder :=
  MkBuilder (b_registry b) (Some t) (b_keys b) (b_audit b) (b_upstream_timeout b).
Definition builder_keys (k : K) (b : PhantomProxyBuilder) : PhantomProxyBuilder :=
  MkBuilder (b_registry b) (b_tokens b) (Some k) (b_audit b) (b_upstream_timeout b).
Definition builder_audit (a : A) (b : PhantomProxyBuilder) : PhantomProxyBuilder :=
  MkBuilder (b_registry b) (b_tokens b) (b_keys b) a (b_upstream_timeout b).
Definition builder_timeout (d : Z) (b : PhantomProxyBuilder) : PhantomProxyBuilder :=
  MkBuilder (b_registry b) (b_tokens b) (b_keys b) (b_audit b) d.
(** [client]: building the HTTP client with a timeout. *)
Definition builder_build (client : Z → outcome string unit) (b : PhantomProxyBuilder) : outcome PhantomError (PhantomProxy H T K A) :=
  (let? tokens := ok_or (b_tokens b) (Config "tokens store required") in
   let? keys := ok_or (b_keys b) (Config "keys store required") in
   let? _ := omap_err (λ e, Config ("reqwest: " +:+ e)) (client (b_upstream_timeout b)) in
   Ok (MkProxy (b_registry b) tokens keys (b_audit b)))%rust.
End builder.
Arguments PhantomProxyBuilder : clear implicits.

(** ** The proxy's router: every method of a route goes to its handler. *)
Inductive ProxyRoute := PrHealthz | PrHandle | PrNotFound.
Definition proxy_route (path : string) : ProxyRoute :=
  if String.eqb path "/healthz" then PrHealthz
  else match strip_prefix "/v1/" path with
       | Some rest => if str_is_empty rest then PrNotFound else PrHandle
       | None => PrNotFound
       end.
Definition serve_request {H V T K A B} `{HttpCrate H V} `{HexCrate} `{HashIter} `{TokenStore T} `{KeyStore K} `{AuditSink A}
    (send : UpRequest H B → outcome string (UpResponse H B)) (mfb : string → outcome string string) (clk : nat → Z)
    (req : Request H B) (px : PhantomProxy H T K A) : option (Response H B) * PhantomProxy H T K A * list (UpRequest H B) :=
  match proxy_route (req_path req) with
  | PrHealthz => (Some (text_response 200 "ok"), px, [])
  | PrHandle => handle send mfb clk req px
  | PrNotFound => (Some (text_response 404 "route not found"), px, [])
  end.

(** ** The accept loop of the allow-list proxy *)
(** What [select!] sees next: a connection (what its client sends, what the resolver
    and the network answer while it is served), an error of [accept], or the shutdown
    channel (a message, or its sender gone). *)
Inductive LoopEvent :=
| Accepted (input : string) (lookup_host : string → option (list SocketAddr)) (connect : SocketAddr → option string)
| AcceptFailed (e : string)
| ShutdownChanged.
(** The served connections, and how the loop ended ([None]: it is still waiting). *)
Fixpoint accept_loop `{Lowercase} (allowlist : list DomainPattern) (events : list LoopEvent) : list Phase1 * option (outcome string unit) :=
  match events with
  | [] => ([], None)
  | Accepted input lookup_host connect :: rest =>
      let '(served, r) := accept_loop allowlist rest in
      (handle_connection lookup_host connect allowlist input :: served, r)
  | AcceptFailed e :: _ => ([], Some (Err e))
  | ShutdownChanged :: _ => ([], Some (Ok tt))
  end.
(** The tunnel: two copies race, and the first to end (its source is at its end, or a
    read or write fails) ends both.  A data event is a chunk that was read and written
    on.  The bytes that reached the target and the client;
    [false]: the tunnel is still open. *)
Inductive TunnelEvent := ClientData (d : string) | TargetData (d : string) | ClientEnd | TargetEnd.
Fixpoint tunnel (events : list TunnelEvent) : string * string * bool :=
  match events with
  | [] => ("", "", false)
  | ClientData d :: rest => let '(up, down, e) := tunnel rest in (d +:+ up, down, e)
  | TargetData d :: rest => let '(up, down, e) := tunnel rest in (up, d +:+ down, e)
  | ClientEnd :: _ | TargetEnd :: _ => ("", "", true)
  end.
Record ProxyConfig := MkPC { pc_allowlist : list DomainPattern; pc_port : Z; pc_bind_ip : Z }.
Definition LOCALHOST : Z := 127 * 2 ^ 24 + 1.
Definition proxy_config_default : ProxyConfig := MkPC [] 8080 LOCALHOST.
(** What is sent on [ready], the served connections, how it ended. *)
Definition run_proxy `{Lowercase} (c : ProxyConfig) (bind : outcome string unit) (events : list LoopEvent)
    : option (outcome string unit) * list Phase1 * option (outcome string unit) :=
  match bind with
  | Ok _ => let '(served, r) := accept_loop (pc_allowlist c) events in (Some (Ok tt), served, r)
  | Err e => (Some (Err e), [], Some (Err e))
  | Panic => (None, [], Some Panic)
  end.
(** What [spawn_allowlist_proxy] prints after the thread's first message; in every
    case it returns the sender of the shutdown channel. *)
Definition allowlist_config `{Lowercase} (domains : list string) (bind_ip : Z) : ProxyConfig :=
  MkPC (pattern_parse <$> domains) PROXY_PORT bind_ip.
Definition await_ready (m : option (outcome string unit)) : option string :=
  match m with
  | Some (Ok _) => None
  | Some (Err e) => Some ("proxy bind failed: " +:+ e)
  | _ => Some "proxy thread died before signaling readiness"
  end.

(** ** [main] *)
Section main.
Context {H V : Type} `{HttpCrate H V} {Addr : Type} (parse_addr : string → outcome string Addr) (show_addr : Addr → string).
(** What the host answers. [h_connect]: connecting and applying the migrations. *)
Record Host := MkHost {
  h_env : env_fn;
  h_temp_dir : string;
  h_connect : string → outcome string Pool;
  h_client : Z → outcome string unit;
  h_gateway_client : outcome string unit;
  h_bind : Addr → outcome string unit
}.
(** The steps that can be seen from outside, in order. *)
Inductive Event :=
| CleanVeths | Connect (url : string) | SpawnProxy (a : Addr) | CreateDirs (dirs : list string)
| Reconcile (state_dir : string) | SpawnGc (period : Z) | SpawnIdle (period : Z) (state_dir : string)
| SpawnGateway (a : Addr) | Bind (a : Addr) | SpawnControlPlane (a : Addr).
(** The token store: in memory, or the cache over the database. *)
Definition Tokens : Type := (InMemoryTokenStore + LruTokenCache Pool)%type.
Record Running := MkRunning {
  rn_config : ServerConfig (Addr := Addr);
  rn_db : option Pool;
  rn_proxy : PhantomProxy H Tokens InMemoryKeyStore (option Pool);
  rn_plane : ControlPlaneConfig (Addr := Addr) Tokens;
  rn_api_keys : ApiKeys;
  rn_gateway : option Addr
}.
(** A program that records its steps and may return early. *)
Definition M (A : Type) : Type := list Event * outcome string A.
Definition mret {A} (a : A) : M A := ([], Ok a).
Definition mbind_ {A B} (m : M A) (f : A → M B) : M B :=
  match m.2 with Ok a => let r := f a in (m.1 ++ r.1, r.2) | Err e => (m.1, Err e) | Panic => (m.1, Panic) end.
Definition tell (es : list Event) : M unit := (es, Ok tt).
Definition try {A} (o : outcome string A) : M A := ([], o).
Definition context {A} (msg : string) (o : outcome string A) : outcome string A := omap_err (λ e, msg +:+ ": " +:+ e) o.
Definition anyhow_phantom {A} (o : outcome PhantomError A) : outcome string A := omap_err perror_display o.
Local Notation "'let!' x ':=' m 'in' k" := (mbind_ m (λ x, k)) (at level 10, x binder, m at level 100, k at level 200).

(** The database, if one is configured, with the tokens and keys that go with it.
    [sql_display]: the rendering of a database error. *)
Definition open_database `{HashIter} (sql_display : SqlErr → string) (h : Host) (keys : InMemoryKeyStore) : M (option Pool * Tokens * InMemoryKeyStore) :=
  match nonblank (h_env h "DATABASE_URL") with
  | Some url =>
      let! _ := tell [Connect url] in
      let! pool := try (context ("connecting to " +:+ url) (h_connect h url)) in
      let '(keys, loaded, pool) := rehydrate_keystore keys pool in
      let! _ := try (omap_err sql_display loaded) in
      mret (Some pool, inr (lru_new pool (Z.to_nat (token_cache_capacity (h_env h)))), keys)
  | None => mret (None, inl mem_new, keys)
  end.
(** The builder calls of [main]; the audit sink writes to the database if there is one. *)
Definition build_proxy (h : Host) (tokens : Tokens) (keys : InMemoryKeyStore) (audit : option Pool)
    : outcome PhantomError (PhantomProxy H Tokens InMemoryKeyStore (option Pool)) :=
  (let? b := with_provider (OpenAiProvider "https://api.openai.com") (proxy_builder None) in
   let? b := with_provider (AnthropicProvider "https://api.anthropic.com" "2023-06-01") b in
   let? b := with_provider (GitHubProvider "https://api.github.com") b in
   let? b := with_provider (StripeProvider "https://api.stripe.com") b in
   builder_build (h_client h) (builder_audit audit (builder_keys keys (builder_tokens tokens b))))%rust.
(** Up to the point where [main] waits for a signal. *)
Definition start `{HashIter} (sql_display : SqlErr → string) (h : Host) : M Running :=
  let! _ := tell [CleanVeths] in
  let! cfg := try (from_env parse_addr show_addr (h_env h)) in
  let! '(db, tokens, keys) := open_database sql_display h (seeded_keys (h_env h)) in
  let! proxy := try (anyhow_phantom (build_proxy h tokens keys db)) in
  let! _ := tell [SpawnProxy (sc_proxy_addr cfg)] in
  let plane := main_config (H := H) cfg tokens keys (new_lock ∅) in
  let '(state_dir, dirs) := ensure_state_dir (h_temp_dir h) (sc_state_dir cfg) in
  let! _ := tell [CreateDirs (dirs ++ option_list (sc_snapshot_pool_dir cfg))] in
  let! api_keys := try (omap_err (λ _, "") (from_config_strings (sc_api_keys cfg))) in
  let! _ := tell [Reconcile state_dir] in
  let! _ := tell (if gc_is_enabled (sc_snapshot_gc cfg) then [SpawnGc (Z.max (gc_tick_secs (sc_snapshot_gc cfg)) 1)] else []) in
  let! _ := tell (if (sc_idle_check_interval_secs cfg =? 0)%Z then []
                  else [SpawnIdle (Z.max (sc_idle_check_interval_secs cfg) 1)
                          (default (path_join (h_temp_dir h) "agentjail-state") (sc_state_dir cfg))]) in
  let! _ := match sc_gateway_addr cfg with
            | Some a => let! _ := try (context "build gateway HTTP client" (h_gateway_client h)) in tell [SpawnGateway a]
            | None => mret tt
            end in
  let! _ := tell [Bind (sc_ctl_addr cfg)] in
  let! _ := try (context ("bind control plane to " +:+ show_addr (sc_ctl_addr cfg)) (h_bind h (sc_ctl_addr cfg))) in
  let! _ := tell [SpawnControlPlane (sc_ctl_addr cfg)] in
  mret (MkRunning cfg db proxy plane api_keys (sc_gateway_addr cfg)).
End main.
Arguments CleanVeths {Addr}.
Arguments Connect {Addr} url.
Arguments CreateDirs {Addr} dirs.
Arguments Reconcile {Addr} state_dir.
Arguments SpawnGc {Addr} period.
Arguments SpawnIdle {Addr} period state_dir.

(** ** Shutting down *)
(** The three listeners; [TEnded]: the task has returned or panicked. *)
Inductive TaskState := TRunning | TEnded.
#[export] Instance TaskState_eq_dec : EqDecision TaskState.
Proof. solve_decision. Defined.
Inductive Task := TCtl | TProxy | TGateway.
#[export] Instance Task_eq_dec : EqDecision Task.
Proof. solve_decision. Defined.
(** Where [main] is: waiting for the signal, or for the handles still to be joined. *)
Inductive Stage := AwaitSignal | Joining (rest : list Task).
Record Sd := MkSd { sd_stage : Stage; sd_told : bool; sd_tasks : Task → TaskState }.
Definition sd_set (t : Task) (s : Sd) : Sd :=
  MkSd (sd_stage s) (sd_told s) (λ t', if decide (t' = t) then TEnded else sd_tasks s t').
(** The handles in the order they are awaited; the gateway's is there if it was started. *)
Definition handles (gateway : bool) : list Task := [TCtl; TProxy] ++ (if gateway then [TGateway] else []).
Inductive sd_step (gateway : bool) : Sd → Sd → Prop :=
(** a listener ends by itself: its address cannot be bound, its loop fails, it panics *)
| sd_fail t s : sd_tasks s t = TRunning → sd_step gateway s (sd_set t s)
(** [wait_for_signal] returns and the shutdown channel changes *)
| sd_signal s : sd_stage s = AwaitSignal → sd_step gateway s (MkSd (Joining (handles gateway)) true (sd_tasks s))
(** a listener that was told has drained its requests *)
| sd_drain t s : sd_told s = true → sd_tasks s t = TRunning → sd_step gateway s (sd_set t s)
(** the next handle is ready; its result is ignored *)
| sd_join t rest s : sd_stage s = Joining (t :: rest) → sd_tasks s t = TEnded →
    sd_step gateway s (MkSd (Joining rest) (sd_told s) (sd_tasks s)).
(** What [main] starts from; a gateway that was not started has ended. *)
Definition sd_init (gateway : bool) : Sd :=
  MkSd AwaitSignal false (λ t, match t with TGateway => if gateway then TRunning else TEnded | _ => TRunning end).
Definition returned (s : Sd) : Prop := sd_stage s = Joining [].

(** ** Theorems: starting *)
Section start_theorems.
Context {H V : Type} `{HttpCrate H V} {Addr : Type} (parse_addr : string → outcome string Addr) (show_addr : Addr → string).
Context `{HashIter} (sql_display : SqlErr → string).

(** What a server with the configuration [cfg] does, in order, until it serves. *)
Definition start_events (h : Host (Addr := Addr)) (cfg : ServerConfig) : list (Event (Addr := Addr)) :=
  let root := default (path_join (h_temp_dir h) "agentjail-state") (sc_state_dir cfg) in
  [CleanVeths] ++ (Connect <$> option_list (nonblank (h_env h "DATABASE_URL"))) ++ [SpawnProxy (sc_proxy_addr cfg);
   CreateDirs ([path_join root "workspaces"; path_join root "snapshots"] ++ option_list (sc_snapshot_pool_dir cfg)); Reconcile root] ++
  (if gc_is_enabled (sc_snapshot_gc cfg) then [SpawnGc (Z.max (gc_tick_secs (sc_snapshot_gc cfg)) 1)] else []) ++
  (if (sc_idle_check_interval_secs cfg =? 0)%Z then [] else [SpawnIdle (Z.max (sc_idle_check_interval_secs cfg) 1) root]) ++
  (SpawnGateway <$> option_list (sc_gateway_addr cfg)) ++ [Bind (sc_ctl_addr cfg); SpawnControlPlane (sc_ctl_addr cfg)].

Lemma mbind_Ok {A B} (m : M (Addr := Addr) A) (f : A → M B) es b :
  mbind_ m f = (es, Ok b) ↔ ∃ es1 es2 a, m = (es1, Ok a) ∧ f a = (es2, Ok b) ∧ es = es1 ++ es2.
Proof.
  destruct m as [e1 [a| |]]; unfold mbind_; simpl.
  - split; [|by intros (?&es2&?&[= <- <-]&Hf&->); rewrite Hf].
    destruct (f a) as [e2 r] eqn:E. simpl. intros [= <- ->]. eauto 8.
  - split; [done|naive_solver].
  - split; [done|naive_solver].
Qed.
Lemma mbind_run {A B} (m : M (Addr := Addr) A) (f : A → M B) e1 a e2 r : m = (e1, Ok a) → f a = (e2, r) → mbind_ m f = (e1 ++ e2, r).
Proof. intros -> Hf. unfold mbind_. simpl. by rewrite Hf. Qed.
(** One step of a program that ended well. *)
Local Tactic Notation "run_inv" ident(Hs) "as" ident(e) ident(a) ident(H1) ident(H2) :=
  apply mbind_Ok in Hs as (e & ? & a & H1 & H2 & ->).
Lemma try_Ok {A} (o : outcome string A) (es : list (Event (Addr := Addr))) a : try o = (es, Ok a) ↔ es = [] ∧ o = Ok a.
Proof. unfold try. split; [by intros [= <- ->]|by intros [-> ->]]. Qed.
Lemma tell_Ok (l es : list (Event (Addr := Addr))) u : tell l = (es, Ok u) ↔ es = l.
Proof. unfold tell. destruct u. split; [by intros [= ->]|by intros ->]. Qed.
Lemma omap_err_Ok {E F A} (f : E → F) (o : outcome E A) a : omap_err f o = Ok a ↔ o = Ok a.
Proof. destruct o; simpl; split; congruence. Qed.

Definition database_ready (h : Host (Addr := Addr)) (db : option Pool) (tokens : Tokens) (keys : InMemoryKeyStore) : Prop :=
  match nonblank (h_env h "DATABASE_URL") with
  | None => db = None ∧ tokens = inl mem_new ∧ keys = seeded_keys (h_env h)
  | Some url => ∃ p0 p n, h_connect h url = Ok p0 ∧ rehydrate_keystore (seeded_keys (h_env h)) p0 = (keys, Ok n, p) ∧
      db = Some p ∧ tokens = inr (lru_new p (Z.to_nat (token_cache_capacity (h_env h))))
  end.
Lemma open_database_Ok h es db tokens keys :
  open_database sql_display h (seeded_keys (h_env h)) = (es, Ok (db, tokens, keys)) ↔
  database_ready h db tokens keys ∧ es = Connect <$> option_list (nonblank (h_env h "DATABASE_URL")).
Proof.
  unfold open_database, database_ready. destruct (nonblank _) as [url|]; simpl.
  - unfold context, mbind_, tell, try, mret. destruct (h_connect h url) as [p0|e|] eqn:Ec; simpl.
    + destruct (rehydrate_keystore (seeded_keys (h_env h)) p0) as [[keys' [n|e|]] p] eqn:Er; simpl.
      * split; [intros [= <- <- <- <-]; naive_solver|]. intros [(?&?&?&[= <-]&Hr&->&->) ->]. rewrite Er in Hr. by injection Hr as -> _ ->.
      * split; [done|]. intros [(?&?&?&[= <-]&Hr&_) _]. congruence.
      * split; [done|]. intros [(?&?&?&[= <-]&Hr&_) _]. congruence.
    + split; [done|naive_solver].
    + split; [done|naive_solver].
  - unfold mret. split; [by intros [= <- <- <- <-]|by intros [(->&->&->) ->]].
Qed.
Lemma build_proxy_Ok (h : Host (Addr := Addr)) tokens keys db proxy :
  build_proxy h tokens keys db = Ok proxy ↔
  is_ok (h_client h DEFAULT_UPSTREAM_TIMEOUT) = true ∧
  ∃ reg, register_all builtin_providers registry_new = Ok reg ∧ proxy = MkProxy reg tokens keys db.
Proof.
  assert (∃ reg : gmap ServiceId (Provider H), register_all builtin_providers registry_new = Ok reg ∧
    build_proxy h tokens keys db = obind (omap_err (λ e, Config ("reqwest: " +:+ e)) (h_client h DEFAULT_UPSTREAM_TIMEOUT))
      (λ _, Ok (MkProxy reg tokens keys db))) as (reg & Hreg & ->) by (eexists; split; reflexivity).
  rewrite Hreg. destruct (h_client h DEFAULT_UPSTREAM_TIMEOUT); simpl; naive_solver.
Qed.

(** The control plane serves only after everything before it has succeeded. *)
Definition serving (e : Event (Addr := Addr)) : bool := match e with SpawnControlPlane _ => true | _ => false end.
Definition serves_last {A} (m : M (Addr := Addr) A) : Prop := existsb serving m.1 = true → is_ok m.2 = true.
Lemma serves_last_bind {A B} (m : M (Addr := Addr) A) (f : A → M B) :
  existsb serving m.1 = false → (∀ a, serves_last (f a)) → serves_last (mbind_ m f).
Proof.
  unfold serves_last, mbind_. intros Hq Hf. destruct m as [es [a| |]]; simpl in *; rewrite ?existsb_app, ?Hq; [apply Hf|done..].
Qed.
Lemma serves_last_start h : serves_last (start parse_addr show_addr sql_display h).
Proof.
  unfold start. do 2 (apply serves_last_bind; [done|intros ?]).
  apply serves_last_bind.
  { unfold open_database. destruct (nonblank _); [|done]. unfold mbind_; simpl. destruct (h_connect h _); [|done..]. simpl.
    destruct (rehydrate_keystore _ _) as [[? []] ?]; done. }
  intros [[db tokens] keys]. do 2 (apply serves_last_bind; [done|intros ?]). destruct (ensure_state_dir _ _).
  do 3 (apply serves_last_bind; [done|intros ?]). do 2 (apply serves_last_bind; [by repeat case_match|intros ?]).
  apply serves_last_bind; [|intros ?; do 2 (apply serves_last_bind; [done|intros ?]); done].
  destruct (sc_gateway_addr _); [|done]. unfold mbind_. by destruct (h_gateway_client h).
Qed.

Lemma gateway_Ok (h : Host (Addr := Addr)) (o : option Addr) es u :
  match o with
  | Some a => mbind_ (try (context "build gateway HTTP client" (h_gateway_client h))) (λ _, tell [SpawnGateway a])
  | None => mret tt
  end = (es, Ok u) ↔ (is_Some o → is_ok (h_gateway_client h) = true) ∧ es = SpawnGateway <$> option_list o.
Proof.
  destruct u, o as [a|]; simpl; [|unfold mret; naive_solver]. unfold mbind_, context.
  destruct (h_gateway_client h); simpl; split; try done; intros H'; [by injection H' as <-|by destruct H' as [_ ->]|..].
  - destruct H' as [H' _]. by discriminate H'.
  - destruct H' as [H' _]. by discriminate H'.
Qed.
Lemma start_Ok h es rn : start parse_addr show_addr sql_display h = (es, Ok rn) ↔
  ∃ cfg db tokens keys reg,
    from_env parse_addr show_addr (h_env h) = Ok cfg ∧ database_ready h db tokens keys ∧
    is_ok (h_client h DEFAULT_UPSTREAM_TIMEOUT) = true ∧ register_all builtin_providers registry_new = Ok reg ∧
    (is_Some (sc_gateway_addr cfg) → is_ok (h_gateway_client h) = true) ∧ is_ok (h_bind h (sc_ctl_addr cfg)) = true ∧
    rn = MkRunning cfg db (MkProxy reg tokens keys db) (main_config (H := H) cfg tokens keys (new_lock ∅))
           (MkKeys (parsed_keys (sc_api_keys cfg))) (sc_gateway_addr cfg) ∧
    es = start_events h cfg.
Proof.
  unfold start, start_events. split.
  - intros Hs. run_inv Hs as e1 u1 T1 Hs. run_inv Hs as e2 cfg Hcfg Hs. run_inv Hs as e3 dbtk Hdb Hs.
    destruct dbtk as [[db tokens] keys]. run_inv Hs as e4 proxy Hp Hs. run_inv Hs as e5 u5 T5 Hs.
    unfold ensure_state_dir in Hs. run_inv Hs as e6 u6 T6 Hs. run_inv Hs as e7 ks Hks Hs. run_inv Hs as e8 u8 T8 Hs.
    run_inv Hs as e9 u9 T9 Hs. run_inv Hs as e10 u10 T10 Hs. run_inv Hs as e11 u11 T11 Hs. run_inv Hs as e12 u12 T12 Hs.
    run_inv Hs as e13 u13 Hb Hs. run_inv Hs as e14 u14 T14 Hs. injection Hs as <- <-.
    apply tell_Ok in T1, T5, T6, T8, T9, T10, T12, T14. apply try_Ok in Hcfg as [-> Hcfg], Hp as [-> Hp], Hks as [-> Hks], Hb as [-> Hb].
    apply omap_err_Ok in Hp, Hks, Hb. apply open_database_Ok in Hdb as [Hdb ->]. apply build_proxy_Ok in Hp as (Hc & reg & Hreg & ->).
    rewrite from_config_strings_ok in Hks. injection Hks as <-. apply gateway_Ok in T11 as [Hg ->]. subst.
    exists cfg, db, tokens, keys, reg. rewrite Hb. by split_and!.
  - intros (cfg & db & tokens & keys & reg & Hcfg & Hdb & Hc & Hreg & Hg & Hb & -> & ->).
    match goal with |- ?x = (?e, _) => cut (∃ e', x = (e', Ok (MkRunning cfg db (MkProxy reg tokens keys db)
      (main_config (H := H) cfg tokens keys (new_lock ∅)) (MkKeys (parsed_keys (sc_api_keys cfg))) (sc_gateway_addr cfg))) ∧ e' = e); [by intros (? & ? & ->)|] end.
    destruct (h_bind h (sc_ctl_addr cfg)) as [[]| |] eqn:Eb; [|done..]. eexists. split.
    { do 2 (eapply mbind_run; [by rewrite ?Hcfg|]). eapply mbind_run; [apply open_database_Ok; eauto|]. cbn beta iota.
      eapply mbind_run; [apply try_Ok; split; [done|]; apply omap_err_Ok, build_proxy_Ok; eauto|].
      eapply mbind_run; [done|]. unfold ensure_state_dir. eapply mbind_run; [done|].
      eapply mbind_run; [by rewrite from_config_strings_ok|]. do 3 (eapply mbind_run; [done|]).
      eapply mbind_run; [apply (gateway_Ok h _ _ tt); eauto|]. eapply mbind_run; [done|].
      eapply mbind_run; [by rewrite Eb|]. eapply mbind_run; done. }
    done.
Qed.
End start_theorems.

(** The server starts exactly if its addresses parse, its database (if one is
    configured) connects and its keys load, the HTTP clients build and the control
    plane's address binds; the proxy's address is not among the conditions.  Then the
    proxy and the control plane hold the same tokens and the same keys, and what
    happened is [start_events], in that order.  Whatever fails, no request is served
    by the control plane: it is spawned last, and only on success. *)
Theorem startup_exact {H V Addr} `{HttpCrate H V} `{HashIter} (parse_addr : string → outcome string Addr) (show_addr : Addr → string)
    (sql_display : SqlErr → string) (h : Host (Addr := Addr)) :
  let r := start (H := H) parse_addr show_addr sql_display h in
  (is_ok r.2 = true ↔ ∃ cfg db tokens keys, from_env parse_addr show_addr (h_env h) = Ok cfg ∧ database_ready h db tokens keys ∧
     is_ok (h_client h DEFAULT_UPSTREAM_TIMEOUT) = true ∧
     (is_Some (sc_gateway_addr cfg) → is_ok (h_gateway_client h) = true) ∧ is_ok (h_bind h (sc_ctl_addr cfg)) = true) ∧
  (∀ rn, r.2 = Ok rn → r.1 = start_events h (rn_config rn) ∧ from_env parse_addr show_addr (h_env h) = Ok (rn_config rn) ∧
     px_tokens (rn_proxy rn) = cc_tokens _ (rn_plane rn) ∧ px_keys (rn_proxy rn) = cc_keys _ (rn_plane rn) ∧
     database_ready h (rn_db rn) (cc_tokens _ (rn_plane rn)) (cc_keys _ (rn_plane rn)) ∧
     register_all builtin_providers registry_new = Ok (px_registry (rn_proxy rn)) ∧ px_audit (rn_proxy rn) = rn_db rn) ∧
  (existsb serving r.1 = true → is_ok r.2 = true).
Proof.
  cbv zeta. set (r := start _ _ _ _). split; [|split].
  - destruct r as [es o] eqn:Er. split.
    + destruct o as [rn| |]; [|done..]. intros _. apply start_Ok in Er as (cfg & db & tokens & keys & reg & ? & ? & ? & _ & ? & ? & _). eauto 10.
    + intros (cfg & db & tokens & keys & Hcfg & Hdb & Hc & Hg & Hb).
      assert (∃ reg : gmap ServiceId (Provider H), register_all builtin_providers registry_new = Ok reg) as [reg Hreg] by (by eexists).
      assert (∃ rn, r = (start_events h cfg, Ok rn)) as [rn Hr] by (eexists; apply start_Ok; eauto 15).
      rewrite Hr in Er. by injection Er as _ <-.
  - intros rn Hrn. assert (r = (r.1, Ok rn)) as Hr by (rewrite <- Hrn; by destruct r).
    apply start_Ok in Hr as (cfg & db & tokens & keys & reg & ? & ? & _ & ? & _ & _ & -> & He). by split_and!.
  - apply serves_last_start.
Qed.

(** ** Theorems: keys across a restart *)
Section restart.
Context {Addr : Type} `{HashIter} (sql_display : SqlErr → string).
Lemma seed_poisoned env v var keys : poisoned keys = false → poisoned (seed_if_set env v var keys) = false.
Proof. intros Hp. unfold seed_if_set. destruct (nonblank (env var)); [|done]. unfold keys_set. by rewrite keys_write_poisoned. Qed.
Lemma seeded_poisoned env : poisoned (seeded_keys env) = false.
Proof. unfold seeded_keys. by do 4 apply seed_poisoned. Qed.
(** The key the environment gives a tenant. *)
Definition env_key (env : env_fn) (t : string) (v : ServiceId) : option SecretString :=
  if String.eqb t "dev" then MkSecret <$> nonblank (env (token_var v)) else None.
(** Opening a database whose statements go through. *)
Lemma open_database_persisted (h : Host (Addr := Addr)) url p :
  nonblank (h_env h "DATABASE_URL") = Some url → h_connect h url = Ok p → (∀ n, pl_fault p n = Fine) → creds_named (pl_db p) →
  ∃ es p' tokens keys, open_database sql_display h (seeded_keys (h_env h)) = (es, Ok (Some p', tokens, keys)) ∧ pl_db p' = pl_db p ∧
    persisted (env_key (h_env h)) (λ _ _, False) (MkCS p' keys).
Proof.
  intros Hu Hc Hf Hw. destruct (rehydrate_persisted (seeded_keys (h_env h)) p (seeded_poisoned _) Hf Hw) as (keys & p' & Hr & Hdb & Hp & Hk & Hw' & Hf').
  eexists _, p', _, keys. split.
  { unfold open_database, context, mbind_, tell, try, mret. rewrite Hu. simpl. rewrite Hc. simpl. rewrite Hr. reflexivity. }
  split; [done|]. split; [done|]. split; [|done]. intros t v. specialize (Hk t v). destruct (cred_row _ t v); [done|].
  rewrite seeded_keys_exact in Hk. exact Hk.
Qed.
End restart.

(** C32: Credentials across a restart.  A server opens its database: it seeds the
    keys of the four services from its environment, for the tenant ["dev"], and loads
    the credentials table over them.  Credentials are then put and deleted through
    the routes in any order, with statements that go through and texts without the
    character zero, and the server is started again on the same table, with any
    environment.  Wherever the table has a row, the server that stopped and the one
    that starts use that row's secret.  Wherever it has none, the new server uses the
    key of its environment, and the one that stopped used the key of its
    environment, or none if a row had been deleted meanwhile: so a restart
    with the same environment changes no key but those, deleted through the
    route, for which a variable is set, and those come back. *)
Theorem restart_restores_keys {Addr} `{HashIter} (sql_display : SqlErr → string) (h : Host (Addr := Addr)) (url : string) (p : Pool) (ops : list CredOp) :
  nonblank (h_env h "DATABASE_URL") = Some url → h_connect h url = Ok p → (∀ n, pl_fault p n = Fine) → creds_named (pl_db p) →
  Forall cred_op_fits ops →
  ∃ es p0 tokens keys0, open_database sql_display h (seeded_keys (h_env h)) = (es, Ok (Some p0, tokens, keys0)) ∧
  let first := MkCS p0 keys0 in let st := foldl cred_step first ops in
  ∀ (h' : Host (Addr := Addr)) url' p1,
    nonblank (h_env h' "DATABASE_URL") = Some url' → h_connect h' url' = Ok p1 → pl_db p1 = pl_db (cs_creds st) → (∀ n, pl_fault p1 n = Fine) →
    ∃ es' p' tokens' keys, open_database sql_display h' (seeded_keys (h_env h')) = (es', Ok (Some p', tokens', keys)) ∧
    ∀ t v, match cred_row st t v with
      | Some r => keys_get t v (cs_keys st) = Some (MkSecret (cd_secret r)) ∧ keys_get t v keys = Some (MkSecret (cd_secret r))
      | None => keys_get t v keys = env_key (h_env h') t v ∧ (deleted_in first ops t v → keys_get t v (cs_keys st) = None) ∧
          (¬ deleted_in first ops t v → keys_get t v (cs_keys st) = env_key (h_env h) t v)
      end.
Proof.
  intros Hu Hc Hf Hw Hops. destruct (open_database_persisted sql_display h url p Hu Hc Hf Hw) as (es & p0 & tokens & keys0 & Ho & Hdb & Hp).
  exists es, p0, tokens, keys0. split; [done|]. intros first st h' url' p1 Hu' Hc' Hdb' Hf1.
  destruct (cred_run_persisted _ ops first _ Hp Hops) as (_ & Hk & Hwn & _). fold st in Hk, Hwn.
  destruct (open_database_persisted sql_display h' url' p1 Hu' Hc' Hf1) as (es' & p' & tokens' & keys & Ho' & Hdb'' & (_ & Hk' & _)); [by rewrite Hdb'|].
  exists es', p', tokens', keys. split; [done|]. intros t v. specialize (Hk t v). specialize (Hk' t v). unfold cred_row in *. simpl in Hk'.
  rewrite Hdb'', Hdb' in Hk'. destruct (db_credentials (pl_db (cs_creds st)) !! (t, service_name v)); [done|].
  destruct Hk as [Hk1 Hk2]. split; [apply (proj2 Hk'); tauto|]. split; [intros Hd; apply Hk1; by right|]. intros Hd. apply Hk2. intros [Hx|Hx]; [exact Hx|exact (Hd Hx)].
Qed.

(** ** Theorems: shutting down *)
Definition all_tasks : list Task := [TCtl; TProxy; TGateway].
Definition sd_measure (s : Sd) : nat :=
  length (filter (λ t, sd_tasks s t = TRunning) all_tasks) + match sd_stage s with AwaitSignal => 4 | Joining l => length l end.
Lemma sd_set_measure t s : sd_tasks s t = TRunning → sd_measure (sd_set t s) < sd_measure s.
Proof.
  intros Ht. unfold sd_measure, sd_set, all_tasks. cbn [sd_tasks sd_stage]. apply Nat.add_lt_mono_r.
  rewrite !filter_cons, filter_nil. destruct t; repeat case_decide; simpl in *; try congruence; lia.
Qed.
Lemma sd_step_measure g s s' : sd_step g s s' → sd_measure s' < sd_measure s.
Proof.
  intros [t s0 Ht|s0 Hs|t s0 _ Ht|t rest s0 Hs Ht]; [by apply sd_set_measure| |by apply sd_set_measure|].
  - unfold sd_measure. rewrite Hs. cbn [sd_tasks sd_stage]. destruct g; simpl; lia.
  - unfold sd_measure. rewrite Hs. simpl. lia.
Qed.
(** [main] is past the signal exactly if the listeners were told, and every handle it
    no longer waits for belongs to a task that has ended. *)
Definition sd_inv (g : bool) (s : Sd) : Prop :=
  match sd_stage s with
  | AwaitSignal => sd_told s = false
  | Joining rest => sd_told s = true ∧ ∃ joined, handles g = joined ++ rest ∧ ∀ t, t ∈ joined → sd_tasks s t = TEnded
  end.
Lemma sd_set_inv g t s : sd_inv g s → sd_inv g (sd_set t s).
Proof.
  unfold sd_inv, sd_set. simpl. destruct (sd_stage s); [done|]. intros (Ht & joined & Hj & He). split; [done|].
  exists joined. split; [done|]. intros t' Hin. case_decide; [done|by apply He].
Qed.
Lemma sd_reachable_inv g s : rtc (sd_step g) (sd_init g) s → sd_inv g s.
Proof.
  apply (rtc_ind_r (λ s, sd_inv g s)); [done|]. intros s1 s2 _ Hst Hi. destruct Hst as [t s0 Ht|s0 Hs|t s0 _ Ht|t rest s0 Hs Ht];
    [by apply sd_set_inv| |by apply sd_set_inv|]; unfold sd_inv in *; rewrite Hs in Hi; simpl.
  - split; [done|]. exists []. split; [done|]. by intros ? ?%elem_of_nil.
  - destruct Hi as (Htold & joined & Hj & He). split; [done|]. exists (joined ++ [t]). rewrite <- app_assoc. split; [done|].
    intros t' [Hin| ->%list_elem_of_singleton]%elem_of_app; [by apply He|done].
Qed.

(** The server stops only when it is told to, and then it does stop.  Whatever the
    listeners do and in whatever order: every run is finite, it can only get stuck
    where [main] has returned, and [main] returns only after the signal and after
    every listener it started has ended.  In particular a listener that ends by
    itself, the proxy whose address is taken, does not end [main]. *)
Theorem shutdown_drains (gateway : bool) (s : Sd) :
  rtc (sd_step gateway) (sd_init gateway) s →
  sn (sd_step gateway) s ∧ (nf (sd_step gateway) s → returned s) ∧
  (returned s → sd_told s = true ∧ ∀ t, t ∈ handles gateway → sd_tasks s t = TEnded) ∧
  (sd_told s = false → sd_stage s = AwaitSignal).
Proof.
  intros Hr%sd_reachable_inv. split; [|split; [|split]].
  - apply (wf_guard 32 (wf_projected lt sd_measure (λ s s' H, sd_step_measure gateway s' s H) lt_wf)).
  - intros Hnf. unfold returned, sd_inv in *. destruct (sd_stage s) as [|[|t rest]] eqn:Es; [|done|]; exfalso; apply Hnf.
    + eexists. by apply sd_signal.
    + destruct (sd_tasks s t) eqn:Et; [eexists; apply (sd_drain _ t); tauto|eexists; by eapply sd_join].
  - unfold returned, sd_inv in *. intros Hs. rewrite Hs in Hr. destruct Hr as (Ht & joined & Hj & He).
    rewrite app_nil_r in Hj. subst joined. by split.
  - unfold sd_inv in Hr. destruct (sd_stage s); [done|]. destruct Hr as [-> _]. done.
Qed.

(** ** Theorems: the listeners *)
(** Every path the router hands to the handler has a service segment: the handler's
    answer for a path without one is never given. *)
Lemma routed_paths_split path : proxy_route path = PrHandle → is_Some (split_service_path path).
Proof.
  unfold proxy_route, split_service_path. destruct (String.eqb path "/healthz"); [done|].
  destruct (strip_prefix "/v1/" path) as [rest|]; [|done]. intros _. simpl. destruct (str_find "/" rest); eauto.
Qed.

Definition is_accepted (e : LoopEvent) : bool := match e with Accepted _ _ _ => true | _ => false end.
Fixpoint leading (events : list LoopEvent) : list LoopEvent :=
  match events with e :: rest => if is_accepted e then e :: leading rest else [] | [] => [] end.
Lemma accept_loop_leading `{Lowercase} allowlist events :
  (accept_loop allowlist events).1 = (accept_loop allowlist (leading events)).1 ∧
  length (accept_loop allowlist events).1 = length (leading events).
Proof.
  induction events as [|[i l c|e|] rest [IH IHl]]; simpl; [done| |done..].
  destruct (accept_loop allowlist rest), (accept_loop allowlist (leading rest)). simpl in *. by rewrite IH, <- IHl, IH.
Qed.
Lemma accept_loop_in `{Lowercase} allowlist events r :
  r ∈ (accept_loop allowlist events).1 → ∃ input lookup_host connect,
    Accepted input lookup_host connect ∈ leading events ∧ r = handle_connection lookup_host connect allowlist input.
Proof.
  induction events as [|[i l c|e|] rest IH]; simpl; [by intros ?%elem_of_nil| |by intros ?%elem_of_nil..].
  destruct (accept_loop allowlist rest). simpl in *. intros [->|Hin]%elem_of_cons; [set_solver|].
  destruct (IH Hin) as (?&?&?&?&?). set_solver.
Qed.

(** The allow-list proxy of a jail reaches only what the jail's configuration names.
    Over the whole life of its thread: it is usable exactly if the address could be
    bound (otherwise a line is printed and the jail runs on without it); it serves
    exactly the connections accepted before the first error of [accept] or the
    shutdown, none after; and every address any of them tries is publicly routable
    and is an answer of the resolver for a host that one of the jail's domains
    matches. *)
Theorem allowlist_proxy_run `{Lowercase} (domains : list string) (bind_ip : Z) (bind : outcome string unit) (events : list LoopEvent) :
  let '(ready, served, ended) := run_proxy (allowlist_config domains bind_ip) bind events in
  (await_ready ready = None ↔ bind = Ok tt) ∧
  (length served = if is_ok bind then length (leading events) else 0%nat) ∧
  (∀ r sa, r ∈ served → sa ∈ p1_attempts r → is_public_routable sa.1 = true ∧
     ∃ input lookup_host connect host (port : Z) addrs d, Accepted input lookup_host connect ∈ leading events ∧
       d ∈ domains ∧ pattern_matches (pattern_parse d) host = true ∧
       lookup_host (host +:+ ":" +:+ pretty port) = Some addrs ∧ sa ∈ addrs).
Proof.
  unfold run_proxy, allowlist_config. cbn [pc_allowlist]. destruct bind as [[]|e|]; cbv beta iota; [|(split; [naive_solver|]; split; [done|]; by intros ? ? ?%elem_of_nil)..].
  destruct (accept_loop_leading (pattern_parse <$> domains) events) as [_ Hlen].
  pose proof (accept_loop_in (pattern_parse <$> domains) events) as Hin.
  destruct (accept_loop (pattern_parse <$> domains) events) as [served ended]. cbn [fst] in Hin, Hlen. split; [done|]. split; [done|].
  intros r sa (input & lookup_host & connect & Hacc & ->)%Hin Hsa.
  destruct (handle_connection_cases lookup_host connect (pattern_parse <$> domains) input)
    as [(Ha & _)|(line & rest & target & more & host & port & addrs & tried & res & _ & _ & _ & Hal & Hlk & Hc & Ha & _)];
    rewrite Ha in Hsa; [by apply elem_of_nil in Hsa|].
  pose proof (connect_first_tried _ _ _ _ _ _ Hc Hsa) as [Hpub Hmem]%list_elem_of_filter. split; [done|].
  apply existsb_exists in Hal as (p & Hp & Hm). apply list_elem_of_In, list_elem_of_fmap in Hp as (d & -> & Hd).
  by exists input, lookup_host, connect, host, port, addrs, d.
Qed.

(** The tunnel relays in both directions, in order, everything that arrives before
    either side is done, and nothing after: a client that closes its sending half when
    it has sent its request loses what the target had not yet answered. *)
Definition from_client (e : TunnelEvent) : string := match e with ClientData d => d | _ => "" end.
Definition from_target (e : TunnelEvent) : string := match e with TargetData d => d | _ => "" end.
Definition is_data (e : TunnelEvent) : bool := match e with ClientData _ | TargetData _ => true | _ => false end.
Definition sent_by (f : TunnelEvent → string) (l : list TunnelEvent) : string := foldr (λ e s, f e +:+ s) "" l.
Lemma tunnel_relays (before after : list TunnelEvent) (e : TunnelEvent) :
  Forall (λ x, is_data x = true) before → is_data e = false →
  tunnel (before ++ e :: after) = (sent_by from_client before, sent_by from_target before, true) ∧
  tunnel before = (sent_by from_client before, sent_by from_target before, false).
Proof.
  intros Hb He. induction Hb as [|x before Hx Hb [IH IH']]; [by destruct e|].
  simpl. destruct x; [rewrite IH, IH'|rewrite IH, IH'|done..]; done.
Qed.

(** ** A restart *)
Module RestartExample.
Definition admin_dev : TenantScope := MkTS "dev" Admin.
Definition env : env_fn := λ var, if String.eqb var "DATABASE_URL" then Some "postgres://db" else if String.eqb var "OPENAI_API_KEY" then Some "sk-env" else None.
Definition host (p : Pool) : Host (Addr := unit) := MkHost env "/tmp" (λ _, Ok p) (λ _, Ok tt) (Ok tt) (λ _, Ok tt).
Definition ops : list CredOp := [CPut 1 admin_dev None OpenAi "sk-1"; CPut 2 admin_dev None Stripe "sk-2"; CDelete admin_dev None "openai"].
Definition opened (p : Pool) : Pool * InMemoryKeyStore :=
  match (open_database PgStores.no_sql (host p) (seeded_keys env)).2 with Ok (Some p, _, keys) => (p, keys) | _ => (p, keys_new) end.
Definition first : CredState Pool := MkCS (opened (calm_pool db_empty)).1 (opened (calm_pool db_empty)).2.
Definition stopped : CredState Pool := foldl cred_step first ops.
Definition again : InMemoryKeyStore := (opened (calm_pool (pl_db (cs_creds stopped)))).2.
End RestartExample.
(** A stored key survives; a deleted one with a variable comes back. *)
Lemma restart_restores_keys_witness :
  (∃ es p tokens keys, open_database PgStores.no_sql (RestartExample.host (calm_pool (pl_db (cs_creds RestartExample.stopped)))) (seeded_keys RestartExample.env) = (es, Ok (Some p, tokens, keys)) ∧
     keys_get "dev" Stripe keys = Some (MkSecret "sk-2") ∧ keys_get "dev" OpenAi keys = Some (MkSecret "sk-env")) ∧
  keys_get "dev" OpenAi (cs_keys RestartExample.stopped) = None.
Proof.
  split; [|vm_compute; reflexivity].
  destruct (restart_restores_keys PgStores.no_sql (RestartExample.host (calm_pool db_empty)) "postgres://db" (calm_pool db_empty) RestartExample.ops)
    as (es & p0 & tokens & keys0 & Ho & Hr).
  - reflexivity.
  - reflexivity.
  - reflexivity.
  - apply map_Forall_empty.
  - repeat constructor; intros t Ht; vm_compute in Ht; injection Ht as <-; reflexivity.
  - assert (MkCS p0 keys0 = RestartExample.first) as Hfirst.
    { unfold RestartExample.first, RestartExample.opened. change (seeded_keys RestartExample.env) with (seeded_keys (h_env (RestartExample.host (calm_pool db_empty)))).
      rewrite Ho. reflexivity. }
    cbv zeta in Hr. rewrite Hfirst in Hr. fold RestartExample.stopped in Hr.
    destruct (Hr (RestartExample.host (calm_pool (pl_db (cs_creds RestartExample.stopped)))) "postgres://db" (calm_pool (pl_db (cs_creds RestartExample.stopped))))
      as (es' & p' & tokens' & keys & Ho' & Hk); [reflexivity..|].
    exists es', p', tokens', keys. split; [exact Ho'|]. split.
    + pose proof (Hk "dev" Stripe) as Hs. destruct (cred_row RestartExample.stopped "dev" Stripe) as [r|] eqn:E; [|vm_compute in E; discriminate E].
      destruct Hs as [_ Hs]. rewrite Hs. vm_compute in E. injection E as <-. reflexivity.
    + pose proof (Hk "dev" OpenAi) as Hs. destruct (cred_row RestartExample.stopped "dev" OpenAi) as [r|] eqn:E; [vm_compute in E; discriminate E|].
      destruct Hs as [Hs _]. rewrite Hs. reflexivity.
Defined.
