(* ===== verification/Bench.v ===== *)
(** * The benchmark harness: samples, statistics, reports

    Models of [agentjail-bench]: [metrics.rs] (latency statistics and the report),
    [runner.rs] (what a run counts, and how the extras of its iterations are merged),
    [Iteration] of [scenarios/mod.rs], the parsing of [env.rs] and the file contents
    of [fixtures.rs].  Floating-point numbers are IEEE binary64 in the standard
    library's specification ([spec_float] with 53 bits of precision), so that the
    rounding of the code is the rounding of the model.  What a scenario does is a
    parameter: the result of its [i]-th call; so is the order in which the tasks end.
    A sum of [u64] wraps, as in a release build. *)

From Stdlib Require Import SpecFloat.
From S2P Require Import Prelude Text.
Local Open Scope Z_scope.

(** ** binary64 *)
Definition f64 : Type := spec_float.
Definition PREC : Z := 53.
Definition EMAX : Z := 1024.
(** [z as f64]: rounds to nearest, ties to even. *)
Definition f64_of (z : Z) : f64 := binary_normalize PREC EMAX z 0 false.
Definition f64_add : f64 → f64 → f64 := SFadd PREC EMAX.
Definition f64_sub : f64 → f64 → f64 := SFsub PREC EMAX.
Definition f64_mul : f64 → f64 → f64 := SFmul PREC EMAX.
Definition f64_div : f64 → f64 → f64 := SFdiv PREC EMAX.
Definition f64_sqrt : f64 → f64 := SFsqrt PREC EMAX.
(** A literal [n / 100]: the nearest number, as a division of exact operands gives it. *)
Definition percent (n : Z) : f64 := f64_div (f64_of n) (f64_of 100).
Definition saturate (z : Z) : Z := Z.min (Z.max z 0) (2 ^ 64 - 1).
(** [x as u64] truncates and saturates; not-a-number is 0. *)
Definition f64_as_u64 (x : f64) : Z :=
  match x with
  | S754_finite s m e =>
      let v := if s then Z.neg m else Z.pos m in
      saturate (if 0 <=? e then v * 2 ^ e else Z.quot v (2 ^ (- e)))
  | S754_infinity false => 2 ^ 64 - 1
  | _ => 0
  end.
(** [x.ceil() as usize] *)
Definition f64_ceil_usize (x : f64) : Z :=
  match x with
  | S754_finite s m e =>
      let v := if s then Z.neg m else Z.pos m in
      saturate (if 0 <=? e then v * 2 ^ e else - ((- v) / 2 ^ (- e)))
  | S754_infinity false => 2 ^ 64 - 1
  | _ => 0
  end.

(** ** [metrics.rs] *)
Record LatencyStats := MkLat {
  lat_min : Z; lat_p50 : Z; lat_p95 : Z; lat_p99 : Z; lat_max : Z; lat_mean : Z; lat_stddev : Z }.
(** [None]: the index is out of range, a panic. *)
Definition pct (sorted : list Z) (p : f64) : option Z :=
  let idx := f64_ceil_usize (f64_mul (f64_of (Z.of_nat (length sorted))) p) in
  match length sorted with
  | O => None
  | S n => sorted !! Nat.min (Z.to_nat (Z.max (idx - 1) 0)) n
  end.
Definition mean_of (samples : list Z) : f64 :=
  f64_div (f64_of (u64 (foldl Z.add 0 samples))) (f64_of (Z.of_nat (length samples))).
Definition variance_of (samples : list Z) : f64 :=
  let mean := mean_of samples in
  f64_div (foldl (λ acc x, let d := f64_sub (f64_of x) mean in f64_add acc (f64_mul d d)) (S754_zero false) samples)
    (f64_of (Z.of_nat (length samples))).
(** The outer [None] is a panic. *)
Definition from_micros (samples : list Z) : option (option LatencyStats) :=
  match samples with
  | [] => Some None
  | _ =>
      let sorted := sort_by Z.leb samples in
      mn ← sorted !! 0%nat;
      p50 ← pct sorted (percent 50);
      p95 ← pct sorted (percent 95);
      p99 ← pct sorted (percent 99);
      mx ← last sorted;
      Some (Some (MkLat mn p50 p95 p99 mx (f64_as_u64 (mean_of sorted)) (f64_as_u64 (f64_sqrt (variance_of sorted)))))
  end.

(** ** JSON values of the extras *)
Inductive value :=
| VNull | VBool (b : bool) | VInt (z : Z) | VFloat (x : f64) | VString (s : string)
| VArray (l : list value) | VObject (l : list (string * value)).
Definition as_f64 (v : value) : option f64 := match v with VInt z => Some (f64_of z) | VFloat x => Some x | _ => None end.
Definition is_null (v : value) : bool := match v with VNull => true | _ => false end.
(** [==] of the crate: floating-point numbers by their own equality. *)
Fixpoint value_eqb (a b : value) : bool :=
  match a, b with
  | VNull, VNull => true
  | VBool x, VBool y => Bool.eqb x y
  | VInt x, VInt y => x =? y
  | VFloat x, VFloat y => SFeqb x y
  | VString x, VString y => String.eqb x y
  | VArray xs, VArray ys =>
      (fix go (xs ys : list value) : bool :=
         match xs, ys with [], [] => true | x :: xs, y :: ys => value_eqb x y && go xs ys | _, _ => false end) xs ys
  | VObject xs, VObject ys =>
      (fix go (xs ys : list (string * value)) : bool :=
         match xs, ys with
         | [], [] => true
         | x :: xs, y :: ys => String.eqb x.1 y.1 && value_eqb x.2 y.2 && go xs ys
         | _, _ => false
         end) xs ys
  | _, _ => false
  end.

Record Iteration := MkIt { it_ok : bool; it_duration_us : Z; it_extra : value }.
(** A duration is in nanoseconds; [as_micros() as u64]. *)
Definition iteration_ok (duration : Z) (extra : value) : Iteration := MkIt true (u64 (duration / 1000)) extra.
Definition iteration_from_err : Iteration := MkIt false 0 VNull.

(** ** [runner.rs]: merging the extras *)
Section merge.
(** [Value::to_string] *)
Context (render : value → string).
Definition string_le (a b : string) : bool := match String.compare a b with Gt => false | _ => true end.
(** The elements of a [BTreeSet]: sorted, without duplicates. *)
Definition btree (l : list string) : list string := sort_by string_le (remove_dups l).
Definition fields (v : value) : list (string * value) := match v with VObject l => l | _ => [] end.
Definition is_object (v : value) : bool := match v with VObject _ => true | _ => false end.
Definition get_field (k : string) (v : value) : option value := snd <$> List.find (λ kv, String.eqb kv.1 k) (fields v).
(** [partial_cmp(..).unwrap_or(Equal)] is not [Greater]. *)
Definition f64_le (a b : f64) : bool := match SFcompare a b with Some Gt => false | _ => true end.
(** [None]: an index out of range, a panic. *)
Definition collapse_values (values : list value) : option value :=
  v0 ← values !! 0%nat;
  if forallb (λ v, value_eqb v v0) values then Some v0 else
  match mapM as_f64 values with
  | Some nums =>
      let nums := sort_by f64_le nums in
      let n := length nums in
      mn ← nums !! 0%nat;
      p50 ← nums !! (n / 2)%nat;
      mx ← nums !! (n - 1)%nat;
      Some (VObject [("max", VFloat mx); ("min", VFloat mn); ("p50", VFloat p50)])
  | None => Some (VArray (VString <$> btree (render <$> values)))
  end.
Definition count_of (k : string) (l : list string) : Z := Z.of_nat (length (filter (λ s, s = k) l)).
Definition merge_extras (extras : list value) : option value :=
  match extras with
  | [] => Some VNull
  | e0 :: _ =>
      if (length extras =? 1)%nat || forallb (λ e, value_eqb e e0) extras then Some e0
      else if forallb is_object extras then
        out ← mapM (λ k, v ← collapse_values (omap (get_field k) extras); Some (k, v)) (btree (extras ≫= λ e, (fields e).*1));
        Some (VObject out)
      else let reprs := render <$> extras in Some (VObject ((λ k, (k, VInt (count_of k reprs))) <$> btree reprs))
  end.

(** ** [runner.rs]: a run *)
Record Report := MkReport {
  rp_scenario : string; rp_concurrency : nat; rp_iters : nat; rp_warmup : nat; rp_errors : nat;
  rp_wall_clock_s : f64; rp_throughput_per_s : f64; rp_latency_us : option LatencyStats; rp_extra : value }.
(** [Duration::as_secs_f64] of nanoseconds *)
Definition as_secs_f64 (wall : Z) : f64 := f64_add (f64_of (wall / 10 ^ 9)) (f64_div (f64_of (wall mod 10 ^ 9)) (f64_of (10 ^ 9))).
Definition from_samples (scenario : string) (concurrency iters warmup : nat) (wall : Z) (latencies : list Z) (errors : nat) (extra : value)
    : option Report :=
  let wall_s := as_secs_f64 wall in
  let throughput := if SFltb (S754_zero false) wall_s then f64_div (f64_of (Z.of_nat (length latencies))) wall_s else S754_zero false in
  l ← from_micros latencies;
  Some (MkReport scenario concurrency iters warmup errors wall_s throughput l extra).
(** What [join_next] gives for a task: [None] if it panicked. *)
Definition joined_of (r : outcome string Iteration) : option Iteration :=
  match r with Ok it => Some it | Err _ => Some iteration_from_err | Panic => None end.
Fixpoint collect_joined (joined : list (option Iteration)) (latencies : list Z) (errors : nat) (extras : list value)
    : list Z * nat * list value :=
  match joined with
  | [] => (latencies, errors, extras)
  | Some it :: rest =>
      if it_ok it then
        collect_joined rest (latencies ++ [it_duration_us it]) errors (if is_null (it_extra it) then extras else extras ++ [it_extra it])
      else collect_joined rest latencies (S errors) extras
  | None :: rest => collect_joined rest latencies (S errors) extras
  end.
Fixpoint warm_up (dispatch : nat → outcome string Iteration) (scenario : string) (i n : nat) : outcome string unit :=
  match n with
  | O => Ok tt
  | S n =>
      match dispatch i with
      | Ok _ => warm_up dispatch scenario (S i) n
      | Err e => Err ("warmup iteration " +:+ pretty (Z.of_nat i) +:+ " of " +:+ scenario +:+ ": " +:+ e)
      | Panic => Panic
      end
  end.
(** [dispatch i]: the result of the [i]-th call of the scenario, warm-up first;
    [order]: the tasks in the order in which they end; [wall]: the elapsed time. *)
Definition bench_run (dispatch : nat → outcome string Iteration) (order : list nat) (wall : Z)
    (scenario : string) (concurrency iters warmup : nat) : outcome string Report :=
  if (concurrency =? 0)%nat then Err "concurrency must be >= 1"
  else if (iters =? 0)%nat then Err "iters must be >= 1"
  else obind (warm_up dispatch scenario 0 warmup) (λ _,
    let '(latencies, errors, extras) := collect_joined ((λ i, joined_of (dispatch (warmup + i)%nat)) <$> order) [] 0 [] in
    match (extra ← merge_extras extras; from_samples scenario concurrency iters warmup wall latencies errors extra) with
    | Some r => Ok r
    | None => Panic
    end).
End merge.

(** ** [env.rs] and [fixtures.rs] *)
(** The contents of the files they read; [None]: it cannot be read. *)
Definition read_trimmed (contents : option string) : option string := trim <$> contents.
Definition has_userns (contents : option string) : bool :=
  default false (s ← contents; n ← parse_u64 (trim s); Some (0 <? n)).
Definition is_cgroup_v2 (contents : option string) : bool :=
  match contents with Some s => existsb (str_contains " cgroup2 ") (str_split (String (byte_of 10) "") s) | None => false end.
(** Byte [j] of file [i] of a fabricated tree, and a file of [size] bytes. *)
Definition tree_byte (i j : Z) : Z := Z.land (Z.lxor (u64 (i * 2654435761)) j) 255.
Definition tree_file (i : Z) (size : nat) : list Z := (λ j, tree_byte i (Z.of_nat j)) <$> seq 0 size.

(** ** Theorems: statistics *)
(** The number of samples up to [x]. *)
Definition upto (x : Z) (samples : list Z) : nat := length (filter (λ y, y ≤ x) samples).
(** The nearest-rank percentile: the least sample that at least [q] of a hundred
    samples do not exceed. *)
Definition nearest_rank (q : Z) (samples : list Z) (x : Z) : Prop :=
  x ∈ samples ∧ q * Z.of_nat (length samples) ≤ 100 * Z.of_nat (upto x samples) ∧
  ∀ y, y ∈ samples → y < x → 100 * Z.of_nat (upto y samples) < q * Z.of_nat (length samples).

Lemma upto_perm x l l' : l ≡ₚ l' → upto x l = upto x l'.
Proof. intros Hp. unfold upto. by rewrite Hp. Qed.
Lemma upto_cons x a l : upto x (a :: l) = ((if decide (a ≤ x)%Z then 1 else 0) + upto x l)%nat.
Proof. unfold upto. rewrite filter_cons. by case_decide. Qed.
Lemma sorted_tail_ge (a : Z) l : Forall (λ y, Is_true (a <=? y)) l → ∀ y, y ∈ l → a ≤ y.
Proof. rewrite Forall_forall. intros Hf y Hy. by apply Z.leb_le, Is_true_true, Hf. Qed.
(** In a sorted list, [k] samples and no more come before the [k]-th one's value. *)
Lemma rank_low l : StronglySorted Z.leb l → ∀ k x, l !! k = Some x → (k < upto x l)%nat.
Proof.
  induction 1 as [|a l Hs IH Hall]; intros k x Hk; [done|]. rewrite upto_cons. pose proof (sorted_tail_ge a l Hall) as Hge.
  destruct k as [|k]; simpl in Hk.
  - injection Hk as <-. rewrite decide_True by lia. lia.
  - pose proof (Hge x (list_elem_of_lookup_2 _ _ _ Hk)). rewrite decide_True by lia. specialize (IH k x Hk). lia.
Qed.
Lemma rank_high l : StronglySorted Z.leb l → ∀ k x y, l !! k = Some x → y < x → (upto y l ≤ k)%nat.
Proof.
  induction 1 as [|a l Hs IH Hall]; intros k x y Hk Hy; [done|]. rewrite upto_cons. pose proof (sorted_tail_ge a l Hall) as Hge.
  destruct k as [|k]; simpl in Hk.
  - injection Hk as <-. rewrite decide_False by lia. unfold upto. rewrite filter_none; [done|]. intros z Hz. specialize (Hge z Hz). lia.
  - specialize (IH k x y Hk Hy). case_decide; lia.
Qed.
Lemma samples_sorted samples : StronglySorted Z.leb (sort_by Z.leb samples).
Proof. apply sort_by_sorted; intros *; rewrite !Z.leb_le; lia. Qed.
Lemma sort_samples_perm l l' : l ≡ₚ l' → sort_by Z.leb l = sort_by Z.leb l'.
Proof.
  intros Hp. apply (StronglySorted_unique_strong (λ a b, Is_true (Z.leb a b))); [|apply samples_sorted..|by rewrite !sort_by_perm].
  intros a b _ _. rewrite !Is_true_true, !Z.leb_le. lia.
Qed.

(** The index that the rounded product gives is the exact one. *)
Definition rank_index (q n : Z) : Z := (q * n + 99) / 100 - 1.
Definition f64_index (q n : Z) : Z := Z.max (f64_ceil_usize (f64_mul (f64_of n) (percent q)) - 1) 0.
Definition MAX_SAMPLES : Z := 2000.
(** The three literals. *)
Definition percents : list (Z * f64) :=
  [(50, S754_finite false 4503599627370496 (-53)); (95, S754_finite false 8556839292003942 (-53)); (99, S754_finite false 8917127262193582 (-53))].
Lemma percents_are : Forall (λ qp, percent qp.1 = qp.2) percents.
Proof. repeat constructor. Qed.
Definition index_agrees (n : Z) : bool :=
  let x := f64_of n in forallb (λ qp, Z.max (f64_ceil_usize (f64_mul x qp.2) - 1) 0 =? rank_index qp.1 n) percents.
Fixpoint all_below (p : Z → bool) (fuel : nat) (n : Z) : bool :=
  match fuel with O => true | S fuel => p n && all_below p fuel (n - 1) end.
Lemma all_below_spec p fuel : ∀ n, all_below p fuel n = true → ∀ z, n - Z.of_nat fuel < z ≤ n → p z = true.
Proof.
  induction fuel as [|fuel IH]; intros n; simpl; [lia|]. intros [Hp Ha]%andb_true_iff z Hz.
  destruct (decide (z = n)) as [->|]; [done|]. apply (IH (n - 1) Ha). lia.
Qed.
Lemma indexes_agree : all_below index_agrees (Z.to_nat MAX_SAMPLES) MAX_SAMPLES = true.
Proof. vm_compute. reflexivity. Qed.
Lemma f64_index_exact q n : q ∈ [50; 95; 99] → 1 ≤ n ≤ MAX_SAMPLES → f64_index q n = rank_index q n.
Proof.
  intros Hq Hn. pose proof (all_below_spec _ _ _ indexes_agree n) as Ha. unfold MAX_SAMPLES in *.
  specialize (Ha ltac:(lia)). unfold index_agrees in Ha. rewrite forallb_forall in Ha. unfold f64_index. apply Z.eqb_eq.
  pose proof percents_are as Hp. rewrite Forall_forall in Hp.
  assert (∃ p, (q, p) ∈ percents) as [p Hin] by (unfold percents; set_solver).
  pose proof (Hp _ Hin) as Hqp. simpl in Hqp. rewrite Hqp. apply (Ha (q, p)). by apply list_elem_of_In.
Qed.
Lemma pct_at q sorted : q ∈ [50; 95; 99] → 1 ≤ Z.of_nat (length sorted) ≤ MAX_SAMPLES →
  ∃ x, pct sorted (percent q) = Some x ∧ sorted !! Z.to_nat (rank_index q (Z.of_nat (length sorted))) = Some x.
Proof.
  intros Hq Hn. unfold pct. fold (f64_index q (Z.of_nat (length sorted))). rewrite f64_index_exact by done.
  assert (0 ≤ rank_index q (Z.of_nat (length sorted)) < Z.of_nat (length sorted)) as Hr.
  { unfold rank_index. assert (50 ≤ q ≤ 99) as Hq' by (repeat (apply elem_of_cons in Hq as [->|Hq]; [lia|]); by apply elem_of_nil in Hq).
    set (n := Z.of_nat (length sorted)) in *. pose proof (Z.div_mod (q * n + 99) 100 ltac:(lia)).
    pose proof (Z.mod_pos_bound (q * n + 99) 100 ltac:(lia)). nia. }
  destruct (length sorted) as [|n] eqn:E; [lia|]. rewrite Nat.min_l by lia.
  destruct (lookup_lt_is_Some_2 sorted (Z.to_nat (rank_index q (Z.of_nat (S n))))) as [x Hx]; [lia|]. rewrite Hx. eauto.
Qed.
Lemma pct_nearest q samples : q ∈ [50; 95; 99] → samples ≠ [] → Z.of_nat (length samples) ≤ MAX_SAMPLES →
  ∃ x, pct (sort_by Z.leb samples) (percent q) = Some x ∧ nearest_rank q samples x.
Proof.
  intros Hq Hne Hlen. pose proof (samples_sorted samples) as Hs. pose proof (sort_by_perm Z.leb samples) as Hp.
  assert (1 ≤ Z.of_nat (length samples)) as H1 by (destruct samples; [done|simpl; lia]).
  destruct (pct_at q (sort_by Z.leb samples)) as (x & Hx & Hl); [done|by rewrite length_sort_by|].
  exists x. split; [done|]. rewrite length_sort_by in Hl. set (n := Z.of_nat (length samples)) in *.
  pose proof (rank_low _ Hs _ _ Hl) as Hlow. rewrite (upto_perm x _ _ Hp) in Hlow. unfold rank_index in *.
  assert (50 ≤ q) as Hq' by (repeat (apply elem_of_cons in Hq as [->|Hq]; [lia|]); by apply elem_of_nil in Hq).
  pose proof (Z.div_mod (q * n + 99) 100 ltac:(lia)). pose proof (Z.mod_pos_bound (q * n + 99) 100 ltac:(lia)).
  split; [by apply (elem_of_sort_by Z.leb), (list_elem_of_lookup_2 _ _ _ Hl)|]. fold n. split; [nia|].
  intros y _ Hy. pose proof (rank_high _ Hs _ _ _ Hl Hy) as Hhigh. rewrite (upto_perm y _ _ Hp) in Hhigh. nia.
Qed.
Lemma nearest_rank_mono q q' samples x x' : nearest_rank q samples x → nearest_rank q' samples x' → q ≤ q' → x ≤ x'.
Proof.
  intros (Hx & _ & Hmin) (Hx' & Hup & _) Hq. destruct (decide (x ≤ x')); [done|]. specialize (Hmin x' Hx' ltac:(lia)). nia.
Qed.
Lemma last_greatest l x : StronglySorted Z.leb l → last l = Some x → ∀ y, y ∈ l → y ≤ x.
Proof.
  induction 1 as [|a l Hs IH Hall]; intros Hl y Hy; [done|]. pose proof (sorted_tail_ge a l Hall) as Hge.
  destruct l as [|b l]; [injection Hl as <-; apply list_elem_of_singleton in Hy as ->; lia|].
  apply elem_of_cons in Hy as [->|Hy]; [|by apply IH]. apply Hge. by apply last_Some_elem_of.
Qed.

(** The reported percentiles are the nearest-rank percentiles.  For every non-empty
    set of at most [MAX_SAMPLES] latencies the statistics exist; the minimum and
    maximum are a least and a greatest sample, and for 50, 95 and 99 the reported
    value is the least sample that this share of the samples does not exceed,
    although the code finds its index with rounded arithmetic; so the five values are
    in order.  The order of the samples does not matter. *)
Theorem latency_percentiles (samples samples' : list Z) :
  samples ≠ [] → Z.of_nat (length samples) ≤ MAX_SAMPLES → samples' ≡ₚ samples →
  ∃ s, from_micros samples = Some (Some s) ∧ from_micros samples' = Some (Some s) ∧
    (lat_min s ∈ samples ∧ ∀ y, y ∈ samples → lat_min s ≤ y) ∧ (lat_max s ∈ samples ∧ ∀ y, y ∈ samples → y ≤ lat_max s) ∧
    nearest_rank 50 samples (lat_p50 s) ∧ nearest_rank 95 samples (lat_p95 s) ∧ nearest_rank 99 samples (lat_p99 s) ∧
    lat_min s ≤ lat_p50 s ≤ lat_p95 s ∧ lat_p95 s ≤ lat_p99 s ≤ lat_max s.
Proof.
  intros Hne Hlen Hperm. pose proof (samples_sorted samples) as Hs.
  assert (from_micros samples' = from_micros samples) as ->.
  { unfold from_micros. rewrite (sort_samples_perm samples' samples) by done. destruct samples, samples'; try done; by apply Permutation_length in Hperm. }
  destruct (pct_nearest 50 samples) as (p50 & E50 & R50); [set_solver|done..|].
  destruct (pct_nearest 95 samples) as (p95 & E95 & R95); [set_solver|done..|].
  destruct (pct_nearest 99 samples) as (p99 & E99 & R99); [set_solver|done..|].
  assert (∃ a l, sort_by Z.leb samples = a :: l) as (a & l & Esort).
  { destruct (sort_by Z.leb samples) eqn:E; [|eauto]. pose proof (length_sort_by Z.leb samples). rewrite E in H. by destruct samples. }
  destruct (last (sort_by Z.leb samples)) as [mx|] eqn:El; [|rewrite Esort in El; by apply last_None in El].
  assert (∀ y, y ∈ samples ↔ y ∈ a :: l) as Hin by (intros y; rewrite <- Esort; by rewrite elem_of_sort_by).
  assert (∀ y, y ∈ samples → a ≤ y) as Hmin.
  { rewrite Esort in Hs. apply StronglySorted_inv in Hs as [_ Hall]. intros y [->|Hy]%Hin%elem_of_cons; [lia|]. by apply (sorted_tail_ge a l). }
  assert (∀ y, y ∈ samples → y ≤ mx) as Hmax by (intros y Hy; apply (last_greatest _ _ Hs El); by apply elem_of_sort_by).
  assert (mx ∈ samples) as Hmx by (apply (elem_of_sort_by Z.leb); by apply last_Some_elem_of).
  assert (∃ m d, from_micros samples = Some (Some (MkLat a p50 p95 p99 mx m d))) as (m & d & ->).
  { do 2 eexists. destruct samples; [done|]. unfold from_micros. rewrite E50, E95, E99, El, Esort. reflexivity. }
  eexists. split; [done|]. split; [done|]. cbn [lat_min lat_max lat_p50 lat_p95 lat_p99].
  split; [split; [apply Hin; by left|done]|]. do 4 (split; [done|]).
  pose proof (Hmin _ (proj1 R50)). pose proof (Hmax _ (proj1 R99)). pose proof (nearest_rank_mono _ _ _ _ _ R50 R95 ltac:(lia)).
  pose proof (nearest_rank_mono _ _ _ _ _ R95 R99 ltac:(lia)). lia.
Qed.

(** ** Theorems: runs *)
Section runs.
Context (render : value → string).
Lemma last_is_Some_cons {A} (x : A) l : is_Some (last (x :: l)).
Proof. destruct (last (x :: l)) eqn:E; [eauto|by apply last_None in E]. Qed.
Lemma pct_some sorted p : sorted ≠ [] → is_Some (pct sorted p).
Proof.
  intros Hne. unfold pct. destruct (length sorted) as [|n] eqn:E; [by destruct sorted|]. apply lookup_lt_is_Some_2. lia.
Qed.
Lemma from_micros_some samples : ∃ o, from_micros samples = Some o ∧ (o = None ↔ samples = []).
Proof.
  destruct samples as [|x samples]; [by eexists|]. unfold from_micros.
  assert (sort_by Z.leb (x :: samples) ≠ []) as Hne by (intros E; apply (f_equal length) in E; by rewrite length_sort_by in E).
  destruct (pct_some _ (percent 50) Hne) as [? ->], (pct_some _ (percent 95) Hne) as [? ->], (pct_some _ (percent 99) Hne) as [? ->].
  destruct (sort_by Z.leb (x :: samples)) as [|a l]; [done|]. destruct (last_is_Some_cons a l) as [? ->]. simpl. by eexists.
Qed.
Lemma collapse_some values : values ≠ [] → is_Some (collapse_values render values).
Proof.
  intros Hne. unfold collapse_values. destruct values as [|v0 values]; [done|].
  change ((v0 :: values) !! 0%nat) with (Some v0). cbn [mbind option_bind].
  destruct (forallb _ _); [by eexists|]. destruct (mapM as_f64 (v0 :: values)) as [nums|] eqn:E; [|by eexists].
  apply length_mapM in E. cbv zeta. set (s := sort_by f64_le nums). assert (0 < length s)%nat as Hlen by (unfold s; rewrite length_sort_by, <- E; simpl; lia).
  assert (∀ i, (i < length s)%nat → is_Some (s !! i)) as Hi by apply lookup_lt_is_Some_2.
  destruct (Hi 0%nat) as [? ->]; [lia|]. destruct (Hi (length s / 2)%nat) as [? ->]; [apply Nat.div_lt; lia|].
  destruct (Hi (length s - 1)%nat) as [? ->]; [lia|]. by eexists.
Qed.
Lemma merge_some extras : is_Some (merge_extras render extras).
Proof.
  unfold merge_extras. destruct extras as [|e0 extras]; [by eexists|]. destruct (_ || _); [by eexists|].
  destruct (forallb is_object (e0 :: extras)); [|by eexists].
  match goal with |- is_Some (mbind _ (mapM ?f ?l)) => assert (is_Some (mapM f l)) as [? ->]; [|by eexists] end.
  apply mapM_is_Some_2, Forall_forall. intros k Hk. unfold btree in Hk. rewrite elem_of_sort_by, elem_of_remove_dups in Hk.
  apply list_elem_of_bind in Hk as (e & Hk & He).
  change (is_Some (v ← collapse_values render (omap (get_field k) (e0 :: extras)); Some (k, v))).
  destruct (collapse_some (omap (get_field k) (e0 :: extras))) as [v ->]; [|by eexists].
  intros Hnil. apply list_elem_of_fmap in Hk as ([k' v] & -> & Hkv). cbn [fst] in Hnil.
  destruct (find_is_Some (λ kv, String.eqb kv.1 k') (fields e) (k', v) Hkv) as [y Hy]; [apply String.eqb_refl|].
  assert (y.2 ∈ omap (get_field k') (e0 :: extras)) as Hin; [|rewrite Hnil in Hin; by apply elem_of_nil in Hin].
  apply list_elem_of_omap. exists e. split; [done|]. unfold get_field. by rewrite Hy.
Qed.

(** The successful iterations of a run. *)
Definition durations (joined : list (option Iteration)) : list Z := omap (λ o, it ← o; if it_ok it then Some (it_duration_us it) else None) joined.
Lemma collect_counts joined : ∀ lat err ex, ∃ ex',
  collect_joined joined lat err ex = (lat ++ durations joined, (err + (length joined - length (durations joined)))%nat, ex') ∧
  (length (durations joined) ≤ length joined)%nat.
Proof.
  induction joined as [|[it|] rest IH]; intros lat err ex; simpl.
  - exists ex. rewrite app_nil_r. split; [f_equal; f_equal; lia|lia].
  - unfold durations. simpl. fold (durations rest). destruct (it_ok it).
    + destruct (IH (lat ++ [it_duration_us it]) err (if is_null (it_extra it) then ex else ex ++ [it_extra it])) as (ex' & -> & Hle).
      exists ex'. rewrite <- app_assoc. simpl. split; [done|lia].
    + destruct (IH lat (S err) ex) as (ex' & -> & Hle). exists ex'. split; [f_equal; f_equal; lia|lia].
  - unfold durations. simpl. fold (durations rest). destruct (IH lat (S err) ex) as (ex' & -> & Hle).
    exists ex'. split; [f_equal; f_equal; lia|lia].
Qed.

(** A run counts every iteration once, in whatever order its tasks end.  With at
    least one task and one iteration and a warm-up that succeeds, a run always
    reports (none of its indexings panics): the errors are the iterations that failed
    or panicked, the statistics are those of the durations of the others (there are
    none exactly if all failed), and neither depends on the order. *)
Theorem run_counts_each (dispatch : nat → outcome string Iteration) (order : list nat) (wall : Z) (scenario : string)
    (concurrency iters warmup : nat) :
  (0 < concurrency)%nat → (0 < iters)%nat → warm_up dispatch scenario 0 warmup = Ok tt → order ≡ₚ seq 0 iters →
  let results := (λ i, joined_of (dispatch (warmup + i)%nat)) <$> seq 0 iters in
  ∃ r, bench_run render dispatch order wall scenario concurrency iters warmup = Ok r ∧
    (rp_errors r + length (durations results))%nat = iters ∧ from_micros (durations results) = Some (rp_latency_us r) ∧
    (rp_latency_us r = None ↔ durations results = []).
Proof.
  intros Hc Hi Hw Ho results. unfold bench_run. destruct (Nat.eqb_spec concurrency 0); [lia|]. destruct (Nat.eqb_spec iters 0); [lia|].
  rewrite Hw. simpl obind. set (joined := (λ i, joined_of (dispatch (warmup + i)%nat)) <$> order).
  assert (joined ≡ₚ results) as Hp by (unfold joined, results; by rewrite Ho).
  destruct (collect_counts joined [] 0 []) as (ex & -> & Hle). destruct (merge_some ex) as [extra ->]. cbn [mbind option_bind app].
  assert (durations joined ≡ₚ durations results) as Hs by (unfold durations; by rewrite Hp).
  unfold from_samples. destruct (from_micros_some (durations results)) as (o & Eo & Hnone).
  assert (from_micros (durations joined) = Some o) as ->.
  { rewrite <- Eo. unfold from_micros. rewrite (sort_samples_perm _ _ Hs). pose proof (Permutation_length Hs).
    by destruct (durations joined), (durations results). }
  simpl. eexists. split; [done|]. simpl. rewrite (Permutation_length Hs) in *. rewrite Hp in *.
  assert (length results = iters) as Hlen by (unfold results; by rewrite length_fmap, length_seq). split; [lia|]. done.
Qed.
End runs.

(** ** Theorems: fixtures *)
Lemma tree_byte_low i j : tree_byte i j = Z.lxor (i * 177 mod 256) (j mod 256).
Proof.
  unfold tree_byte, u64. change 255 with (Z.ones 8). rewrite Z.land_ones by lia. change (2 ^ 8) with 256.
  assert (∀ a b, Z.lxor a b mod 256 = Z.lxor (a mod 256) (b mod 256)) as Hx.
  { intros a b. change 256 with (2 ^ 8). rewrite <- !Z.land_ones by lia. apply Z.bits_inj'. intros n Hn.
    rewrite !Z.land_spec, !Z.lxor_spec, !Z.land_spec. by destruct (Z.testbit a n), (Z.testbit b n), (Z.testbit (Z.ones 8) n). }
  rewrite Hx. f_equal. pose proof (Z.div_mod (i * 2654435761) (2 ^ 64) ltac:(lia)) as Hd.
  replace (i * 2654435761 mod 2 ^ 64) with (i * 177 + (i * 10368889 - i * 2654435761 / 2 ^ 64 * 2 ^ 56) * 256) by lia.
  apply Z_mod_plus_full.
Qed.
(** The fabricated files repeat: two of them have the same contents exactly if their
    numbers agree modulo 256, so a tree has at most 256 different blobs. *)
Lemma tree_files_repeat (i i' : Z) (size : nat) :
  (0 < size)%nat → tree_file i size = tree_file i' size ↔ i mod 256 = i' mod 256.
Proof.
  intros Hs. unfold tree_file. split.
  - destruct size as [|size]; [lia|]. simpl. intros [=Hb _]. rewrite !tree_byte_low in Hb. change (0 mod 256) with 0 in Hb. rewrite !Z.lxor_0_r in Hb.
    assert (∀ a, a mod 256 = (a * 177 mod 256) * 81 mod 256) as Hinv.
    { intros a. rewrite Z.mul_mod_idemp_l by lia. replace (a * 177 * 81) with (a + a * 56 * 256) by lia. by rewrite Z_mod_plus_full. }
    by rewrite (Hinv i), (Hinv i'), Hb.
  - intros Hm. apply list_fmap_ext. intros _ j _. rewrite !tree_byte_low. f_equal.
    by rewrite <- (Z.mul_mod_idemp_l i), <- (Z.mul_mod_idemp_l i'), Hm by lia.
Qed.

(** ** A run of three iterations *)
Definition demo_dispatch (i : nat) : outcome string Iteration :=
  match i with
  | 1%nat => Ok (iteration_ok 7000000 VNull)
  | 2%nat => Err "no such cgroup"
  | _ => Ok (iteration_ok 5000000 VNull)
  end.
Lemma latency_percentiles_witness :
  ∃ s, from_micros [30; 10; 20] = Some (Some s) ∧ nearest_rank 50 [30; 10; 20] (lat_p50 s).
Proof.
  destruct (latency_percentiles [30; 10; 20] [10; 20; 30]) as (s & Hs & _ & _ & _ & H50 & _).
  - discriminate.
  - vm_compute. discriminate.
  - exact (Permutation_app_comm [10; 20] [30]).
  - exists s. exact (conj Hs H50).
Defined.
Lemma run_counts_each_witness :
  ∃ r, bench_run (λ _, "") demo_dispatch [2; 0; 1]%nat 9000000 "noop" 2 3 1 = Ok r ∧ rp_errors r = 1%nat.
Proof.
  destruct (run_counts_each (λ _, "") demo_dispatch [2; 0; 1]%nat 9000000 "noop" 2 3 1) as (r & Hr & He & _); [lia..|reflexivity| |].
  - exact (Permutation_app_comm [2%nat] [0%nat; 1%nat]).
  - exists r. split; [exact Hr|]. simpl in He. lia.
Defined.
